(** * VOD transcoder: a shallow embedding of the transcode orchestration core

    The development follows the TypeScript sources:
    - [probe.ts]      (parseVideoInfo, detectHDRType),
    - [renditions.ts] (RENDITION_LADDER, buildRenditionLadder, filterRenditions),
    - [hw-detect.ts]  (SOFTWARE_CONFIG, buildHybridConfig),
    - [transcoder.ts] (the plan synthesis, transcodeRendition, extractSubtitles,
                       extractAudio),
    - [packager.ts]   (preparePackagerInputs),
    - [App.tsx]       (startTranscoding, the handlers that start it).

    JavaScript values are modelled as the code uses them: strings are Rocq
    strings (one character per code unit below 256), integers that the code
    only prints are [Z], numbers are [JS.num], doubles with their NaN, their
    infinities, their signed zero and the rounding of every operation,
    optional fields are [option], [Map<number,string>] is a [gmap nat string].
    The external world (file system, the ffmpeg and packager processes,
    [path.join]) is an interface, [Env]; every theorem holds for all of its
    implementations.  A run is a function of the world that also gives the
    trace of what it did: the [logger.section] titles, the calls of
    [Bun.spawn], which may throw, and the callbacks fired.  The other logger
    lines and the React state setters decide nothing in a run of
    [startTranscoding] and are left out of it; the state that the callbacks
    of [App.tsx] read, and the renders that made them, are in [Hooks]. *)

From Stdlib Require Import ZArith QArith Qround Qabs String Ascii List Bool Lia.
From Stdlib Require Import Sorted.
From stdpp Require Import base option list strings pretty gmap.

Local Open Scope string_scope.
Local Open Scope Z_scope.
Local Open Scope list_scope.

(** ** Strings as JavaScript sees them *)

Module Str.

Definition is_digit (c : ascii) : bool :=
  let n := nat_of_ascii c in (48 <=? n)%nat && (n <=? 57)%nat.

(** [\s] and the white space that [parseInt] and [parseFloat] skip, for
    code units below 256: TAB, LF, VT, FF, CR, SPACE and NBSP. *)
Definition is_space (c : ascii) : bool :=
  let n := nat_of_ascii c in
  ((9 <=? n)%nat && (n <=? 13)%nat) || (n =? 32)%nat || (n =? 160)%nat.

(** The class [[\d.]] of the fps and speed patterns. *)
Definition is_digit_or_dot (c : ascii) : bool :=
  is_digit c || (nat_of_ascii c =? 46)%nat.

Fixpoint take_while (p : ascii -> bool) (s : string) : string :=
  match s with
  | String c r => if p c then String c (take_while p r) else EmptyString
  | EmptyString => EmptyString
  end.

Fixpoint drop_while (p : ascii -> bool) (s : string) : string :=
  match s with
  | String c r => if p c then drop_while p r else s
  | EmptyString => EmptyString
  end.

(** [strip_prefix p s] is [Some r] when [s = p ++ r]. *)
Fixpoint strip_prefix (p s : string) : option string :=
  match p, s with
  | EmptyString, _ => Some s
  | String a p', String b s' =>
      if Ascii.eqb a b then strip_prefix p' s' else None
  | String _ _, EmptyString => None
  end.

(** [String.prototype.includes]. *)
Fixpoint includes (needle s : string) : bool :=
  match strip_prefix needle s with
  | Some _ => true
  | None => match s with
            | String _ r => includes needle r
            | EmptyString => false
            end
  end.

(** [String.prototype.split] on a one-character separator: the result is
    never empty. *)
Fixpoint split (sep : ascii) (s : string) : list string :=
  match s with
  | EmptyString => [EmptyString]
  | String c r =>
      if Ascii.eqb c sep then EmptyString :: split sep r
      else match split sep r with
           | h :: t => String c h :: t
           | [] => [String c EmptyString]
           end
  end.

(** [s.slice(-n)]: the last [n] characters of [s] (all of it when shorter). *)
Definition slice_last (n : nat) (s : string) : string :=
  let len := String.length s in
  substring (len - n) (len - (len - n)) s.

Definition upper_char (c : ascii) : ascii :=
  let n := nat_of_ascii c in
  if (97 <=? n)%nat && (n <=? 122)%nat then ascii_of_nat (n - 32) else c.

(** [toUpperCase] on the ASCII letters. *)
Fixpoint toUpperCase (s : string) : string :=
  match s with
  | String c r => String (upper_char c) (toUpperCase r)
  | EmptyString => EmptyString
  end.

(** The value of a string of decimal digits, most significant first. *)
Fixpoint digits_value_from (acc : N) (s : string) : N :=
  match s with
  | String c r =>
      digits_value_from (10 * acc + N.of_nat (nat_of_ascii c - 48))%N r
  | EmptyString => acc
  end.

Definition digits_value (s : string) : N := digits_value_from 0%N s.

(** JavaScript truthiness of a possibly undefined string. *)
Definition truthy (o : option string) : bool :=
  match o with
  | Some (String _ _) => true
  | _ => false
  end.

(** [o || d] on strings. *)
Definition or_default (o : option string) (d : string) : string :=
  match o with
  | Some (String c r) => String c r
  | _ => d
  end.

Definition is_empty (s : string) : bool :=
  match s with EmptyString => true | _ => false end.

End Str.

(** ** JavaScript numbers

    A number is NaN, an infinity, or a finite double kept as a sign and a
    non-negative magnitude (so that [-0] is [Fin true 0]).  Every operation
    rounds its exact result to the nearest double, ties to the even mantissa,
    with overflow to an infinity and underflow through the subnormals to
    zero, as IEEE 754 binary64 does. *)

Module JS.

Inductive num : Type :=
| NaN
| Inf (neg : bool)
| Fin (neg : bool) (mag : Q).

(** The least magnitude that rounds to an infinity, and the greatest one that
    rounds to zero. *)
Definition overflow_bound : Q := inject_Z (2 ^ 1024 - 2 ^ 970).
Definition underflow_bound : Q := Qmake 1 (2 ^ 1075).

Definition pow2 (e : Z) : Q :=
  if 0 <=? e then inject_Z (2 ^ e) else Qmake 1 (Z.to_pos (2 ^ (- e))).

(** For a positive [q], the [e] with [2^e <= q < 2^(e+1)]. *)
Definition log2_floor (q : Q) : Z :=
  let e := Z.log2 (Qnum q) - Z.log2 (Zpos (Qden q)) in
  if Qle_bool (pow2 e) q then e else e - 1.

(** The integer nearest to a non-negative [q], the even one of two that are
    equally near. *)
Definition half_even (q : Q) : Z :=
  let n := Qnum q in
  let d := Zpos (Qden q) in
  let below := n / d in
  let twice_rest := 2 * (n mod d) in
  if twice_rest <? d then below
  else if d <? twice_rest then below + 1
  else if Z.even below then below
  else below + 1.

(** The double nearest to a magnitude between the two bounds: a mantissa of
    53 bits, or fewer below [2^-1022], times a power of two. *)
Definition nearest (q : Q) : Q :=
  let ulp := pow2 (Z.max (log2_floor q - 52) (-1074)) in
  Qred (inject_Z (half_even (q / ulp)) * ulp).

Definition round (neg : bool) (q : Q) : num :=
  if Qle_bool overflow_bound q then Inf neg
  else if Qle_bool q underflow_bound then Fin neg 0%Q
  else Fin neg (nearest q).

Definition of_Z (z : Z) : num := round (z <? 0) (inject_Z (Z.abs z)).

Definition isNaN (a : num) : bool :=
  match a with NaN => true | _ => false end.

Definition isFinite (a : num) : bool :=
  match a with Fin _ _ => true | _ => false end.

Definition is_zero (q : Q) : bool := Qeq_bool q 0%Q.

Definition mul (a b : num) : num :=
  match a, b with
  | NaN, _ | _, NaN => NaN
  | Inf s1, Inf s2 => Inf (xorb s1 s2)
  | Inf s1, Fin s2 m | Fin s2 m, Inf s1 =>
      if is_zero m then NaN else Inf (xorb s1 s2)
  | Fin s1 m1, Fin s2 m2 => round (xorb s1 s2) (m1 * m2)%Q
  end.

Definition div (a b : num) : num :=
  match a, b with
  | NaN, _ | _, NaN => NaN
  | Inf _, Inf _ => NaN
  | Inf s1, Fin s2 _ => Inf (xorb s1 s2)
  | Fin s1 _, Inf s2 => Fin (xorb s1 s2) 0%Q
  | Fin s1 m1, Fin s2 m2 =>
      if is_zero m2 then
        if is_zero m1 then NaN else Inf (xorb s1 s2)
      else round (xorb s1 s2) (m1 / m2)%Q
  end.

Definition opp (a : num) : num :=
  match a with
  | NaN => NaN
  | Inf s => Inf (negb s)
  | Fin s m => Fin (negb s) m
  end.

Definition add (a b : num) : num :=
  match a, b with
  | NaN, _ | _, NaN => NaN
  | Inf s1, Inf s2 => if Bool.eqb s1 s2 then Inf s1 else NaN
  | Inf s, Fin _ _ | Fin _ _, Inf s => Inf s
  | Fin s1 m1, Fin s2 m2 =>
      if Bool.eqb s1 s2 then round s1 (m1 + m2)%Q
      else if Qeq_bool m1 m2 then Fin false 0%Q
      else if Qle_bool m2 m1 then round s1 (m1 - m2)%Q
      else round s2 (m2 - m1)%Q
  end.

Definition sub (a b : num) : num := add a (opp b).

(** [Math.ceil]. *)
Definition ceil (a : num) : num :=
  match a with
  | NaN => NaN
  | Inf s => Inf s
  | Fin false m => Fin false (inject_Z (Qceiling m))
  | Fin true m => Fin true (inject_Z (Qfloor m))
  end.

Definition signed (s : bool) (m : Q) : Q := if s then (- m)%Q else m.

(** [a < b]; false as soon as one side is NaN. *)
Definition ltb (a b : num) : bool :=
  match a, b with
  | NaN, _ | _, NaN => false
  | Inf s1, Inf s2 => s1 && negb s2
  | Inf s, Fin _ _ => s
  | Fin _ _, Inf s => negb s
  | Fin s1 m1, Fin s2 m2 => negb (Qle_bool (signed s2 m2) (signed s1 m1))
  end.

(** [a > b]. *)
Definition gtb (a b : num) : bool := ltb b a.

(** [Math.min] of two numbers: NaN is contagious and [-0] is below [+0]. *)
Definition min (a b : num) : num :=
  match a, b with
  | NaN, _ | _, NaN => NaN
  | _, _ =>
      if ltb a b then a
      else if ltb b a then b
      else match a with
           | Fin true _ => a
           | _ => b
           end
  end.

(** A sign in front of a numeric literal. *)
Definition split_sign (s : string) : bool * string :=
  match s with
  | String "-" r => (true, r)
  | String "+" r => (false, r)
  | _ => (false, s)
  end.

(** [parseInt(s, 10)]. *)
Definition parseInt (s : string) : num :=
  let '(neg, body) := split_sign (Str.drop_while Str.is_space s) in
  let ds := Str.take_while Str.is_digit body in
  if Str.is_empty ds then NaN
  else round neg (inject_Z (Z.of_N (Str.digits_value ds))).

(** The exponent part of a decimal literal, when there is a well-formed one. *)
Definition exponent_of (s : string) : Z :=
  match s with
  | String c r =>
      if Ascii.eqb c "e" || Ascii.eqb c "E" then
        let '(neg, body) := split_sign r in
        let ds := Str.take_while Str.is_digit body in
        if Str.is_empty ds then 0
        else if neg then - Z.of_N (Str.digits_value ds)
             else Z.of_N (Str.digits_value ds)
      else 0
  | EmptyString => 0
  end.

(** [parseFloat(s)]: the longest prefix that is a decimal literal. *)
Definition parseFloat (s : string) : num :=
  let '(neg, body) := split_sign (Str.drop_while Str.is_space s) in
  match Str.strip_prefix "Infinity" body with
  | Some _ => Inf neg
  | None =>
      let int_part := Str.take_while Str.is_digit body in
      let after_int := Str.drop_while Str.is_digit body in
      let '(frac_part, after_frac) :=
        match after_int with
        | String "." r =>
            (Str.take_while Str.is_digit r, Str.drop_while Str.is_digit r)
        | _ => (EmptyString, after_int)
        end in
      if Str.is_empty int_part && Str.is_empty frac_part then NaN
      else
        let mantissa :=
          (inject_Z (Z.of_N (Str.digits_value (int_part +:+ frac_part)))
           / inject_Z (10 ^ Z.of_nat (String.length frac_part)))%Q in
        round neg (mantissa * Qpower (inject_Z 10) (exponent_of after_frac))%Q
  end.

End JS.

(** ** The data model of [types.ts] *)

Inductive HDRType : Type := SDR | HDR10 | HDR10Plus | DolbyVision.

Inductive AudioChannelLayout : Type := stereo | surround51 | atmos.

Inductive SubtitleType : Type := standard | forced | sdh.

Inductive HWAccelMethod : Type :=
  nvidia | qsv | amf | vaapi | videotoolbox | software.

Inductive RenditionQuality : Type := Q2160p | Q1440p | Q1080p | Q720p | Q480p.

Inductive Codec : Type := vp9 | hevc.

Inductive TranscodeMode : Type := dev | prod.

Inductive Vp9Deadline : Type := realtime | good.

#[global] Instance HDRType_eq_dec : EqDecision HDRType.
Proof. solve_decision. Defined.
#[global] Instance SubtitleType_eq_dec : EqDecision SubtitleType.
Proof. solve_decision. Defined.
#[global] Instance HWAccelMethod_eq_dec : EqDecision HWAccelMethod.
Proof. solve_decision. Defined.
#[global] Instance RenditionQuality_eq_dec : EqDecision RenditionQuality.
Proof. solve_decision. Defined.
#[global] Instance Codec_eq_dec : EqDecision Codec.
Proof. solve_decision. Defined.

Record FFprobeSideData : Type := {
  side_data_type : option string;
}.

Record FFprobeStream : Type := {
  codec_name : string;
  profile : option string;
  st_width : option Z;
  st_height : option Z;
  pix_fmt : option string;
  color_space : option string;
  color_transfer : option string;
  color_primaries : option string;
  avg_frame_rate : option string;
  bit_rate : option string;
  side_data_list : option (list FFprobeSideData);
}.

Record VideoInfo : Type := {
  v_width : Z;
  v_height : Z;
  v_codec : string;
  v_profile : string;
  pixelFormat : string;
  frameRate : JS.num;
  v_bitrate : JS.num;
  hdrType : HDRType;
  colorPrimaries : option string;
  colorTransfer : option string;
  colorSpace : option string;
}.

Record AudioStream : Type := {
  a_index : nat;
  a_codec : string;
  channelLayout : AudioChannelLayout;
  a_language : string;
  a_title : option string;
  a_isDefault : bool;
}.

Record SubtitleStream : Type := {
  s_index : nat;
  s_codec : string;
  s_language : string;
  s_title : option string;
  s_type : SubtitleType;
  s_isDefault : bool;
}.

Record MediaInfo : Type := {
  filePath : string;
  fileName : string;
  duration : JS.num;
  video : VideoInfo;
  audioStreams : list AudioStream;
  subtitleStreams : list SubtitleStream;
}.

Record HWAccelInfo : Type := {
  method : HWAccelMethod;
  displayName : string;
  hevcEncoder : string;
  vp9Encoder : string;
  hwaccelFlag : option string;
  hwaccelOutputFormat : option string;
  scaleFilter : string;
  supportsVP9HW : option bool;
  supportsHEVC10bit : option bool;
  supportsVP910bit : option bool;
}.

Record HybridHWAccel : Type := {
  hy_hevc : HWAccelInfo;
  hy_vp9 : HWAccelInfo;
}.

Record Rendition : Type := {
  quality : RenditionQuality;
  width : Z;
  height : Z;
  vp9Bitrate : Z;
  hevcBitrate : Z;
  maxrate : Z;
  bufsize : Z;
  preserveHDR : bool;
}.

Record TranscodeSettings : Type := {
  mode : TranscodeMode;
  passes : Z;
  vp9Deadline : Vp9Deadline;
  vp9CpuUsed : Z;
  hevcPreset : string;
  x265Preset : string;
}.

Record TranscodeJob : Type := {
  j_rendition : Rendition;
  j_codec : Codec;
  j_inputPath : string;
  j_outputPath : string;
  j_hwAccel : HWAccelInfo;
  j_settings : TranscodeSettings;
  j_sourceInfo : MediaInfo;
}.

Record TranscodeProgress : Type := {
  job : TranscodeJob;
  pass : Z;
  frame : JS.num;
  totalFrames : JS.num;
  fps : JS.num;
  speed : JS.num;
  percent : JS.num;
  eta : JS.num;
}.

Inductive PackagerInputType : Type := pk_video | pk_audio | pk_subtitle.

Record PackagerInput : Type := {
  pi_type : PackagerInputType;
  pi_filePath : string;
  pi_codec : string;
  pi_quality : option RenditionQuality;
  pi_language : option string;
  pi_label : option string;
  pi_subtitleType : option SubtitleType;
  pi_isDefault : option bool;
  pi_index : option nat;
}.

Record PackagerOutput : Type := {
  hlsMasterPlaylist : string;
  dashManifest : string;
  outputDir : string;
}.

(** Truthiness of an optional boolean field. *)
Definition truthy_flag (o : option bool) : bool :=
  match o with
  | Some true => true
  | _ => false
  end.

Definition quality_name (q : RenditionQuality) : string :=
  match q with
  | Q2160p => "2160p"
  | Q1440p => "1440p"
  | Q1080p => "1080p"
  | Q720p => "720p"
  | Q480p => "480p"
  end.

Definition codec_name_of (c : Codec) : string :=
  match c with vp9 => "vp9" | hevc => "hevc" end.

Definition subtitle_type_name (t : SubtitleType) : string :=
  match t with standard => "standard" | forced => "forced" | sdh => "sdh" end.

Definition layout_name (l : AudioChannelLayout) : string :=
  match l with stereo => "stereo" | surround51 => "5.1" | atmos => "atmos" end.

(** ** [renditions.ts] *)

Definition RENDITION_LADDER : list Rendition := [
  {| quality := Q2160p; width := 3840; height := 2160;
     vp9Bitrate := 13500; hevcBitrate := 11000;
     maxrate := 20000; bufsize := 27000; preserveHDR := true |};
  {| quality := Q1440p; width := 2560; height := 1440;
     vp9Bitrate := 9000; hevcBitrate := 7000;
     maxrate := 13500; bufsize := 18000; preserveHDR := true |};
  {| quality := Q1080p; width := 1920; height := 1080;
     vp9Bitrate := 6000; hevcBitrate := 5000;
     maxrate := 9000; bufsize := 12000; preserveHDR := true |};
  {| quality := Q720p; width := 1280; height := 720;
     vp9Bitrate := 3250; hevcBitrate := 2500;
     maxrate := 5000; bufsize := 6500; preserveHDR := false |};
  {| quality := Q480p; width := 854; height := 480;
     vp9Bitrate := 1500; hevcBitrate := 1150;
     maxrate := 2250; bufsize := 3000; preserveHDR := false |}
].

Definition buildRenditionLadder (sourceVideo : VideoInfo) : list Rendition :=
  List.filter
    (fun rendition =>
       (height rendition <=? v_height sourceVideo)
       || (width rendition <=? v_width sourceVideo))
    RENDITION_LADDER.

Definition filterRenditions (renditions : list Rendition)
    (selectedQualities : list RenditionQuality) : list Rendition :=
  List.filter
    (fun r => bool_decide (quality r ∈ selectedQualities))
    renditions.

(** ** [hw-detect.ts] *)

Definition SOFTWARE_CONFIG : HWAccelInfo :=
  {| method := software;
     displayName := "Software (CPU)";
     hevcEncoder := "libx265";
     vp9Encoder := "libvpx-vp9";
     hwaccelFlag := None;
     hwaccelOutputFormat := None;
     scaleFilter := "scale";
     supportsVP9HW := None;
     supportsHEVC10bit := None;
     supportsVP910bit := None |}.

Module HW_ACCEL_CONFIGS.

Definition nvidia : HWAccelInfo :=
  {| method := nvidia; displayName := "NVIDIA NVENC";
     hevcEncoder := "hevc_nvenc"; vp9Encoder := "libvpx-vp9";
     hwaccelFlag := Some "cuda"; hwaccelOutputFormat := Some "cuda";
     scaleFilter := "scale_cuda";
     supportsVP9HW := Some false; supportsHEVC10bit := Some true;
     supportsVP910bit := Some false |}.

Definition qsv : HWAccelInfo :=
  {| method := qsv; displayName := "Intel Quick Sync";
     hevcEncoder := "hevc_qsv"; vp9Encoder := "vp9_qsv";
     hwaccelFlag := Some "qsv"; hwaccelOutputFormat := Some "qsv";
     scaleFilter := "scale_qsv";
     supportsVP9HW := Some true; supportsHEVC10bit := Some true;
     supportsVP910bit := Some false |}.

Definition amf : HWAccelInfo :=
  {| method := amf; displayName := "AMD AMF";
     hevcEncoder := "hevc_amf"; vp9Encoder := "libvpx-vp9";
     hwaccelFlag := Some "auto"; hwaccelOutputFormat := Some "d3d11va";
     scaleFilter := "scale";
     supportsVP9HW := Some false; supportsHEVC10bit := Some true;
     supportsVP910bit := Some false |}.

Definition vaapi : HWAccelInfo :=
  {| method := vaapi; displayName := "VA-API (Linux)";
     hevcEncoder := "hevc_vaapi"; vp9Encoder := "vp9_vaapi";
     hwaccelFlag := Some "vaapi"; hwaccelOutputFormat := Some "vaapi";
     scaleFilter := "scale_vaapi";
     supportsVP9HW := Some true; supportsHEVC10bit := Some true;
     supportsVP910bit := Some false |}.

Definition videotoolbox : HWAccelInfo :=
  {| method := videotoolbox; displayName := "VideoToolbox (macOS)";
     hevcEncoder := "hevc_videotoolbox"; vp9Encoder := "libvpx-vp9";
     hwaccelFlag := Some "videotoolbox";
     hwaccelOutputFormat := Some "videotoolbox_vld";
     scaleFilter := "scale";
     supportsVP9HW := Some false; supportsHEVC10bit := Some true;
     supportsVP910bit := Some false |}.

End HW_ACCEL_CONFIGS.

(** [available.find((a) => a.method === m)]. *)
Definition find_method (available : list HWAccelInfo) (m : HWAccelMethod)
    : option HWAccelInfo :=
  List.find (fun a => bool_decide (method a = m)) available.

Definition hevcPriority : list HWAccelMethod :=
  [nvidia; qsv; amf; vaapi; videotoolbox; software].

Definition vp9Priority : list HWAccelMethod := [qsv; vaapi; software].

(** The first loop of [buildHybridConfig]: the first method of the priority
    list that has an entry wins. *)
Fixpoint bestHevc_loop (available : list HWAccelInfo)
    (priority : list HWAccelMethod) : option HWAccelInfo :=
  match priority with
  | [] => None
  | m :: rest =>
      match find_method available m with
      | Some accel => Some accel
      | None => bestHevc_loop available rest
      end
  end.

(** The second loop: an entry is taken only when it reports hardware VP9
    support or is the software one. *)
Fixpoint bestVP9_loop (available : list HWAccelInfo)
    (priority : list HWAccelMethod) : option HWAccelInfo :=
  match priority with
  | [] => None
  | m :: rest =>
      match find_method available m with
      | Some accel =>
          if truthy_flag (supportsVP9HW accel)
             || bool_decide (method accel = software)
          then Some accel
          else bestVP9_loop available rest
      | None => bestVP9_loop available rest
      end
  end.

Definition buildHybridConfig (available : list HWAccelInfo)
    : option HybridHWAccel :=
  let bestHevc := bestHevc_loop available hevcPriority in
  let bestVP9 := bestVP9_loop available vp9Priority in
  let bestVP9 :=
    match bestVP9 with
    | Some a => a
    | None => default SOFTWARE_CONFIG (find_method available software)
    end in
  let bestHevc := default SOFTWARE_CONFIG bestHevc in
  if bool_decide (method bestHevc ≠ method bestVP9)
     && truthy_flag (supportsVP9HW bestVP9)
  then Some {| hy_hevc := bestHevc; hy_vp9 := bestVP9 |}
  else None.

Definition createHybridDisplayInfo (hybrid : HybridHWAccel) : HWAccelInfo :=
  {| method := software;
     displayName :=
       "Hybrid: " +:+ displayName (hy_hevc hybrid) +:+ " (HEVC) + "
       +:+ displayName (hy_vp9 hybrid) +:+ " (VP9)";
     hevcEncoder := hevcEncoder (hy_hevc hybrid);
     vp9Encoder := vp9Encoder (hy_vp9 hybrid);
     hwaccelFlag := None;
     hwaccelOutputFormat := None;
     scaleFilter := "scale";
     supportsVP9HW := supportsVP9HW (hy_vp9 hybrid);
     supportsHEVC10bit := supportsHEVC10bit (hy_hevc hybrid);
     supportsVP910bit := supportsVP910bit (hy_vp9 hybrid) |}.

(** ** [probe.ts] *)

(** [sd.side_data_type === name || sd.side_data_type?.includes(part)]. *)
Definition side_data_matches (name part : string) (sd : FFprobeSideData)
    : bool :=
  match side_data_type sd with
  | Some t => String.eqb t name || Str.includes part t
  | None => false
  end.

Definition detectHDRType (stream : FFprobeStream) : HDRType :=
  let dynamic :=
    match side_data_list stream with
    | Some sds =>
        if existsb
             (side_data_matches "DOVI configuration record" "Dolby Vision")
             sds
        then Some DolbyVision
        else if existsb
                  (side_data_matches
                     "HDR Dynamic Metadata SMPTE2094-40 (HDR10+)"
                     "SMPTE2094-40")
                  sds
        then Some HDR10Plus
        else None
    | None => None
    end in
  match dynamic with
  | Some t => t
  | None =>
      let isBT2020 := bool_decide (color_primaries stream = Some "bt2020") in
      let isPQ := bool_decide (color_transfer stream = Some "smpte2084") in
      if isBT2020 && isPQ then HDR10 else SDR
  end.

(** [stream.width || 0] on an optional integer. *)
Definition int_or_zero (o : option Z) : Z := default 0 o.

(** The quotient computed by [parseVideoInfo] before the NaN guard. *)
Definition frameRateQuotient (stream : FFprobeStream) : JS.num :=
  let frameRateParts :=
    Str.split "/" (Str.or_default (avg_frame_rate stream) "24/1") in
  JS.div
    (JS.parseInt (default EmptyString (frameRateParts !! 0%nat)))
    (JS.parseInt (Str.or_default (frameRateParts !! 1%nat) "1")).

Definition parseVideoInfo (stream : FFprobeStream) : VideoInfo :=
  let frameRate := frameRateQuotient stream in
  {| v_width := int_or_zero (st_width stream);
     v_height := int_or_zero (st_height stream);
     v_codec := codec_name stream;
     v_profile := Str.or_default (profile stream) "unknown";
     pixelFormat := Str.or_default (pix_fmt stream) "unknown";
     frameRate := if JS.isNaN frameRate then JS.of_Z 24 else frameRate;
     v_bitrate := JS.parseInt (Str.or_default (bit_rate stream) "0");
     hdrType := detectHDRType stream;
     colorPrimaries := color_primaries stream;
     colorTransfer := color_transfer stream;
     colorSpace := color_space stream |}.

(** ** The outside world

    What the code observes of its environment: [path.join] (which never
    returns the empty string: an empty join is "."), the platform,
    [fs.access], [fs.mkdir], the start of an ffmpeg process, which throws
    when the program cannot be started and otherwise gives the process run to
    its end (the chunks read from its stderr, then its exit code), and the
    packager run. *)

Record ProcResult : Type := {
  pr_stderr : list string;
  pr_exit : Z;
}.

Inductive Result (A : Type) : Type :=
| Ok (a : A)
| Throw (message : string).

Arguments Ok {A} a.
Arguments Throw {A} message.

Class Env : Type := {
  World : Type;
  path_join : string -> string -> string;
  path_join_nonempty : forall dir name, path_join dir name <> EmptyString;
  win32 : bool;
  fs_access : World -> string -> bool;
  fs_mkdir : World -> string -> World * Result unit;
  spawn_ffmpeg : World -> list string -> World * Result ProcResult;
  runPackager :
    World -> list PackagerInput -> string -> bool ->
    World * Result PackagerOutput;
}.

(** What a run leaves behind, in order: the [logger.section] titles, the
    calls of [Bun.spawn], the callbacks fired and the packager call. *)
Inductive Event : Type :=
| LogSection (title : string)
| Spawn (cmd : string) (args : list string)
| OnProgress (progress : TranscodeProgress)
| OnPassComplete (pass : Z) (codec : Codec) (quality : RenditionQuality)
| OnComplete (codec : Codec) (quality : RenditionQuality) (outputPath : string)
| OnError (codec : Codec) (quality : RenditionQuality) (error : string)
| RunPackager (inputs : list PackagerInput) (outputDir : string)
    (devMode : bool).

(** Files as [startTranscoding] hands them to [preparePackagerInputs]. *)
Record VideoFile : Type := {
  vf_path : string;
  vf_quality : RenditionQuality;
  vf_codec : Codec;
}.

Record AudioFile : Type := {
  af_path : string;
  af_language : string;
  af_label : option string;
  af_index : nat;
}.

Record SubtitleFile : Type := {
  sf_path : string;
  sf_language : string;
  sf_label : option string;
  sf_type : SubtitleType;
  sf_isDefault : bool;
}.

Definition newline : string := String (ascii_of_nat 10) EmptyString.

(** ** [transcoder.ts]: the pure part *)

Definition getTranscodeSettings (mode : TranscodeMode) : TranscodeSettings :=
  match mode with
  | dev =>
      {| mode := dev; passes := 1; vp9Deadline := realtime; vp9CpuUsed := 8;
         hevcPreset := "p1"; x265Preset := "ultrafast" |}
  | prod =>
      {| mode := prod; passes := 2; vp9Deadline := good; vp9CpuUsed := 2;
         hevcPreset := "p5"; x265Preset := "medium" |}
  end.

Definition TONEMAP_FILTER_SOFTWARE : string :=
  "zscale=t=linear:npl=100,format=gbrpf32le,zscale=p=bt709,tonemap=tonemap=hable:desat=0,zscale=t=bt709:m=bt709:r=tv,format=yuv420p".

Definition is_method (hwAccel : HWAccelInfo) (m : HWAccelMethod) : bool :=
  bool_decide (method hwAccel = m).

Definition is_codec (codec c : Codec) : bool := bool_decide (codec = c).

Definition buildScaleFilter (rendition : Rendition) (hwAccel : HWAccelInfo)
    (needsTonemap : bool) (codec : Codec) : string :=
  let h := pretty (height rendition) in
  if needsTonemap then
    if is_method hwAccel nvidia && is_codec codec hevc then
      TONEMAP_FILTER_SOFTWARE +:+ ",scale=-2:" +:+ h +:+ ",hwupload_cuda"
    else if is_method hwAccel qsv && is_codec codec vp9
            && truthy_flag (supportsVP9HW hwAccel) then
      TONEMAP_FILTER_SOFTWARE +:+ ",scale=-2:" +:+ h +:+ ",format=nv12"
    else if is_method hwAccel vaapi && is_codec codec vp9
            && truthy_flag (supportsVP9HW hwAccel) then
      TONEMAP_FILTER_SOFTWARE +:+ ",scale=-2:" +:+ h
    else
      TONEMAP_FILTER_SOFTWARE +:+ ",scale=-2:" +:+ h
  else if is_method hwAccel nvidia then "scale_cuda=w=-2:h=" +:+ h
  else if is_method hwAccel qsv then "scale_qsv=w=-2:h=" +:+ h
  else if is_method hwAccel vaapi then "scale_vaapi=w=-2:h=" +:+ h
  else "scale=-2:" +:+ h.

Definition kbits (n : Z) : string := pretty n +:+ "k".

Definition deadline_name (d : Vp9Deadline) : string :=
  match d with realtime => "realtime" | good => "good" end.

Definition buildVP9Args (rendition : Rendition) (settings : TranscodeSettings)
    (pass : Z) (passLogFile : string) (hwAccel : HWAccelInfo) : list string :=
  let bitrate := vp9Bitrate rendition in
  let maxrate := maxrate rendition in
  let bufsize := bufsize rendition in
  if is_method hwAccel qsv && truthy_flag (supportsVP9HW hwAccel) then
    ["-c:v"; "vp9_qsv"; "-b:v"; kbits bitrate; "-maxrate"; kbits maxrate;
     "-bufsize"; kbits bufsize; "-g"; "120"; "-low_power"; "1"]
  else if is_method hwAccel vaapi && truthy_flag (supportsVP9HW hwAccel) then
    ["-c:v"; "vp9_vaapi"; "-b:v"; kbits bitrate; "-maxrate"; kbits maxrate;
     "-bufsize"; kbits bufsize; "-g"; "120"; "-keyint_min"; "120"]
  else
    let args :=
      ["-c:v"; "libvpx-vp9"; "-b:v"; kbits bitrate; "-g"; "120";
       "-keyint_min"; "120"; "-deadline"; deadline_name (vp9Deadline settings);
       "-cpu-used"; pretty (vp9CpuUsed settings); "-row-mt"; "1";
       "-tile-columns"; "2"; "-tile-rows"; "1"] in
    if passes settings =? 2 then
      let args := args ++ ["-pass"; pretty pass; "-passlogfile"; passLogFile] in
      if pass =? 2 then
        args ++ ["-maxrate"; kbits maxrate; "-bufsize"; kbits bufsize]
      else args
    else args ++ ["-maxrate"; kbits maxrate; "-bufsize"; kbits bufsize].

Definition is_prod (settings : TranscodeSettings) : bool :=
  match mode settings with prod => true | dev => false end.

Definition buildHEVCArgs (rendition : Rendition) (settings : TranscodeSettings)
    (hwAccel : HWAccelInfo) : list string :=
  let bitrate := hevcBitrate rendition in
  let maxrate := (bitrate * 3) / 2 in
  let bufsize := bitrate * 2 in
  let rate :=
    ["-b:v"; kbits bitrate; "-maxrate"; kbits maxrate;
     "-bufsize"; kbits bufsize; "-g"; "120"] in
  if is_method hwAccel nvidia then
    ["-c:v"; "hevc_nvenc"] ++ rate
    ++ ["-keyint_min"; "120"; "-preset"; hevcPreset settings]
    ++ (if is_prod settings then ["-multipass"; "fullres"] else [])
  else if is_method hwAccel qsv then
    ["-c:v"; "hevc_qsv"] ++ rate
    ++ ["-preset"; if is_prod settings then "medium" else "veryfast"]
  else if is_method hwAccel amf then
    ["-c:v"; "hevc_amf"] ++ rate
    ++ ["-quality"; if is_prod settings then "balanced" else "speed"]
  else if is_method hwAccel vaapi then
    ["-c:v"; "hevc_vaapi"] ++ rate
  else if is_method hwAccel videotoolbox then
    ["-c:v"; "hevc_videotoolbox"] ++ rate
  else
    ["-c:v"; "libx265"] ++ rate
    ++ ["-keyint_min"; "120"; "-preset"; x265Preset settings;
        "-x265-params"; "log-level=error"].

Definition buildHWAccelInputArgs (hwAccel : HWAccelInfo) : list string :=
  match hwaccelFlag hwAccel with
  | Some (String c r) =>
      if negb (is_method hwAccel software) then
        ["-hwaccel"; String c r]
        ++ match hwaccelOutputFormat hwAccel with
           | Some (String c' r') => ["-hwaccel_output_format"; String c' r']
           | _ => []
           end
      else []
  | _ => []
  end.

Definition getAudioBitrate (stream : AudioStream) : string :=
  match channelLayout stream with
  | atmos => "768k"
  | surround51 => "640k"
  | stereo => "128k"
  end.

Definition getAudioCodec (stream : AudioStream) : string :=
  match channelLayout stream with
  | stereo => "aac"
  | _ => "eac3"
  end.

Definition getOutputFileName (rendition : Rendition) (codec : Codec) : string :=
  let ext := match codec with vp9 => "webm" | hevc => "mp4" end in
  "video_" +:+ quality_name (quality rendition) +:+ "_"
  +:+ codec_name_of codec +:+ "." +:+ ext.

(** The tone-map decision of [transcodeRendition]. *)
Definition needsTonemap (rendition : Rendition) (codec : Codec)
    (hwAccel : HWAccelInfo) (mediaInfo : MediaInfo) : bool :=
  let notSDR := bool_decide (hdrType (video mediaInfo) ≠ SDR) in
  let needsTonemap := negb (preserveHDR rendition) && notSDR in
  if is_codec codec vp9
     && (is_method hwAccel qsv || is_method hwAccel vaapi)
     && truthy_flag (supportsVP9HW hwAccel)
     && notSDR
  then true
  else needsTonemap.

(** The decoder decision of [transcodeRendition]. *)
Definition useHwAccelInput (codec : Codec) (hwAccel : HWAccelInfo)
    (needsTonemap : bool) : bool :=
  if is_codec codec hevc && is_method hwAccel nvidia then negb needsTonemap
  else if is_codec codec hevc && negb needsTonemap then true
  else if is_codec codec vp9 then false
  else false.

Definition totalFramesOf (mediaInfo : MediaInfo) : JS.num :=
  JS.ceil (JS.mul (duration mediaInfo) (frameRate (video mediaInfo))).

(** *** Progress parsing *)

(** The leftmost match of a pattern that is tried at every position. *)
Fixpoint first_match {A : Type} (at_start : string -> option A) (s : string)
    : option A :=
  match at_start s with
  | Some m => Some m
  | None =>
      match s with
      | String _ r => first_match at_start r
      | EmptyString => None
      end
  end.

Definition nonempty_capture (s : string) : option string :=
  if Str.is_empty s then None else Some s.

(** [/frame=\s*(\d+)/] anchored at the start of [s]. *)
Definition frame_at (s : string) : option string :=
  match Str.strip_prefix "frame=" s with
  | Some r =>
      nonempty_capture
        (Str.take_while Str.is_digit (Str.drop_while Str.is_space r))
  | None => None
  end.

(** [/fps=\s*([\d.]+)/] anchored at the start of [s]. *)
Definition fps_at (s : string) : option string :=
  match Str.strip_prefix "fps=" s with
  | Some r =>
      nonempty_capture
        (Str.take_while Str.is_digit_or_dot (Str.drop_while Str.is_space r))
  | None => None
  end.

(** [/speed=\s*([\d.]+)x/] anchored at the start of [s]. *)
Definition speed_at (s : string) : option string :=
  match Str.strip_prefix "speed=" s with
  | Some r =>
      let body := Str.drop_while Str.is_space r in
      match Str.drop_while Str.is_digit_or_dot body with
      | String "x" _ =>
          nonempty_capture (Str.take_while Str.is_digit_or_dot body)
      | _ => None
      end
  | None => None
  end.

(** [stderrBuffer.match(re)]: capture group 1 of the first match. *)
Definition frameMatch (stderrBuffer : string) : option string :=
  first_match frame_at stderrBuffer.
Definition fpsMatch (stderrBuffer : string) : option string :=
  first_match fps_at stderrBuffer.
Definition speedMatch (stderrBuffer : string) : option string :=
  first_match speed_at stderrBuffer.

(** The snapshot reported for the current buffer, if any. *)
Definition progressSnapshot (job : TranscodeJob) (pass : Z)
    (totalFrames : JS.num) (stderrBuffer : string)
    : option TranscodeProgress :=
  match frameMatch stderrBuffer with
  | Some m =>
      let frame := JS.parseInt m in
      let fps :=
        match fpsMatch stderrBuffer with
        | Some f => JS.parseFloat f
        | None => JS.of_Z 0
        end in
      let speed :=
        match speedMatch stderrBuffer with
        | Some f => JS.parseFloat f
        | None => JS.of_Z 1
        end in
      let percent :=
        JS.min (JS.mul (JS.div frame totalFrames) (JS.of_Z 100))
               (JS.of_Z 100) in
      let remainingFrames := JS.sub totalFrames frame in
      let eta :=
        if JS.gtb fps (JS.of_Z 0) then JS.div remainingFrames fps
        else JS.of_Z 0 in
      Some {| job := job; pass := pass; frame := frame;
              totalFrames := totalFrames; fps := fps; speed := speed;
              percent := percent; eta := eta |}
  | None => None
  end.

(** The read loop of [runPass] over the chunks of stderr: the snapshots
    reported and the whole of stderr. *)
Fixpoint readProgress (job : TranscodeJob) (pass : Z) (totalFrames : JS.num)
    (chunks : list string) (stderrBuffer fullStderr : string)
    : list TranscodeProgress * string :=
  match chunks with
  | [] => ([], fullStderr)
  | chunk :: rest =>
      let stderrBuffer := stderrBuffer +:+ chunk in
      let fullStderr := fullStderr +:+ chunk in
      let reported :=
        match progressSnapshot job pass totalFrames stderrBuffer with
        | Some p => [p]
        | None => []
        end in
      let stderrBuffer :=
        if 10000 <? Z.of_nat (String.length stderrBuffer)
        then Str.slice_last 1000 stderrBuffer
        else stderrBuffer in
      let '(later, full) :=
        readProgress job pass totalFrames rest stderrBuffer fullStderr in
      (reported ++ later, full)
  end.

(** ** Runs: world passing, a trace, and exceptions *)

Section Run.

Context {E : Env}.

(** A computation takes the world and gives the world after it, the events
    it produced and either a value or a thrown error message. *)
Definition M (A : Type) : Type := World -> World * list Event * Result A.

Definition ret {A : Type} (a : A) : M A := fun w => (w, [], Ok a).

Definition throw {A : Type} (message : string) : M A :=
  fun w => (w, [], Throw message).

Definition bind {A B : Type} (m : M A) (k : A -> M B) : M B :=
  fun w =>
    match m w with
    | (w1, t1, Ok a) =>
        match k a w1 with
        | (w2, t2, r) => (w2, t1 ++ t2, r)
        end
    | (w1, t1, Throw e) => (w1, t1, Throw e)
    end.

(** [try { m } catch (e) { handler e }]. *)
Definition try_catch {A : Type} (m : M A) (handler : string -> M A) : M A :=
  fun w =>
    match m w with
    | (w1, t1, Ok a) => (w1, t1, Ok a)
    | (w1, t1, Throw e) =>
        match handler e w1 with
        | (w2, t2, r) => (w2, t1 ++ t2, r)
        end
    end.

Definition emit (e : Event) : M unit := fun w => (w, [e], Ok tt).

Definition emit_all (es : list Event) : M unit := fun w => (w, es, Ok tt).

(** [fs.access(p)] resolved ([true]) or rejected ([false]). *)
Definition access (p : string) : M bool := fun w => (w, [], Ok (fs_access w p)).

(** [fs.mkdir(p, { recursive: true })]. *)
Definition mkdir (p : string) : M unit :=
  fun w => let '(w1, r) := fs_mkdir w p in (w1, [], r).

(** [Bun.spawn(['ffmpeg', ...args])]: it throws, or the process is run to
    its end. *)
Definition spawn (args : list string) : M ProcResult :=
  fun w =>
    let '(w1, r) := spawn_ffmpeg w args in
    (w1, [Spawn "ffmpeg" args], r).

Definition packager (inputs : list PackagerInput) (outputDir : string)
    (devMode : bool) : M PackagerOutput :=
  fun w =>
    let '(w1, r) := runPackager w inputs outputDir devMode in
    (w1, [RunPackager inputs outputDir devMode], r).

End Run.

Notation "x <~ m ;~ k" := (bind m (fun x => k))
  (at level 20, m at level 100, k at level 200, only parsing).
Notation "m ;;~ k" := (bind m (fun _ => k))
  (at level 100, k at level 200, right associativity, only parsing).

(** ** [transcoder.ts]: the executor and the extractors *)

Section Transcoder.

Context {E : Env}.

(** [runPass] of [transcodeRendition], with the variables it closes over. *)
Definition runPass (inputPath outputPath passLogFile scaleFilter : string)
    (job : TranscodeJob) (totalFrames : JS.num) (useHwAccelInput : bool)
    (pass : Z) (isLastPass : bool) : M unit :=
  let rendition := j_rendition job in
  let codec := j_codec job in
  let hwAccel := j_hwAccel job in
  let settings := j_settings job in
  let args :=
    ["-y"]
    ++ (if useHwAccelInput then buildHWAccelInputArgs hwAccel else [])
    ++ ["-i"; inputPath]
    ++ ["-vf"; scaleFilter]
    ++ (match codec with
        | vp9 => buildVP9Args rendition settings pass passLogFile hwAccel
        | hevc => buildHEVCArgs rendition settings hwAccel
        end)
    ++ (if isLastPass then ["-an"; outputPath]
        else ["-an"; "-f"; "null"; if win32 then "NUL" else "/dev/null"]) in
  proc <~ spawn args ;~
  let '(reported, fullStderr) :=
    readProgress job pass totalFrames (pr_stderr proc)
      EmptyString EmptyString in
  emit_all (map OnProgress reported) ;;~
  if negb (pr_exit proc =? 0) then
    throw ("FFmpeg exited with code " +:+ pretty (pr_exit proc) +:+ newline
           +:+ Str.slice_last 2000 fullStderr)
  else
    emit (OnPassComplete pass codec (quality rendition)).

Definition transcodeRendition (inputPath outputDir : string)
    (rendition : Rendition) (codec : Codec) (hwAccel : HWAccelInfo)
    (mediaInfo : MediaInfo) (settings : TranscodeSettings)
    (skipIfExists : bool) : M string :=
  let ext := match codec with vp9 => "webm" | hevc => "mp4" end in
  let outputFileName :=
    "video_" +:+ quality_name (quality rendition) +:+ "_"
    +:+ codec_name_of codec +:+ "." +:+ ext in
  let outputPath := path_join outputDir outputFileName in
  let passLogFile :=
    path_join outputDir
      ("ffmpeg2pass_" +:+ quality_name (quality rendition)) in
  emit (LogSection ("Transcoding " +:+ quality_name (quality rendition)
                    +:+ " " +:+ Str.toUpperCase (codec_name_of codec))) ;;~
  found <~ (if skipIfExists then access outputPath else ret false) ;~
  if found then
    emit (OnComplete codec (quality rendition) outputPath) ;;~
    ret outputPath
  else
    let totalFrames := totalFramesOf mediaInfo in
    let needsTonemap := needsTonemap rendition codec hwAccel mediaInfo in
    let useHwAccelInput := useHwAccelInput codec hwAccel needsTonemap in
    let scaleFilter :=
      buildScaleFilter rendition hwAccel needsTonemap codec in
    let job :=
      {| j_rendition := rendition; j_codec := codec;
         j_inputPath := inputPath; j_outputPath := outputPath;
         j_hwAccel := hwAccel; j_settings := settings;
         j_sourceInfo := mediaInfo |} in
    let runPass :=
      runPass inputPath outputPath passLogFile scaleFilter job totalFrames
        useHwAccelInput in
    try_catch
      ((if is_codec codec vp9 && (passes settings =? 2) then
          runPass 1 false ;;~ runPass 2 true
        else runPass 1 true) ;;~
       emit (OnComplete codec (quality rendition) outputPath) ;;~
       ret outputPath)
      (fun errorMessage =>
         emit (OnError codec (quality rendition) errorMessage) ;;~
         throw errorMessage).

Definition subtitleSuffix (t : SubtitleType) : string :=
  match t with
  | forced => "_forced"
  | sdh => "_sdh"
  | standard => EmptyString
  end.

(** [outputFileName] in the loop of [extractSubtitles]. *)
Definition subtitleFileName (stream : SubtitleStream) : string :=
  "sub_" +:+ s_language stream +:+ subtitleSuffix (s_type stream) +:+ ".vtt".

Definition subtitleArgs (inputPath outputPath : string) (idx : nat)
    : list string :=
  ["-y"; "-i"; inputPath; "-map"; "0:s:" +:+ pretty idx;
   "-c:s"; "webvtt"; outputPath].

(** The [for] loop of [extractSubtitles], from index [idx] on. *)
Fixpoint extractSubtitles_from (inputPath outputDir : string)
    (skipIfExists : bool) (streams : list SubtitleStream) (idx : nat)
    (outputPaths : gmap nat string) : M (gmap nat string) :=
  match streams with
  | [] => ret outputPaths
  | stream :: rest =>
      let outputPath := path_join outputDir (subtitleFileName stream) in
      found <~ (if skipIfExists then access outputPath else ret false) ;~
      if found then
        extractSubtitles_from inputPath outputDir skipIfExists rest (S idx)
          (<[idx := outputPath]> outputPaths)
      else
        proc <~ spawn (subtitleArgs inputPath outputPath idx) ;~
        if pr_exit proc =? 0 then
          extractSubtitles_from inputPath outputDir skipIfExists rest (S idx)
            (<[idx := outputPath]> outputPaths)
        else
          extractSubtitles_from inputPath outputDir skipIfExists rest (S idx)
            outputPaths
  end.

Definition extractSubtitles (inputPath outputDir : string)
    (subtitleStreams : list SubtitleStream) (skipIfExists : bool)
    : M (gmap nat string) :=
  emit (LogSection "Extracting Subtitles") ;;~
  extractSubtitles_from inputPath outputDir skipIfExists subtitleStreams
    0%nat ∅.

(** [outputFileName] in the loop of [extractAudio]. *)
Definition audioFileName (stream : AudioStream) (idx : nat) : string :=
  "audio_" +:+ a_language stream +:+ "_" +:+ pretty idx +:+ ".mp4".

Definition audioArgs (inputPath outputPath : string) (stream : AudioStream)
    (idx : nat) : list string :=
  ["-y"; "-i"; inputPath; "-map"; "0:a:" +:+ pretty idx;
   "-c:a"; getAudioCodec stream; "-b:a"; getAudioBitrate stream;
   "-vn"; outputPath].

(** The [for] loop of [extractAudio], from index [idx] on. *)
Fixpoint extractAudio_from (inputPath outputDir : string)
    (skipIfExists : bool) (streams : list AudioStream) (idx : nat)
    (outputPaths : gmap nat string) : M (gmap nat string) :=
  match streams with
  | [] => ret outputPaths
  | stream :: rest =>
      let outputPath := path_join outputDir (audioFileName stream idx) in
      found <~ (if skipIfExists then access outputPath else ret false) ;~
      if found then
        extractAudio_from inputPath outputDir skipIfExists rest (S idx)
          (<[idx := outputPath]> outputPaths)
      else
        proc <~ spawn (audioArgs inputPath outputPath stream idx) ;~
        if pr_exit proc =? 0 then
          extractAudio_from inputPath outputDir skipIfExists rest (S idx)
            (<[idx := outputPath]> outputPaths)
        else
          extractAudio_from inputPath outputDir skipIfExists rest (S idx)
            outputPaths
  end.

Definition extractAudio (inputPath outputDir : string)
    (audioStreams : list AudioStream) (skipIfExists : bool)
    : M (gmap nat string) :=
  emit (LogSection "Extracting Audio") ;;~
  extractAudio_from inputPath outputDir skipIfExists audioStreams 0%nat ∅.

Definition ensureOutputDir (outputDir : string) : M unit := mkdir outputDir.

Definition ensureTmpDir (outputDir : string) : M string :=
  let tmpDir := path_join outputDir "tmp" in
  mkdir tmpDir ;;~ ret tmpDir.

End Transcoder.

(** ** [packager.ts] *)

Definition preparePackagerInputs (videoFiles : list VideoFile)
    (audioFiles : list AudioFile) (subtitleFiles : list SubtitleFile)
    : list PackagerInput :=
  map (fun video =>
         {| pi_type := pk_video; pi_filePath := vf_path video;
            pi_codec := codec_name_of (vf_codec video);
            pi_quality := Some (vf_quality video);
            pi_language := None; pi_label := None; pi_subtitleType := None;
            pi_isDefault := None; pi_index := None |})
      videoFiles
  ++ map (fun audio =>
            {| pi_type := pk_audio; pi_filePath := af_path audio;
               pi_codec := "aac"; pi_quality := None;
               pi_language := Some (af_language audio);
               pi_label := af_label audio; pi_subtitleType := None;
               pi_isDefault := None; pi_index := Some (af_index audio) |})
         audioFiles
  ++ map (fun subtitle =>
            {| pi_type := pk_subtitle; pi_filePath := sf_path subtitle;
               pi_codec := "webvtt"; pi_quality := None;
               pi_language := Some (sf_language subtitle);
               pi_label := sf_label subtitle;
               pi_subtitleType := Some (sf_type subtitle);
               pi_isDefault := Some (sf_isDefault subtitle);
               pi_index := None |})
         subtitleFiles.

(** ** [App.tsx]: the orchestrator *)

Section App.

Context {E : Env}.

(** One [try { ... transcodeRendition ... push ... } catch { }] of the
    rendition loop. *)
Definition transcodeJob (sourcePath tmpDir : string) (rendition : Rendition)
    (codec : Codec) (hwAccel : HWAccelInfo) (mediaInfo : MediaInfo)
    (settings : TranscodeSettings) (skipIfExists : bool)
    (videoFiles : list VideoFile) : M (list VideoFile) :=
  try_catch
    (path <~ transcodeRendition sourcePath tmpDir rendition codec hwAccel
                mediaInfo settings skipIfExists ;~
     if negb (Str.is_empty path) then
       ret (videoFiles
            ++ [{| vf_path := path; vf_quality := quality rendition;
                   vf_codec := codec |}])
     else ret videoFiles)
    (fun _ => ret videoFiles).

(** [for (const rendition of renditions) { VP9; HEVC }]. *)
Fixpoint transcodeRenditions (sourcePath tmpDir : string)
    (vp9HWAccel hevcHWAccel : HWAccelInfo) (mediaInfo : MediaInfo)
    (settings : TranscodeSettings) (skipIfExists : bool)
    (renditions : list Rendition) (videoFiles : list VideoFile)
    : M (list VideoFile) :=
  match renditions with
  | [] => ret videoFiles
  | rendition :: rest =>
      videoFiles <~ transcodeJob sourcePath tmpDir rendition vp9 vp9HWAccel
                       mediaInfo settings skipIfExists videoFiles ;~
      videoFiles <~ transcodeJob sourcePath tmpDir rendition hevc
                       hevcHWAccel mediaInfo settings skipIfExists
                       videoFiles ;~
      transcodeRenditions sourcePath tmpDir vp9HWAccel hevcHWAccel mediaInfo
        settings skipIfExists rest videoFiles
  end.

Definition audioFilesOf (tmpDir : string) (mediaInfo : MediaInfo)
    : list AudioFile :=
  imap (fun idx s =>
          {| af_path :=
               path_join tmpDir
                 ("audio_" +:+ a_language s +:+ "_" +:+ pretty idx
                  +:+ ".mp4");
             af_language := a_language s;
             af_label := a_title s;
             af_index := idx |})
       (audioStreams mediaInfo).

Definition subtitleFilesOf (tmpDir : string) (mediaInfo : MediaInfo)
    : list SubtitleFile :=
  map (fun s =>
         let suffix :=
           match s_type s with
           | forced => "_forced"
           | sdh => "_sdh"
           | standard => EmptyString
           end in
         {| sf_path :=
              path_join tmpDir
                ("sub_" +:+ s_language s +:+ suffix +:+ ".vtt");
            sf_language := s_language s;
            sf_label := s_title s;
            sf_type := s_type s;
            sf_isDefault := s_isDefault s |})
      (subtitleStreams mediaInfo).

(** [startTranscoding]: the body of its [try]; a thrown error is what the
    [catch] turns into the error step. *)
Definition startTranscoding (devMode : bool) (mediaInfo : MediaInfo)
    (sourcePath outputPath : string) (availableRenditions : list Rendition)
    (renditionQualities : list RenditionQuality) (hwAccel : HWAccelInfo)
    (hybrid : option HybridHWAccel) : M PackagerOutput :=
  ensureOutputDir outputPath ;;~
  tmpDir <~ ensureTmpDir outputPath ;~
  let renditions := filterRenditions availableRenditions renditionQualities in
  let settings := getTranscodeSettings (if devMode then dev else prod) in
  let skipIfExists := devMode in
  (match subtitleStreams mediaInfo with
   | _ :: _ =>
       extractSubtitles sourcePath tmpDir (subtitleStreams mediaInfo)
         skipIfExists ;;~ ret tt
   | [] => ret tt
   end) ;;~
  (match audioStreams mediaInfo with
   | _ :: _ =>
       extractAudio sourcePath tmpDir (audioStreams mediaInfo) skipIfExists
       ;;~ ret tt
   | [] => ret tt
   end) ;;~
  let vp9HWAccel := match hybrid with Some h => hy_vp9 h | None => hwAccel end in
  let hevcHWAccel :=
    match hybrid with Some h => hy_hevc h | None => hwAccel end in
  videoFiles <~ transcodeRenditions sourcePath tmpDir vp9HWAccel hevcHWAccel
                   mediaInfo settings skipIfExists renditions [] ;~
  let audioFiles := audioFilesOf tmpDir mediaInfo in
  let subtitleFiles := subtitleFilesOf tmpDir mediaInfo in
  let inputs := preparePackagerInputs videoFiles audioFiles subtitleFiles in
  packager inputs outputPath devMode.

End App.

(** ** A scripted world

    An implementation of [Env] with no state: the files that exist and the
    outcome of every process are given as functions, and [path.join] puts a
    slash between its arguments. *)

Definition join_slash (dir name : string) : string := dir +:+ "/" +:+ name.

Definition scripted (files : string -> bool)
    (ffmpeg : list string -> Result ProcResult)
    (pack : list PackagerInput -> Result PackagerOutput) : Env.
Proof.
  refine {| World := unit;
            path_join := join_slash;
            win32 := false;
            fs_access := fun _ p => files p;
            fs_mkdir := fun w _ => (w, Ok tt);
            spawn_ffmpeg := fun w args => (w, ffmpeg args);
            runPackager := fun w inputs _ _ => (w, pack inputs) |}.
  intros dir name. unfold join_slash. destruct dir; discriminate.
Defined.

Definition packaged (inputs : list PackagerInput) : Result PackagerOutput :=
  Ok {| hlsMasterPlaylist := "out/master.m3u8";
        dashManifest := "out/manifest.mpd";
        outputDir := "out" |}.

Definition exits (code : Z) : ProcResult :=
  {| pr_stderr := []; pr_exit := code |}.

(** A source video of the given size (the other fields do not matter to the
    ladder). *)
Definition sized (w h : Z) (v : VideoInfo) : VideoInfo :=
  {| v_width := w; v_height := h; v_codec := v_codec v;
     v_profile := v_profile v; pixelFormat := pixelFormat v;
     frameRate := frameRate v; v_bitrate := v_bitrate v;
     hdrType := hdrType v; colorPrimaries := colorPrimaries v;
     colorTransfer := colorTransfer v; colorSpace := colorSpace v |}.

Definition sample_video : VideoInfo :=
  {| v_width := 3840; v_height := 2160; v_codec := "hevc";
     v_profile := "Main 10"; pixelFormat := "yuv420p10le";
     frameRate := JS.of_Z 24; v_bitrate := JS.of_Z 40000000;
     hdrType := HDR10; colorPrimaries := Some "bt2020";
     colorTransfer := Some "smpte2084"; colorSpace := Some "bt2020nc" |}.

Definition sample_stream : FFprobeStream :=
  {| codec_name := "hevc"; profile := Some "Main 10";
     st_width := Some 3840; st_height := Some 2160;
     pix_fmt := Some "yuv420p10le"; color_space := Some "bt2020nc";
     color_transfer := Some "smpte2084"; color_primaries := Some "bt2020";
     avg_frame_rate := Some "24000/1001"; bit_rate := None;
     side_data_list := None |}.

(** A stream with another [avg_frame_rate]. *)
Definition with_rate (rate : option string) (s : FFprobeStream)
    : FFprobeStream :=
  {| codec_name := codec_name s; profile := profile s;
     st_width := st_width s; st_height := st_height s; pix_fmt := pix_fmt s;
     color_space := color_space s; color_transfer := color_transfer s;
     color_primaries := color_primaries s; avg_frame_rate := rate;
     bit_rate := bit_rate s; side_data_list := side_data_list s |}.

(** A stream with other side data. *)
Definition with_side_data (sds : option (list FFprobeSideData))
    (s : FFprobeStream) : FFprobeStream :=
  {| codec_name := codec_name s; profile := profile s;
     st_width := st_width s; st_height := st_height s; pix_fmt := pix_fmt s;
     color_space := color_space s; color_transfer := color_transfer s;
     color_primaries := color_primaries s;
     avg_frame_rate := avg_frame_rate s;
     bit_rate := bit_rate s; side_data_list := sds |}.

(** The 2160p tier of the catalog: HDR is to be preserved there. *)
Definition tier_2160p : Rendition :=
  {| quality := Q2160p; width := 3840; height := 2160;
     vp9Bitrate := 13500; hevcBitrate := 11000;
     maxrate := 20000; bufsize := 27000; preserveHDR := true |}.

Definition hdr10_source : MediaInfo :=
  {| filePath := "in.mkv"; fileName := "in.mkv"; duration := JS.of_Z 10;
     video := sample_video; audioStreams := []; subtitleStreams := [] |}.

(** On the hardware VP9 path: VP9 on QSV or VAAPI with hardware VP9 support. *)
Definition hw_vp9_path (codec : Codec) (hwAccel : HWAccelInfo) : Prop :=
  codec = vp9
  /\ (method hwAccel = qsv \/ method hwAccel = vaapi)
  /\ supportsVP9HW hwAccel = Some true.

(** Some side-data entry of the stream is named [name] or has [part] in its
    name. *)
Definition carries_marker (name part : string) (stream : FFprobeStream)
    : Prop :=
  exists sds sd t,
    side_data_list stream = Some sds
    /\ sd ∈ sds
    /\ side_data_type sd = Some t
    /\ (t = name \/ Str.includes part t = true).

Definition has_dolby_vision : FFprobeStream -> Prop :=
  carries_marker "DOVI configuration record" "Dolby Vision".

Definition has_hdr10_plus : FFprobeStream -> Prop :=
  carries_marker "HDR Dynamic Metadata SMPTE2094-40 (HDR10+)" "SMPTE2094-40".

(** The static HDR10 condition: BT.2020 primaries and the PQ transfer. *)
Definition is_bt2020_pq (stream : FFprobeStream) : Prop :=
  color_primaries stream = Some "bt2020"
  /\ color_transfer stream = Some "smpte2084".

Definition dovi_stream : FFprobeStream :=
  with_side_data
    (Some [{| side_data_type := Some "DOVI configuration record" |}])
    sample_stream.

(** The choice of a backend by priority, as the specification words it: the
    methods are tried in order, the entry of a method is the first one of the
    list with that method, and it is taken when it is acceptable. *)
Inductive chosen_by (accept : HWAccelInfo -> Prop)
    (available : list HWAccelInfo)
    : list HWAccelMethod -> HWAccelInfo -> Prop :=
| chosen_here (m : HWAccelMethod) (rest : list HWAccelMethod)
    (a : HWAccelInfo) :
    find_method available m = Some a -> accept a ->
    chosen_by accept available (m :: rest) a
| chosen_later (m : HWAccelMethod) (rest : list HWAccelMethod)
    (a : HWAccelInfo) :
    (forall b, find_method available m = Some b -> ~ accept b) ->
    chosen_by accept available rest a ->
    chosen_by accept available (m :: rest) a.

Definition any_backend (a : HWAccelInfo) : Prop := True.

Definition vp9_capable (a : HWAccelInfo) : Prop :=
  supportsVP9HW a = Some true \/ method a = software.

(** The number of hardware backends of a list. *)
Definition hardware_count (available : list HWAccelInfo) : nat :=
  length (List.filter (fun a => negb (is_method a software)) available).

(** No software entry of the list claims hardware VP9 support. *)
Definition software_is_plain (available : list HWAccelInfo) : Prop :=
  forall a, a ∈ available -> method a = software ->
            supportsVP9HW a <> Some true.

(** What the hardware selection shows as the hybrid option for NVIDIA and
    Quick Sync: a software-method entry that reports hardware VP9 support. *)
Definition hybrid_display : HWAccelInfo :=
  createHybridDisplayInfo
    {| hy_hevc := HW_ACCEL_CONFIGS.nvidia; hy_vp9 := HW_ACCEL_CONFIGS.qsv |}.

(** The pieces of the frame-rate string, and the two integers parsed from
    them. *)
Definition rate_parts (stream : FFprobeStream) : list string :=
  Str.split "/" (Str.or_default (avg_frame_rate stream) "24/1").

Definition rate_num (stream : FFprobeStream) : JS.num :=
  JS.parseInt (default EmptyString (rate_parts stream !! 0%nat)).

Definition rate_den (stream : FFprobeStream) : JS.num :=
  JS.parseInt (Str.or_default (rate_parts stream !! 1%nat) "1").

(** A zero of either sign. *)
Definition is_zero_num (a : JS.num) : Prop :=
  exists s m, a = JS.Fin s m /\ JS.is_zero m = true.

(** A world in which every file is there and every process would fail. *)
Definition all_there : Env :=
  scripted (fun _ => true) (fun _ => Ok (exits 1)) packaged.

(** The [logger.section] titles of a trace, in order. *)
Definition sections (trace : list Event) : list string :=
  omap (fun e => match e with LogSection t => Some t | _ => None end) trace.

(** The files announced by onComplete in a trace, in order. *)
Definition completions (trace : list Event) : list VideoFile :=
  omap (fun e =>
          match e with
          | OnComplete codec quality outputPath =>
              Some {| vf_path := outputPath; vf_quality := quality;
                      vf_codec := codec |}
          | _ => None
          end)
       trace.

(** The command lines of the processes spawned in a trace, in order. *)
Definition spawned (trace : list Event) : list (list string) :=
  omap (fun e => match e with Spawn _ args => Some args | _ => None end) trace.

(** The section title that opens the job of a rendition and a codec. *)
Definition job_title (rendition : Rendition) (codec : Codec) : string :=
  "Transcoding " +:+ quality_name (quality rendition) +:+ " "
  +:+ Str.toUpperCase (codec_name_of codec).

(** A world with no file yet, in which the software VP9 encoder fails and
    every other process succeeds. *)
Definition vp9_fails : Env :=
  scripted (fun _ => false)
    (fun args =>
       if bool_decide ("libvpx-vp9" ∈ args)
       then Ok {| pr_stderr := ["Unknown encoder 'libvpx-vp9'"];
                  pr_exit := 1 |}
       else Ok (exits 0))
    packaged.


(** The VP9 job of the 2160p tier in that world, and the loop over that
    tier. *)
Definition failed_vp9_job : unit * list Event * Result string :=
  transcodeRendition (E := vp9_fails) "in.mkv" "out/tmp" tier_2160p vp9
    SOFTWARE_CONFIG hdr10_source (getTranscodeSettings prod) false tt.

Definition vp9_failure_loop : unit * list Event * Result (list VideoFile) :=
  transcodeRenditions (E := vp9_fails) "in.mkv" "out/tmp" SOFTWARE_CONFIG
    SOFTWARE_CONFIG hdr10_source (getTranscodeSettings prod) false
    [tier_2160p] [] tt.

(** The character [c] occurs in [s]. *)
Fixpoint occurs (c : ascii) (s : string) : Prop :=
  match s with
  | EmptyString => False
  | String a r => a = c \/ occurs c r
  end.

(** Every ffmpeg process can be started. *)
Definition ffmpeg_starts {E : Env} : Prop :=
  forall w args, exists proc, (spawn_ffmpeg w args).2 = Ok proc.

(** Every extraction process starts and succeeds. *)
Definition extractions_succeed {E : Env} : Prop :=
  forall w args,
    exists proc, (spawn_ffmpeg w args).2 = Ok proc /\ pr_exit proc = 0.

(** Two subtitle tracks of the same language and type, and a world with no
    file yet in which every process succeeds. *)
Definition eng_subtitle (index : nat) : SubtitleStream :=
  {| s_index := index; s_codec := "subrip"; s_language := "eng";
     s_title := None; s_type := standard; s_isDefault := false |}.

Definition all_succeed : Env :=
  scripted (fun _ => false) (fun _ => Ok (exits 0)) packaged.

(** The inputs of the packager calls of a trace, in order. *)
Definition packager_inputs (trace : list Event) : list (list PackagerInput) :=
  omap (fun e => match e with RunPackager inputs _ _ => Some inputs | _ => None end)
       trace.

Definition is_audio_input (i : PackagerInput) : bool :=
  match pi_type i with pk_audio => true | _ => false end.

(** A world with no file yet in which the audio extraction fails and every
    other process succeeds, and a source with one stereo track. *)
Definition audio_fails : Env :=
  scripted (fun _ => false)
    (fun args =>
       if bool_decide ("-c:a" ∈ args) then Ok (exits 1) else Ok (exits 0))
    packaged.

Definition eng_audio : AudioStream :=
  {| a_index := 0; a_codec := "ac3"; channelLayout := stereo;
     a_language := "eng"; a_title := None; a_isDefault := true |}.

Definition one_audio_source : MediaInfo :=
  {| filePath := "in.mkv"; fileName := "in.mkv"; duration := JS.of_Z 10;
     video := sample_video; audioStreams := [eng_audio];
     subtitleStreams := [] |}.

Definition audio_failure_run : unit * list Event * Result PackagerOutput :=
  startTranscoding (E := audio_fails) false one_audio_source "in.mkv" "out"
    (buildRenditionLadder sample_video) [Q1080p; Q720p] SOFTWARE_CONFIG None
    tt.

(** Two progress lines of the encoder, as two chunks of its stderr. *)
Definition progress_chunk_1 : string :=
  "frame=   10 fps= 25 q=28.0 size=       1kB time=00:00:00.40 bitrate=  20.0kbits/s speed=1.01x    ".

Definition progress_chunk_2 : string :=
  "frame=   20 fps= 30 q=28.0 size=       2kB time=00:00:00.80 bitrate=  20.0kbits/s speed=1.20x    ".

Definition progress_job : TranscodeJob :=
  {| j_rendition := tier_2160p; j_codec := hevc; j_inputPath := "in.mkv";
     j_outputPath := "out/tmp/video_2160p_hevc.mp4";
     j_hwAccel := SOFTWARE_CONFIG; j_settings := getTranscodeSettings dev;
     j_sourceInfo := hdr10_source |}.

(** The snapshots reported while those two chunks are read. *)
Definition progress_reported : list TranscodeProgress :=
  (readProgress progress_job 1 (totalFramesOf hdr10_source)
     [progress_chunk_1; progress_chunk_2] EmptyString EmptyString).1.

(** A trace with no section title and no completion. *)
Definition quiet (trace : list Event) : Prop :=
  sections trace = [] /\ completions trace = [].

(** A trace of the extractors only: their section titles and the processes
    they started or failed to start. *)
Definition extraction_only (trace : list Event) : Prop :=
  Forall (fun e =>
            match e with
            | Spawn _ _ => True
            | LogSection title =>
                title = "Extracting Subtitles" \/ title = "Extracting Audio"
            | _ => False
            end)
         trace.

(** The extraction commands of the tracks of a list, in track order, the
    first track having the index [idx]. *)
Definition subtitleCommands {E : Env} (inputPath outputDir : string)
    (streams : list SubtitleStream) (idx : nat) : list (list string) :=
  imap (fun k s =>
          subtitleArgs inputPath (path_join outputDir (subtitleFileName s))
            (idx + k))
       streams.

(** What a run of the subtitle loop leaves in the trace and in the map. *)
Definition subtitle_loop_spec {E : Env} (inputPath outputDir : string)
    (skipIfExists : bool) (streams : list SubtitleStream) (idx : nat)
    (before : gmap nat string)
    (run : World * list Event * Result (gmap nat string)) : Prop :=
  let commands := subtitleCommands inputPath outputDir streams idx in
  spawned run.1.2 `sublist_of` commands
  /\ (skipIfExists = false -> spawned run.1.2 `prefix_of` commands)
  /\ (forall m, run.2 = Ok m ->
        (skipIfExists = false -> spawned run.1.2 = commands)
        /\ (forall k, (k < idx \/ idx + length streams <= k)%nat ->
                      m !! k = before !! k)
        /\ (forall k s, streams !! k = Some s ->
                        m !! (idx + k)%nat
                        = Some (path_join outputDir (subtitleFileName s))
                        \/ m !! (idx + k)%nat = before !! (idx + k)%nat))
  /\ (forall e, run.2 = Throw e ->
        exists args w0 w1,
          last (spawned run.1.2) = Some args
          /\ spawn_ffmpeg w0 args = (w1, Throw e))
  /\ (ffmpeg_starts -> exists m, run.2 = Ok m)
  /\ (extractions_succeed ->
      exists m, run.2 = Ok m
                /\ forall k s, streams !! k = Some s ->
                               m !! (idx + k)%nat
                               = Some (path_join outputDir
                                         (subtitleFileName s))).

(** A world that keeps what was written: every ffmpeg process starts, exits
    with code 0 and leaves its output file, the last argument of its command
    line. *)
Definition writing : Env.
Proof.
  refine {| World := list string;
            path_join := join_slash;
            win32 := false;
            fs_access := fun w p => bool_decide (p ∈ w);
            fs_mkdir := fun w _ => (w, Ok tt);
            spawn_ffmpeg :=
              fun w args =>
                (match last args with Some out => out :: w | None => w end,
                 Ok (exits 0));
            runPackager := fun w inputs _ _ => (w, packaged inputs) |}.
  intros dir name. unfold join_slash. destruct dir; discriminate.
Defined.

(** The extraction of two subtitle tracks of the same language and type in
    that world, with nothing written yet and skip-if-exists on. *)
Definition skipped_twin
    : list string * list Event * Result (gmap nat string) :=
  extractSubtitles (E := writing) "in.mkv" "out/tmp"
    [eng_subtitle 0; eng_subtitle 1] true [].

(** * More of the code

    The rest of the modules that the run goes through, in the order of the
    run: the rendition catalog, the detection of the backends and the choices
    offered to the user, the probe, the commands of the transcoder, the
    packager, the logger and the check of the tools. *)

(** ** More of [renditions.ts], and [RenditionSelect.tsx] *)

Definition getAllRenditions : list Rendition := RENDITION_LADDER.

Definition getRenditionByQuality (q : RenditionQuality) : option Rendition :=
  List.find (fun r => bool_decide (quality r = q)) RENDITION_LADDER.

Definition quality_label (q : RenditionQuality) : string :=
  match q with
  | Q2160p => "4K Ultra HD"
  | Q1440p => "2K QHD"
  | Q1080p => "Full HD"
  | Q720p => "HD"
  | Q480p => "SD"
  end.

Definition getRenditionLabel (rendition : Rendition) : string :=
  quality_name (quality rendition) +:+ " ("
  +:+ quality_label (quality rendition) +:+ ")".

(** [handleSubmit] of [RenditionSelect]: what is passed to [onSubmit]. *)
Definition RenditionSelect_handleSubmit (renditions : list Rendition)
    (selectedValues : list RenditionQuality) : list RenditionQuality :=
  match selectedValues with
  | [] => map quality renditions
  | _ :: _ => selectedValues
  end.

(** A tier is at least as large as another one, in both directions. *)
Definition tier_above (a b : Rendition) : Prop :=
  height b <= height a /\ width b <= width a.

(** ** More of [hw-detect.ts], [HWSelect.tsx] and the choices of [App.tsx] *)

(** [String.prototype.trim]. *)
Fixpoint trim_end (s : string) : string :=
  match s with
  | EmptyString => EmptyString
  | String c r =>
      let r' := trim_end r in
      if Str.is_space c && Str.is_empty r' then EmptyString else String c r'
  end.

Definition trim (s : string) : string :=
  trim_end (Str.drop_while Str.is_space s).

Definition line_feed : ascii := ascii_of_nat 10.

(** [getAvailableHWAccels], from the outcome of [ffmpeg -hwaccels]. *)
Definition getAvailableHWAccels (output : Result string) : list string :=
  match output with
  | Ok text =>
      List.filter (fun l => negb (Str.is_empty l))
        (map trim (drop 1 (Str.split line_feed text)))
  | Throw _ => []
  end.

(** [getAvailableEncoders], from the outcome of [ffmpeg -encoders]. *)
Definition getAvailableEncoders (output : Result string) : list string :=
  match output with
  | Ok text => map trim (Str.split line_feed text)
  | Throw _ => []
  end.

Definition hasEncoder (encoders : list string) (name : string) : bool :=
  existsb (fun line => Str.includes name line) encoders.

(** [hwAccels.includes(name)]. *)
Definition lists (hwAccels : list string) (name : string) : bool :=
  bool_decide (name ∈ hwAccels).

(** [detectHWAcceleration], from the outcomes of the two queries. *)
Definition detectHWAcceleration (hwaccelsOutput encodersOutput : Result string)
    : list HWAccelInfo :=
  let hwAccels := getAvailableHWAccels hwaccelsOutput in
  let encoders := getAvailableEncoders encodersOutput in
  (if lists hwAccels "cuda" && hasEncoder encoders "hevc_nvenc"
   then [HW_ACCEL_CONFIGS.nvidia] else [])
  ++ (if lists hwAccels "qsv" && hasEncoder encoders "hevc_qsv"
      then [HW_ACCEL_CONFIGS.qsv] else [])
  ++ (if (lists hwAccels "d3d11va" || lists hwAccels "dxva2")
         && hasEncoder encoders "hevc_amf"
      then [HW_ACCEL_CONFIGS.amf] else [])
  ++ (if lists hwAccels "vaapi" && hasEncoder encoders "hevc_vaapi"
      then [HW_ACCEL_CONFIGS.vaapi] else [])
  ++ (if lists hwAccels "videotoolbox"
         && hasEncoder encoders "hevc_videotoolbox"
      then [HW_ACCEL_CONFIGS.videotoolbox] else [])
  ++ [SOFTWARE_CONFIG].

Definition getSoftwareAccel : HWAccelInfo := SOFTWARE_CONFIG.

(** The options displayed by [handleMediaInfoContinue]: the hybrid entry
    first, when there is one. *)
Definition displayOptionsOf (hwOptions : list HWAccelInfo) : list HWAccelInfo :=
  match buildHybridConfig hwOptions with
  | Some hybrid => createHybridDisplayInfo hybrid :: hwOptions
  | None => hwOptions
  end.

(** [handleSubmit] of [HWSelect]: the entry passed to [onSubmit], if any, for
    the value of the option chosen. *)
Definition HWSelect_handleSubmit (options : list HWAccelInfo)
    (value : HWAccelMethod) : option HWAccelInfo :=
  List.find (fun o => bool_decide (method o = value)) options.

(** [s.startsWith(prefix)]. *)
Definition startsWith (prefix s : string) : bool :=
  match Str.strip_prefix prefix s with Some _ => true | None => false end.

(** [handleHWSelect]: the backend and the hybrid pair that it passes to
    [startTranscoding]. *)
Definition handleHWSelect (hybridConfig : option HybridHWAccel)
    (hw : HWAccelInfo) : HWAccelInfo * option HybridHWAccel :=
  let isHybrid := startsWith "Hybrid" (displayName hw) in
  (hw, if isHybrid then hybridConfig else None).

(** The method [m] is among the backends. *)
Definition detected (m : HWAccelMethod) (backends : list HWAccelInfo) : bool :=
  bool_decide (m ∈ map method backends).

(** The text of [ffmpeg -hwaccels] and of [ffmpeg -encoders] on a machine
    with an NVIDIA and an Intel GPU. *)
Definition hwaccels_text : string :=
  "Hardware acceleration methods:" +:+ newline +:+ "cuda" +:+ newline
  +:+ "qsv" +:+ newline +:+ "d3d11va" +:+ newline.

Definition encoders_text : string :=
  " V....D hevc_nvenc           NVIDIA NVENC hevc encoder" +:+ newline
  +:+ " V..... hevc_qsv             HEVC (Intel Quick Sync Video acceleration)"
  +:+ newline +:+ " V....D libx265              libx265 H.265 / HEVC"
  +:+ newline.

(** ** More of [probe.ts] *)

Record FFprobeDisposition : Type := {
  disp_default : Z;
  disp_forced : Z;
  disp_hearing_impaired : Z;
}.

(** A stream of the ffprobe report: its fields that the video functions read
    are the [FFprobeStream] above, the others are here. *)
Record FFprobeEntry : Type := {
  codec_type : string;
  entry_stream : FFprobeStream;
  channels : option Z;
  channel_layout : option string;
  sample_rate : option string;
  tags : option (gmap string string);
  disposition : option FFprobeDisposition;
}.

Record FFprobeFormat : Type := {
  fmt_duration : option string;
  fmt_size : option string;
}.

Record FFprobeOutput : Type := {
  format : FFprobeFormat;
  streams : list FFprobeEntry;
}.

(** The audio stream with the fields that only the display reads. *)
Record ParsedAudio : Type := {
  pa_stream : AudioStream;
  pa_channels : Z;
  pa_sampleRate : JS.num;
  pa_bitrate : JS.num;
}.

(** [stream.tags?.[key]]. *)
Definition tag (stream : FFprobeEntry) (key : string) : option string :=
  match tags stream with
  | Some t => t !! key
  | None => None
  end.

(** [stream.channel_layout?.includes(part)]. *)
Definition layout_includes (stream : FFprobeEntry) (part : string) : bool :=
  match channel_layout stream with
  | Some l => Str.includes part l
  | None => false
  end.

(** [stream.disposition?.default === 1]. *)
Definition disposition_is (field : FFprobeDisposition -> Z)
    (stream : FFprobeEntry) : bool :=
  match disposition stream with
  | Some d => field d =? 1
  | None => false
  end.

(** [stream.channels || 2]. *)
Definition channels_or_2 (stream : FFprobeEntry) : Z :=
  match channels stream with
  | Some c => if c =? 0 then 2 else c
  | None => 2
  end.

Definition parseAudioStream (stream : FFprobeEntry) (index : nat)
    : ParsedAudio :=
  let channels := channels_or_2 stream in
  let channelLayout :=
    if layout_includes stream "atmos" || layout_includes stream "7.1"
       || (6 <? channels)
    then atmos
    else if layout_includes stream "5.1" || layout_includes stream "6.0"
            || (channels =? 6)
    then surround51
    else stereo in
  {| pa_stream :=
       {| a_index := index;
          a_codec := codec_name (entry_stream stream);
          channelLayout := channelLayout;
          a_language := Str.or_default (tag stream "language") "und";
          a_title := tag stream "title";
          a_isDefault := disposition_is disp_default stream |};
     pa_channels := channels;
     pa_sampleRate := JS.parseInt (Str.or_default (sample_rate stream) "48000");
     pa_bitrate :=
       JS.parseInt (Str.or_default (bit_rate (entry_stream stream)) "0") |}.

Definition parseSubtitleStream (stream : FFprobeEntry) (index : nat)
    : SubtitleStream :=
  let type :=
    if disposition_is disp_forced stream then forced
    else if disposition_is disp_hearing_impaired stream then sdh
    else standard in
  {| s_index := index;
     s_codec := codec_name (entry_stream stream);
     s_language := Str.or_default (tag stream "language") "und";
     s_title := tag stream "title";
     s_type := type;
     s_isDefault := disposition_is disp_default stream |}.

(** What [probeMedia] asks of the outside: whether the file exists, the
    parsed report of ffprobe (or the message of the error caught), and
    [path.basename]. *)
Class ProbeEnv : Type := {
  file_exists : string -> bool;
  run_ffprobe : string -> Result FFprobeOutput;
  path_basename : string -> string;
}.

Definition of_type (t : string) (s : FFprobeEntry) : bool :=
  String.eqb (codec_type s) t.

(** [`${videoStream.height}`]. *)
Definition height_text (h : option Z) : string :=
  match h with
  | Some n => pretty n
  | None => "undefined"
  end.

(** [probeMedia]; a [ProbeError] is the [Throw] of its message.  The size of
    the file, which only the display reads, is left out with the field of
    [MediaInfo]. *)
Definition probeMedia {P : ProbeEnv} (filePath : string) : Result MediaInfo :=
  if negb (file_exists filePath) then
    Throw ("File not found: " +:+ filePath)
  else
    match run_ffprobe filePath with
    | Throw message => Throw ("Failed to probe file: " +:+ message)
    | Ok output =>
        match List.find (of_type "video") (streams output) with
        | None => Throw "No video stream found in file"
        | Some videoStream =>
            let h := st_height (entry_stream videoStream) in
            if match h with
               | Some n => (n =? 0) || (n <? 720)
               | None => true
               end
            then
              Throw ("Video resolution too low: " +:+ height_text h
                     +:+ "p. Minimum 720p required.")
            else
              Ok {| filePath := filePath;
                    fileName := path_basename filePath;
                    duration :=
                      JS.parseFloat
                        (Str.or_default (fmt_duration (format output)) "0");
                    video := parseVideoInfo (entry_stream videoStream);
                    audioStreams :=
                      imap (fun idx s => pa_stream (parseAudioStream s idx))
                        (List.filter (of_type "audio") (streams output));
                    subtitleStreams :=
                      imap (fun idx s => parseSubtitleStream s idx)
                        (List.filter (of_type "subtitle") (streams output)) |}
        end
    end.

(** The first video stream of a report. *)
Definition first_video (output : FFprobeOutput) : option FFprobeEntry :=
  List.find (of_type "video") (streams output).

(** The layout name of the stream has [part] in it. *)
Definition layout_names (stream : FFprobeEntry) (part : string) : Prop :=
  exists l, channel_layout stream = Some l /\ Str.includes part l = true.

(** A report with a 1080p video, a data stream, two audio tracks and a
    subtitle track between them, and a file system with that one file. *)
Definition entry (type : string) (s : FFprobeStream) : FFprobeEntry :=
  {| codec_type := type; entry_stream := s; channels := None;
     channel_layout := None; sample_rate := None; tags := None;
     disposition := None |}.

Definition sized_stream (w h : Z) : FFprobeStream :=
  {| codec_name := "h264"; profile := None; st_width := Some w;
     st_height := Some h; pix_fmt := None; color_space := None;
     color_transfer := None; color_primaries := None;
     avg_frame_rate := Some "25/1"; bit_rate := None;
     side_data_list := None |}.

Definition plain_stream (codec : string) : FFprobeStream :=
  {| codec_name := codec; profile := None; st_width := None;
     st_height := None; pix_fmt := None; color_space := None;
     color_transfer := None; color_primaries := None;
     avg_frame_rate := Some "0/0"; bit_rate := None;
     side_data_list := None |}.

Definition sample_report : FFprobeOutput :=
  {| format := {| fmt_duration := Some "12.5"; fmt_size := Some "1000" |};
     streams :=
       [entry "data" (plain_stream "bin_data");
        entry "video" (sized_stream 1920 1080);
        entry "audio" (plain_stream "ac3");
        entry "subtitle" (plain_stream "subrip");
        entry "audio" (plain_stream "aac")] |}.

Definition sample_probe : ProbeEnv :=
  {| file_exists := fun p => String.eqb p "in.mkv";
     run_ffprobe := fun _ => Ok sample_report;
     path_basename := fun p => p |}.

(** ** The commands and the callbacks of one job *)

(** The chunks of an output, put together. *)
Definition joined (chunks : list string) : string :=
  foldr String.append EmptyString chunks.

Section Commands.

Context {E : Env}.

(** The command line of one pass of a job: [args] of [runPass], with the
    values that [transcodeRendition] computes before it. *)
Definition jobCommand (inputPath outputDir : string) (rendition : Rendition)
    (codec : Codec) (hwAccel : HWAccelInfo) (mediaInfo : MediaInfo)
    (settings : TranscodeSettings) (pass : Z) (isLastPass : bool)
    : list string :=
  let outputPath := path_join outputDir (getOutputFileName rendition codec) in
  let passLogFile :=
    path_join outputDir
      ("ffmpeg2pass_" +:+ quality_name (quality rendition)) in
  let needsTonemap := needsTonemap rendition codec hwAccel mediaInfo in
  let useHwAccelInput := useHwAccelInput codec hwAccel needsTonemap in
  let scaleFilter := buildScaleFilter rendition hwAccel needsTonemap codec in
  ["-y"]
  ++ (if useHwAccelInput then buildHWAccelInputArgs hwAccel else [])
  ++ ["-i"; inputPath]
  ++ ["-vf"; scaleFilter]
  ++ (match codec with
      | vp9 => buildVP9Args rendition settings pass passLogFile hwAccel
      | hevc => buildHEVCArgs rendition settings hwAccel
      end)
  ++ (if isLastPass then ["-an"; outputPath]
      else ["-an"; "-f"; "null"; if win32 then "NUL" else "/dev/null"]).

(** The error of [runPass] for a process that exited with a code other than
    zero. *)
Definition passError (proc : ProcResult) : string :=
  "FFmpeg exited with code " +:+ pretty (pr_exit proc) +:+ newline
  +:+ Str.slice_last 2000 (joined (pr_stderr proc)).

(** A pass whose process was started and exited with code zero. *)
Definition passed (start : Result ProcResult) : bool :=
  match start with
  | Ok proc => pr_exit proc =? 0
  | Throw _ => false
  end.

(** What a pass of that start gives: the value, or the error of [runPass]
    for an exit code other than zero, or the error of [Bun.spawn]. *)
Definition passOutcome {A : Type} (start : Result ProcResult) (a : A)
    : Result A :=
  match start with
  | Ok proc => if pr_exit proc =? 0 then Ok a else Throw (passError proc)
  | Throw e => Throw e
  end.

(** What a pass adds to the trace after its command: for a process that was
    started, the snapshots read from stderr and, on exit code zero,
    onPassComplete. *)
Definition passEvents (job : TranscodeJob) (totalFrames : JS.num) (pass : Z)
    (start : Result ProcResult) : list Event :=
  match start with
  | Ok proc =>
      map OnProgress
        (readProgress job pass totalFrames (pr_stderr proc)
           EmptyString EmptyString).1
      ++ (if pr_exit proc =? 0
          then [OnPassComplete pass (j_codec job) (quality (j_rendition job))]
          else [])
  | Throw _ => []
  end.

(** The job record that [transcodeRendition] reports progress for. *)
Definition jobOf (inputPath outputDir : string) (rendition : Rendition)
    (codec : Codec) (hwAccel : HWAccelInfo) (mediaInfo : MediaInfo)
    (settings : TranscodeSettings) : TranscodeJob :=
  {| j_rendition := rendition; j_codec := codec; j_inputPath := inputPath;
     j_outputPath := path_join outputDir (getOutputFileName rendition codec);
     j_hwAccel := hwAccel; j_settings := settings;
     j_sourceInfo := mediaInfo |}.

(** The job runs two passes. *)
Definition twoPass (codec : Codec) (settings : TranscodeSettings) : bool :=
  is_codec codec vp9 && (passes settings =? 2).

End Commands.

(** The errors announced by onError in a trace, in order. *)
Definition errors (trace : list Event)
    : list (Codec * RenditionQuality * string) :=
  omap (fun e =>
          match e with
          | OnError codec quality error => Some (codec, quality, error)
          | _ => None
          end)
       trace.

(** The passes announced by onPassComplete in a trace, in order. *)
Definition passes_completed (trace : list Event) : list Z :=
  omap (fun e => match e with OnPassComplete pass _ _ => Some pass | _ => None end)
       trace.

(** The two callbacks that end a job. *)
Definition terminal (e : Event) : bool :=
  match e with
  | OnComplete _ _ _ | OnError _ _ _ => true
  | _ => false
  end.

(** The jobs ended in a trace, by onComplete or by onError, in order. *)
Definition endings (trace : list Event) : list (Codec * RenditionQuality) :=
  omap (fun e =>
          match e with
          | OnComplete codec quality _ | OnError codec quality _ =>
              Some (codec, quality)
          | _ => None
          end)
       trace.

(** The end of the command of a pass: the output file for the last pass, the
    null sink of the platform otherwise. *)
Definition passTarget {E : Env} (outputPath : string) (isLastPass : bool)
    : list string :=
  if isLastPass then ["-an"; outputPath]
  else ["-an"; "-f"; "null"; if win32 then "NUL" else "/dev/null"].

(** The VP9 job of the 2160p tier on Quick Sync in production mode, in a
    world in which every process succeeds. *)
Definition qsv_vp9_job : unit * list Event * Result string :=
  transcodeRendition (E := all_succeed) "in.mkv" "out/tmp" tier_2160p vp9
    HW_ACCEL_CONFIGS.qsv hdr10_source (getTranscodeSettings prod) false tt.


(** ** [packager.ts]: the stream descriptors and the run of the packager

    The world of the packager is that of the transcoder, with
    [path.basename], the three-argument [path.join], the packager process
    (which may fail to start) and [fs.rm].  Its trace records the callbacks,
    the directories made, the process spawned and the clean-up. *)

Module Packager.

Record Proc : Type := {
  stderr_chunks : list string;
  stdout : string;
  exit_code : Z;
}.

Class Sys {E : Env} : Type := {
  basename : string -> string;
  join3 : string -> string -> string -> string;
  spawn_packager : World -> list string -> string -> World * Result Proc;
  fs_rm : World -> string -> World * Result unit;
}.

Inductive Ev : Type :=
| PkStart
| PkProgress (message : string)
| PkMkdir (dir : string)
| PkSpawn (args : list string) (cwd : string)
| PkRm (dir : string)
| PkComplete (output : PackagerOutput)
| PkError (error : string).

(** [`${input.quality}`]. *)
Definition quality_text (q : option RenditionQuality) : string :=
  match q with
  | Some q => quality_name q
  | None => "undefined"
  end.

(** [baseFileName] of a video stream. *)
Definition videoBase (input : PackagerInput) : string :=
  "video_" +:+ quality_text (pi_quality input) +:+ "_" +:+ pi_codec input.

(** [baseFileName] of an audio stream. *)
Definition audioBase (input : PackagerInput) : string :=
  let safeLang := Str.or_default (pi_language input) "und" in
  match pi_index input with
  | Some index => "audio_" +:+ safeLang +:+ "_" +:+ pretty index
  | None => "audio_" +:+ safeLang
  end.

(** [subtitleType || 'standard']. *)
Definition type_or_standard (t : option SubtitleType) : SubtitleType :=
  default standard t.

(** [baseFileName] of a subtitle stream. *)
Definition subtitleBase (input : PackagerInput) (index : nat) : string :=
  let safeLang := Str.or_default (pi_language input) "und" in
  "subtitle_" +:+ safeLang +:+ "_" +:+ pretty index
  +:+ subtitleSuffix (type_or_standard (pi_subtitleType input)).

Section Descriptors.

Context {E : Env} {sys : Sys}.

(** The fields of a video descriptor, before they are joined. *)
Definition videoParts (input : PackagerInput) : list string :=
  let baseFileName := videoBase input in
  let inputFile := "tmp/" +:+ basename (pi_filePath input) in
  ["in=" +:+ inputFile;
   "stream=video";
   "init_segment=videos/" +:+ baseFileName +:+ "/" +:+ baseFileName
   +:+ "_init.mp4";
   "segment_template=videos/" +:+ baseFileName +:+ "/" +:+ baseFileName
   +:+ "_$Number$.m4s";
   "playlist_name=videos/" +:+ baseFileName +:+ ".m3u8"].

Definition buildVideoStreamArg (input : PackagerInput) : string :=
  String.concat "," (videoParts input).

(** The fields of an audio descriptor, before they are joined. *)
Definition audioParts (input : PackagerInput) : list string :=
  let safeLang := Str.or_default (pi_language input) "und" in
  let safeLabel := Str.or_default (pi_label input) (Str.toUpperCase safeLang) in
  let baseFileName := audioBase input in
  let inputFile := "tmp/" +:+ basename (pi_filePath input) in
  ["in=" +:+ inputFile;
   "stream=audio";
   "init_segment=audio/" +:+ baseFileName +:+ "/" +:+ baseFileName
   +:+ "_init.mp4";
   "segment_template=audio/" +:+ baseFileName +:+ "/" +:+ baseFileName
   +:+ "_$Number$.m4s";
   "playlist_name=audio/" +:+ baseFileName +:+ ".m3u8";
   "hls_group_id=audio";
   "hls_name=" +:+ safeLabel;
   "language=" +:+ safeLang].

Definition buildAudioStreamArg (input : PackagerInput) : string :=
  String.concat "," (audioParts input).

(** The fields of a subtitle descriptor, before they are joined. *)
Definition subtitleParts (input : PackagerInput) (index : nat) : list string :=
  let safeLang := Str.or_default (pi_language input) "und" in
  let type := type_or_standard (pi_subtitleType input) in
  let inputFile := "tmp/" +:+ basename (pi_filePath input) in
  let baseFileName := subtitleBase input index in
  ["in=" +:+ inputFile;
   "stream=text";
   "format=vtt+mp4";
   "init_segment=subtitles/" +:+ baseFileName +:+ "/" +:+ baseFileName
   +:+ "_init.mp4";
   "segment_template=subtitles/" +:+ baseFileName +:+ "/" +:+ baseFileName
   +:+ "_$Number$.m4s";
   "playlist_name=subtitles/" +:+ baseFileName +:+ ".m3u8";
   "hls_group_id=subtitles";
   "hls_name=" +:+ Str.or_default (pi_label input) (Str.toUpperCase safeLang);
   "language=" +:+ safeLang]
  ++ match type with
     | forced => ["forced_subtitle=1"; "dash_roles=forced-subtitle"]
     | sdh =>
         ["dash_roles=caption";
          "hls_characteristics=public.accessibility.describes-spoken-dialog"]
     | standard => ["dash_roles=subtitle"]
     end.

Definition buildSubtitleStreamArg (input : PackagerInput) (index : nat)
    : string :=
  String.concat "," (subtitleParts input index).

(** [buildStreamArg]; the type of an input is one of the three, so that the
    [default] case of the [switch] is never taken. *)
Definition buildStreamArg (input : PackagerInput) (subtitleIndex : option nat)
    : string :=
  match pi_type input with
  | pk_video => buildVideoStreamArg input
  | pk_audio => buildAudioStreamArg input
  | pk_subtitle => buildSubtitleStreamArg input (default 0%nat subtitleIndex)
  end.

(** The loop of [runPackager] that builds the stream arguments, with its
    counter [subtitleIdx]. *)
Fixpoint streamArgs (inputs : list PackagerInput) (subtitleIdx : nat)
    : list string :=
  match inputs with
  | [] => []
  | input :: rest =>
      match pi_type input with
      | pk_subtitle =>
          buildStreamArg input (Some subtitleIdx)
          :: streamArgs rest (S subtitleIdx)
      | _ => buildStreamArg input None :: streamArgs rest subtitleIdx
      end
  end.

Definition outputOptions : list string :=
  ["--segment_duration"; "5"; "--fragment_duration"; "5";
   "--mpd_output"; "manifest.mpd";
   "--hls_master_playlist_output"; "master.m3u8";
   "--generate_static_live_mpd"].

(** A run of the packager code: the world after it, its trace, and a value or
    a thrown error. *)
Definition P (A : Type) : Type := World -> World * list Ev * Result A.

Definition ret {A : Type} (a : A) : P A := fun w => (w, [], Ok a).

Definition throw {A : Type} (message : string) : P A :=
  fun w => (w, [], Throw message).

Definition bind {A B : Type} (m : P A) (k : A -> P B) : P B :=
  fun w =>
    match m w with
    | (w1, t1, Ok a) =>
        match k a w1 with
        | (w2, t2, r) => (w2, t1 ++ t2, r)
        end
    | (w1, t1, Throw e) => (w1, t1, Throw e)
    end.

Definition try_catch {A : Type} (m : P A) (handler : string -> P A) : P A :=
  fun w =>
    match m w with
    | (w1, t1, Ok a) => (w1, t1, Ok a)
    | (w1, t1, Throw e) =>
        match handler e w1 with
        | (w2, t2, r) => (w2, t1 ++ t2, r)
        end
    end.

Definition emit (e : Ev) : P unit := fun w => (w, [e], Ok tt).

Definition emit_all (es : list Ev) : P unit := fun w => (w, es, Ok tt).

(** [fs.mkdir(dir, { recursive: true })]. *)
Definition mkdir (dir : string) : P unit :=
  fun w => let '(w1, r) := fs_mkdir w dir in (w1, [PkMkdir dir], r).

(** [Bun.spawn(['packager', ...args], { cwd })] run to its end. *)
Definition spawn (args : list string) (cwd : string) : P Proc :=
  fun w =>
    let '(w1, r) := spawn_packager w args cwd in (w1, [PkSpawn args cwd], r).

(** [fs.rm(dir, { recursive: true, force: true })]. *)
Definition rm (dir : string) : P unit :=
  fun w => let '(w1, r) := fs_rm w dir in (w1, [PkRm dir], r).

End Descriptors.

Notation "x <@ m ;@ k" := (bind m (fun x => k))
  (at level 20, m at level 100, k at level 200, only parsing).
Notation "m ;;@ k" := (bind m (fun _ => k))
  (at level 100, k at level 200, right associativity, only parsing).

Section Run.

Context {E : Env} {sys : Sys}.

(** The first loop over the inputs: the folder of every video and audio
    stream. *)
Fixpoint mkdirStreams (outputDir : string) (inputs : list PackagerInput)
    : P unit :=
  match inputs with
  | [] => ret tt
  | input :: rest =>
      (match pi_type input with
       | pk_video => mkdir (join3 outputDir "videos" (videoBase input))
       | pk_audio => mkdir (join3 outputDir "audio" (audioBase input))
       | pk_subtitle => ret tt
       end) ;;@
      mkdirStreams outputDir rest
  end.

(** The second loop: the folder of every subtitle stream, with its counter
    [subtitleIndex]. *)
Fixpoint mkdirSubtitles (outputDir : string) (inputs : list PackagerInput)
    (subtitleIndex : nat) : P unit :=
  match inputs with
  | [] => ret tt
  | input :: rest =>
      match pi_type input with
      | pk_subtitle =>
          mkdir (join3 outputDir "subtitles" (subtitleBase input subtitleIndex))
          ;;@ mkdirSubtitles outputDir rest (S subtitleIndex)
      | _ => mkdirSubtitles outputDir rest subtitleIndex
      end
  end.

(** The messages passed to onProgress while stderr is read. *)
Definition progressMessages (chunks : list string) : list Ev :=
  omap (fun text =>
          if Str.is_empty (trim text) then None
          else Some (PkProgress (trim text)))
       chunks.

Definition exitError (proc : Proc) : string :=
  "Packager exited with code " +:+ pretty (exit_code proc) +:+ newline
  +:+ "STDOUT: " +:+ stdout proc +:+ newline
  +:+ "STDERR: " +:+ joined (stderr_chunks proc).

(** The folders made before the packager is started. *)
Definition makeFolders (outputDir : string) (inputs : list PackagerInput)
    : P unit :=
  mkdir (path_join outputDir "videos") ;;@
  mkdir (path_join outputDir "audio") ;;@
  mkdir (path_join outputDir "subtitles") ;;@
  mkdirStreams outputDir inputs ;;@
  mkdirSubtitles outputDir inputs 0.

(** The body of the [try] of [runPackager]. *)
Definition package (args : list string) (outputDir : string) (devMode : bool)
    : P PackagerOutput :=
  proc <@ spawn args outputDir ;@
  emit_all (progressMessages (stderr_chunks proc)) ;;@
  if negb (exit_code proc =? 0) then throw (exitError proc)
  else
    (if negb devMode then
       try_catch (rm (path_join outputDir "tmp")) (fun _ => ret tt)
     else ret tt) ;;@
    let output :=
      {| hlsMasterPlaylist := path_join outputDir "master.m3u8";
         dashManifest := path_join outputDir "manifest.mpd";
         outputDir := outputDir |} in
    emit (PkComplete output) ;;@
    ret output.

Definition runPackager (inputs : list PackagerInput) (outputDir : string)
    (devMode : bool) : P PackagerOutput :=
  emit PkStart ;;@
  makeFolders outputDir inputs ;;@
  let args := streamArgs inputs 0 ++ outputOptions in
  emit (PkProgress "Starting Shaka Packager...") ;;@
  try_catch (package args outputDir devMode)
    (fun errorMessage => emit (PkError errorMessage) ;;@ throw errorMessage).

End Run.

(** What a trace of the packager holds: the folders made, the processes
    spawned, the folders removed, the outputs announced by onComplete and the
    errors announced by onError, each in order. *)
Definition made (trace : list Ev) : list string :=
  omap (fun e => match e with PkMkdir dir => Some dir | _ => None end) trace.

Definition spawns (trace : list Ev) : list (list string * string) :=
  omap (fun e => match e with PkSpawn args cwd => Some (args, cwd) | _ => None end)
       trace.

Definition removed (trace : list Ev) : list string :=
  omap (fun e => match e with PkRm dir => Some dir | _ => None end) trace.

Definition completed (trace : list Ev) : list PackagerOutput :=
  omap (fun e => match e with PkComplete output => Some output | _ => None end)
       trace.

Definition failed (trace : list Ev) : list string :=
  omap (fun e => match e with PkError error => Some error | _ => None end)
       trace.

(** The folder and the base name of the output of every input, in order,
    with the subtitle counter of the two loops of [runPackager]. *)
Fixpoint outputBases (inputs : list PackagerInput) (subtitleIdx : nat)
    : list (string * string) :=
  match inputs with
  | [] => []
  | input :: rest =>
      match pi_type input with
      | pk_video => ("videos", videoBase input) :: outputBases rest subtitleIdx
      | pk_audio => ("audio", audioBase input) :: outputBases rest subtitleIdx
      | pk_subtitle =>
          ("subtitles", subtitleBase input subtitleIdx)
          :: outputBases rest (S subtitleIdx)
      end
  end.

(** The folder made for an output. *)
Definition folderPath {E : Env} {sys : Sys} (outputDir : string)
    (output : string * string) : string :=
  join3 outputDir output.1 output.2.

Definition in_subtitles (output : string * string) : bool :=
  String.eqb output.1 "subtitles".

(** The [init_segment] field of a stream descriptor. *)
Definition initSegment (output : string * string) : string :=
  "init_segment=" +:+ output.1 +:+ "/" +:+ output.2 +:+ "/" +:+ output.2
  +:+ "_init.mp4".

(** The fields of the descriptor of an input. *)
Definition partsOf {E : Env} {sys : Sys} (input : PackagerInput)
    (subtitleIndex : option nat) : list string :=
  match pi_type input with
  | pk_video => videoParts input
  | pk_audio => audioParts input
  | pk_subtitle => subtitleParts input (default 0%nat subtitleIndex)
  end.

(** The values that an input puts into its descriptor have no comma: the
    name of its file and, for a video, its codec, for an audio or subtitle
    stream, its language and its label. *)
Definition commaFree {E : Env} {sys : Sys} (input : PackagerInput) : Prop :=
  ~ occurs "," (basename (pi_filePath input))
  /\ match pi_type input with
     | pk_video => ~ occurs "," (pi_codec input)
     | _ =>
         let safeLang := Str.or_default (pi_language input) "und" in
         ~ occurs "," safeLang
         /\ ~ occurs ","
              (Str.or_default (pi_label input) (Str.toUpperCase safeLang))
     end.

(** [path.basename] on a POSIX path: the last segment that is not empty, so
    that trailing slashes are ignored and a path of slashes only has the empty
    name.  With it and the three-argument [path.join] on plain paths, a system
    in which the packager and the clean-up do as scripted. *)
Definition last_segment (p : string) : string :=
  default EmptyString
    (last (List.filter (fun s => negb (Str.is_empty s)) (Str.split "/" p))).

Definition scripted_sys (E : Env)
    (run : list string -> Result Proc) (clean : Result unit) : Sys (E := E) :=
  {| basename := last_segment;
     join3 := fun a b c => a +:+ "/" +:+ b +:+ "/" +:+ c;
     spawn_packager := fun w args _ => (w, run args);
     fs_rm := fun w _ => (w, clean) |}.

End Packager.

(** A source with one audio track and two subtitle tracks of the same
    language and type, and the rendition loop over its 2160p tier in a world
    in which every process succeeds. *)
Definition two_subtitle_source : MediaInfo :=
  {| filePath := "in.mkv"; fileName := "in.mkv"; duration := JS.of_Z 10;
     video := sample_video; audioStreams := [eng_audio];
     subtitleStreams := [eng_subtitle 0; eng_subtitle 1] |}.

Definition two_subtitle_loop : unit * list Event * Result (list VideoFile) :=
  transcodeRenditions (E := all_succeed) "in.mkv" "out/tmp" SOFTWARE_CONFIG
    SOFTWARE_CONFIG two_subtitle_source (getTranscodeSettings prod) false
    [tier_2160p] [] tt.

(** A packager that succeeds on the inputs prepared for that source. *)
Definition packager_ok : Packager.Sys (E := all_succeed) :=
  Packager.scripted_sys all_succeed
    (fun _ =>
       Ok {| Packager.stderr_chunks := ["Packaging completed successfully."];
             Packager.stdout := EmptyString;
             Packager.exit_code := 0 |})
    (Ok tt).

Definition sample_inputs : list PackagerInput :=
  preparePackagerInputs (completions two_subtitle_loop.1.2)
    (audioFilesOf (E := all_succeed) "out/tmp" two_subtitle_source)
    (subtitleFilesOf (E := all_succeed) "out/tmp" two_subtitle_source).

Definition sample_packaging
    : unit * list Packager.Ev * Result PackagerOutput :=
  Packager.runPackager (sys := packager_ok) sample_inputs "out" false tt.

(** ** [tool-checker.ts] and the tool check of [App.tsx]

    The system answers the quiet version queries (resolved or rejected) and
    runs the install command, which either cannot be started (the message of
    the error) or ends with an exit code and its stderr.  The three checks of
    [checkAllTools], started together by [Promise.all], are taken in the
    order in which they are started. *)

Module Tools.

Inductive Platform : Type := windows | macos | linux.

Inductive PackageManager : Type := winget | choco | brew | apt | unknown.

Inductive Tool : Type := ffmpeg | ffprobe | packager.

Record ToolStatus : Type := {
  has_ffmpeg : bool;
  has_ffprobe : bool;
  has_packager : bool;
}.

Record InstallCommand : Type := {
  command : string;
  args : list string;
}.

Record InstallResult : Type := {
  success : bool;
  message : string;
}.

Class Sys : Type := {
  TWorld : Type;
  process_platform : string;
  quiet : TWorld -> string -> string -> TWorld * bool;
  run_install : TWorld -> string -> list string -> TWorld * Result (Z * string);
}.

(** What a run leaves behind, in order: the quiet version queries, and the
    install commands with what became of them. *)
Inductive Ev : Type :=
| Quiet (program flag : string)
| Install (command : string) (args : list string)
    (outcome : Result (Z * string)).

Definition tool_name (tool : Tool) : string :=
  match tool with
  | ffmpeg => "ffmpeg"
  | ffprobe => "ffprobe"
  | packager => "packager"
  end.

Section Code.

Context {sys : Sys}.

Definition detectPlatform : Platform :=
  if String.eqb process_platform "win32" then windows
  else if String.eqb process_platform "darwin" then macos
  else linux.

(** A run that cannot throw: the world after it, its trace and its value. *)
Definition T (A : Type) : Type := TWorld -> TWorld * list Ev * A.

Definition ret {A : Type} (a : A) : T A := fun w => (w, [], a).

Definition bind {A B : Type} (m : T A) (k : A -> T B) : T B :=
  fun w =>
    let '(w1, t1, a) := m w in
    let '(w2, t2, b) := k a w1 in
    (w2, t1 ++ t2, b).

(** [await $`program flag`.quiet()] in a [try]: whether it resolved. *)
Definition resolves (program flag : string) : T bool :=
  fun w => let '(w1, ok) := quiet w program flag in (w1, [Quiet program flag], ok).

Definition getPackageManager : T PackageManager :=
  match detectPlatform with
  | windows =>
      bind (resolves "winget" "--version") (fun ok =>
      if ok then ret winget
      else bind (resolves "choco" "--version") (fun ok =>
           if ok then ret choco else ret unknown))
  | macos =>
      bind (resolves "brew" "--version") (fun ok =>
      if ok then ret brew else ret unknown)
  | linux =>
      bind (resolves "apt" "--version") (fun ok =>
      if ok then ret apt else ret unknown)
  end.

Definition checkTool (name : Tool) : T bool :=
  match name with
  | ffmpeg => resolves "ffmpeg" "-version"
  | ffprobe => resolves "ffprobe" "-version"
  | packager => resolves "packager" "--version"
  end.

Definition checkAllTools : T ToolStatus :=
  bind (checkTool ffmpeg) (fun ffmpeg =>
  bind (checkTool ffprobe) (fun ffprobe =>
  bind (checkTool packager) (fun packager =>
  ret {| has_ffmpeg := ffmpeg; has_ffprobe := ffprobe;
         has_packager := packager |}))).

(** ffprobe comes with ffmpeg. *)
Definition effectiveTool (tool : Tool) : Tool :=
  match tool with ffprobe => ffmpeg | _ => tool end.

Definition getInstallCommand (tool : Tool) (pkgManager : PackageManager)
    : option InstallCommand :=
  match pkgManager, effectiveTool tool with
  | winget, packager =>
      Some {| command := "winget"; args := ["install"; "Google.ShakaPackager"] |}
  | winget, _ => Some {| command := "winget"; args := ["install"; "FFmpeg"] |}
  | choco, packager =>
      Some {| command := "choco"; args := ["install"; "shaka-packager"; "-y"] |}
  | choco, _ =>
      Some {| command := "choco"; args := ["install"; "ffmpeg"; "-y"] |}
  | brew, packager =>
      Some {| command := "brew"; args := ["install"; "shaka-packager"] |}
  | brew, _ => Some {| command := "brew"; args := ["install"; "ffmpeg"] |}
  | apt, packager =>
      Some {| command := "sudo";
              args := ["apt"; "install"; "-y"; "shaka-packager"] |}
  | apt, _ =>
      Some {| command := "sudo"; args := ["apt"; "install"; "-y"; "ffmpeg"] |}
  | unknown, _ => None
  end.

Definition getManualInstallInstructions (tool : Tool) : string :=
  match effectiveTool tool, detectPlatform with
  | packager, windows =>
      "Download from https://github.com/shaka-project/shaka-packager/releases or run: winget install Google.ShakaPackager"
  | packager, macos => "Run: brew install shaka-packager"
  | packager, linux =>
      "Download from https://github.com/shaka-project/shaka-packager/releases"
  | _, windows =>
      "Download from https://ffmpeg.org/download.html or run: winget install FFmpeg"
  | _, macos => "Run: brew install ffmpeg"
  | _, linux => "Run: sudo apt install ffmpeg (or your distro equivalent)"
  end.

Definition installTool (tool : Tool) : T InstallResult :=
  bind getPackageManager (fun pkgManager =>
  match getInstallCommand tool pkgManager with
  | None =>
      ret {| success := false;
             message := "No package manager found. "
                        +:+ getManualInstallInstructions tool |}
  | Some installCmd =>
      fun w =>
        let '(w1, r) := run_install w (command installCmd) (args installCmd) in
        (w1, [Install (command installCmd) (args installCmd) r],
         match r with
         | Ok (exitCode, stderr) =>
             if exitCode =? 0 then
               {| success := true;
                  message := "Successfully installed " +:+ tool_name tool |}
             else
               {| success := false;
                  message := "Installation failed: " +:+ stderr +:+ newline
                             +:+ getManualInstallInstructions tool |}
         | Throw error =>
             {| success := false;
                message := "Installation error: " +:+ error +:+ newline
                           +:+ getManualInstallInstructions tool |}
         end)
  end).

(** *** The tool check of [App.tsx] *)

Inductive Step : Type := input_source | error_step.

(** What the tool check leaves in the state of the application. *)
Record Checked : Type := {
  step : Step;
  toolStatus : ToolStatus;
  installing : option Tool;
  installError : option string;
  error : option string;
}.

Definition missingTools (status : ToolStatus) : list Tool :=
  (if has_ffmpeg status then [] else [ffmpeg])
  ++ (if has_ffprobe status then [] else [ffprobe])
  ++ (if has_packager status then [] else [packager]).

(** The loop over the missing tools, with the status last set. *)
Fixpoint installMissing (tools : list Tool) (status : ToolStatus)
    : T Checked :=
  match tools with
  | [] =>
      ret {| step := input_source; toolStatus := status; installing := None;
             installError := None; error := None |}
  | tool :: rest =>
      bind (installTool tool) (fun result =>
      if negb (success result) then
        ret {| step := error_step; toolStatus := status;
               installing := Some tool;
               installError :=
                 Some ("Failed to install " +:+ tool_name tool +:+ ": "
                       +:+ message result +:+ newline
                       +:+ getManualInstallInstructions tool);
               error := Some ("Missing required tool: " +:+ tool_name tool) |}
      else
        bind checkAllTools (fun newStatus => installMissing rest newStatus))
  end.

(** [checkTools]: with no tool missing the loop is not entered, which is the
    loop over no tool. *)
Definition checkTools : T Checked :=
  bind checkAllTools (fun status =>
  installMissing (missingTools status) status).

End Code.

(** The install commands of a trace, in order. *)
Definition installs (trace : list Ev) : list InstallCommand :=
  omap (fun e =>
          match e with
          | Install command args _ =>
              Some {| command := command; args := args |}
          | _ => None
          end)
       trace.

(** An install command that was started and exited with code zero. *)
Definition exited_zero (outcome : Result (Z * string)) : bool :=
  match outcome with
  | Ok (exitCode, _) => exitCode =? 0
  | Throw _ => false
  end.

(** What became of the install commands of a trace, in order. *)
Definition install_outcomes (trace : list Ev) : list (Result (Z * string)) :=
  omap (fun e => match e with Install _ _ outcome => Some outcome | _ => None end)
       trace.

(** The number of status checks of a trace: each [checkAllTools] asks ffmpeg
    for its version once, and nothing else does. *)
Definition status_checks (trace : list Ev) : nat :=
  length (List.filter
            (fun e =>
               match e with
               | Quiet program flag =>
                   String.eqb program "ffmpeg" && String.eqb flag "-version"
               | _ => false
               end)
            trace).

(** Every install command starts and exits with code zero. *)
Definition installs_exit_zero {sys : Sys} : Prop :=
  forall w command args,
    exists stderr, (run_install w command args).2 = Ok (0, stderr).

(** A package manager answers, whatever the state of the machine. *)
Definition manager_found {sys : Sys} : Prop :=
  forall w, (getPackageManager w).2 <> unknown.

(** A Linux machine with apt on which nothing is installed and every install
    command exits with code zero without installing anything. *)
Definition bare_linux : Sys :=
  {| TWorld := unit;
     process_platform := "linux";
     quiet := fun w program _ => (w, String.eqb program "apt");
     run_install := fun w _ _ => (w, Ok (0, EmptyString)) |}.

(** A Linux machine with apt that keeps the list of what was installed:
    ffmpeg installs and brings ffprobe, and the package of the packager is
    not found. *)
Definition no_packager_package : Sys :=
  {| TWorld := list string;
     process_platform := "linux";
     quiet :=
       fun w program _ =>
         (w, String.eqb program "apt"
             || bool_decide (program ∈ w));
     run_install :=
       fun w _ args =>
         if bool_decide ("ffmpeg" ∈ args)
         then ("ffmpeg" :: "ffprobe" :: w, Ok (0, EmptyString))
         else (w, Ok (100, "E: Unable to locate package shaka-packager")) |}.

End Tools.

(** ** [logger.ts]

    The logger is its three fields; the system gives the time as an ISO
    string and appends a line to a file, which may fail.  The trace of a run
    is the list of the appends attempted. *)

Module Log.

Record Logger : Type := {
  logPath : option string;
  buffer : list string;
  enabled : bool;
}.

Class Sys : Type := {
  LWorld : Type;
  toISOString : LWorld -> LWorld * string;
  appendFile : LWorld -> string -> string -> LWorld * Result unit;
  join : string -> string -> string;
  join_nonempty : forall dir name, join dir name <> EmptyString;
}.

Record Append : Type := {
  file : string;
  line : string;
}.

(** [new Logger(enabled)]. *)
Definition new (enabled : bool) : Logger :=
  {| logPath := None; buffer := []; enabled := enabled |}.

(** [s.replace(/[:.]/g, '-')]. *)
Fixpoint dashed (s : string) : string :=
  match s with
  | EmptyString => EmptyString
  | String c r =>
      String (if Ascii.eqb c ":" || Ascii.eqb c "." then "-"%char else c)
        (dashed r)
  end.

(** ['='.repeat(n)]. *)
Fixpoint rule (n : nat) : string :=
  match n with
  | O => EmptyString
  | S n => String "=" (rule n)
  end.

Section Code.

Context {sys : Sys}.

Definition L (A : Type) : Type := LWorld -> LWorld * list Append * A.

Definition ret {A : Type} (a : A) : L A := fun w => (w, [], a).

Definition bind {A B : Type} (m : L A) (k : A -> L B) : L B :=
  fun w =>
    let '(w1, t1, a) := m w in
    let '(w2, t2, b) := k a w1 in
    (w2, t1 ++ t2, b).

Definition now : L string :=
  fun w => let '(w1, t) := toISOString w in (w1, [], t).

(** [fs.appendFile] in a [try] whose [catch] is empty. *)
Definition append (path text : string) : L unit :=
  fun w =>
    let '(w1, _) := appendFile w path text in
    (w1, [{| file := path; line := text |}], tt).

Definition write (l : Logger) (message : string) : L Logger :=
  if negb (enabled l) then ret l
  else
    bind now (fun timestamp =>
    let text := "[" +:+ timestamp +:+ "] " +:+ message +:+ newline in
    let l :=
      {| logPath := logPath l; buffer := buffer l ++ [text];
         enabled := enabled l |} in
    match logPath l with
    | Some (String c r) => bind (append (String c r) text) (fun _ => ret l)
    | _ => ret l
    end).

Definition init (l : Logger) (outputDir : string) : L Logger :=
  if negb (enabled l) then ret l
  else
    bind now (fun iso =>
    let timestamp := dashed iso in
    let l :=
      {| logPath :=
           Some (join outputDir ("transcode_" +:+ timestamp +:+ ".log"));
         buffer := buffer l; enabled := enabled l |} in
    bind (write l "=== VOD Transcoder Log ===") (fun l =>
    bind now (fun started =>
    bind (write l ("Started: " +:+ started)) (fun l =>
    bind (write l ("Output Directory: " +:+ outputDir)) (fun l =>
    bind (write l "Mode: DEV") (fun l =>
    write l (rule 50 +:+ newline))))))).

Definition info (l : Logger) (message : string) : L Logger :=
  write l ("[INFO] " +:+ message).

Definition warn (l : Logger) (message : string) : L Logger :=
  write l ("[WARN] " +:+ message).

Definition error (l : Logger) (message : string) : L Logger :=
  write l ("[ERROR] " +:+ message).

Definition debug (l : Logger) (message : string) : L Logger :=
  write l ("[DEBUG] " +:+ message).

Definition logCommand (l : Logger) (command : string) (args : list string)
    : L Logger :=
  write l ("[CMD] " +:+ command +:+ " " +:+ String.concat " " args).

Definition logOutput (l : Logger) (output : string) : L Logger :=
  if negb (Str.is_empty (trim output))
  then write l ("[OUTPUT]" +:+ newline +:+ output)
  else ret l.

Definition section (l : Logger) (title : string) : L Logger :=
  write l (newline +:+ "--- " +:+ title +:+ " ---").

Definition close (l : Logger) : L Logger :=
  if negb (enabled l) then ret l
  else
    bind (write l (newline +:+ rule 50)) (fun l =>
    bind now (fun finished =>
    bind (write l ("Finished: " +:+ finished)) (fun l =>
    write l "=== End of Log ==="))).

(** The calls that the application makes on a logger. *)
Inductive Call : Type :=
| Init (outputDir : string)
| Write (message : string)
| Info (message : string)
| Warn (message : string)
| Error (message : string)
| Debug (message : string)
| LogCommand (command : string) (args : list string)
| LogOutput (output : string)
| Section' (title : string)
| Close.

Definition call (l : Logger) (c : Call) : L Logger :=
  match c with
  | Init outputDir => init l outputDir
  | Write message => write l message
  | Info message => info l message
  | Warn message => warn l message
  | Error message => error l message
  | Debug message => debug l message
  | LogCommand command args => logCommand l command args
  | LogOutput output => logOutput l output
  | Section' title => section l title
  | Close => close l
  end.

(** A sequence of calls, one after the other. *)
Fixpoint calls (l : Logger) (cs : list Call) : L Logger :=
  match cs with
  | [] => ret l
  | c :: rest => bind (call l c) (fun l => calls l rest)
  end.

End Code.

(** The global logger: [createLogger] and [getLogger] on the variable
    [globalLogger]; each gives the logger and the variable after it. *)
Definition createLogger (devMode : bool) : Logger * option Logger :=
  (new devMode, Some (new devMode)).

Definition getLogger (globalLogger : option Logger) : Logger * option Logger :=
  match globalLogger with
  | Some l => (l, Some l)
  | None => (new false, Some (new false))
  end.

(** The log file of a logger is a file of some output folder, named after a
    time with dashes for its colons and dots. *)
Definition wellNamed {sys : Sys} (path : string) : Prop :=
  exists outputDir stamp,
    path = join outputDir ("transcode_" +:+ stamp +:+ ".log")
    /\ ~ occurs ":" stamp /\ ~ occurs "." stamp.

(** What a run of calls did to a logger: it kept the switch, added lines to
    the buffer, and appended to files; [mirrored] says that the lines
    appended are all the lines added, each to a well-named file or to the
    file that the logger had. *)
Definition opened (l : Logger) : bool := Str.truthy (logPath l).

Definition grown {sys : Sys} (l l' : Logger) (trace : list Append)
    (added : list string) : Prop :=
  enabled l' = enabled l
  /\ buffer l' = buffer l ++ added
  /\ (opened l = true -> opened l' = true)
  /\ (logPath l' = logPath l
      \/ exists path, logPath l' = Some path /\ wellNamed path)
  /\ forall a, a ∈ trace -> Some (file a) = logPath l \/ wellNamed (file a).

(** A run is tracked when, besides, the lines appended are the lines added
    since the logger has had a file: all of them if it had one before. *)
Definition tracked {sys : Sys} (l : Logger)
    (run : LWorld * list Append * Logger) : Prop :=
  exists added,
    grown l run.2 run.1.2 added
    /\ (opened l = true -> map line run.1.2 = added)
    /\ (opened run.2 = false -> run.1.2 = [])
    /\ map line run.1.2 `suffix_of` added.

(** A clock that stands still and a disk that is full. *)
Definition full_disk : Sys.
Proof.
  refine {| LWorld := unit;
            toISOString := fun w => (w, "2024-01-01T00:00:00.000Z");
            appendFile := fun w _ _ => (w, Throw "ENOSPC");
            join := fun dir name => dir +:+ "/" +:+ name |}.
  intros dir name. destruct dir; discriminate.
Defined.

End Log.

(** *** The lines of the calls

    What the calls on an enabled logger write: the messages of each call, a
    line being a message after the time read for it, in brackets, and before
    a line feed.  [init] and [close] put one more time, read before, in a
    message of theirs. *)

Module LogLines.

Definition messagesOf (c : Log.Call) (time : string) : list string :=
  match c with
  | Log.Init outputDir =>
      ["=== VOD Transcoder Log ==="; "Started: " +:+ time;
       "Output Directory: " +:+ outputDir; "Mode: DEV";
       Log.rule 50 +:+ newline]
  | Log.Write message => [message]
  | Log.Info message => ["[INFO] " +:+ message]
  | Log.Warn message => ["[WARN] " +:+ message]
  | Log.Error message => ["[ERROR] " +:+ message]
  | Log.Debug message => ["[DEBUG] " +:+ message]
  | Log.LogCommand command args =>
      ["[CMD] " +:+ command +:+ " " +:+ String.concat " " args]
  | Log.LogOutput output =>
      if negb (Str.is_empty (trim output))
      then ["[OUTPUT]" +:+ newline +:+ output] else []
  | Log.Section' title => [newline +:+ "--- " +:+ title +:+ " ---"]
  | Log.Close =>
      [newline +:+ Log.rule 50; "Finished: " +:+ time; "=== End of Log ==="]
  end.

Definition rendered (timestamp message : string) : string :=
  "[" +:+ timestamp +:+ "] " +:+ message +:+ newline.

(** The lines of one call, for some times. *)
Definition linesOf (c : Log.Call) (lines : list string) : Prop :=
  exists time,
    Forall2 (fun line message => exists timestamp,
                                   line = rendered timestamp message)
      lines (messagesOf c time).

Definition is_init (c : Log.Call) : bool :=
  match c with Log.Init _ => true | _ => false end.

(** The number of calls before the first [init]. *)
Fixpoint first_init (cs : list Log.Call) : nat :=
  match cs with
  | [] => 0
  | c :: rest => if is_init c then 0 else S (first_init rest)
  end.

(** What a call on an enabled logger does: the lines of the call go to the
    buffer, and to the file that the logger has after the call if it has
    one. *)
Definition call_spec {sys : Log.Sys} (l : Log.Logger) (c : Log.Call)
    (run : Log.LWorld * list Log.Append * Log.Logger) : Prop :=
  exists lines,
    linesOf c lines
    /\ Log.buffer run.2 = Log.buffer l ++ lines
    /\ Log.enabled run.2 = true
    /\ Log.opened run.2 = Log.opened l || is_init c
    /\ (is_init c = false -> Log.logPath run.2 = Log.logPath l)
    /\ run.1.2
       = (if Log.opened run.2
          then map (fun line =>
                      {| Log.file := default EmptyString (Log.logPath run.2);
                         Log.line := line |})
                   lines
          else []).

(** A clock that ticks and a disk that takes every line. *)
Definition ticking : Log.Sys.
Proof.
  refine {| Log.LWorld := nat;
            Log.toISOString := fun w => (S w, "T" +:+ pretty w);
            Log.appendFile := fun w _ _ => (w, Ok tt);
            Log.join := fun dir name => dir +:+ "/" +:+ name |}.
  intros dir name. destruct dir; discriminate.
Defined.

End LogLines.

(** ** [App.tsx]: the callbacks and the renders that made them

    The handlers of the component are made by [useCallback]: a render keeps
    the function of the render before it unless one of the listed
    dependencies has changed, and a function reads the state, and the other
    callbacks, of the render that made it.  [startTranscoding] lists all that
    it reads; the three handlers that call it do not list it.  The model
    keeps the state that the callbacks read and the setters of that state;
    the renders caused by the other setters change no dependency and are
    left out.  The property [devMode] never changes and is a parameter. *)

Module Hooks.

(** A state value that is an object or an array: [Object.is] compares the
    references. *)
Record Obj (A : Type) : Type := Allocated { ref : nat; held : A }.

Arguments Allocated {A} ref held.
Arguments ref {A} o.
Arguments held {A} o.

Record State : Type := {
  sourcePath : string;
  outputPath : string;
  mediaInfo : option (Obj MediaInfo);
  availableRenditions : Obj (list Rendition);
  selectedRenditions : Obj (list RenditionQuality);
  availableHWAccel : Obj (list HWAccelInfo);
  hybridConfig : option (Obj HybridHWAccel);
  (** the number of references handed out *)
  allocated : nat;
}.

(** The [useState] calls: the state of the first render. *)
Definition initial : State :=
  {| sourcePath := EmptyString; outputPath := EmptyString;
     mediaInfo := None;
     availableRenditions := Allocated 0 [];
     selectedRenditions := Allocated 1 [];
     availableHWAccel := Allocated 2 [];
     hybridConfig := None;
     allocated := 3 |}.

(** The calls of the setters.  What the handlers pass to a setter of an
    object or an array is a new one: the result of [probeMedia], of
    [buildRenditionLadder], of [map], of a spread, of [buildHybridConfig],
    the selection made on the screen. *)
Inductive Update : Type :=
| setSourcePath (p : string)
| setOutputPath (p : string)
| setMediaInfo (info : MediaInfo)
| setAvailableRenditions (renditions : list Rendition)
| setSelectedRenditions (selected : list RenditionQuality)
| setAvailableHWAccel (options : list HWAccelInfo)
| setHybridConfig (hybrid : option HybridHWAccel).

Definition apply (u : Update) (s : State) : State :=
  match u with
  | setSourcePath p =>
      {| sourcePath := p; outputPath := outputPath s;
         mediaInfo := mediaInfo s;
         availableRenditions := availableRenditions s;
         selectedRenditions := selectedRenditions s;
         availableHWAccel := availableHWAccel s;
         hybridConfig := hybridConfig s; allocated := allocated s |}
  | setOutputPath p =>
      {| sourcePath := sourcePath s; outputPath := p;
         mediaInfo := mediaInfo s;
         availableRenditions := availableRenditions s;
         selectedRenditions := selectedRenditions s;
         availableHWAccel := availableHWAccel s;
         hybridConfig := hybridConfig s; allocated := allocated s |}
  | setMediaInfo info =>
      {| sourcePath := sourcePath s; outputPath := outputPath s;
         mediaInfo := Some (Allocated (allocated s) info);
         availableRenditions := availableRenditions s;
         selectedRenditions := selectedRenditions s;
         availableHWAccel := availableHWAccel s;
         hybridConfig := hybridConfig s; allocated := S (allocated s) |}
  | setAvailableRenditions renditions =>
      {| sourcePath := sourcePath s; outputPath := outputPath s;
         mediaInfo := mediaInfo s;
         availableRenditions := Allocated (allocated s) renditions;
         selectedRenditions := selectedRenditions s;
         availableHWAccel := availableHWAccel s;
         hybridConfig := hybridConfig s; allocated := S (allocated s) |}
  | setSelectedRenditions selected =>
      {| sourcePath := sourcePath s; outputPath := outputPath s;
         mediaInfo := mediaInfo s;
         availableRenditions := availableRenditions s;
         selectedRenditions := Allocated (allocated s) selected;
         availableHWAccel := availableHWAccel s;
         hybridConfig := hybridConfig s; allocated := S (allocated s) |}
  | setAvailableHWAccel options =>
      {| sourcePath := sourcePath s; outputPath := outputPath s;
         mediaInfo := mediaInfo s;
         availableRenditions := availableRenditions s;
         selectedRenditions := selectedRenditions s;
         availableHWAccel := Allocated (allocated s) options;
         hybridConfig := hybridConfig s; allocated := S (allocated s) |}
  | setHybridConfig hybrid =>
      {| sourcePath := sourcePath s; outputPath := outputPath s;
         mediaInfo := mediaInfo s;
         availableRenditions := availableRenditions s;
         selectedRenditions := selectedRenditions s;
         availableHWAccel := availableHWAccel s;
         hybridConfig := Allocated (allocated s) <$> hybrid; allocated := S (allocated s) |}
  end.

(** The states after each update of a list. *)
Fixpoint states (s : State) (updates : list Update) : list State :=
  match updates with
  | [] => []
  | u :: rest => apply u s :: states (apply u s) rest
  end.

(** The updates that a handler makes without waiting in between are a
    segment.  React renders after every update of a segment, or once after
    the segment (batching), depending on the root and on the caller of the
    handler. *)
Inductive Flush : Type := each_update | each_segment.

Definition flushed (f : Flush) (s : State) (segment : list Update)
    : list State :=
  match f with
  | each_update => states s segment
  | each_segment =>
      match segment with
      | [] => []
      | _ :: _ => [foldl (fun s u => apply u s) s segment]
      end
  end.

Fixpoint renders (f : Flush) (s : State) (segments : list (list Update))
    : list State :=
  match segments with
  | [] => []
  | segment :: rest =>
      let shown := flushed f s segment in
      shown ++ renders f (default s (last shown)) rest
  end.

(** The renders of the component, the first one included, after the
    segments of the handlers that ran. *)
Definition history (f : Flush) (segments : list (list Update)) : list State :=
  initial :: renders f initial segments.

(** What [Object.is] compares. *)
Inductive Identity : Type :=
| null
| object (ref : nat)
| text (s : string).

Definition same (a b : Identity) : bool :=
  match a, b with
  | null, null => true
  | object m, object n => Nat.eqb m n
  | text s, text t => String.eqb s t
  | _, _ => false
  end.

Definition of_sourcePath (s : State) : Identity := text (sourcePath s).
Definition of_outputPath (s : State) : Identity := text (outputPath s).
Definition of_mediaInfo (s : State) : Identity :=
  match mediaInfo s with Some o => object (ref o) | None => null end.
Definition of_availableRenditions (s : State) : Identity :=
  object (ref (availableRenditions s)).
Definition of_selectedRenditions (s : State) : Identity :=
  object (ref (selectedRenditions s)).
Definition of_availableHWAccel (s : State) : Identity :=
  object (ref (availableHWAccel s)).
Definition of_hybridConfig (s : State) : Identity :=
  match hybridConfig s with Some o => object (ref o) | None => null end.

(** The dependency lists, without [devMode]. *)
Definition deps_handleMediaInfoContinue : list (State -> Identity) :=
  [of_mediaInfo].
Definition deps_handleRenditionSelect : list (State -> Identity) :=
  [of_availableHWAccel; of_hybridConfig].
Definition deps_handleHWSelect : list (State -> Identity) :=
  [of_selectedRenditions; of_hybridConfig].
Definition deps_startTranscoding : list (State -> Identity) :=
  [of_mediaInfo; of_outputPath; of_sourcePath; of_availableRenditions].

Definition unchanged (deps : list (State -> Identity)) (prev cur : State)
    : bool :=
  forallb (fun dep => same (dep prev) (dep cur)) deps.

(** [useCallback] over the renders that follow render [n]: the number of the
    render that made the function held by the last render, [made] being the
    one that made the function held by render [n]. *)
Fixpoint useCallback (deps : list (State -> Identity)) (n : nat)
    (prev : State) (made : nat) (later : list State) : nat :=
  match later with
  | [] => made
  | r :: rest =>
      useCallback deps (S n) r (if unchanged deps prev r then made else S n)
        rest
  end.

Definition madeAt (deps : list (State -> Identity)) (shown : list State)
    : nat :=
  match shown with
  | [] => 0
  | first :: later => useCallback deps 0 first 0 later
  end.

(** What a handler held by the last render closes over: the state of the
    render that made it, and the [startTranscoding] of that render, which
    reads the state of the render that made it in turn. *)
Record Closure : Type := {
  own : State;
  transcoding : State;
}.

Definition closure (deps : list (State -> Identity)) (shown : list State)
    : Closure :=
  let n := madeAt deps shown in
  {| own := default initial (shown !! n);
     transcoding :=
       default initial
         (shown !! madeAt deps_startTranscoding (take (S n) shown)) |}.

(** What a handler ends with: it returns at once, sets the step of a
    selection, calls the [startTranscoding] made by the render [from] (with
    no backend when the list of the options is empty), or throws a
    TypeError. *)
Inductive Next : Type :=
| Returned
| SelectingRenditions
| SelectingHW
| Started (from : State) (renditionQualities : list RenditionQuality)
    (hwAccel : option HWAccelInfo) (hybrid : option HybridHWAccel)
| TypeError.

(** [handleSourceSubmit], for the outcome of [probeMedia] and the default
    output path made of the input path. *)
Definition handleSourceSubmit (inputPath : string) (probe : Result MediaInfo)
    (defaultOutput : string) : list (list Update) :=
  match probe with
  | Ok info =>
      [[setMediaInfo info; setSourcePath inputPath;
        setOutputPath defaultOutput]]
  | Throw _ => []
  end.

Definition handleOutputSubmit (outPath : string) : list (list Update) :=
  [[setOutputPath outPath]].

(** [handleMediaInfoContinue], for the outputs of the two detection
    commands: the updates before and after the detection, and the end. *)
Definition handleMediaInfoContinue (devMode : bool) (c : Closure)
    (hwaccelsOutput encodersOutput : Result string)
    : list (list Update) * Next :=
  match mediaInfo (own c) with
  | None => ([], Returned)
  | Some info =>
      let renditions := buildRenditionLadder (video (held info)) in
      let hwOptions := detectHWAcceleration hwaccelsOutput encodersOutput in
      let hybrid := buildHybridConfig hwOptions in
      let displayOptions :=
        match hybrid with
        | Some h => createHybridDisplayInfo h :: hwOptions
        | None => hwOptions
        end in
      ([[setAvailableRenditions renditions;
         setSelectedRenditions (map quality renditions)];
        [setHybridConfig hybrid; setAvailableHWAccel displayOptions]],
       if devMode then SelectingRenditions
       else if (1 <? length displayOptions)%nat then SelectingHW
       else
         match hybrid, displayOptions !! 0%nat with
         | Some h, Some hw =>
             Started (transcoding c) (map quality renditions) (Some hw)
               (if startsWith "Hybrid" (displayName hw) then Some h else None)
         | Some _, None => TypeError
         | None, first =>
             Started (transcoding c) (map quality renditions) first None
         end)
  end.

Definition handleRenditionSelect (c : Closure)
    (selected : list RenditionQuality) : list (list Update) * Next :=
  ([[setSelectedRenditions selected]],
   if (1 <? length (held (availableHWAccel (own c))))%nat then SelectingHW
   else
     match held (availableHWAccel (own c)) !! 0%nat with
     | Some hw =>
         Started (transcoding c) selected (Some hw)
           (if startsWith "Hybrid" (displayName hw)
            then held <$> hybridConfig (own c) else None)
     | None => TypeError
     end).

Definition handleHWSelect (c : Closure) (hw : HWAccelInfo) : Next :=
  Started (transcoding c) (held (selectedRenditions (own c))) (Some hw)
    (if startsWith "Hybrid" (displayName hw)
     then held <$> hybridConfig (own c) else None).

End Hooks.

(** The run of a [startTranscoding] that a render made: it returns at once
    when that render had no media information, and reading the name of a
    backend that is not there throws, after the directories are made, into
    its [catch]. *)
Definition startTranscoding_made {E : Env} (devMode : bool)
    (from : Hooks.State) (renditionQualities : list RenditionQuality)
    (hwAccel : option HWAccelInfo) (hybrid : option HybridHWAccel)
    : M (option PackagerOutput) :=
  match Hooks.mediaInfo from with
  | None => ret None
  | Some info =>
      match hwAccel with
      | Some hw =>
          output <~ startTranscoding devMode (Hooks.held info)
                      (Hooks.sourcePath from) (Hooks.outputPath from)
                      (Hooks.held (Hooks.availableRenditions from))
                      renditionQualities hw hybrid ;~
          ret (Some output)
      | None =>
          ensureOutputDir (Hooks.outputPath from) ;;~
          ensureTmpDir (Hooks.outputPath from) ;;~
          throw "TypeError"
      end
  end.

(** The renders up to the screen of the media information, for a source
    that was probed. *)
Definition to_media_info (f : Hooks.Flush) (info : MediaInfo)
    (inputPath defaultOutput outPath : string) : list Hooks.State :=
  Hooks.history f
    (Hooks.handleSourceSubmit inputPath (Ok info) defaultOutput
     ++ Hooks.handleOutputSubmit outPath).

(** A render with the state that the screens have gathered: the probed
    source, the submitted paths and the ladder of the source. *)
Definition gathered (s : Hooks.State) (info : MediaInfo)
    (sourcePath outputPath : string) : Prop :=
  Hooks.held <$> Hooks.mediaInfo s = Some info
  /\ Hooks.sourcePath s = sourcePath
  /\ Hooks.outputPath s = outputPath
  /\ Hooks.held (Hooks.availableRenditions s)
     = buildRenditionLadder (video info).

Definition extraction_title (title : string) : Prop :=
  title = "Extracting Subtitles" \/ title = "Extracting Audio".

(** ** The runs of the audio extractor *)

(** The extraction commands of the audio tracks of a list, in track order,
    the first track having the index [idx]. *)
Definition audioCommands {E : Env} (inputPath outputDir : string)
    (streams : list AudioStream) (idx : nat) : list (list string) :=
  imap (fun k s =>
          audioArgs inputPath
            (path_join outputDir (audioFileName s (idx + k))) s (idx + k))
       streams.

(** What a run of the audio loop leaves in the trace and in the map. *)
Definition audio_loop_spec {E : Env} (inputPath outputDir : string)
    (skipIfExists : bool) (streams : list AudioStream) (idx : nat)
    (before : gmap nat string)
    (run : World * list Event * Result (gmap nat string)) : Prop :=
  let commands := audioCommands inputPath outputDir streams idx in
  spawned run.1.2 `sublist_of` commands
  /\ (skipIfExists = false -> spawned run.1.2 `prefix_of` commands)
  /\ (forall m, run.2 = Ok m ->
        (skipIfExists = false -> spawned run.1.2 = commands)
        /\ (forall k, (k < idx \/ idx + length streams <= k)%nat ->
                      m !! k = before !! k)
        /\ (forall k s, streams !! k = Some s ->
                        m !! (idx + k)%nat
                        = Some (path_join outputDir
                                  (audioFileName s (idx + k)))
                        \/ m !! (idx + k)%nat = before !! (idx + k)%nat))
  /\ (forall e, run.2 = Throw e ->
        exists args w0 w1,
          last (spawned run.1.2) = Some args
          /\ spawn_ffmpeg w0 args = (w1, Throw e))
  /\ (ffmpeg_starts -> exists m, run.2 = Ok m).

(** A world with no file and no ffmpeg: every start of a process throws. *)
Definition no_ffmpeg : Env :=
  scripted (fun _ => false)
    (fun _ => Throw "Executable not found in $PATH: ffmpeg") packaged.

(** * Properties *)

(** ** The rendition ladder *)

Lemma RENDITION_LADDER_qualities :
  map quality RENDITION_LADDER = [Q2160p; Q1440p; Q1080p; Q720p; Q480p].
Proof. reflexivity. Qed.

(** C5: [buildRenditionLadder] keeps exactly the catalog tiers whose height or
    whose width does not exceed the source's, in catalog order; a 3840x2160
    source gets all five tiers, a 1920x1080 source gets 1080p, 720p and 480p,
    and a 960x480 source gets 480p alone. *)
Theorem buildRenditionLadder_keeps_fitting_tiers :
  (forall v r,
      r ∈ buildRenditionLadder v <->
      r ∈ RENDITION_LADDER
      /\ (height r <= v_height v \/ width r <= v_width v))
  /\ (forall v, buildRenditionLadder v `sublist_of` RENDITION_LADDER)
  /\ (forall v,
        map quality (buildRenditionLadder (sized 3840 2160 v))
        = [Q2160p; Q1440p; Q1080p; Q720p; Q480p])
  /\ (forall v,
        map quality (buildRenditionLadder (sized 1920 1080 v))
        = [Q1080p; Q720p; Q480p])
  /\ (forall v,
        map quality (buildRenditionLadder (sized 960 480 v)) = [Q480p]).
Proof.
  split; [| split; [| split; [| split]]]; try reflexivity.
  - intros v r. unfold buildRenditionLadder.
    rewrite !list_elem_of_In, filter_In, orb_true_iff, !Z.leb_le. tauto.
  - intros v. unfold buildRenditionLadder.
    induction RENDITION_LADDER as [| r l IH]; simpl; [constructor |].
    destruct (_ || _); by constructor.
Qed.

Lemma buildRenditionLadder_keeps_fitting_tiers_witness :
  map quality (buildRenditionLadder (sized 960 480 sample_video)) = [Q480p].
Proof.
  apply (proj2 (proj2 (proj2 (proj2 buildRenditionLadder_keeps_fitting_tiers)))).
Defined.

(** ** Strings *)

Lemma strip_prefix_app (p s : string) : Str.strip_prefix p (p +:+ s) = Some s.
Proof.
  induction p as [| c p IH]; [reflexivity |].
  change (String c p +:+ s) with (String c (p +:+ s)). simpl.
  by rewrite Ascii.eqb_refl.
Qed.

(** ** Tone mapping *)

Lemma hw_vp9_path_test (codec : Codec) (hwAccel : HWAccelInfo) :
  hw_vp9_path codec hwAccel <->
  is_codec codec vp9 && (is_method hwAccel qsv || is_method hwAccel vaapi)
  && truthy_flag (supportsVP9HW hwAccel) = true.
Proof.
  unfold hw_vp9_path, is_codec, is_method, truthy_flag.
  rewrite !andb_true_iff, orb_true_iff, !bool_decide_eq_true.
  destruct (supportsVP9HW hwAccel) as [[|] |]; intuition congruence.
Qed.

(** C2: on the hardware VP9 path (VP9 on QSV or VAAPI with hardware VP9
    support) a source that is not SDR is always tone-mapped, whatever the
    rendition's preserve-HDR flag, and the filter chain then starts with the
    software tone-map sequence; off that path the tone-map decision is
    "preserve-HDR is off and the source is not SDR". *)
Theorem needsTonemap_forced_on_hw_vp9 (rendition : Rendition) (codec : Codec)
    (hwAccel : HWAccelInfo) (mediaInfo : MediaInfo) :
  (hw_vp9_path codec hwAccel -> hdrType (video mediaInfo) <> SDR ->
   needsTonemap rendition codec hwAccel mediaInfo = true
   /\ Str.strip_prefix TONEMAP_FILTER_SOFTWARE
        (buildScaleFilter rendition hwAccel
           (needsTonemap rendition codec hwAccel mediaInfo) codec)
      <> None)
  /\ (~ (hw_vp9_path codec hwAccel /\ hdrType (video mediaInfo) <> SDR) ->
      (needsTonemap rendition codec hwAccel mediaInfo = true <->
       preserveHDR rendition = false /\ hdrType (video mediaInfo) <> SDR)).
Proof.
  split.
  - intros Hpath Hhdr.
    assert (Hn : needsTonemap rendition codec hwAccel mediaInfo = true).
    { unfold needsTonemap. apply hw_vp9_path_test in Hpath. rewrite Hpath.
      by rewrite bool_decide_eq_true_2. }
    split; [exact Hn |]. rewrite Hn. unfold buildScaleFilter.
    repeat match goal with
           | |- context [if ?b then _ else _] => destruct b
           end;
      by rewrite strip_prefix_app.
  - intros Hoff. unfold needsTonemap.
    destruct (is_codec codec vp9
              && (is_method hwAccel qsv || is_method hwAccel vaapi)
              && truthy_flag (supportsVP9HW hwAccel)
              && bool_decide (hdrType (video mediaInfo) ≠ SDR)) eqn:Hforce.
    + exfalso. apply Hoff. apply andb_true_iff in Hforce as [Hp Hh].
      apply hw_vp9_path_test in Hp. by apply bool_decide_eq_true in Hh.
    + rewrite andb_true_iff, negb_true_iff, bool_decide_eq_true. tauto.
Qed.

Lemma needsTonemap_forced_on_hw_vp9_witness :
  hw_vp9_path vp9 HW_ACCEL_CONFIGS.qsv
  /\ hdrType (video hdr10_source) <> SDR
  /\ preserveHDR tier_2160p = true
  /\ needsTonemap tier_2160p vp9 HW_ACCEL_CONFIGS.qsv hdr10_source = true.
Proof.
  assert (Hpath : hw_vp9_path vp9 HW_ACCEL_CONFIGS.qsv)
    by (unfold hw_vp9_path; simpl; tauto).
  assert (Hhdr : hdrType (video hdr10_source) <> SDR) by (simpl; discriminate).
  split; [exact Hpath |]. split; [exact Hhdr |]. split; [reflexivity |].
  apply (proj1 (needsTonemap_forced_on_hw_vp9 tier_2160p vp9
                  HW_ACCEL_CONFIGS.qsv hdr10_source)); assumption.
Defined.

(** ** Dynamic range *)

Lemma marker_scan (name part : string) (stream : FFprobeStream) :
  carries_marker name part stream <->
  exists sds, side_data_list stream = Some sds
              /\ existsb (side_data_matches name part) sds = true.
Proof.
  unfold carries_marker. split.
  - intros (sds & sd & t & Hl & Hin & Ht & Hm). exists sds. split; [done |].
    apply existsb_exists. exists sd. split; [by apply list_elem_of_In |].
    unfold side_data_matches. rewrite Ht. apply orb_true_iff.
    destruct Hm as [-> | Hm]; [left; apply String.eqb_refl | by right].
  - intros (sds & Hl & Hex). apply existsb_exists in Hex as (sd & Hin & Hm).
    unfold side_data_matches in Hm.
    destruct (side_data_type sd) as [t |] eqn:Ht; [| discriminate].
    exists sds, sd, t. split; [done |]. split; [by apply list_elem_of_In |].
    split; [done |]. apply orb_true_iff in Hm as [Hm | Hm]; [left | by right].
    by apply String.eqb_eq.
Qed.

Lemma marker_absent (name part : string) (stream : FFprobeStream)
    (sds : list FFprobeSideData) :
  ~ carries_marker name part stream ->
  side_data_list stream = Some sds ->
  existsb (side_data_matches name part) sds = false.
Proof.
  intros Hno Hl. apply not_true_is_false. intros Hex.
  apply Hno, marker_scan. by exists sds.
Qed.

(** C4: the classification of a probed video stream looks at the Dolby Vision
    side data first, then at the HDR10+ dynamic metadata, and only then at the
    static condition (BT.2020 primaries with the PQ transfer); a stream with a
    Dolby Vision marker and BT.2020/PQ colours is DolbyVision, not HDR10. *)
Theorem detectHDRType_order (stream : FFprobeStream) :
  (has_dolby_vision stream -> detectHDRType stream = DolbyVision)
  /\ (~ has_dolby_vision stream -> has_hdr10_plus stream ->
      detectHDRType stream = HDR10Plus)
  /\ (~ has_dolby_vision stream -> ~ has_hdr10_plus stream ->
      (is_bt2020_pq stream -> detectHDRType stream = HDR10)
      /\ (~ is_bt2020_pq stream -> detectHDRType stream = SDR))
  /\ (has_dolby_vision stream -> is_bt2020_pq stream ->
      detectHDRType stream = DolbyVision /\ detectHDRType stream <> HDR10).
Proof.
  assert (Hdv : has_dolby_vision stream -> detectHDRType stream = DolbyVision).
  { intros Hm. apply marker_scan in Hm as (sds & Hl & Hex).
    unfold detectHDRType. by rewrite Hl, Hex. }
  assert (Hstatic :
            ~ has_dolby_vision stream -> ~ has_hdr10_plus stream ->
            detectHDRType stream
            = if bool_decide (color_primaries stream = Some "bt2020")
                 && bool_decide (color_transfer stream = Some "smpte2084")
              then HDR10 else SDR).
  { intros Hno1 Hno2. unfold detectHDRType.
    destruct (side_data_list stream) as [sds |] eqn:Hl; [| done].
    by rewrite (marker_absent _ _ _ sds Hno1 Hl),
               (marker_absent _ _ _ sds Hno2 Hl). }
  split; [exact Hdv |]. split; [| split].
  - intros Hno Hm. apply marker_scan in Hm as (sds & Hl & Hex).
    unfold detectHDRType. by rewrite Hl, (marker_absent _ _ _ sds Hno Hl), Hex.
  - intros Hno1 Hno2. rewrite (Hstatic Hno1 Hno2). unfold is_bt2020_pq. split.
    + intros [Hp Ht]. by rewrite !bool_decide_eq_true_2.
    + intros Hnot.
      destruct (bool_decide (color_primaries stream = Some "bt2020")) eqn:Hp;
        [| done].
      destruct (bool_decide (color_transfer stream = Some "smpte2084")) eqn:Ht;
        [| done].
      exfalso. apply Hnot.
      split; [by apply bool_decide_eq_true in Hp
             | by apply bool_decide_eq_true in Ht].
  - intros Hm _. rewrite (Hdv Hm). split; [done | discriminate].
Qed.

Lemma detectHDRType_order_witness :
  has_dolby_vision dovi_stream
  /\ is_bt2020_pq dovi_stream
  /\ detectHDRType dovi_stream = DolbyVision
  /\ detectHDRType dovi_stream <> HDR10.
Proof.
  assert (Hm : has_dolby_vision dovi_stream).
  { exists [{| side_data_type := Some "DOVI configuration record" |}],
      {| side_data_type := Some "DOVI configuration record" |},
      "DOVI configuration record".
    split; [reflexivity |]. split; [apply list_elem_of_here |].
    split; [reflexivity | by left]. }
  assert (Hc : is_bt2020_pq dovi_stream) by (split; reflexivity).
  split; [exact Hm |]. split; [exact Hc |].
  exact (proj2 (proj2 (proj2 (detectHDRType_order dovi_stream))) Hm Hc).
Defined.

(** ** Hybrid backends *)

Lemma find_method_Some (l : list HWAccelInfo) (m : HWAccelMethod)
    (a : HWAccelInfo) :
  find_method l m = Some a -> a ∈ l /\ method a = m.
Proof.
  unfold find_method. intros Hf. apply find_some in Hf as [Hin Hm].
  split; [by apply list_elem_of_In | by apply bool_decide_eq_true in Hm].
Qed.

Lemma find_method_None (l : list HWAccelInfo) (m : HWAccelMethod)
    (a : HWAccelInfo) :
  find_method l m = None -> a ∈ l -> method a <> m.
Proof.
  unfold find_method. intros Hf Hin Hm.
  apply list_elem_of_In in Hin. apply (find_none _ _ Hf a) in Hin.
  by rewrite bool_decide_eq_true_2 in Hin.
Qed.

Lemma bestHevc_loop_chosen (l : list HWAccelInfo)
    (priority : list HWAccelMethod) (a : HWAccelInfo) :
  bestHevc_loop l priority = Some a -> chosen_by any_backend l priority a.
Proof.
  induction priority as [| m rest IH]; simpl; [discriminate |].
  destruct (find_method l m) as [b |] eqn:Hf.
  - intros [= ->]. by apply chosen_here.
  - intros Hrest. apply chosen_later; [intros b Hb; congruence | by apply IH].
Qed.

Lemma vp9_capable_test (a : HWAccelInfo) :
  vp9_capable a <->
  truthy_flag (supportsVP9HW a) || bool_decide (method a = software) = true.
Proof.
  unfold vp9_capable, truthy_flag.
  rewrite orb_true_iff, bool_decide_eq_true.
  destruct (supportsVP9HW a) as [[|] |]; intuition congruence.
Qed.

Lemma bestVP9_loop_chosen (l : list HWAccelInfo)
    (priority : list HWAccelMethod) (a : HWAccelInfo) :
  bestVP9_loop l priority = Some a -> chosen_by vp9_capable l priority a.
Proof.
  induction priority as [| m rest IH]; simpl; [discriminate |].
  destruct (find_method l m) as [b |] eqn:Hf.
  - destruct (truthy_flag (supportsVP9HW b) || bool_decide (method b = software))
      eqn:Hacc.
    + intros [= ->]. apply chosen_here; [done | by apply vp9_capable_test].
    + intros Hrest. apply chosen_later; [| by apply IH].
      intros b' Hb Hcap. assert (b' = b) as -> by congruence.
      apply vp9_capable_test in Hcap. congruence.
  - intros Hrest. apply chosen_later; [intros b Hb; congruence | by apply IH].
Qed.

Lemma chosen_by_elem (accept : HWAccelInfo -> Prop) (l : list HWAccelInfo)
    (priority : list HWAccelMethod) (a : HWAccelInfo) :
  chosen_by accept l priority a -> a ∈ l /\ method a ∈ priority.
Proof.
  induction 1 as [m rest a Hf _ | m rest a _ _ [IH1 IH2]].
  - apply find_method_Some in Hf as [Hin <-]. split; [done | left].
  - split; [done | by right].
Qed.

(** When a pair comes back, both sides were picked by the two loops. *)
Lemma buildHybridConfig_Some (l : list HWAccelInfo) (p : HybridHWAccel) :
  buildHybridConfig l = Some p ->
  bestHevc_loop l hevcPriority = Some (hy_hevc p)
  /\ bestVP9_loop l vp9Priority = Some (hy_vp9 p)
  /\ method (hy_hevc p) <> method (hy_vp9 p)
  /\ supportsVP9HW (hy_vp9 p) = Some true.
Proof.
  unfold buildHybridConfig.
  destruct (bestVP9_loop l vp9Priority) as [v |] eqn:Hv.
  - destruct (bestHevc_loop l hevcPriority) as [h |] eqn:Hh; simpl.
    + destruct (bool_decide (method h ≠ method v)) eqn:Hne; [| discriminate].
      destruct (supportsVP9HW v) as [[|] |] eqn:Hs; simpl; try discriminate.
      intros [= <-]. simpl. by apply bool_decide_eq_true in Hne.
    + exfalso. apply bestVP9_loop_chosen, chosen_by_elem in Hv as [Hin _].
      revert Hh. unfold hevcPriority. simpl.
      repeat match goal with
             | |- context [find_method l ?m] =>
                 let Hf := fresh "Hf" in
                 destruct (find_method l m) eqn:Hf; [discriminate |];
                 apply (fun H => find_method_None l m v H Hin) in Hf
             end.
      by destruct (method v).
  - assert (Hsw : find_method l software = None).
    { revert Hv. unfold vp9Priority. simpl.
      destruct (find_method l qsv) as [a |];
        [destruct (_ || _); [discriminate |] |];
        (destruct (find_method l vaapi) as [b |];
         [destruct (_ || _); [discriminate |] |]);
        (destruct (find_method l software) as [c |] eqn:Hc; [| done]);
        apply find_method_Some in Hc as [_ Hc];
        by rewrite Hc, bool_decide_eq_true_2, orb_true_r. }
    rewrite Hsw. simpl. by rewrite andb_false_r.
Qed.

Lemma two_hardware (l : list HWAccelInfo) (a b : HWAccelInfo) :
  a ∈ l -> b ∈ l -> method a <> method b ->
  method a <> software -> method b <> software ->
  (2 <= hardware_count l)%nat.
Proof.
  intros Ha Hb Hab Has Hbs. unfold hardware_count.
  assert (Hin : forall x, x ∈ l -> method x <> software ->
                          In x (List.filter (fun a => negb (is_method a software)) l)).
  { intros x Hx Hxs. apply filter_In. split; [by apply list_elem_of_In |].
    unfold is_method. by rewrite bool_decide_eq_false_2. }
  pose proof (Hin a Ha Has) as Hfa. pose proof (Hin b Hb Hbs) as Hfb.
  destruct (List.filter _ l) as [| x [| y t]]; simpl in *; [done | | lia].
  destruct Hfa as [-> | []], Hfb as [-> | []]. done.
Qed.

Lemma detectHWAcceleration_plain (hwaccelsOutput encodersOutput : Result string) :
  software_is_plain (detectHWAcceleration hwaccelsOutput encodersOutput).
Proof.
  intros a Hin Hsw. unfold detectHWAcceleration in Hin.
  repeat (apply elem_of_app in Hin as [Hin | Hin];
          [ match type of Hin with
            | _ ∈ (if ?c then _ else _) => destruct c
            end;
            [ apply list_elem_of_singleton in Hin; subst a; discriminate Hsw
            | by apply elem_of_nil in Hin ]
          |]).
  apply list_elem_of_singleton in Hin. subst a. discriminate.
Qed.

(** C3: a pair comes back only when the HEVC side, chosen by the priority
    nvidia, qsv, amf, vaapi, videotoolbox, software, and the VP9 side, chosen
    by the priority qsv, vaapi, software among the entries that report
    hardware VP9 support or are the software one, are distinct, of different
    methods, and the VP9 side reports hardware VP9 support; and every list
    with at most one hardware backend gets no pair: every list that the
    detector returns, which is what [handleMediaInfoContinue] passes, and
    more generally every list none of whose software entries reports hardware
    VP9 support. *)
Theorem buildHybridConfig_pair_only_for_hw_vp9 :
  (forall available p,
      buildHybridConfig available = Some p ->
      chosen_by any_backend available hevcPriority (hy_hevc p)
      /\ chosen_by vp9_capable available vp9Priority (hy_vp9 p)
      /\ hy_hevc p <> hy_vp9 p
      /\ method (hy_hevc p) <> method (hy_vp9 p)
      /\ supportsVP9HW (hy_vp9 p) = Some true)
  /\ (forall hwaccelsOutput encodersOutput,
        let available := detectHWAcceleration hwaccelsOutput encodersOutput in
        (hardware_count available <= 1)%nat ->
        buildHybridConfig available = None)
  /\ (forall available,
        (hardware_count available <= 1)%nat ->
        software_is_plain available ->
        buildHybridConfig available = None).
Proof.
  assert (Hnone : forall available,
                    (hardware_count available <= 1)%nat ->
                    software_is_plain available ->
                    buildHybridConfig available = None).
  { intros available Hcount Hplain.
    destruct (buildHybridConfig available) as [p |] eqn:Hp; [| done].
    exfalso. apply buildHybridConfig_Some in Hp as (Hh & Hv & Hne & Hs).
    pose proof (bestVP9_loop_chosen _ _ _ Hv) as Hvc.
    apply chosen_by_elem in Hvc as [Hvin _].
    pose proof (bestHevc_loop_chosen _ _ _ Hh) as Hhc.
    apply chosen_by_elem in Hhc as [Hhin _].
    assert (Hvhw : method (hy_vp9 p) <> software).
    { intros Hsw. by apply (Hplain _ Hvin Hsw). }
    destruct (decide (method (hy_hevc p) = software)) as [Hsw | Hhw].
    + revert Hh. unfold hevcPriority. simpl.
      repeat match goal with
             | |- context [find_method available ?m] =>
                 let Hf := fresh "Hf" in
                 destruct (find_method available m) eqn:Hf;
                 [ apply find_method_Some in Hf as [_ Hf];
                   intros Heq; congruence
                 | apply (fun H => find_method_None available m _ H Hvin) in Hf ]
             end.
      intros _. by destruct (method (hy_vp9 p)).
    + pose proof (two_hardware _ _ _ Hhin Hvin Hne Hhw Hvhw). lia. }
  split; [| split].
  - intros available p Hp.
    apply buildHybridConfig_Some in Hp as (Hh & Hv & Hne & Hs).
    split; [by apply bestHevc_loop_chosen |].
    split; [by apply bestVP9_loop_chosen |].
    split; [intros Heq; by rewrite Heq in Hne | done].
  - intros hwaccelsOutput encodersOutput available Hcount.
    apply Hnone; [exact Hcount | apply detectHWAcceleration_plain].
  - exact Hnone.
Qed.

Lemma buildHybridConfig_pair_only_for_hw_vp9_witness :
  buildHybridConfig [HW_ACCEL_CONFIGS.nvidia; HW_ACCEL_CONFIGS.qsv;
                     SOFTWARE_CONFIG]
  = Some {| hy_hevc := HW_ACCEL_CONFIGS.nvidia;
            hy_vp9 := HW_ACCEL_CONFIGS.qsv |}
  /\ HW_ACCEL_CONFIGS.nvidia <> HW_ACCEL_CONFIGS.qsv
  /\ supportsVP9HW HW_ACCEL_CONFIGS.qsv = Some true
  /\ (hardware_count
        (detectHWAcceleration (Ok hwaccels_text) (Throw "spawn failed"))
      <= 1)%nat
  /\ buildHybridConfig
       (detectHWAcceleration (Ok hwaccels_text) (Throw "spawn failed"))
     = None
  /\ (hardware_count [HW_ACCEL_CONFIGS.qsv; SOFTWARE_CONFIG] <= 1)%nat
  /\ software_is_plain [HW_ACCEL_CONFIGS.qsv; SOFTWARE_CONFIG]
  /\ buildHybridConfig [HW_ACCEL_CONFIGS.qsv; SOFTWARE_CONFIG] = None.
Proof.
  assert (Hp : buildHybridConfig [HW_ACCEL_CONFIGS.nvidia;
                                  HW_ACCEL_CONFIGS.qsv; SOFTWARE_CONFIG]
               = Some {| hy_hevc := HW_ACCEL_CONFIGS.nvidia;
                         hy_vp9 := HW_ACCEL_CONFIGS.qsv |})
    by reflexivity.
  assert (Hd : (hardware_count
                  (detectHWAcceleration (Ok hwaccels_text)
                     (Throw "spawn failed")) <= 1)%nat)
    by (vm_compute; lia).
  assert (Hc : (hardware_count [HW_ACCEL_CONFIGS.qsv; SOFTWARE_CONFIG] <= 1)%nat)
    by (vm_compute; lia).
  assert (Hs : software_is_plain [HW_ACCEL_CONFIGS.qsv; SOFTWARE_CONFIG]).
  { intros a Hin Hm.
    apply list_elem_of_In in Hin. simpl in Hin.
    destruct Hin as [<- | [<- | []]]; simpl in *; discriminate. }
  pose proof (proj1 buildHybridConfig_pair_only_for_hw_vp9 _ _ Hp)
    as (_ & _ & Hne & _ & Hvp9).
  split; [exact Hp |]. split; [exact Hne |]. split; [exact Hvp9 |].
  split; [exact Hd |].
  split; [exact (proj1 (proj2 buildHybridConfig_pair_only_for_hw_vp9)
                   (Ok hwaccels_text) (Throw "spawn failed") Hd) |].
  split; [exact Hc |]. split; [exact Hs |].
  exact (proj2 (proj2 buildHybridConfig_pair_only_for_hw_vp9) _ Hc Hs).
Defined.

(** Outside those lists the count of hardware backends alone does not decide:
    the entry that the hardware selection displays for the hybrid option is
    a software-method entry that reports hardware VP9 support, and a list
    made of NVIDIA and that entry would get a pair.  No such list is passed
    to [buildHybridConfig]: the display entry is built from its result. *)
Lemma buildHybridConfig_display_entry :
  hardware_count [HW_ACCEL_CONFIGS.nvidia; hybrid_display] = 1%nat
  /\ ~ software_is_plain [HW_ACCEL_CONFIGS.nvidia; hybrid_display]
  /\ buildHybridConfig [HW_ACCEL_CONFIGS.nvidia; hybrid_display]
     = Some {| hy_hevc := HW_ACCEL_CONFIGS.nvidia; hy_vp9 := hybrid_display |}.
Proof.
  split; [reflexivity |]. split; [| reflexivity].
  intros Hplain. apply (Hplain hybrid_display); [| reflexivity | reflexivity].
  apply list_elem_of_further, list_elem_of_here.
Qed.

(** ** Frame rate *)

Lemma frameRate_guard (stream : FFprobeStream) :
  frameRate (parseVideoInfo stream)
  = if JS.isNaN (frameRateQuotient stream) then JS.of_Z 24
    else frameRateQuotient stream.
Proof. reflexivity. Qed.

Lemma div_NaN_r (a : JS.num) : JS.div a JS.NaN = JS.NaN.
Proof. by destruct a. Qed.

Lemma div_zero_zero (a b : JS.num) :
  is_zero_num a -> is_zero_num b -> JS.div a b = JS.NaN.
Proof.
  intros (s1 & m1 & -> & H1) (s2 & m2 & -> & H2). simpl. by rewrite H2, H1.
Qed.

(** C6 (as amended): the frame-rate string is split at the slash into a
    numerator and a denominator, the denominator is 1 when it is absent or
    empty, and the quotient is replaced by 24 when it is NaN, as it is for an
    unparsable numerator or denominator and for zero over zero; a finite
    quotient is the frame rate as it is. *)
Theorem frameRate_defaults_to_24_on_NaN (stream : FFprobeStream) :
  frameRateQuotient stream = JS.div (rate_num stream) (rate_den stream)
  /\ (Str.truthy (rate_parts stream !! 1%nat) = false ->
      rate_den stream = JS.of_Z 1)
  /\ (JS.isNaN (frameRateQuotient stream) = true ->
      frameRate (parseVideoInfo stream) = JS.of_Z 24)
  /\ (JS.isFinite (frameRateQuotient stream) = true ->
      frameRate (parseVideoInfo stream) = frameRateQuotient stream)
  /\ (rate_num stream = JS.NaN \/ rate_den stream = JS.NaN ->
      frameRate (parseVideoInfo stream) = JS.of_Z 24)
  /\ (is_zero_num (rate_num stream) -> is_zero_num (rate_den stream) ->
      frameRate (parseVideoInfo stream) = JS.of_Z 24).
Proof.
  assert (Hq : frameRateQuotient stream
               = JS.div (rate_num stream) (rate_den stream)) by reflexivity.
  split; [exact Hq |]. split; [| split; [| split; [| split]]].
  - unfold rate_den. intros Habsent.
    destruct (rate_parts stream !! 1%nat) as [[| c r] |];
      try discriminate; by vm_compute.
  - intros Hnan. by rewrite frameRate_guard, Hnan.
  - intros Hfin. rewrite frameRate_guard.
    by destruct (frameRateQuotient stream).
  - intros Hbad. rewrite frameRate_guard, Hq.
    destruct Hbad as [-> | ->]; [done | by rewrite div_NaN_r].
  - intros Hn Hd. by rewrite frameRate_guard, Hq, (div_zero_zero _ _ Hn Hd).
Qed.

Lemma frameRate_defaults_to_24_on_NaN_witness :
  is_zero_num (rate_num (with_rate (Some "0/0") sample_stream))
  /\ is_zero_num (rate_den (with_rate (Some "0/0") sample_stream))
  /\ frameRate (parseVideoInfo (with_rate (Some "0/0") sample_stream))
     = JS.of_Z 24.
Proof.
  assert (Hn : is_zero_num (rate_num (with_rate (Some "0/0") sample_stream)))
    by (exists false, 0%Q; split; by vm_compute).
  assert (Hd : is_zero_num (rate_den (with_rate (Some "0/0") sample_stream)))
    by (exists false, 0%Q; split; by vm_compute).
  split; [exact Hn |]. split; [exact Hd |].
  exact (proj2 (proj2 (proj2 (proj2 (proj2
           (frameRate_defaults_to_24_on_NaN
              (with_rate (Some "0/0") sample_stream)))))) Hn Hd).
Defined.

(** NaN cannot be widened to "not finite" there: with the rate "30/0" the
    denominator is zero, the quotient is an infinity, which is not NaN, and
    the frame rate is that infinity instead of 24. *)
Lemma frameRate_zero_denominator_counterexample :
  is_zero_num (rate_den (with_rate (Some "30/0") sample_stream))
  /\ JS.isFinite (frameRateQuotient (with_rate (Some "30/0") sample_stream))
     = false
  /\ frameRate (parseVideoInfo (with_rate (Some "30/0") sample_stream))
     = JS.Inf false
  /\ frameRate (parseVideoInfo (with_rate (Some "30/0") sample_stream))
     <> JS.of_Z 24.
Proof.
  split; [exists false, 0%Q; split; by vm_compute |].
  split; [by vm_compute |]. split; [by vm_compute |].
  vm_compute. discriminate.
Qed.

(** ** Runs *)

Section RunFacts.

Context {E : Env}.

Lemma bind_run {A B : Type} (m : M A) (k : A -> M B) (w : World) :
  bind m k w
  = match m w with
    | (w1, t1, Ok a) =>
        match k a w1 with
        | (w2, t2, r) => (w2, t1 ++ t2, r)
        end
    | (w1, t1, Throw e) => (w1, t1, Throw e)
    end.
Proof. reflexivity. Qed.

Lemma bind_pure {A B : Type} (a : A) (k : A -> M B) (w : World) :
  bind (fun w => (w, [], Ok a)) k w = k a w.
Proof. rewrite bind_run. by destruct (k a w) as [[w2 t2] r]. Qed.

Lemma bind_ret {A B : Type} (a : A) (k : A -> M B) (w : World) :
  bind (ret a) k w = k a w.
Proof. apply bind_pure. Qed.

Lemma bind_access {B : Type} (p : string) (k : bool -> M B) (w : World) :
  bind (access p) k w = k (fs_access w p) w.
Proof.
  rewrite bind_run. unfold access. by destruct (k (fs_access w p) w) as [[w2 t2] r].
Qed.

Lemma bind_emit {B : Type} (e : Event) (k : unit -> M B) (w : World) :
  bind (emit e) k w
  = match k tt w with (w2, t2, r) => (w2, e :: t2, r) end.
Proof. reflexivity. Qed.

(** The step of the subtitle loop for a track whose file is there. *)
Lemma extractSubtitles_from_skip (inputPath outputDir : string)
    (stream : SubtitleStream) (rest : list SubtitleStream) (idx : nat)
    (outputPaths : gmap nat string) (w : World) :
  fs_access w (path_join outputDir (subtitleFileName stream)) = true ->
  extractSubtitles_from inputPath outputDir true (stream :: rest) idx
    outputPaths w
  = extractSubtitles_from inputPath outputDir true rest (S idx)
      (<[idx := path_join outputDir (subtitleFileName stream)]> outputPaths) w.
Proof.
  intros Hthere.
  change (extractSubtitles_from inputPath outputDir true (stream :: rest) idx
            outputPaths)
    with (bind (access (path_join outputDir (subtitleFileName stream)))
            (fun found : bool =>
               if found then
                 extractSubtitles_from inputPath outputDir true rest (S idx)
                   (<[idx := path_join outputDir (subtitleFileName stream)]>
                      outputPaths)
               else
                 bind (spawn (subtitleArgs inputPath
                                (path_join outputDir (subtitleFileName stream))
                                idx))
                   (fun proc =>
                      if pr_exit proc =? 0 then
                        extractSubtitles_from inputPath outputDir true rest
                          (S idx)
                          (<[idx := path_join outputDir
                                      (subtitleFileName stream)]> outputPaths)
                      else
                        extractSubtitles_from inputPath outputDir true rest
                          (S idx) outputPaths))).
  by rewrite bind_access, Hthere.
Qed.

(** The step of the audio loop for a track whose file is there. *)
Lemma extractAudio_from_skip (inputPath outputDir : string)
    (stream : AudioStream) (rest : list AudioStream) (idx : nat)
    (outputPaths : gmap nat string) (w : World) :
  fs_access w (path_join outputDir (audioFileName stream idx)) = true ->
  extractAudio_from inputPath outputDir true (stream :: rest) idx outputPaths w
  = extractAudio_from inputPath outputDir true rest (S idx)
      (<[idx := path_join outputDir (audioFileName stream idx)]> outputPaths) w.
Proof.
  intros Hthere.
  change (extractAudio_from inputPath outputDir true (stream :: rest) idx
            outputPaths)
    with (bind (access (path_join outputDir (audioFileName stream idx)))
            (fun found : bool =>
               if found then
                 extractAudio_from inputPath outputDir true rest (S idx)
                   (<[idx := path_join outputDir (audioFileName stream idx)]>
                      outputPaths)
               else
                 bind (spawn (audioArgs inputPath
                                (path_join outputDir
                                   (audioFileName stream idx)) stream idx))
                   (fun proc =>
                      if pr_exit proc =? 0 then
                        extractAudio_from inputPath outputDir true rest (S idx)
                          (<[idx := path_join outputDir
                                      (audioFileName stream idx)]> outputPaths)
                      else
                        extractAudio_from inputPath outputDir true rest (S idx)
                          outputPaths))).
  by rewrite bind_access, Hthere.
Qed.

Lemma extractSubtitles_from_all_there (inputPath outputDir : string)
    (streams : list SubtitleStream) (w : World) :
  (forall k s, streams !! k = Some s ->
               fs_access w (path_join outputDir (subtitleFileName s)) = true) ->
  forall (idx : nat) (outputPaths : gmap nat string),
  exists m : gmap nat string,
    extractSubtitles_from inputPath outputDir true streams idx outputPaths w
    = (w, [], Ok m)
    /\ (forall k s, streams !! k = Some s ->
                    m !! (idx + k)%nat
                    = Some (path_join outputDir (subtitleFileName s)))
    /\ (forall k, (k < idx)%nat -> m !! k = outputPaths !! k).
Proof.
  induction streams as [| stream rest IH]; intros Hthere idx outputPaths.
  - exists outputPaths. split; [done |]. split; [| done].
    intros k s Hk. by rewrite lookup_nil in Hk.
  - rewrite extractSubtitles_from_skip by apply (Hthere 0%nat), eq_refl.
    destruct (IH (fun k s Hk => Hthere (S k) s Hk) (S idx)
                (<[idx := path_join outputDir (subtitleFileName stream)]>
                   outputPaths))
      as (m & Hrun & Hnew & Hold).
    exists m. split; [exact Hrun |]. split.
    + intros [| k] s Hk.
      * injection Hk as <-. rewrite Nat.add_0_r, Hold by lia.
        apply lookup_insert_eq.
      * replace (idx + S k)%nat with (S idx + k)%nat by lia. by apply Hnew.
    + intros k Hlt. rewrite Hold by lia. apply lookup_insert_ne. lia.
Qed.

Lemma extractAudio_from_all_there (inputPath outputDir : string)
    (streams : list AudioStream) (w : World) :
  forall (idx : nat) (outputPaths : gmap nat string),
  (forall k s, streams !! k = Some s ->
               fs_access w
                 (path_join outputDir (audioFileName s (idx + k))) = true) ->
  exists m : gmap nat string,
    extractAudio_from inputPath outputDir true streams idx outputPaths w
    = (w, [], Ok m)
    /\ (forall k s, streams !! k = Some s ->
                    m !! (idx + k)%nat
                    = Some (path_join outputDir (audioFileName s (idx + k))))
    /\ (forall k, (k < idx)%nat -> m !! k = outputPaths !! k).
Proof.
  induction streams as [| stream rest IH]; intros idx outputPaths Hthere.
  - exists outputPaths. split; [done |]. split; [| done].
    intros k s Hk. by rewrite lookup_nil in Hk.
  - pose proof (Hthere 0%nat stream eq_refl) as H0.
    rewrite Nat.add_0_r in H0. rewrite extractAudio_from_skip by exact H0.
    destruct (IH (S idx)
                (<[idx := path_join outputDir (audioFileName stream idx)]>
                   outputPaths))
      as (m & Hrun & Hnew & Hold).
    { intros k s Hk. replace (S idx + k)%nat with (idx + S k)%nat by lia.
      by apply Hthere. }
    exists m. split; [exact Hrun |]. split.
    + intros [| k] s Hk.
      * injection Hk as <-. rewrite Nat.add_0_r, Hold by lia.
        apply lookup_insert_eq.
      * replace (idx + S k)%nat with (S idx + k)%nat by lia. by apply Hnew.
    + intros k Hlt. rewrite Hold by lia. apply lookup_insert_ne. lia.
Qed.

(** C8: with skip-if-exists on, a transcode whose output file is already
    there spawns nothing, fires onComplete with the path of that file and
    returns it; an extraction step whose output file is there spawns nothing
    and records the path under the track's index, so an extraction all of
    whose output files are there spawns nothing at all and returns the map of
    every index to its file. *)
Theorem skip_if_exists_spawns_nothing :
  (forall inputPath outputDir rendition codec hwAccel mediaInfo settings w,
      fs_access w (path_join outputDir (getOutputFileName rendition codec))
      = true ->
      transcodeRendition inputPath outputDir rendition codec hwAccel mediaInfo
        settings true w
      = (w,
         [LogSection ("Transcoding " +:+ quality_name (quality rendition)
                      +:+ " " +:+ Str.toUpperCase (codec_name_of codec));
          OnComplete codec (quality rendition)
            (path_join outputDir (getOutputFileName rendition codec))],
         Ok (path_join outputDir (getOutputFileName rendition codec))))
  /\ (forall inputPath outputDir stream rest idx outputPaths w,
        fs_access w (path_join outputDir (subtitleFileName stream)) = true ->
        extractSubtitles_from inputPath outputDir true (stream :: rest) idx
          outputPaths w
        = extractSubtitles_from inputPath outputDir true rest (S idx)
            (<[idx := path_join outputDir (subtitleFileName stream)]>
               outputPaths) w)
  /\ (forall inputPath outputDir stream rest idx outputPaths w,
        fs_access w (path_join outputDir (audioFileName stream idx)) = true ->
        extractAudio_from inputPath outputDir true (stream :: rest) idx
          outputPaths w
        = extractAudio_from inputPath outputDir true rest (S idx)
            (<[idx := path_join outputDir (audioFileName stream idx)]>
               outputPaths) w)
  /\ (forall inputPath outputDir subtitleStreams w,
        (forall k s, subtitleStreams !! k = Some s ->
                     fs_access w (path_join outputDir (subtitleFileName s))
                     = true) ->
        exists m : gmap nat string,
          extractSubtitles inputPath outputDir subtitleStreams true w
          = (w, [LogSection "Extracting Subtitles"], Ok m)
          /\ forall k s, subtitleStreams !! k = Some s ->
                         m !! k
                         = Some (path_join outputDir (subtitleFileName s)))
  /\ (forall inputPath outputDir audioStreams w,
        (forall k s, audioStreams !! k = Some s ->
                     fs_access w (path_join outputDir (audioFileName s k))
                     = true) ->
        exists m : gmap nat string,
          extractAudio inputPath outputDir audioStreams true w
          = (w, [LogSection "Extracting Audio"], Ok m)
          /\ forall k s, audioStreams !! k = Some s ->
                         m !! k
                         = Some (path_join outputDir (audioFileName s k))).
Proof.
  split; [| split; [| split; [| split]]].
  - intros inputPath outputDir rendition codec hwAccel mediaInfo settings w
      Hthere.
    unfold transcodeRendition. rewrite bind_emit.
    unfold getOutputFileName in Hthere |- *.
    rewrite bind_access, Hthere. reflexivity.
  - intros. by apply extractSubtitles_from_skip.
  - intros. by apply extractAudio_from_skip.
  - intros inputPath outputDir subtitleStreams w Hthere.
    destruct (extractSubtitles_from_all_there inputPath outputDir
                subtitleStreams w Hthere 0%nat ∅) as (m & Hrun & Hnew & _).
    exists m. split; [| exact Hnew].
    unfold extractSubtitles. by rewrite bind_emit, Hrun.
  - intros inputPath outputDir audioStreams w Hthere.
    destruct (extractAudio_from_all_there inputPath outputDir audioStreams w
                0%nat ∅ Hthere) as (m & Hrun & Hnew & _).
    exists m. split; [| exact Hnew].
    unfold extractAudio. by rewrite bind_emit, Hrun.
Qed.

End RunFacts.

Lemma skip_if_exists_spawns_nothing_witness :
  fs_access (Env := all_there) tt
    (path_join (Env := all_there) "out/tmp" (getOutputFileName tier_2160p vp9)) = true
  /\ transcodeRendition (E := all_there) "in.mkv" "out/tmp" tier_2160p vp9
       SOFTWARE_CONFIG hdr10_source (getTranscodeSettings dev) true tt
     = (tt,
        [LogSection (job_title tier_2160p vp9);
         OnComplete vp9 Q2160p
           (path_join (Env := all_there) "out/tmp" (getOutputFileName tier_2160p vp9))],
        Ok (path_join (Env := all_there) "out/tmp" (getOutputFileName tier_2160p vp9))).
Proof.
  assert (Hthere : fs_access (Env := all_there) tt
                     (path_join (Env := all_there) "out/tmp" (getOutputFileName tier_2160p vp9))
                   = true) by reflexivity.
  split; [exact Hthere |].
  exact (proj1 (skip_if_exists_spawns_nothing (E := all_there))
           "in.mkv" "out/tmp" tier_2160p vp9 SOFTWARE_CONFIG hdr10_source
           (getTranscodeSettings dev) tt Hthere).
Defined.

(** ** The rendition loop *)

Section LoopFacts.

Context {E : Env}.

Lemma quiet_app (t1 t2 : list Event) : quiet t1 -> quiet t2 -> quiet (t1 ++ t2).
Proof.
  unfold quiet, sections, completions. intros [H1 H2] [H3 H4].
  by rewrite !omap_app, H1, H2, H3, H4.
Qed.

Lemma quiet_progress (ps : list TranscodeProgress) : quiet (map OnProgress ps).
Proof. split; by induction ps. Qed.

Lemma bind_quiet {A B : Type} (m : M A) (k : A -> M B) :
  (forall w, quiet (m w).1.2) -> (forall a w, quiet (k a w).1.2) ->
  forall w, quiet (bind m k w).1.2.
Proof.
  intros Hm Hk w. rewrite bind_run. specialize (Hm w).
  destruct (m w) as [[w1 t1] [a | e]]; simpl in *; [| done].
  specialize (Hk a w1). destruct (k a w1) as [[w2 t2] r]. simpl in *.
  by apply quiet_app.
Qed.

Lemma runPass_quiet (inputPath outputPath passLogFile scaleFilter : string)
    (job : TranscodeJob) (totalFrames : JS.num) (useHw : bool) (pass : Z)
    (isLastPass : bool) (w : World) :
  quiet (runPass inputPath outputPath passLogFile scaleFilter job totalFrames
           useHw pass isLastPass w).1.2.
Proof.
  unfold runPass. apply bind_quiet.
  - intros w0. unfold spawn. destruct (spawn_ffmpeg w0 _). by split.
  - intros proc w0. destruct (readProgress _ _ _ _ _ _) as [reported full].
    apply bind_quiet.
    + intros w1. apply quiet_progress.
    + intros _ w1. destruct (negb _); by split.
Qed.

(** One job: its trace opens with the job's title, and it returns a path
    exactly when it announces that path as complete. *)
Lemma transcodeRendition_run (inputPath outputDir : string)
    (rendition : Rendition) (codec : Codec) (hwAccel : HWAccelInfo)
    (mediaInfo : MediaInfo) (settings : TranscodeSettings)
    (skipIfExists : bool) (w : World) :
  let run := transcodeRendition inputPath outputDir rendition codec hwAccel
               mediaInfo settings skipIfExists w in
  let outputPath := path_join outputDir (getOutputFileName rendition codec) in
  sections run.1.2 = [job_title rendition codec]
  /\ match run.2 with
     | Ok p =>
         p = outputPath
         /\ completions run.1.2
            = [{| vf_path := outputPath; vf_quality := quality rendition;
                  vf_codec := codec |}]
     | Throw _ => completions run.1.2 = []
     end.
Proof.
  intros run out. subst run out.
  unfold transcodeRendition, getOutputFileName. rewrite bind_emit.
  set (outputPath :=
         path_join outputDir
           ("video_" +:+ quality_name (quality rendition) +:+ "_"
            +:+ codec_name_of codec +:+ "."
            +:+ match codec with vp9 => "webm" | hevc => "mp4" end)).
  assert (Hfound :
            forall w0,
              bind (emit (OnComplete codec (quality rendition) outputPath))
                (fun _ => ret outputPath) w0
              = (w0, [OnComplete codec (quality rendition) outputPath],
                 Ok outputPath)) by reflexivity.
  match goal with
  | |- context [try_catch ?body ?handler] =>
      set (attempt := try_catch body handler);
      assert (Hattempt :
                forall w0,
                  match (attempt w0).2 with
                  | Ok p =>
                      p = outputPath
                      /\ exists t, (attempt w0).1.2
                                   = t ++ [OnComplete codec (quality rendition)
                                             outputPath]
                                   /\ quiet t
                  | Throw _ => quiet (attempt w0).1.2
                  end)
  end.
  { intros w0. subst attempt. unfold try_catch. rewrite bind_run.
    match goal with
    | |- context [match ?passes w0 with _ => _ end] =>
        assert (Hq : quiet (passes w0).1.2)
          by (destruct (_ && _);
              [apply bind_quiet; intros; apply runPass_quiet
              | apply runPass_quiet]);
        destruct (passes w0) as [[w1 t1] [[] | e]]
    end; simpl in *.
    - split; [done |]. by exists t1.
    - apply quiet_app; [done | by split]. }
  destruct skipIfExists.
  - rewrite bind_access. destruct (fs_access w outputPath).
    + rewrite Hfound. simpl. by split.
    + specialize (Hattempt w). destruct (attempt w) as [[w1 t1] [p | e]];
        simpl in *.
      * destruct Hattempt as (-> & t & -> & Hs & Hc). split.
        -- unfold sections in *. by rewrite omap_app, Hs.
        -- split; [done |]. unfold completions in *. by rewrite omap_app, Hc.
      * destruct Hattempt as [Hs Hc]. split; [by rewrite Hs | done].
  - rewrite bind_ret.
    specialize (Hattempt w). destruct (attempt w) as [[w1 t1] [p | e]];
      simpl in *.
    + destruct Hattempt as (-> & t & -> & Hs & Hc). split.
      * unfold sections in *. by rewrite omap_app, Hs.
      * split; [done |]. unfold completions in *. by rewrite omap_app, Hc.
    + destruct Hattempt as [Hs Hc]. split; [by rewrite Hs | done].
Qed.

(** One guarded job of the loop never throws, and it appends to the list of
    video files exactly what the job announced as complete. *)
Lemma transcodeJob_run (sourcePath tmpDir : string) (rendition : Rendition)
    (codec : Codec) (hwAccel : HWAccelInfo) (mediaInfo : MediaInfo)
    (settings : TranscodeSettings) (skipIfExists : bool)
    (videoFiles : list VideoFile) (w : World) :
  let run := transcodeJob sourcePath tmpDir rendition codec hwAccel mediaInfo
               settings skipIfExists videoFiles w in
  sections run.1.2 = [job_title rendition codec]
  /\ run.2 = Ok (videoFiles ++ completions run.1.2).
Proof.
  intros run. subst run. unfold transcodeJob, try_catch. rewrite bind_run.
  pose proof (transcodeRendition_run sourcePath tmpDir rendition codec hwAccel
                mediaInfo settings skipIfExists w) as [Hs Hc].
  destruct (transcodeRendition _ _ _ _ _ _ _ _ w) as [[w1 t1] [p | e]];
    simpl in *.
  - destruct Hc as [-> Hc].
    destruct (path_join tmpDir (getOutputFileName rendition codec)) eqn:Hp.
    + by apply path_join_nonempty in Hp.
    + simpl. by rewrite !app_nil_r, Hc.
  - by rewrite !app_nil_r, Hc, app_nil_r.
Qed.

Lemma transcodeRenditions_run (sourcePath tmpDir : string)
    (vp9HWAccel hevcHWAccel : HWAccelInfo) (mediaInfo : MediaInfo)
    (settings : TranscodeSettings) (skipIfExists : bool)
    (renditions : list Rendition) :
  forall (videoFiles : list VideoFile) (w : World),
    let run := transcodeRenditions sourcePath tmpDir vp9HWAccel hevcHWAccel
                 mediaInfo settings skipIfExists renditions videoFiles w in
    sections run.1.2
    = flat_map (fun r => [job_title r vp9; job_title r hevc]) renditions
    /\ run.2 = Ok (videoFiles ++ completions run.1.2).
Proof.
  induction renditions as [| rendition rest IH]; intros videoFiles w run;
    subst run.
  - simpl. by rewrite app_nil_r.
  - cbn [transcodeRenditions flat_map]. rewrite bind_run.
    pose proof (transcodeJob_run sourcePath tmpDir rendition vp9 vp9HWAccel
                  mediaInfo settings skipIfExists videoFiles w) as [Hs1 Hr1].
    destruct (transcodeJob _ _ rendition vp9 _ _ _ _ _ w)
      as [[w1 t1] r1]. simpl in Hs1, Hr1. subst r1. rewrite bind_run.
    pose proof (transcodeJob_run sourcePath tmpDir rendition hevc hevcHWAccel
                  mediaInfo settings skipIfExists
                  (videoFiles ++ completions t1) w1) as [Hs2 Hr2].
    destruct (transcodeJob _ _ rendition hevc _ _ _ _ _ w1)
      as [[w2 t2] r2]. simpl in Hs2, Hr2. subst r2.
    specialize (IH ((videoFiles ++ completions t1) ++ completions t2) w2).
    destruct (transcodeRenditions _ _ _ _ _ _ _ rest _ w2) as [[w3 t3] r3].
    simpl in *. destruct IH as [Hs3 ->]. split.
    + unfold sections in *. by rewrite !omap_app, Hs1, Hs2, Hs3.
    + unfold completions. by rewrite !omap_app, !app_assoc.
Qed.

End LoopFacts.

Section Orchestrator.

Context {E : Env}.

(** The guard around a job changes neither the world nor the trace of the
    job. *)
Lemma transcodeJob_trace (sourcePath tmpDir : string) (rendition : Rendition)
    (codec : Codec) (hwAccel : HWAccelInfo) (mediaInfo : MediaInfo)
    (settings : TranscodeSettings) (skipIfExists : bool)
    (videoFiles : list VideoFile) (w : World) :
  (transcodeJob sourcePath tmpDir rendition codec hwAccel mediaInfo settings
     skipIfExists videoFiles w).1
  = (transcodeRendition sourcePath tmpDir rendition codec hwAccel mediaInfo
       settings skipIfExists w).1.
Proof.
  unfold transcodeJob, try_catch. rewrite bind_run.
  destruct (transcodeRendition _ _ _ _ _ _ _ _ w) as [[w1 t1] [p | e]];
    simpl; [| by rewrite app_nil_r].
  destruct (negb (Str.is_empty p)); simpl; by rewrite app_nil_r.
Qed.

Lemma extractSubtitles_from_trace (inputPath outputDir : string)
    (skipIfExists : bool) (streams : list SubtitleStream) :
  forall (idx : nat) (outputPaths : gmap nat string) (w : World),
    let run := extractSubtitles_from inputPath outputDir skipIfExists streams
                 idx outputPaths w in
    extraction_only run.1.2 /\ (ffmpeg_starts -> exists m, run.2 = Ok m).
Proof.
  induction streams as [| stream rest IH]; intros idx outputPaths w run;
    subst run; [split; [constructor | by exists outputPaths] |].
  cbn [extractSubtitles_from]. rewrite bind_run.
  destruct (if skipIfExists then access _ else ret false) eqn:Hfound.
  assert (Hw : exists b, (p, r) = (w, [], Ok b)).
  { destruct skipIfExists; inversion Hfound; eauto. }
  destruct Hw as [b [= -> ->]]. destruct b.
  - specialize (IH (S idx)
                  (<[idx := path_join outputDir (subtitleFileName stream)]>
                     outputPaths) w).
    by destruct (extractSubtitles_from _ _ _ rest _ _ w) as [[w2 t2] r2].
  - rewrite bind_run. unfold spawn.
    destruct (spawn_ffmpeg w _) as [w1 [proc | e]] eqn:Hspawn.
    + destruct (pr_exit proc =? 0);
        [specialize (IH (S idx)
                       (<[idx := path_join outputDir
                                   (subtitleFileName stream)]> outputPaths) w1)
        | specialize (IH (S idx) outputPaths w1)];
        destruct (extractSubtitles_from _ _ _ rest _ _ w1) as [[w2 t2] r2];
        simpl in *; (split; [by constructor; [| apply IH] | apply IH]).
    + simpl. split; [by repeat constructor |]. intros Hstarts.
      destruct (Hstarts w (subtitleArgs inputPath
                             (path_join outputDir (subtitleFileName stream))
                             idx)) as [proc Hproc].
      rewrite Hspawn in Hproc. discriminate Hproc.
Qed.

Lemma extractAudio_from_trace (inputPath outputDir : string)
    (skipIfExists : bool) (streams : list AudioStream) :
  forall (idx : nat) (outputPaths : gmap nat string) (w : World),
    let run := extractAudio_from inputPath outputDir skipIfExists streams
                 idx outputPaths w in
    extraction_only run.1.2 /\ (ffmpeg_starts -> exists m, run.2 = Ok m).
Proof.
  induction streams as [| stream rest IH]; intros idx outputPaths w run;
    subst run; [split; [constructor | by exists outputPaths] |].
  cbn [extractAudio_from]. rewrite bind_run.
  destruct (if skipIfExists then access _ else ret false) eqn:Hfound.
  assert (Hw : exists b, (p, r) = (w, [], Ok b)).
  { destruct skipIfExists; inversion Hfound; eauto. }
  destruct Hw as [b [= -> ->]]. destruct b.
  - specialize (IH (S idx)
                  (<[idx := path_join outputDir (audioFileName stream idx)]>
                     outputPaths) w).
    by destruct (extractAudio_from _ _ _ rest _ _ w) as [[w2 t2] r2].
  - rewrite bind_run. unfold spawn.
    destruct (spawn_ffmpeg w _) as [w1 [proc | e]] eqn:Hspawn.
    + destruct (pr_exit proc =? 0);
        [specialize (IH (S idx)
                       (<[idx := path_join outputDir
                                   (audioFileName stream idx)]> outputPaths) w1)
        | specialize (IH (S idx) outputPaths w1)];
        destruct (extractAudio_from _ _ _ rest _ _ w1) as [[w2 t2] r2];
        simpl in *; (split; [by constructor; [| apply IH] | apply IH]).
    + simpl. split; [by repeat constructor |]. intros Hstarts.
      destruct (Hstarts w (audioArgs inputPath
                             (path_join outputDir (audioFileName stream idx))
                             stream idx)) as [proc Hproc].
      rewrite Hspawn in Hproc. discriminate Hproc.
Qed.

(** A run of [startTranscoding] that gets its directories and starts its
    extraction processes ends with the call of the packager, right after the
    rendition loop, on the inputs prepared from the files that the loop
    announced as complete and from the audio and subtitle files named after
    the probed streams; any other run throws before the loop, with nothing in
    its trace when every process can be started. *)
Lemma startTranscoding_run (devMode : bool) (mediaInfo : MediaInfo)
    (sourcePath outputPath : string) (availableRenditions : list Rendition)
    (renditionQualities : list RenditionQuality) (hwAccel : HWAccelInfo)
    (hybrid : option HybridHWAccel) (w : World) :
  let run := startTranscoding devMode mediaInfo sourcePath outputPath
               availableRenditions renditionQualities hwAccel hybrid w in
  let tmpDir := path_join outputPath "tmp" in
  (exists e, run.2 = Throw e /\ extraction_only run.1.2
             /\ (ffmpeg_starts -> run.1.2 = []))
  \/ exists (w1 : World) (before : list Event),
       let loop :=
         transcodeRenditions sourcePath tmpDir
           (match hybrid with Some h => hy_vp9 h | None => hwAccel end)
           (match hybrid with Some h => hy_hevc h | None => hwAccel end)
           mediaInfo (getTranscodeSettings (if devMode then dev else prod))
           devMode (filterRenditions availableRenditions renditionQualities)
           [] w1 in
       extraction_only before
       /\ run.1.2
          = before ++ loop.1.2
            ++ [RunPackager
                  (preparePackagerInputs (completions loop.1.2)
                     (audioFilesOf tmpDir mediaInfo)
                     (subtitleFilesOf tmpDir mediaInfo))
                  outputPath devMode].
Proof.
  intros run tmpDir. subst run.
  unfold startTranscoding, ensureOutputDir, ensureTmpDir, mkdir.
  rewrite bind_run.
  destruct (fs_mkdir w outputPath) as [wa [[] | e]];
    [| left; exists e; split; [done | split; [constructor | done]]].
  rewrite bind_run, bind_run. fold tmpDir.
  destruct (fs_mkdir wa tmpDir) as [wb [[] | e]];
    [| left; exists e; split; [done | split; [constructor | done]]].
  change (ret tmpDir wb) with (wb, @nil Event, @Ok string tmpDir).
  cbv beta iota. rewrite bind_run.
  match goal with
  | |- context [match ?subs wb with _ => _ end] =>
      assert (Hsubs : extraction_only (subs wb).1.2
                      /\ (ffmpeg_starts -> exists u, (subs wb).2 = Ok u));
      [| destruct (subs wb) as [[wc tc] [[] | e]]; simpl in Hsubs;
         destruct Hsubs as [Htc Hsubs] ]
  end.
  { destruct (subtitleStreams mediaInfo);
      [split; [constructor | by exists tt] |].
    rewrite bind_run. unfold extractSubtitles. rewrite bind_emit.
    destruct (extractSubtitles_from_trace sourcePath tmpDir devMode (s :: l)
                0%nat ∅ wb) as [Ht Hm].
    destruct (extractSubtitles_from _ _ _ _ _ _ wb) as [[w2 t2] [m | e]];
      simpl in *.
    - split; [| by exists tt]. rewrite app_nil_r. constructor; [by left | done].
    - split; [by constructor; [left |] |].
      intros Hstarts. by destruct (Hm Hstarts). }
  2: { left. exists e. simpl. split; [done |]. split; [exact Htc |].
       intros Hstarts. by destruct (Hsubs Hstarts). }
  rewrite bind_run.
  match goal with
  | |- context [match ?auds wc with _ => _ end] =>
      assert (Hauds : extraction_only (auds wc).1.2
                      /\ (ffmpeg_starts -> exists u, (auds wc).2 = Ok u));
      [| destruct (auds wc) as [[wd td] [[] | e]]; simpl in Hauds;
         destruct Hauds as [Htd Hauds] ]
  end.
  { destruct (audioStreams mediaInfo);
      [split; [constructor | by exists tt] |].
    rewrite bind_run. unfold extractAudio. rewrite bind_emit.
    destruct (extractAudio_from_trace sourcePath tmpDir devMode (a :: l)
                0%nat ∅ wc) as [Ht Hm].
    destruct (extractAudio_from _ _ _ _ _ _ wc) as [[w2 t2] [m | e]];
      simpl in *.
    - split; [| by exists tt]. rewrite app_nil_r. constructor; [by right | done].
    - split; [by constructor; [right |] |].
      intros Hstarts. by destruct (Hm Hstarts). }
  2: { left. exists e. simpl. split; [done |].
       split; [by apply Forall_app |].
       intros Hstarts. by destruct (Hauds Hstarts). }
  right. rewrite bind_run. exists wd, (tc ++ td).
  pose proof (transcodeRenditions_run sourcePath tmpDir
                (match hybrid with Some h => hy_vp9 h | None => hwAccel end)
                (match hybrid with Some h => hy_hevc h | None => hwAccel end)
                mediaInfo (getTranscodeSettings (if devMode then dev else prod))
                devMode (filterRenditions availableRenditions
                           renditionQualities) [] wd) as [_ Hloop].
  destruct (transcodeRenditions _ _ _ _ _ _ _ _ _ wd) as [[we te] re].
  simpl in Hloop. subst re. unfold packager.
  destruct (runPackager we _ outputPath devMode) as [wf rf]. simpl.
  split; [by apply Forall_app |]. by rewrite <- !app_assoc.
Qed.


End Orchestrator.


(** The run of the witness, in full: the VP9 job of the 2160p tier fails, its
    HEVC job runs all the same, and the HEVC file alone is returned. *)
Example vp9_failure_run :
  sections vp9_failure_loop.1.2
  = ["Transcoding 2160p VP9"; "Transcoding 2160p HEVC"]
  /\ length (spawned vp9_failure_loop.1.2) = 2%nat
  /\ vp9_failure_loop.2
     = Ok [{| vf_path := "out/tmp/video_2160p_hevc.mp4";
              vf_quality := Q2160p; vf_codec := hevc |}].
Proof. vm_compute. repeat split; reflexivity. Qed.

(** ** Output names of the extractors *)

Lemma app_String (a : ascii) (l s : string) :
  String a l +:+ s = String a (l +:+ s).
Proof. reflexivity. Qed.

Lemma app_app (a b c : string) : a +:+ b +:+ c = (a +:+ b) +:+ c.
Proof. induction a as [| x a IH]; [done |]. by rewrite !app_String, IH. Qed.

Lemma occurs_app (c : ascii) (a b : string) :
  occurs c (a +:+ b) <-> occurs c a \/ occurs c b.
Proof.
  induction a as [| x a IH]; [simpl; tauto |].
  rewrite app_String. simpl. tauto.
Qed.

(** A string is cut in one way only at the last occurrence of a character. *)
Lemma app_sep_inj (c : ascii) (l1 : string) :
  forall l2 d1 d2 : string,
    ~ occurs c d1 -> ~ occurs c d2 ->
    l1 +:+ String c d1 = l2 +:+ String c d2 ->
    l1 = l2 /\ d1 = d2.
Proof.
  induction l1 as [| x l1 IH]; intros [| y l2] d1 d2 H1 H2 Heq.
  - by injection Heq as ->.
  - exfalso. rewrite app_String in Heq. injection Heq as -> ->.
    apply H1, occurs_app. right. by left.
  - exfalso. rewrite app_String in Heq. injection Heq as -> <-.
    apply H2, occurs_app. right. by left.
  - rewrite !app_String in Heq. injection Heq as -> Heq.
    by destruct (IH l2 d1 d2 H1 H2 Heq) as [-> ->].
Qed.

Lemma pretty_N_char_not_underscore (x : N) : pretty_N_char x <> "_"%char.
Proof. unfold pretty_N_char. by repeat case_match. Qed.

Lemma pretty_N_go_no_underscore (x : N) :
  forall s, ~ occurs "_" s -> ~ occurs "_" (pretty_N_go x s).
Proof.
  induction (N.lt_wf_0 x) as [x _ IH]; intros s Hs.
  destruct (decide (x = 0%N)) as [-> | Hx]; [by rewrite pretty_N_go_0 |].
  rewrite pretty_N_go_step by lia. apply IH; [apply N.div_lt; lia |].
  simpl. intros [Hc | Hr]; [by apply pretty_N_char_not_underscore in Hc | done].
Qed.

Lemma pretty_nat_no_underscore (n : nat) : ~ occurs "_" (pretty n).
Proof.
  unfold pretty, pretty_nat, pretty, pretty_N.
  destruct (decide _); [simpl; intros [Hc | []]; discriminate |].
  apply pretty_N_go_no_underscore. simpl. tauto.
Qed.

(** The audio names embed the index: two names of different indices differ,
    whatever the languages. *)
Lemma audioFileName_inj (s1 s2 : AudioStream) (n1 n2 : nat) :
  audioFileName s1 n1 = audioFileName s2 n2 -> n1 = n2.
Proof.
  unfold audioFileName. intros Heq.
  change ("_" +:+ pretty n1 +:+ ".mp4")
    with (String "_" (pretty n1 +:+ String "." "mp4")) in Heq.
  change ("_" +:+ pretty n2 +:+ ".mp4")
    with (String "_" (pretty n2 +:+ String "." "mp4")) in Heq.
  rewrite (app_app "audio_"), (app_app "audio_") in Heq.
  apply app_sep_inj in Heq as [_ Heq].
  - apply app_sep_inj in Heq as [Heq _];
      [by apply (inj pretty) | simpl; intuition discriminate ..].
  - rewrite occurs_app. intros [H | H]; [by apply pretty_nat_no_underscore in H |].
    simpl in H. intuition discriminate.
  - rewrite occurs_app. intros [H | H]; [by apply pretty_nat_no_underscore in H |].
    simpl in H. intuition discriminate.
Qed.

Section SubtitleFacts.

Context {E : Env}.

Lemma subtitleCommands_cons (inputPath outputDir : string)
    (stream : SubtitleStream) (rest : list SubtitleStream) (idx : nat) :
  subtitleCommands inputPath outputDir (stream :: rest) idx
  = subtitleArgs inputPath (path_join outputDir (subtitleFileName stream)) idx
    :: subtitleCommands inputPath outputDir rest (S idx).
Proof.
  unfold subtitleCommands. simpl. rewrite Nat.add_0_r. f_equal.
  apply imap_ext. intros k s _. simpl. f_equal. lia.
Qed.

(** The rest of the loop, after the step of the track at [idx], which was
    extracted by a process or skipped. *)
Lemma subtitle_loop_step (inputPath outputDir : string) (skipIfExists : bool)
    (stream : SubtitleStream) (rest : list SubtitleStream) (idx : nat)
    (before after : gmap nat string) (extracted : bool)
    (run : World * list Event * Result (gmap nat string)) :
  let outputPath := path_join outputDir (subtitleFileName stream) in
  let step :=
    if extracted
    then [Spawn "ffmpeg" (subtitleArgs inputPath outputPath idx)] else [] in
  subtitle_loop_spec inputPath outputDir skipIfExists rest (S idx) after run ->
  (extracted = false -> skipIfExists = true) ->
  (forall k, k <> idx -> after !! k = before !! k) ->
  (after !! idx = Some outputPath
   \/ after !! idx = before !! idx /\ ~ extractions_succeed) ->
  subtitle_loop_spec inputPath outputDir skipIfExists (stream :: rest) idx
    before (run.1.1, step ++ run.1.2, run.2).
Proof.
  intros outputPath step (Hsub & Hpre & Hmap & Hthrow & Hstarts & Hsucc) Hskip
    Hother Hhere.
  unfold subtitle_loop_spec. rewrite subtitleCommands_cons. fold outputPath.
  assert (Hspawned :
            spawned (step ++ run.1.2)
            = (if extracted then [subtitleArgs inputPath outputPath idx]
               else []) ++ spawned run.1.2).
  { unfold spawned. rewrite omap_app. subst step. by destruct extracted. }
  cbn [fst snd]. rewrite Hspawned.
  split; [| split; [| split; [| split; [| split]]]].
  - destruct extracted; simpl; [by apply sublist_skip | by apply sublist_cons].
  - intros Hoff. destruct extracted; [| rewrite Hskip in Hoff; done].
    simpl. apply prefix_cons. by apply Hpre.
  - intros m Hm. destruct (Hmap m Hm) as (Hall & Hlow & Hnew).
    split; [| split].
    + intros Hoff. destruct extracted; [| rewrite Hskip in Hoff; done].
      simpl. f_equal. by apply Hall.
    + intros k Hk. simpl in Hk. rewrite Hlow by lia. apply Hother. lia.
    + intros [| k] s Hk.
      * injection Hk as <-. rewrite Nat.add_0_r, Hlow by lia.
        destruct Hhere as [Hhere | [Hhere _]]; [by left | by right].
      * replace (idx + S k)%nat with (S idx + k)%nat by lia.
        destruct (Hnew k s Hk) as [Hk' | Hk']; [by left | right].
        rewrite Hk'. apply Hother. lia.
  - intros e He. destruct (Hthrow e He) as (args & w0 & w1 & Hlast & Hfail).
    exists args, w0, w1. split; [| exact Hfail].
    destruct (spawned run.1.2) as [| a l] eqn:Hl; [discriminate Hlast |].
    rewrite last_app, Hlast. done.
  - exact Hstarts.
  - intros Hall. destruct (Hsucc Hall) as (m & Hm & Hnew).
    exists m. split; [exact Hm |].
    destruct (Hmap m Hm) as (_ & Hlow & _).
    intros [| k] s Hk.
    + injection Hk as <-. rewrite Nat.add_0_r, Hlow by lia.
      by destruct Hhere as [Hhere | [_ Hhere]].
    + replace (idx + S k)%nat with (S idx + k)%nat by lia. by apply Hnew.
Qed.

Lemma extractSubtitles_from_spec (inputPath outputDir : string)
    (skipIfExists : bool) (streams : list SubtitleStream) :
  forall (idx : nat) (before : gmap nat string) (w : World),
    subtitle_loop_spec inputPath outputDir skipIfExists streams idx before
      (extractSubtitles_from inputPath outputDir skipIfExists streams idx
         before w).
Proof.
  induction streams as [| stream rest IH]; intros idx before w.
  - simpl. split; [done |]. split; [done |]. split; [| split; [| split]].
    + intros m [= <-]. split; [done |]. split; [done |].
      intros k s Hk. by rewrite lookup_nil in Hk.
    + intros e He. discriminate He.
    + intros _. by exists before.
    + intros _. exists before. split; [done |].
      intros k s Hk. by rewrite lookup_nil in Hk.
  - cbn [extractSubtitles_from]. rewrite bind_run.
    set (outputPath := path_join outputDir (subtitleFileName stream)).
    assert (Hfound :
              exists b,
                (if skipIfExists then access outputPath else ret false) w
                = (w, [], Ok b)
                /\ (b = true -> skipIfExists = true))
      by (destruct skipIfExists; eauto).
    destruct Hfound as (b & -> & Hb). destruct b.
    + pose proof (IH (S idx) (<[idx := outputPath]> before) w) as Hrest.
      destruct (extractSubtitles_from _ _ _ rest _ _ w) as [[w2 t2] r2].
      apply (subtitle_loop_step inputPath outputDir skipIfExists stream rest
               idx before (<[idx := outputPath]> before) false (w2, t2, r2)
               Hrest).
      * intros _. by apply Hb.
      * intros k Hk. apply lookup_insert_ne. lia.
      * left. apply lookup_insert_eq.
    + rewrite bind_run. unfold spawn.
      pose proof (fun H : extractions_succeed =>
                    H w (subtitleArgs inputPath outputPath idx)) as Hexit.
      pose proof (fun H : ffmpeg_starts =>
                    H w (subtitleArgs inputPath outputPath idx)) as Hstart.
      destruct (spawn_ffmpeg w _) as [w1 [proc | e]] eqn:Hspawn;
        simpl in Hexit, Hstart.
      * destruct (pr_exit proc =? 0) eqn:Hcode.
        -- pose proof (IH (S idx) (<[idx := outputPath]> before) w1) as Hrest.
           destruct (extractSubtitles_from _ _ _ rest _ _ w1)
             as [[w2 t2] r2].
           apply (subtitle_loop_step inputPath outputDir skipIfExists stream
                    rest idx before (<[idx := outputPath]> before) true
                    (w2, t2, r2) Hrest).
           ++ done.
           ++ intros k Hk. apply lookup_insert_ne. lia.
           ++ left. apply lookup_insert_eq.
        -- pose proof (IH (S idx) before w1) as Hrest.
           destruct (extractSubtitles_from _ _ _ rest _ _ w1)
             as [[w2 t2] r2].
           apply (subtitle_loop_step inputPath outputDir skipIfExists stream
                    rest idx before before true (w2, t2, r2) Hrest).
           ++ done.
           ++ done.
           ++ right. split; [done |]. intros Hsucc.
              destruct (Hexit Hsucc) as (proc' & [= <-] & Hzero).
              apply Z.eqb_neq in Hcode. done.
      * unfold subtitle_loop_spec. rewrite subtitleCommands_cons.
        fold outputPath. simpl.
        split; [apply sublist_skip, sublist_nil_l |].
        split; [intros _; by eexists |].
        split; [intros m Hm; discriminate Hm |]. split; [| split].
        -- intros e' [= <-].
           by exists (subtitleArgs inputPath outputPath idx), w, w1.
        -- intros Hs. by destruct (Hstart Hs).
        -- intros Hs. by destruct (Hexit Hs) as (proc & Hproc & _).
Qed.

End SubtitleFacts.

Section SubtitleTheorems.

Context {E : Env}.

Lemma subtitleCommands_lookup (inputPath outputDir : string)
    (streams : list SubtitleStream) (idx k : nat) :
  subtitleCommands inputPath outputDir streams idx !! k
  = (fun s => subtitleArgs inputPath
                (path_join outputDir (subtitleFileName s)) (idx + k))
    <$> streams !! k.
Proof. unfold subtitleCommands. by rewrite list_lookup_imap. Qed.

Lemma subtitleCommands_elem (inputPath outputDir : string)
    (streams : list SubtitleStream) (idx : nat) (args : list string) :
  args ∈ subtitleCommands inputPath outputDir streams idx ->
  exists k s,
    streams !! k = Some s
    /\ args = subtitleArgs inputPath
                (path_join outputDir (subtitleFileName s)) (idx + k).
Proof.
  intros Hin. apply list_elem_of_lookup in Hin as [k Hk].
  rewrite subtitleCommands_lookup in Hk.
  destruct (streams !! k) as [s |] eqn:Hs; [| discriminate].
  injection Hk as <-. by exists k, s.
Qed.

Lemma subtitleArgs_index (inputPath1 inputPath2 p1 p2 : string)
    (k1 k2 : nat) :
  subtitleArgs inputPath1 p1 k1 = subtitleArgs inputPath2 p2 k2 -> k1 = k2.
Proof.
  unfold subtitleArgs. intros Heq.
  assert (Hmap : "0:s:" +:+ pretty k1 = "0:s:" +:+ pretty k2)
    by exact (f_equal (fun l => default EmptyString (l !! 4%nat)) Heq).
  apply (f_equal (Str.strip_prefix "0:s:")) in Hmap.
  rewrite !strip_prefix_app in Hmap. injection Hmap as Hmap.
  by apply (inj pretty).
Qed.

(** The loop over two lists in a row is the loop over the first and then,
    when that one returns, the loop over the second. *)
Lemma extractSubtitles_from_app (inputPath outputDir : string)
    (skipIfExists : bool) (l1 l2 : list SubtitleStream) :
  forall (idx : nat) (before : gmap nat string) (w : World),
    extractSubtitles_from inputPath outputDir skipIfExists (l1 ++ l2) idx
      before w
    = match extractSubtitles_from inputPath outputDir skipIfExists l1 idx
              before w with
      | (w1, t1, Ok m) =>
          match extractSubtitles_from inputPath outputDir skipIfExists l2
                  (idx + length l1) m w1 with
          | (w2, t2, r) => (w2, t1 ++ t2, r)
          end
      | (w1, t1, Throw e) => (w1, t1, Throw e)
      end.
Proof.
  induction l1 as [| stream rest IH]; intros idx before w.
  - simpl. rewrite Nat.add_0_r.
    by destruct (extractSubtitles_from _ _ _ l2 _ _ w) as [[w2 t2] r].
  - cbn [app extractSubtitles_from length]. rewrite !bind_run.
    replace (idx + S (length rest))%nat with (S idx + length rest)%nat by lia.
    set (outputPath := path_join outputDir (subtitleFileName stream)).
    assert (Hfound :
              exists b,
                (if skipIfExists then access outputPath else ret false) w
                = (w, [], Ok b))
      by (destruct skipIfExists; eauto).
    destruct Hfound as (b & ->). destruct b.
    + rewrite IH.
      destruct (extractSubtitles_from _ _ _ rest _ _ w) as [[w1 t1] [m | e]];
        [| done].
      by destruct (extractSubtitles_from _ _ _ l2 _ _ w1) as [[w2 t2] r].
    + rewrite !bind_run. unfold spawn.
      destruct (spawn_ffmpeg w _) as [w0 [proc | e]]; [| done].
      destruct (pr_exit proc =? 0); rewrite IH;
        (destruct (extractSubtitles_from _ _ _ rest _ _ w0)
           as [[w1 t1] [m | e]]; [| done]);
        by destruct (extractSubtitles_from _ _ _ l2 _ _ w1) as [[w2 t2] r].
Qed.

(** With skip-if-exists on, a track whose file is there when its turn comes
    is bound to that file, and no process is started for it. *)
Lemma extractSubtitles_from_turn (inputPath outputDir : string)
    (streams : list SubtitleStream) (j : nat) (s : SubtitleStream)
    (w : World) :
  streams !! j = Some s ->
  let run := extractSubtitles_from inputPath outputDir true streams 0%nat ∅ w in
  let turn := extractSubtitles_from inputPath outputDir true (take j streams)
                0%nat ∅ w in
  let p := path_join outputDir (subtitleFileName s) in
  fs_access turn.1.1 p = true ->
  (subtitleArgs inputPath p j ∉ spawned run.1.2)
  /\ forall m, run.2 = Ok m -> m !! j = Some p.
Proof.
  intros Hj run turn p Hthere.
  assert (Hlen : length (take j streams) = j).
  { apply lookup_lt_Some in Hj. rewrite length_take. lia. }
  assert (Hrun :
            run
            = match turn with
              | (w1, t1, Ok m) =>
                  match extractSubtitles_from inputPath outputDir true
                          (drop j streams) j m w1 with
                  | (w2, t2, r) => (w2, t1 ++ t2, r)
                  end
              | (w1, t1, Throw e) => (w1, t1, Throw e)
              end).
  { subst run turn.
    transitivity (extractSubtitles_from inputPath outputDir true
                    (take j streams ++ drop j streams) 0%nat ∅ w);
      [by rewrite take_drop |].
    by rewrite extractSubtitles_from_app, Hlen. }
  rewrite Hrun. clear Hrun run.
  pose proof (extractSubtitles_from_spec inputPath outputDir true
                (take j streams) 0%nat ∅ w) as (Hsub1 & _).
  fold turn in Hsub1.
  destruct turn as [[w1 t1] [mj | e]]; simpl in Hthere, Hsub1.
  2: { simpl. split; [| intros m Hm; discriminate Hm].
       intros Hin. apply (fun H => elem_of_sublist _ _ _ H Hsub1) in Hin.
       apply subtitleCommands_elem in Hin as (k & s' & Hk & Heq).
       apply subtitleArgs_index in Heq. apply lookup_lt_Some in Hk.
       rewrite Hlen in Hk. lia. }
  rewrite (drop_S _ _ _ Hj), extractSubtitles_from_skip by exact Hthere.
  pose proof (extractSubtitles_from_spec inputPath outputDir true
                (drop (S j) streams) (S j) (<[j := p]> mj) w1)
    as (Hsub2 & _ & Hmap & _).
  destruct (extractSubtitles_from _ _ _ (drop (S j) streams) _ _ w1)
    as [[w2 t2] r2]. simpl in *. split.
  - unfold spawned. rewrite omap_app. intros Hin.
    apply elem_of_app in Hin as [Hin | Hin].
    + apply (fun H => elem_of_sublist _ _ _ H Hsub1) in Hin.
      apply subtitleCommands_elem in Hin as (k & s' & Hk & Heq).
      apply subtitleArgs_index in Heq. apply lookup_lt_Some in Hk.
      rewrite Hlen in Hk. lia.
    + apply (fun H => elem_of_sublist _ _ _ H Hsub2) in Hin.
      apply subtitleCommands_elem in Hin as (k & s' & Hk & Heq).
      apply subtitleArgs_index in Heq. lia.
  - intros m Hm. destruct (Hmap m Hm) as (_ & Hlow & _).
    rewrite Hlow by lia. apply lookup_insert_eq.
Qed.

End SubtitleTheorems.

Section SubtitleCollision.

Context {E : Env}.

(** C10 (as amended): two subtitle tracks of the same language and type, the
    earlier at [i] and the later at [j], get the same output path,
    [sub_<language><suffix>.vtt] in the output directory, and their
    extraction commands are overwriting ([-y]) commands onto that path.  The
    commands of a run are commands of the tracks, in track order and at most
    one for a track.  With skip-if-exists off they are the commands of all the
    tracks up to the first process that cannot be started, and of all of them
    when the extractor returns, so the later extraction then overwrites the
    earlier one.  With skip-if-exists on, a later track whose file is there
    when its turn comes is not extracted: no command is spawned for it and
    its index is bound to the file that is there.  A returned map binds
    either index to nothing else than that path; the extractor returns when
    every process can be started, and binds both indices to the path when
    every process succeeds.  The audio names embed the index: the names of
    two different indices differ. *)
Theorem subtitle_outputs_collide :
  (forall inputPath outputDir streams skipIfExists w i j s1 s2,
      (i < j)%nat -> streams !! i = Some s1 -> streams !! j = Some s2 ->
      s_language s1 = s_language s2 -> s_type s1 = s_type s2 ->
      let run := extractSubtitles inputPath outputDir streams skipIfExists w in
      let p :=
        path_join outputDir
          ("sub_" +:+ s_language s1 +:+ subtitleSuffix (s_type s1) +:+ ".vtt")
      in
      let commands := subtitleCommands inputPath outputDir streams 0 in
      let turn :=
        extractSubtitles_from inputPath outputDir skipIfExists
          (take j streams) 0%nat ∅ w in
      path_join outputDir (subtitleFileName s1) = p
      /\ path_join outputDir (subtitleFileName s2) = p
      /\ commands !! i = Some (subtitleArgs inputPath p i)
      /\ commands !! j = Some (subtitleArgs inputPath p j)
      /\ head (subtitleArgs inputPath p i) = Some "-y"
      /\ last (subtitleArgs inputPath p i) = Some p
      /\ head (subtitleArgs inputPath p j) = Some "-y"
      /\ last (subtitleArgs inputPath p j) = Some p
      /\ spawned run.1.2 `sublist_of` commands
      /\ (skipIfExists = false ->
          spawned run.1.2 `prefix_of` commands
          /\ forall m, run.2 = Ok m -> spawned run.1.2 = commands)
      /\ (skipIfExists = true -> fs_access turn.1.1 p = true ->
          (subtitleArgs inputPath p j ∉ spawned run.1.2)
          /\ forall m, run.2 = Ok m -> m !! j = Some p)
      /\ (forall m, run.2 = Ok m ->
                    (m !! i = Some p \/ m !! i = None)
                    /\ (m !! j = Some p \/ m !! j = None))
      /\ (ffmpeg_starts -> exists m, run.2 = Ok m)
      /\ (extractions_succeed ->
          exists m, run.2 = Ok m /\ m !! i = Some p /\ m !! j = Some p))
  /\ (forall (a1 a2 : AudioStream) (n1 n2 : nat),
        n1 <> n2 -> audioFileName a1 n1 <> audioFileName a2 n2).
Proof.
  split.
  - intros inputPath outputDir streams skipIfExists w i j s1 s2 Hij H1 H2
      Hlang Htype run p commands turn.
    assert (Hp1 : path_join outputDir (subtitleFileName s1) = p) by reflexivity.
    assert (Hp2 : path_join outputDir (subtitleFileName s2) = p)
      by (unfold subtitleFileName; by rewrite <- Hlang, <- Htype).
    split; [exact Hp1 |]. split; [exact Hp2 |].
    split; [subst commands; by rewrite subtitleCommands_lookup, H1, <- Hp1 |].
    split; [subst commands; by rewrite subtitleCommands_lookup, H2, <- Hp2 |].
    do 4 (split; [done |]).
    assert (Hrun :
              spawned run.1.2
              = spawned (extractSubtitles_from inputPath outputDir
                           skipIfExists streams 0%nat ∅ w).1.2
              /\ run.2
                 = (extractSubtitles_from inputPath outputDir skipIfExists
                      streams 0%nat ∅ w).2).
    { subst run. unfold extractSubtitles. rewrite bind_emit.
      destruct (extractSubtitles_from inputPath outputDir skipIfExists
                  streams 0%nat ∅ w) as [[w2 t2] r2].
      split; reflexivity. }
    destruct Hrun as [-> ->].
    pose proof (extractSubtitles_from_spec inputPath outputDir skipIfExists
                  streams 0%nat ∅ w)
      as (Hsub & Hpre & Hmap & _ & Hstarts & Hsucc).
    fold commands in Hsub, Hpre, Hmap.
    split; [exact Hsub |]. split; [| split; [| split; [| split]]].
    + intros Hoff. split; [by apply Hpre |].
      intros m Hm. by apply (Hmap m Hm).
    + intros -> Hthere. rewrite <- Hp2.
      apply (extractSubtitles_from_turn inputPath outputDir streams j s2 w H2).
      subst turn. by rewrite Hp2.
    + intros m Hm. destruct (Hmap m Hm) as (_ & _ & Hnew).
      pose proof (Hnew i s1 H1) as Hi. pose proof (Hnew j s2 H2) as Hj.
      rewrite Hp1, lookup_empty in Hi. rewrite Hp2, lookup_empty in Hj.
      by split.
    + exact Hstarts.
    + intros Hall. destruct (Hsucc Hall) as (m & Hm & Hnew).
      exists m. split; [exact Hm |]. split.
      * rewrite <- Hp1. by apply (Hnew i).
      * rewrite <- Hp2. by apply (Hnew j).
  - intros a1 a2 n1 n2 Hne Heq. by apply audioFileName_inj in Heq.
Qed.

End SubtitleCollision.

Lemma subtitle_outputs_collide_witness :
  extractions_succeed (E := all_succeed)
  /\ exists m : gmap nat string,
       (extractSubtitles (E := all_succeed) "in.mkv" "out/tmp"
          [eng_subtitle 0; eng_subtitle 1] false tt).2 = Ok m
       /\ m !! 0%nat = Some "out/tmp/sub_eng.vtt"
       /\ m !! 1%nat = Some "out/tmp/sub_eng.vtt".
Proof.
  assert (Hsucc : extractions_succeed (E := all_succeed))
    by (intros w args; by exists (exits 0)).
  split; [exact Hsucc |].
  exact (proj2 (proj2 (proj2 (proj2 (proj2 (proj2 (proj2 (proj2 (proj2 (proj2
           (proj2 (proj2 (proj2
             (proj1 (subtitle_outputs_collide (E := all_succeed))
                "in.mkv" "out/tmp" [eng_subtitle 0; eng_subtitle 1] false tt
                0%nat 1%nat (eng_subtitle 0) (eng_subtitle 1)
                (Nat.lt_0_succ 0) eq_refl eq_refl eq_refl eq_refl)))))))))))))
           Hsucc).
Defined.

(** With skip-if-exists on, the later of two such tracks is not extracted
    once the earlier extraction has left the file: in a world that keeps what
    ffmpeg writes, the only command of the run is that of the earlier track,
    nothing overwrites its output, and both indices are bound to it. *)
Lemma subtitle_later_extraction_skipped_counterexample :
  eng_subtitle 0 <> eng_subtitle 1
  /\ s_language (eng_subtitle 0) = s_language (eng_subtitle 1)
  /\ s_type (eng_subtitle 0) = s_type (eng_subtitle 1)
  /\ spawned skipped_twin.1.2
     = [subtitleArgs "in.mkv" "out/tmp/sub_eng.vtt" 0]
  /\ exists m : gmap nat string,
       skipped_twin.2 = Ok m
       /\ m !! 0%nat = Some "out/tmp/sub_eng.vtt"
       /\ m !! 1%nat = Some "out/tmp/sub_eng.vtt".
Proof.
  split; [discriminate |]. split; [reflexivity |]. split; [reflexivity |].
  split; [by vm_compute |].
  eexists. split; [reflexivity |]. split; by vm_compute.
Qed.

(** ** Progress *)

Lemma hundred : JS.of_Z 100 = JS.Fin false 100.
Proof. by vm_compute. Qed.

(** [Math.min(x, 100)] is never above 100. *)
Lemma min_hundred_clamped (a : JS.num) :
  JS.gtb (JS.min a (JS.of_Z 100)) (JS.of_Z 100) = false.
Proof.
  rewrite hundred. unfold JS.gtb.
  assert (Hrefl : JS.ltb (JS.Fin false 100) (JS.Fin false 100) = false)
    by reflexivity.
  destruct a as [| [|] | s m]; try reflexivity.
  unfold JS.min.
  destruct (JS.ltb (JS.Fin s m) (JS.Fin false 100)) eqn:Hlt.
  - unfold JS.ltb in *. apply negb_true_iff in Hlt. apply negb_false_iff.
    apply Qle_bool_iff. apply not_true_iff_false in Hlt.
    rewrite Qle_bool_iff in Hlt. apply Qlt_le_weak. by apply Qnot_le_lt.
  - destruct (JS.ltb (JS.Fin false 100) (JS.Fin s m)) eqn:Hgt; [exact Hrefl |].
    destruct s; [exact Hgt | exact Hrefl].
Qed.

(** Every snapshot has the percentage and the remaining time of the formulas,
    and its percentage is never above 100. *)
Lemma progressSnapshot_fields (job : TranscodeJob) (pass : Z)
    (totalFrames : JS.num) (stderrBuffer : string) (p : TranscodeProgress) :
  progressSnapshot job pass totalFrames stderrBuffer = Some p ->
  percent p
  = JS.min (JS.mul (JS.div (frame p) totalFrames) (JS.of_Z 100)) (JS.of_Z 100)
  /\ JS.gtb (percent p) (JS.of_Z 100) = false
  /\ eta p
     = (if JS.gtb (fps p) (JS.of_Z 0)
        then JS.div (JS.sub totalFrames (frame p)) (fps p)
        else JS.of_Z 0).
Proof.
  unfold progressSnapshot.
  destruct (frameMatch stderrBuffer) as [m |]; [| discriminate].
  intros [= <-]. cbn [percent frame eta fps].
  split; [reflexivity |]. split; [apply min_hundred_clamped | reflexivity].
Qed.

(** C7, on the code: the snapshot reported after the second progress line
    still carries the frame, fps and speed of the first line, the earliest
    tokens of the buffer, although the most recent tokens, those of the chunk
    just read, are 20, 30 and 1.20. *)
Theorem progress_reports_earliest_tokens :
  map frame progress_reported = [JS.of_Z 10; JS.of_Z 10]
  /\ map fps progress_reported = [JS.of_Z 25; JS.of_Z 25]
  /\ map speed progress_reported
     = [JS.parseFloat "1.01"; JS.parseFloat "1.01"]
  /\ frameMatch progress_chunk_2 = Some "20"
  /\ fpsMatch progress_chunk_2 = Some "30"
  /\ speedMatch progress_chunk_2 = Some "1.20".
Proof. vm_compute. repeat split; reflexivity. Qed.

(** ** Packaging inputs *)

(** C9, on the code: the audio track whose extraction failed is left out of
    the extractor's map, and yet the packager is called with a descriptor for
    the file of that track. *)
Theorem failed_audio_still_packaged :
  (extractAudio (E := audio_fails) "in.mkv" "out/tmp"
     (audioStreams one_audio_source) false tt).2 = Ok ∅
  /\ map (List.filter is_audio_input) (packager_inputs audio_failure_run.1.2)
     = [[{| pi_type := pk_audio;
            pi_filePath := "out/tmp/audio_eng_0.mp4";
            pi_codec := "aac"; pi_quality := None;
            pi_language := Some "eng"; pi_label := None;
            pi_subtitleType := None; pi_isDefault := None;
            pi_index := Some 0%nat |}]]
  /\ map (fun inputs => length inputs) (packager_inputs audio_failure_run.1.2)
     = [5%nat].
Proof. vm_compute. repeat split; reflexivity. Qed.


(** * More properties *)

(** ** The catalog and the selection of renditions *)

Lemma RENDITION_LADDER_sorted : StronglySorted tier_above RENDITION_LADDER.
Proof.
  unfold RENDITION_LADDER.
  repeat (apply SSorted_cons; [| repeat constructor; simpl; lia]).
  apply SSorted_nil.
Qed.

(** On a list sorted for a relation along which a test can only become true,
    the entries that pass the test are a suffix of the list. *)
Lemma filter_sorted_suffix {A : Type} (R : A -> A -> Prop) (p : A -> bool)
    (l : list A) :
  StronglySorted R l ->
  (forall x y, R x y -> p x = true -> p y = true) ->
  List.filter p l `suffix_of` l.
Proof.
  intros Hsorted Hmono. induction Hsorted as [| x l _ IH Hall]; [done |].
  simpl. destruct (p x) eqn:Hpx.
  - replace (List.filter p l) with l; [done |].
    clear IH. induction Hall as [| y l Hxy _ IHl]; [done |].
    simpl. by rewrite (Hmono x y Hxy Hpx), <- IHl.
  - by apply suffix_cons_r.
Qed.

Lemma ladder_ends_with_720p_480p (v : VideoInfo) :
  720 <= v_height v ->
  [Q720p; Q480p] `suffix_of` map quality (buildRenditionLadder v).
Proof.
  intros Hh. unfold buildRenditionLadder, RENDITION_LADDER. simpl.
  assert (H720 : (720 <=? v_height v) = true) by (apply Z.leb_le; lia).
  assert (H480 : (480 <=? v_height v) = true) by (apply Z.leb_le; lia).
  rewrite H720, H480. simpl.
  repeat match goal with
         | |- context [if ?c then _ else _] => destruct c; simpl
         end;
    match goal with
    | |- [Q720p; Q480p] `suffix_of` ?l =>
        match l with
        | context [Q2160p :: Q1440p :: Q1080p :: _] =>
            by exists [Q2160p; Q1440p; Q1080p]
        | context [Q2160p :: Q1440p :: _] => by exists [Q2160p; Q1440p]
        | context [Q2160p :: Q1080p :: _] => by exists [Q2160p; Q1080p]
        | context [Q1440p :: Q1080p :: _] => by exists [Q1440p; Q1080p]
        | context [Q2160p :: _] => by exists [Q2160p]
        | context [Q1440p :: _] => by exists [Q1440p]
        | context [Q1080p :: _] => by exists [Q1080p]
        | _ => by exists []
        end
    end.
Qed.

(** X1: the ladder of a source is a suffix of the catalog, so no tier is
    dropped below a tier that is kept; it is empty exactly when the source is
    both lower than 480 and narrower than 854; and for a source of height 720
    or more it ends with the 720p and 480p tiers. *)
Theorem buildRenditionLadder_has_no_gaps (v : VideoInfo) :
  buildRenditionLadder v `suffix_of` RENDITION_LADDER
  /\ (buildRenditionLadder v = [] <-> v_height v < 480 /\ v_width v < 854)
  /\ (720 <= v_height v ->
      [Q720p; Q480p] `suffix_of` map quality (buildRenditionLadder v)).
Proof.
  split; [| split].
  - apply (filter_sorted_suffix tier_above); [apply RENDITION_LADDER_sorted |].
    intros x y [Hh Hw] Hx.
    apply orb_true_iff in Hx. apply orb_true_iff.
    destruct Hx as [Hx | Hx]; apply Z.leb_le in Hx;
      [left | right]; apply Z.leb_le; lia.
  - unfold buildRenditionLadder, RENDITION_LADDER. simpl.
    repeat match goal with
           | |- context [?a <=? ?b] =>
               destruct (Z.leb_spec a b); simpl
           end;
      (split;
       [ intros Heq; first [discriminate Heq | lia]
       | intros [? ?]; first [reflexivity | exfalso; lia] ]).
  - apply ladder_ends_with_720p_480p.
Qed.

Lemma buildRenditionLadder_has_no_gaps_witness :
  720 <= v_height (sized 1280 720 sample_video)
  /\ [Q720p; Q480p]
     `suffix_of` map quality (buildRenditionLadder (sized 1280 720 sample_video)).
Proof.
  assert (Hh : 720 <= v_height (sized 1280 720 sample_video)) by (simpl; lia).
  split; [exact Hh |].
  exact (proj2 (proj2 (buildRenditionLadder_has_no_gaps
                         (sized 1280 720 sample_video))) Hh).
Defined.

Lemma filterRenditions_sublist (rs : list Rendition)
    (qs : list RenditionQuality) :
  filterRenditions rs qs `sublist_of` rs.
Proof.
  unfold filterRenditions. induction rs as [| r rs IH]; simpl; [done |].
  destruct (bool_decide _); by constructor.
Qed.

Lemma buildRenditionLadder_sublist (v : VideoInfo) :
  buildRenditionLadder v `sublist_of` RENDITION_LADDER.
Proof.
  unfold buildRenditionLadder.
  induction RENDITION_LADDER as [| r l IH]; simpl; [done |].
  destruct (_ || _); by constructor.
Qed.

Lemma filterRenditions_elem (rs : list Rendition) (qs : list RenditionQuality)
    (r : Rendition) :
  r ∈ filterRenditions rs qs <-> r ∈ rs /\ quality r ∈ qs.
Proof.
  unfold filterRenditions.
  split.
  - intros Hin. apply list_elem_of_In, filter_In in Hin as [Hin Hq].
    split; [by apply list_elem_of_In | by apply bool_decide_eq_true in Hq].
  - intros [Hin Hq]. apply list_elem_of_In, filter_In.
    split; [by apply list_elem_of_In | by apply bool_decide_eq_true].
Qed.

Lemma filter_all {A : Type} (p : A -> bool) (l : list A) :
  (forall x, x ∈ l -> p x = true) -> List.filter p l = l.
Proof.
  induction l as [| x l IH]; intros Hall; [done |].
  simpl. rewrite Hall by left. f_equal. apply IH.
  intros y Hy. apply Hall. by right.
Qed.

Lemma filterRenditions_all (rs : list Rendition) :
  filterRenditions rs (map quality rs) = rs.
Proof.
  apply filter_all. intros r Hr. apply bool_decide_eq_true.
  by apply list_elem_of_fmap_2.
Qed.

(** X2: [filterRenditions] keeps, in order, the renditions whose quality is
    selected; selecting the qualities of the list itself gives the list back,
    which is what submitting an empty selection in the rendition menu does;
    and a selection made among the qualities of a non-empty list never leaves
    the transcoder without a rendition. *)
Theorem filterRenditions_selection (rs : list Rendition)
    (qs : list RenditionQuality) :
  filterRenditions rs qs `sublist_of` rs
  /\ (forall r, r ∈ filterRenditions rs qs <-> r ∈ rs /\ quality r ∈ qs)
  /\ filterRenditions rs (map quality rs) = rs
  /\ filterRenditions rs (RenditionSelect_handleSubmit rs []) = rs
  /\ (rs <> [] -> qs ⊆ map quality rs ->
      filterRenditions rs (RenditionSelect_handleSubmit rs qs) <> []).
Proof.
  split; [| split; [| split; [| split]]].
  - apply filterRenditions_sublist.
  - intros r. apply filterRenditions_elem.
  - apply filterRenditions_all.
  - apply filterRenditions_all.
  - intros Hrs Hqs. destruct qs as [| q qs]; simpl.
    + by rewrite filterRenditions_all.
    + assert (Hq : q ∈ map quality rs) by (apply Hqs; left).
      apply list_elem_of_fmap in Hq as (r & -> & Hr).
      intros Hnil.
      assert (Hin : r ∈ filterRenditions rs (quality r :: qs))
        by (apply filterRenditions_elem; split; [done | left]).
      rewrite Hnil in Hin. by apply elem_of_nil in Hin.
Qed.

Lemma filterRenditions_selection_witness :
  RENDITION_LADDER <> []
  /\ [Q720p] ⊆ map quality RENDITION_LADDER
  /\ filterRenditions RENDITION_LADDER
       (RenditionSelect_handleSubmit RENDITION_LADDER [Q720p]) <> [].
Proof.
  assert (Hne : RENDITION_LADDER <> []) by discriminate.
  assert (Hsub : [Q720p] ⊆ map quality RENDITION_LADDER).
  { intros q Hq. apply list_elem_of_singleton in Hq as ->.
    do 3 right. left. }
  split; [exact Hne |]. split; [exact Hsub |].
  exact (proj2 (proj2 (proj2 (proj2
           (filterRenditions_selection RENDITION_LADDER [Q720p])))) Hne Hsub).
Defined.

Lemma sublist_flat_map {A B : Type} (f : A -> list B) (l1 l2 : list A) :
  l1 `sublist_of` l2 -> flat_map f l1 `sublist_of` flat_map f l2.
Proof.
  induction 1 as [| x l1 l2 _ IH | x l1 l2 _ IH]; simpl; [done | |].
  - by apply sublist_app.
  - by apply sublist_inserts_l.
Qed.

(** X3: the jobs of a run never share an output file: for every source and
    every selection, the file names of the VP9 and HEVC jobs of the selected
    renditions are pairwise distinct. *)
Theorem job_output_names_distinct (v : VideoInfo) (qs : list RenditionQuality) :
  NoDup (flat_map (fun r => [getOutputFileName r vp9; getOutputFileName r hevc])
           (filterRenditions (buildRenditionLadder v) qs)).
Proof.
  apply (sublist_NoDup _
           (flat_map (fun r => [getOutputFileName r vp9; getOutputFileName r hevc])
              RENDITION_LADDER)).
  - apply (bool_decide_unpack _). by vm_compute.
  - apply sublist_flat_map. transitivity (buildRenditionLadder v);
      [apply filterRenditions_sublist | apply buildRenditionLadder_sublist].
Qed.

(** ** The detection of the backends and the choices offered *)

Lemma getAvailableHWAccels_Throw (e : string) (name : string) :
  lists (getAvailableHWAccels (Throw e)) name = false.
Proof. reflexivity. Qed.

Lemma getAvailableEncoders_Throw (e : string) (name : string) :
  hasEncoder (getAvailableEncoders (Throw e)) name = false.
Proof. reflexivity. Qed.

Ltac detect_cases :=
  unfold detectHWAcceleration;
  repeat match goal with
         | |- context [if ?c then [?x] else []] => destruct c
         end.

(** X4: whatever the two queries answer, the detector returns the backends in
    the fixed order NVIDIA, Quick Sync, AMF, VA-API, VideoToolbox, each at
    most once, and then the software backend, last and always there; no
    software entry of its result reports hardware VP9 support; and when either
    query fails the software backend is all there is. *)
Theorem detectHWAcceleration_shape (hwaccelsOutput encodersOutput : Result string) :
  (exists hardware,
      detectHWAcceleration hwaccelsOutput encodersOutput
      = hardware ++ [SOFTWARE_CONFIG]
      /\ hardware `sublist_of`
           [HW_ACCEL_CONFIGS.nvidia; HW_ACCEL_CONFIGS.qsv; HW_ACCEL_CONFIGS.amf;
            HW_ACCEL_CONFIGS.vaapi; HW_ACCEL_CONFIGS.videotoolbox])
  /\ NoDup (map method (detectHWAcceleration hwaccelsOutput encodersOutput))
  /\ software_is_plain (detectHWAcceleration hwaccelsOutput encodersOutput)
  /\ ((exists e, hwaccelsOutput = Throw e) \/ (exists e, encodersOutput = Throw e) ->
      detectHWAcceleration hwaccelsOutput encodersOutput = [SOFTWARE_CONFIG]).
Proof.
  split; [| split; [| split]].
  - detect_cases;
      match goal with
      | |- exists hardware, ?l = _ /\ _ =>
          exists (removelast l)
      end;
      (split; [reflexivity |]); simpl;
      repeat first [ apply sublist_nil | apply sublist_skip | apply sublist_cons ].
  - detect_cases; apply (bool_decide_unpack _); by vm_compute.
  - detect_cases; intros a Hin Hsw; apply list_elem_of_In in Hin; simpl in Hin;
      repeat (destruct Hin as [<- | Hin]; [simpl in *; discriminate |]);
      destruct Hin.
  - intros [[e ->] | [e ->]]; unfold detectHWAcceleration.
    + by rewrite !getAvailableHWAccels_Throw.
    + rewrite !getAvailableEncoders_Throw. by rewrite !andb_false_r.
Qed.

Lemma detectHWAcceleration_shape_witness :
  (exists e, Throw (A := string) "ffmpeg: command not found" = Throw e)
  /\ detectHWAcceleration (Throw "ffmpeg: command not found") (Ok encoders_text)
     = [SOFTWARE_CONFIG].
Proof.
  assert (H : exists e, Throw (A := string) "ffmpeg: command not found" = Throw e)
    by (by exists "ffmpeg: command not found").
  split; [exact H |].
  exact (proj2 (proj2 (proj2 (detectHWAcceleration_shape
                                (Throw "ffmpeg: command not found")
                                (Ok encoders_text)))) (or_introl H)).
Defined.

(** X5: on what the detector returns, the hybrid pair is NVIDIA for HEVC with
    Quick Sync for VP9 when both are detected; without Quick Sync it is
    NVIDIA, or else AMF, for HEVC with VA-API for VP9; and there is no pair
    in any other case. *)
Theorem buildHybridConfig_on_detected
    (hwaccelsOutput encodersOutput : Result string) :
  let backends := detectHWAcceleration hwaccelsOutput encodersOutput in
  buildHybridConfig backends
  = if detected qsv backends then
      if detected nvidia backends
      then Some {| hy_hevc := HW_ACCEL_CONFIGS.nvidia;
                   hy_vp9 := HW_ACCEL_CONFIGS.qsv |}
      else None
    else if detected vaapi backends then
      if detected nvidia backends
      then Some {| hy_hevc := HW_ACCEL_CONFIGS.nvidia;
                   hy_vp9 := HW_ACCEL_CONFIGS.vaapi |}
      else if detected amf backends
      then Some {| hy_hevc := HW_ACCEL_CONFIGS.amf;
                   hy_vp9 := HW_ACCEL_CONFIGS.vaapi |}
      else None
    else None.
Proof. intros backends. subst backends. detect_cases; by vm_compute. Qed.

Lemma createHybridDisplayInfo_not_software (hybrid : HybridHWAccel) :
  createHybridDisplayInfo hybrid <> SOFTWARE_CONFIG.
Proof. intros Heq. apply (f_equal displayName) in Heq. discriminate Heq. Qed.

(** X6: while the hybrid option is listed, the value of the software option
    selects the hybrid entry, which is the first entry of the software method,
    and with it the hybrid pair; no value selects the Software (CPU) entry.
    For an entry that the detector returned no hybrid pair is used. *)
Theorem hybrid_option_shadows_software (hwOptions : list HWAccelInfo)
    (hybrid : HybridHWAccel) :
  buildHybridConfig hwOptions = Some hybrid ->
  HWSelect_handleSubmit (displayOptionsOf hwOptions) software
  = Some (createHybridDisplayInfo hybrid)
  /\ handleHWSelect (Some hybrid) (createHybridDisplayInfo hybrid)
     = (createHybridDisplayInfo hybrid, Some hybrid)
  /\ (forall value,
        HWSelect_handleSubmit (displayOptionsOf hwOptions) value
        <> Some SOFTWARE_CONFIG)
  /\ (forall hwaccelsOutput encodersOutput hw,
        hw ∈ detectHWAcceleration hwaccelsOutput encodersOutput ->
        handleHWSelect (Some hybrid) hw = (hw, None)).
Proof.
  intros Hhybrid. unfold displayOptionsOf. rewrite Hhybrid.
  split; [reflexivity |]. split; [reflexivity |]. split.
  - intros value Hfound. destruct (decide (value = software)) as [-> | Hne].
    + change (HWSelect_handleSubmit
                (createHybridDisplayInfo hybrid :: hwOptions) software)
        with (Some (createHybridDisplayInfo hybrid)) in Hfound.
      apply (createHybridDisplayInfo_not_software hybrid). congruence.
    + apply find_some in Hfound as [_ Hm].
      apply bool_decide_eq_true in Hm. simpl in Hm. congruence.
  - intros hwaccelsOutput encodersOutput hw Hin. revert Hin.
    detect_cases; intros Hin; apply list_elem_of_In in Hin; simpl in Hin;
      repeat (destruct Hin as [<- | Hin]; [reflexivity |]); destruct Hin.
Qed.

Lemma hybrid_option_shadows_software_witness :
  buildHybridConfig (detectHWAcceleration (Ok hwaccels_text) (Ok encoders_text))
  = Some {| hy_hevc := HW_ACCEL_CONFIGS.nvidia; hy_vp9 := HW_ACCEL_CONFIGS.qsv |}
  /\ HWSelect_handleSubmit
       (displayOptionsOf
          (detectHWAcceleration (Ok hwaccels_text) (Ok encoders_text)))
       software
     = Some (createHybridDisplayInfo
               {| hy_hevc := HW_ACCEL_CONFIGS.nvidia;
                  hy_vp9 := HW_ACCEL_CONFIGS.qsv |}).
Proof.
  assert (H : buildHybridConfig
                (detectHWAcceleration (Ok hwaccels_text) (Ok encoders_text))
              = Some {| hy_hevc := HW_ACCEL_CONFIGS.nvidia;
                        hy_vp9 := HW_ACCEL_CONFIGS.qsv |}) by (by vm_compute).
  split; [exact H |].
  exact (proj1 (hybrid_option_shadows_software _ _ H)).
Defined.


(** ** The probe *)

Lemma probeMedia_Ok {P : ProbeEnv} (filePath : string) (mi : MediaInfo) :
  probeMedia filePath = Ok mi ->
  file_exists filePath = true
  /\ exists output videoStream h,
       run_ffprobe filePath = Ok output
       /\ first_video output = Some videoStream
       /\ st_height (entry_stream videoStream) = Some h
       /\ 720 <= h
       /\ mi = {| filePath := filePath;
                  fileName := path_basename filePath;
                  duration :=
                    JS.parseFloat
                      (Str.or_default (fmt_duration (format output)) "0");
                  video := parseVideoInfo (entry_stream videoStream);
                  audioStreams :=
                    imap (fun idx s => pa_stream (parseAudioStream s idx))
                      (List.filter (of_type "audio") (streams output));
                  subtitleStreams :=
                    imap (fun idx s => parseSubtitleStream s idx)
                      (List.filter (of_type "subtitle") (streams output)) |}.
Proof.
  unfold probeMedia, first_video.
  destruct (file_exists filePath); [| discriminate]. simpl.
  destruct (run_ffprobe filePath) as [output | e]; [| discriminate].
  destruct (List.find (of_type "video") (streams output)) as [vs |] eqn:Hvs;
    [| discriminate].
  destruct (st_height (entry_stream vs)) as [h |] eqn:Hh; [| discriminate].
  destruct ((h =? 0) || (h <? 720)) eqn:Hlow; [discriminate |].
  intros [= <-]. split; [done |]. exists output, vs, h.
  apply orb_false_iff in Hlow as [_ Hlow]. apply Z.ltb_ge in Hlow.
  repeat split; done.
Qed.

(** X7: [probeMedia] succeeds exactly when the file exists, ffprobe gives a
    report, and the first video stream of the report has a height of 720 or
    more; the video of the result is that stream parsed.  A missing file is
    reported first, then a failed probe, then a report without video, then a
    height that is missing, zero or below 720. *)
Theorem probeMedia_outcome {P : ProbeEnv} (filePath : string) :
  (file_exists filePath = false ->
   probeMedia filePath = Throw ("File not found: " +:+ filePath))
  /\ (forall e, file_exists filePath = true ->
                run_ffprobe filePath = Throw e ->
                probeMedia filePath = Throw ("Failed to probe file: " +:+ e))
  /\ (forall output, file_exists filePath = true ->
                     run_ffprobe filePath = Ok output ->
                     first_video output = None ->
                     probeMedia filePath
                     = Throw "No video stream found in file")
  /\ (forall output videoStream,
        file_exists filePath = true ->
        run_ffprobe filePath = Ok output ->
        first_video output = Some videoStream ->
        (forall h, st_height (entry_stream videoStream) = Some h -> h < 720) ->
        probeMedia filePath
        = Throw ("Video resolution too low: "
                 +:+ height_text (st_height (entry_stream videoStream))
                 +:+ "p. Minimum 720p required."))
  /\ (forall output videoStream h,
        file_exists filePath = true ->
        run_ffprobe filePath = Ok output ->
        first_video output = Some videoStream ->
        st_height (entry_stream videoStream) = Some h -> 720 <= h ->
        exists mi, probeMedia filePath = Ok mi)
  /\ (forall mi,
        probeMedia filePath = Ok mi ->
        file_exists filePath = true
        /\ 720 <= v_height (video mi)
        /\ exists output videoStream,
             run_ffprobe filePath = Ok output
             /\ first_video output = Some videoStream
             /\ video mi = parseVideoInfo (entry_stream videoStream)).
Proof.
  unfold first_video.
  split; [| split; [| split; [| split; [| split]]]].
  - intros Hno. unfold probeMedia. by rewrite Hno.
  - intros e Hyes Hfail. unfold probeMedia. by rewrite Hyes, Hfail.
  - intros output Hyes Hout Hnone. unfold probeMedia.
    by rewrite Hyes, Hout, Hnone.
  - intros output vs Hyes Hout Hvs Hlow. unfold probeMedia.
    rewrite Hyes, Hout, Hvs. simpl.
    destruct (st_height (entry_stream vs)) as [h |]; [| done].
    specialize (Hlow h eq_refl).
    assert (Hlt : (h <? 720) = true) by (apply Z.ltb_lt; lia).
    by rewrite Hlt, orb_true_r.
  - intros output vs h Hyes Hout Hvs Hh Hge. unfold probeMedia.
    rewrite Hyes, Hout, Hvs, Hh. simpl.
    assert (Hnz : (h =? 0) = false) by (apply Z.eqb_neq; lia).
    assert (Hnlt : (h <? 720) = false) by (apply Z.ltb_ge; lia).
    rewrite Hnz, Hnlt. simpl. eauto.
  - intros mi Hok.
    apply probeMedia_Ok in Hok as (Hyes & output & vs & h & Hout & Hvs & Hh & Hge & ->).
    split; [done |]. split.
    + simpl. unfold int_or_zero. by rewrite Hh.
    + by exists output, vs.
Qed.

Lemma probeMedia_outcome_witness :
  file_exists (ProbeEnv := sample_probe) "in.mkv" = true
  /\ run_ffprobe (ProbeEnv := sample_probe) "in.mkv" = Ok sample_report
  /\ first_video sample_report = Some (entry "video" (sized_stream 1920 1080))
  /\ st_height (entry_stream (entry "video" (sized_stream 1920 1080)))
     = Some 1080
  /\ 720 <= 1080
  /\ exists mi, probeMedia (P := sample_probe) "in.mkv" = Ok mi.
Proof.
  assert (H5 : 720 <= 1080) by lia.
  split; [reflexivity |]. split; [reflexivity |]. split; [reflexivity |].
  split; [reflexivity |]. split; [exact H5 |].
  exact (proj1 (proj2 (proj2 (proj2 (proj2
           (probeMedia_outcome (P := sample_probe) "in.mkv")))))
           sample_report (entry "video" (sized_stream 1920 1080)) 1080
           eq_refl eq_refl eq_refl eq_refl H5).
Defined.

(** X8: in a probed file the index of an audio or subtitle stream is its
    position among the streams of its type, not its position in the report:
    the k-th audio stream of the result is the k-th audio stream of the report
    and has index k, and likewise for the subtitles, so that the selectors
    [0:a:k] and [0:s:k] of the extractors pick the streams probed. *)
Theorem probeMedia_relative_indices {P : ProbeEnv} (filePath : string)
    (mi : MediaInfo) (output : FFprobeOutput) :
  probeMedia filePath = Ok mi ->
  run_ffprobe filePath = Ok output ->
  length (audioStreams mi)
  = length (List.filter (of_type "audio") (streams output))
  /\ length (subtitleStreams mi)
     = length (List.filter (of_type "subtitle") (streams output))
  /\ (forall k a,
        audioStreams mi !! k = Some a ->
        a_index a = k
        /\ exists s,
             List.filter (of_type "audio") (streams output) !! k = Some s
             /\ a = pa_stream (parseAudioStream s k))
  /\ (forall k t,
        subtitleStreams mi !! k = Some t ->
        s_index t = k
        /\ exists s,
             List.filter (of_type "subtitle") (streams output) !! k = Some s
             /\ t = parseSubtitleStream s k).
Proof.
  intros Hok Hout.
  apply probeMedia_Ok in Hok as (_ & output' & vs & h & Hout' & _ & _ & _ & ->).
  assert (output' = output) as -> by congruence. simpl.
  split; [apply length_imap |]. split; [apply length_imap |]. split.
  - intros k a Hk. rewrite list_lookup_imap in Hk.
    destruct (List.filter (of_type "audio") (streams output) !! k) as [s |];
      [| discriminate].
    simpl in Hk. injection Hk as <-. split; [done |]. by exists s.
  - intros k t Hk. rewrite list_lookup_imap in Hk.
    destruct (List.filter (of_type "subtitle") (streams output) !! k) as [s |];
      [| discriminate].
    simpl in Hk. injection Hk as <-. split; [done |]. by exists s.
Qed.

Lemma probeMedia_relative_indices_witness :
  exists mi,
    probeMedia (P := sample_probe) "in.mkv" = Ok mi
    /\ run_ffprobe (ProbeEnv := sample_probe) "in.mkv" = Ok sample_report
    /\ map a_index (audioStreams mi) = [0%nat; 1%nat]
    /\ forall k a, audioStreams mi !! k = Some a -> a_index a = k.
Proof.
  destruct (probeMedia (P := sample_probe) "in.mkv") as [mi |] eqn:Hok;
    [| by vm_compute in Hok].
  exists mi. split; [reflexivity |]. split; [reflexivity |].
  split; [vm_compute in Hok; by injection Hok as <- |].
  intros k a Hk.
  exact (proj1 (proj1 (proj2 (proj2
           (probeMedia_relative_indices (P := sample_probe) "in.mkv" mi
              sample_report Hok eq_refl))) k a Hk)).
Defined.



(** ** One job: its passes, its commands and its callbacks *)

Lemma app_empty_r (s : string) : s +:+ EmptyString = s.
Proof. induction s as [| a s IH]; [done |]. by rewrite app_String, IH. Qed.

Lemma readProgress_full (job : TranscodeJob) (pass : Z) (totalFrames : JS.num)
    (chunks : list string) :
  forall stderrBuffer fullStderr,
    (readProgress job pass totalFrames chunks stderrBuffer fullStderr).2
    = fullStderr +:+ joined chunks.
Proof.
  induction chunks as [| chunk rest IH]; intros buffer full.
  - simpl. by rewrite app_empty_r.
  - simpl.
    match goal with
    | |- context [readProgress job pass totalFrames rest ?b ?f] =>
        specialize (IH b f); destruct (readProgress job pass totalFrames rest b f)
    end.
    simpl in *. by rewrite IH, app_app.
Qed.

Ltac normal_trace :=
  repeat first [ rewrite <- app_assoc | rewrite <- app_comm_cons
               | progress simpl ].

Section PassFacts.

Context {E : Env}.

(** What one pass does: it spawns its command and, when the process starts,
    reports the snapshots read from stderr and either announces the pass or
    throws; when the process does not start it throws the error of the
    start. *)
Lemma runPass_run (inputPath outputPath passLogFile scaleFilter : string)
    (job : TranscodeJob) (totalFrames : JS.num) (useHw : bool) (pass : Z)
    (isLastPass : bool) (w : World) :
  let args :=
    ["-y"]
    ++ (if useHw then buildHWAccelInputArgs (j_hwAccel job) else [])
    ++ ["-i"; inputPath] ++ ["-vf"; scaleFilter]
    ++ (match j_codec job with
        | vp9 => buildVP9Args (j_rendition job) (j_settings job) pass
                   passLogFile (j_hwAccel job)
        | hevc => buildHEVCArgs (j_rendition job) (j_settings job)
                    (j_hwAccel job)
        end)
    ++ (if isLastPass then ["-an"; outputPath]
        else ["-an"; "-f"; "null"; if win32 then "NUL" else "/dev/null"]) in
  let start := (spawn_ffmpeg w args).2 in
  runPass inputPath outputPath passLogFile scaleFilter job totalFrames
    useHw pass isLastPass w
  = ((spawn_ffmpeg w args).1,
     Spawn "ffmpeg" args :: passEvents job totalFrames pass start,
     passOutcome start tt).
Proof.
  intros args start. subst start. unfold runPass.
  fold args. rewrite bind_run. unfold spawn at 1.
  destruct (spawn_ffmpeg w args) as [w1 [proc | e]]; [| reflexivity]. simpl.
  pose proof (readProgress_full job pass totalFrames (pr_stderr proc)
                EmptyString EmptyString) as Hfull.
  destruct (readProgress job pass totalFrames (pr_stderr proc) _ _)
    as [reported full].
  simpl in Hfull. subst full.
  unfold bind, emit_all, emit, throw, passError.
  destruct (pr_exit proc =? 0); simpl; by rewrite ?app_nil_r.
Qed.

(** One pass of [transcodeRendition], with the values it closes over. *)
Lemma runPass_job (inputPath outputDir : string) (rendition : Rendition)
    (codec : Codec) (hwAccel : HWAccelInfo) (mediaInfo : MediaInfo)
    (settings : TranscodeSettings) (pass : Z) (isLastPass : bool) (w : World) :
  let cmd :=
    jobCommand inputPath outputDir rendition codec hwAccel mediaInfo settings
      pass isLastPass in
  let job :=
    jobOf inputPath outputDir rendition codec hwAccel mediaInfo settings in
  let tone := needsTonemap rendition codec hwAccel mediaInfo in
  runPass inputPath (path_join outputDir (getOutputFileName rendition codec))
    (path_join outputDir ("ffmpeg2pass_" +:+ quality_name (quality rendition)))
    (buildScaleFilter rendition hwAccel tone codec) job
    (totalFramesOf mediaInfo) (useHwAccelInput codec hwAccel tone)
    pass isLastPass w
  = ((spawn_ffmpeg w cmd).1,
     Spawn "ffmpeg" cmd
     :: passEvents job (totalFramesOf mediaInfo) pass (spawn_ffmpeg w cmd).2,
     passOutcome (spawn_ffmpeg w cmd).2 tt).
Proof. intros cmd job tone. by rewrite runPass_run. Qed.

(** A job that is not skipped, in full: one pass, or two when the first
    is started and succeeds; then the callback that ends it. *)
Lemma transcodeRendition_fresh (inputPath outputDir : string)
    (rendition : Rendition) (codec : Codec) (hwAccel : HWAccelInfo)
    (mediaInfo : MediaInfo) (settings : TranscodeSettings)
    (skipIfExists : bool) (w : World) :
  let outputPath := path_join outputDir (getOutputFileName rendition codec) in
  let cmd :=
    jobCommand inputPath outputDir rendition codec hwAccel mediaInfo settings in
  let job :=
    jobOf inputPath outputDir rendition codec hwAccel mediaInfo settings in
  let events := passEvents job (totalFramesOf mediaInfo) in
  let first := spawn_ffmpeg w (cmd 1 (negb (twoPass codec settings))) in
  let second := spawn_ffmpeg first.1 (cmd 2 true) in
  let result start := passOutcome start outputPath in
  let ended start :=
    match result start with
    | Ok p => OnComplete codec (quality rendition) p
    | Throw e => OnError codec (quality rendition) e
    end in
  skipIfExists = false \/ fs_access w outputPath = false ->
  transcodeRendition inputPath outputDir rendition codec hwAccel mediaInfo
    settings skipIfExists w
  = if twoPass codec settings && passed first.2 then
      (second.1,
       [LogSection (job_title rendition codec); Spawn "ffmpeg" (cmd 1 false)]
       ++ events 1 first.2 ++ [Spawn "ffmpeg" (cmd 2 true)]
       ++ events 2 second.2 ++ [ended second.2],
       result second.2)
    else
      (first.1,
       [LogSection (job_title rendition codec);
        Spawn "ffmpeg" (cmd 1 (negb (twoPass codec settings)))]
       ++ events 1 first.2 ++ [ended first.2],
       result first.2).
Proof.
  intros outputPath cmd job events first second ended result Hfresh.
  subst outputPath. unfold transcodeRendition. rewrite bind_emit.
  fold (getOutputFileName rendition codec).
  fold (jobOf inputPath outputDir rendition codec hwAccel mediaInfo settings).
  fold (job_title rendition codec).
  set (outputPath := path_join outputDir (getOutputFileName rendition codec))
    in *.
  assert (Hskip :
            forall (k : bool -> M string),
              bind (if skipIfExists then access outputPath else ret false) k w
              = k false w).
  { intros k. destruct Hfresh as [-> | Habsent]; [apply bind_ret |].
    destruct skipIfExists; [| apply bind_ret].
    by rewrite bind_access, Habsent. }
  rewrite Hskip. clear Hskip.
  fold (twoPass codec settings).
  unfold try_catch, bind. subst outputPath.
  destruct (twoPass codec settings) eqn:Htwo; simpl negb in *; simpl andb.
  - subst job.
    rewrite (runPass_job inputPath outputDir rendition codec hwAccel
               mediaInfo settings 1 false w).
    fold cmd. fold first.
    subst events ended result.
    destruct first.2 as [proc1 | e1]; cbn [passed passOutcome passEvents];
      [destruct (pr_exit proc1 =? 0) eqn:Hexit1 |].
    + rewrite (runPass_job inputPath outputDir rendition codec hwAccel
                 mediaInfo settings 2 true first.1).
      fold cmd. fold second.
      destruct second.2 as [proc2 | e2]; cbn [passed passOutcome passEvents];
        [destruct (pr_exit proc2 =? 0) eqn:Hexit2 |]; simpl;
        rewrite ?Hexit1, ?Hexit2, ?app_nil_r; by normal_trace.
    + simpl. rewrite ?Hexit1, ?app_nil_r. by normal_trace.
    + simpl. reflexivity.
  - subst job.
    rewrite (runPass_job inputPath outputDir rendition codec hwAccel
               mediaInfo settings 1 true w).
    fold cmd. fold first.
    subst events ended result.
    destruct first.2 as [proc1 | e1]; cbn [passed passOutcome passEvents];
      [destruct (pr_exit proc1 =? 0) eqn:Hexit1 |]; simpl;
      rewrite ?Hexit1, ?app_nil_r; by normal_trace.
Qed.

End PassFacts.

Lemma omap_progress {B : Type} (f : Event -> option B)
    (ps : list TranscodeProgress) :
  (forall p, f (OnProgress p) = None) -> omap f (map OnProgress ps) = [].
Proof. intros Hf. induction ps as [| p ps IH]; [done |]. simpl. by rewrite Hf. Qed.

Lemma nonterminal_silent (t : list Event) :
  Forall (fun e => terminal e = false) t ->
  completions t = [] /\ errors t = [].
Proof.
  induction 1 as [| e t He _ [IHc IHe]]; [done |].
  unfold completions, errors in *.
  destruct e; try discriminate He; simpl; by rewrite ?IHc, ?IHe.
Qed.

Section JobFacts.

Context {E : Env}.

Lemma passEvents_nonterminal (job : TranscodeJob) (totalFrames : JS.num)
    (pass : Z) (start : Result ProcResult) :
  Forall (fun e => terminal e = false) (passEvents job totalFrames pass start).
Proof.
  destruct start as [proc | e]; [| constructor].
  unfold passEvents. apply Forall_app. split.
  - apply Forall_map. by apply Forall_true.
  - destruct (pr_exit proc =? 0); repeat constructor.
Qed.

Lemma passEvents_spawned (job : TranscodeJob) (totalFrames : JS.num)
    (pass : Z) (start : Result ProcResult) :
  spawned (passEvents job totalFrames pass start) = [].
Proof.
  destruct start as [proc | e]; [| done].
  unfold passEvents, spawned. rewrite omap_app, omap_progress by done.
  by destruct (pr_exit proc =? 0).
Qed.

Lemma passEvents_completed (job : TranscodeJob) (totalFrames : JS.num)
    (pass : Z) (start : Result ProcResult) :
  passes_completed (passEvents job totalFrames pass start)
  = if passed start then [pass] else [].
Proof.
  destruct start as [proc | e]; [| done].
  unfold passEvents, passes_completed. rewrite omap_app, omap_progress by done.
  simpl. by destruct (pr_exit proc =? 0).
Qed.

Lemma passOutcome_passed {A : Type} (start : Result ProcResult) (a : A) :
  if passed start then passOutcome start a = Ok a
  else exists e, passOutcome start a = Throw e.
Proof.
  destruct start as [proc | e]; simpl; [| by exists e].
  destruct (pr_exit proc =? 0); [done | by eexists].
Qed.

(** A job whose output is there and may be skipped. *)
Lemma transcodeRendition_skipped (inputPath outputDir : string)
    (rendition : Rendition) (codec : Codec) (hwAccel : HWAccelInfo)
    (mediaInfo : MediaInfo) (settings : TranscodeSettings) (w : World) :
  let outputPath := path_join outputDir (getOutputFileName rendition codec) in
  fs_access w outputPath = true ->
  transcodeRendition inputPath outputDir rendition codec hwAccel mediaInfo
    settings true w
  = (w, [LogSection (job_title rendition codec);
         OnComplete codec (quality rendition) outputPath], Ok outputPath).
Proof.
  intros outputPath Hthere. unfold transcodeRendition. rewrite bind_emit.
  fold (getOutputFileName rendition codec). fold outputPath.
  by rewrite bind_access, Hthere.
Qed.

(** Every job ends with one callback, onComplete or onError, that agrees
    with its result; before it, every process spawned has completed its pass
    if the job succeeds, and all but the last one if it fails. *)
Lemma transcodeRendition_ends (inputPath outputDir : string)
    (rendition : Rendition) (codec : Codec) (hwAccel : HWAccelInfo)
    (mediaInfo : MediaInfo) (settings : TranscodeSettings)
    (skipIfExists : bool) (w : World) :
  let run := transcodeRendition inputPath outputDir rendition codec hwAccel
               mediaInfo settings skipIfExists w in
  let outputPath := path_join outputDir (getOutputFileName rendition codec) in
  exists t,
    Forall (fun e => terminal e = false) t
    /\ (length (spawned t) <= 2)%nat
    /\ ((run.2 = Ok outputPath
         /\ run.1.2 = t ++ [OnComplete codec (quality rendition) outputPath]
         /\ length (passes_completed t) = length (spawned t))
        \/ (exists e,
              run.2 = Throw e
              /\ run.1.2 = t ++ [OnError codec (quality rendition) e]
              /\ length (spawned t) = S (length (passes_completed t)))).
Proof.
  intros run outputPath. subst run.
  destruct (skipIfExists && fs_access w outputPath) eqn:Hskip.
  - apply andb_true_iff in Hskip as [-> Hthere].
    rewrite transcodeRendition_skipped by done.
    exists [LogSection (job_title rendition codec)].
    split; [by repeat constructor |]. split; [simpl; lia |]. by left.
  - rewrite transcodeRendition_fresh
      by (apply andb_false_iff in Hskip; exact Hskip).
    fold outputPath.
    set (cmd := jobCommand inputPath outputDir rendition codec hwAccel
                  mediaInfo settings).
    set (job := jobOf inputPath outputDir rendition codec hwAccel mediaInfo
                  settings).
    set (first := spawn_ffmpeg w (cmd 1 (negb (twoPass codec settings)))).
    set (second := spawn_ffmpeg first.1 (cmd 2 true)).
    pose proof (passEvents_nonterminal job (totalFramesOf mediaInfo)) as Hnt.
    pose proof (passEvents_spawned job (totalFramesOf mediaInfo)) as Hsp.
    pose proof (passEvents_completed job (totalFramesOf mediaInfo)) as Hpc.
    destruct (twoPass codec settings && passed first.2) eqn:Htwo.
    + apply andb_true_iff in Htwo as [_ Hexit1].
      exists ([LogSection (job_title rendition codec);
               Spawn "ffmpeg" (cmd 1 false)]
              ++ passEvents job (totalFramesOf mediaInfo) 1 first.2
              ++ [Spawn "ffmpeg" (cmd 2 true)]
              ++ passEvents job (totalFramesOf mediaInfo) 2 second.2).
      split.
      { apply Forall_app. split; [by repeat constructor |].
        apply Forall_app. split; [apply Hnt |].
        apply Forall_app. split; [by repeat constructor | apply Hnt]. }
      unfold spawned, passes_completed in *.
      rewrite !omap_app, !Hsp, !Hpc, Hexit1. simpl.
      split; [lia |].
      pose proof (passOutcome_passed second.2 outputPath) as Hout.
      destruct (passed second.2); [| destruct Hout as [e Hout]];
        rewrite Hout; simpl.
      * left. split; [done |]. split; [| done]. by normal_trace.
      * right. exists e. split; [done |]. split; [| done]. by normal_trace.
    + exists ([LogSection (job_title rendition codec);
               Spawn "ffmpeg" (cmd 1 (negb (twoPass codec settings)))]
              ++ passEvents job (totalFramesOf mediaInfo) 1 first.2).
      split.
      { apply Forall_app. split; [by repeat constructor | apply Hnt]. }
      unfold spawned, passes_completed in *.
      rewrite !omap_app, !Hsp, !Hpc. simpl.
      split; [lia |].
      pose proof (passOutcome_passed first.2 outputPath) as Hout.
      destruct (passed first.2); [| destruct Hout as [e Hout]];
        rewrite Hout; simpl.
      * left. split; [done |]. split; [| done]. by normal_trace.
      * right. exists e. split; [done |]. split; [| done]. by normal_trace.
Qed.

End JobFacts.

Section JobTheorems.

Context {E : Env}.

Lemma transcodeRendition_spawned (inputPath outputDir : string)
    (rendition : Rendition) (codec : Codec) (hwAccel : HWAccelInfo)
    (mediaInfo : MediaInfo) (settings : TranscodeSettings)
    (skipIfExists : bool) (w : World) :
  let run := transcodeRendition inputPath outputDir rendition codec hwAccel
               mediaInfo settings skipIfExists w in
  let outputPath := path_join outputDir (getOutputFileName rendition codec) in
  let cmd :=
    jobCommand inputPath outputDir rendition codec hwAccel mediaInfo settings in
  let first := spawn_ffmpeg w (cmd 1 (negb (twoPass codec settings))) in
  spawned run.1.2
  = if skipIfExists && fs_access w outputPath then []
    else if twoPass codec settings && passed first.2
         then [cmd 1 false; cmd 2 true]
         else [cmd 1 (negb (twoPass codec settings))].
Proof.
  intros run outputPath cmd first. subst run.
  destruct (skipIfExists && fs_access w outputPath) eqn:Hskip.
  - apply andb_true_iff in Hskip as [-> Hthere].
    by rewrite transcodeRendition_skipped.
  - rewrite transcodeRendition_fresh
      by (apply andb_false_iff in Hskip; exact Hskip).
    fold cmd. fold first.
    destruct (twoPass codec settings && passed first.2);
      unfold spawned; simpl; rewrite !omap_app;
      fold (spawned (passEvents
                       (jobOf inputPath outputDir rendition codec hwAccel
                          mediaInfo settings) (totalFramesOf mediaInfo) 1
                       first.2));
      rewrite ?passEvents_spawned; simpl.
    + rewrite omap_app.
      fold (spawned (passEvents
                       (jobOf inputPath outputDir rendition codec hwAccel
                          mediaInfo settings) (totalFramesOf mediaInfo) 2
                       (spawn_ffmpeg first.1 (cmd 2 true)).2)).
      rewrite passEvents_spawned. simpl.
      by destruct (passOutcome _ _).
    + by destruct (passOutcome _ _).
Qed.

(** X11: every job fires exactly one of onComplete and onError, as the last
    thing it does, and the callback agrees with the result: a job that
    returns a path returns the output path of the job and announces it with
    onComplete, after every process it spawned has completed its pass; a job
    that throws announces the thrown message with onError, after a process
    that did not complete its pass.  No job spawns more than two
    processes. *)
Theorem transcodeRendition_one_terminal_callback (inputPath outputDir : string)
    (rendition : Rendition) (codec : Codec) (hwAccel : HWAccelInfo)
    (mediaInfo : MediaInfo) (settings : TranscodeSettings)
    (skipIfExists : bool) (w : World) :
  let run := transcodeRendition inputPath outputDir rendition codec hwAccel
               mediaInfo settings skipIfExists w in
  let outputPath := path_join outputDir (getOutputFileName rendition codec) in
  (exists t last,
     run.1.2 = t ++ [last] /\ terminal last = true
     /\ Forall (fun e => terminal e = false) t)
  /\ (length (spawned run.1.2) <= 2)%nat
  /\ match run.2 with
     | Ok p =>
         p = outputPath
         /\ completions run.1.2
            = [{| vf_path := outputPath; vf_quality := quality rendition;
                  vf_codec := codec |}]
         /\ errors run.1.2 = []
         /\ length (passes_completed run.1.2) = length (spawned run.1.2)
     | Throw e =>
         completions run.1.2 = []
         /\ errors run.1.2 = [(codec, quality rendition, e)]
         /\ length (spawned run.1.2) = S (length (passes_completed run.1.2))
     end.
Proof.
  intros run outputPath.
  destruct (transcodeRendition_ends inputPath outputDir rendition codec
              hwAccel mediaInfo settings skipIfExists w)
    as (t & Hnt & Hle & Hend).
  fold run outputPath in Hend.
  pose proof (nonterminal_silent t Hnt) as [Hc He].
  assert (Hsp : forall e, terminal e = true -> spawned (t ++ [e]) = spawned t).
  { intros e Hterm. unfold spawned. rewrite omap_app. destruct e; try done;
      simpl; by rewrite app_nil_r. }
  assert (Hpc : forall e, terminal e = true ->
                          passes_completed (t ++ [e]) = passes_completed t).
  { intros e Hterm. unfold passes_completed. rewrite omap_app.
    destruct e; try done; simpl; by rewrite app_nil_r. }
  destruct Hend as [(Hr & Ht & Hn) | (e & Hr & Ht & Hn)]; rewrite Hr, Ht.
  - split; [by exists t, (OnComplete codec (quality rendition) outputPath) |].
    rewrite Hsp, Hpc by done. split; [done |]. split; [done |].
    unfold completions, errors in *. rewrite !omap_app, Hc, He. by simpl.
  - split; [by exists t, (OnError codec (quality rendition) e) |].
    rewrite Hsp, Hpc by done. split; [done |].
    unfold completions, errors in *. rewrite !omap_app, Hc, He. by simpl.
Qed.

Lemma last_two {A : Type} (l : list A) (a b : A) : last (l ++ [a; b]) = Some b.
Proof. change [a; b] with ([a] ++ [b]). by rewrite app_assoc, last_snoc. Qed.

(** X12: the passes of a job that is not skipped.  A job other than VP9 in a
    two-pass mode is one process, which writes the output file, and the job
    succeeds exactly when it exits with code zero.  A VP9 job in a two-pass
    mode starts with a process on the null sink; when that one fails the job
    throws its error and nothing is spawned on the output file; when it
    succeeds a second process writes the output file and decides the result.
    The error thrown is that of the failing process: its exit code and the
    end of its stderr, or the error of its start when it could not be
    started. *)
Theorem transcodeRendition_pass_plan (inputPath outputDir : string)
    (rendition : Rendition) (codec : Codec) (hwAccel : HWAccelInfo)
    (mediaInfo : MediaInfo) (settings : TranscodeSettings)
    (skipIfExists : bool) (w : World) :
  let run := transcodeRendition inputPath outputDir rendition codec hwAccel
               mediaInfo settings skipIfExists w in
  let outputPath := path_join outputDir (getOutputFileName rendition codec) in
  let cmd :=
    jobCommand inputPath outputDir rendition codec hwAccel mediaInfo settings in
  let result (start : Result ProcResult) :=
    match start with
    | Ok proc =>
        if pr_exit proc =? 0 then Ok outputPath else Throw (passError proc)
    | Throw e => Throw e
    end in
  skipIfExists = false \/ fs_access w outputPath = false ->
  (codec = hevc \/ passes settings <> 2 ->
   spawned run.1.2 = [cmd 1 true]
   /\ run.2 = result (spawn_ffmpeg w (cmd 1 true)).2)
  /\ (codec = vp9 -> passes settings = 2 ->
      let first := spawn_ffmpeg w (cmd 1 false) in
      let second := spawn_ffmpeg first.1 (cmd 2 true) in
      match first.2 with
      | Ok proc =>
          if pr_exit proc =? 0 then
            spawned run.1.2 = [cmd 1 false; cmd 2 true]
            /\ run.2 = result second.2
          else
            spawned run.1.2 = [cmd 1 false]
            /\ run.2 = Throw (passError proc)
      | Throw e =>
          spawned run.1.2 = [cmd 1 false] /\ run.2 = Throw e
      end)
  /\ (forall pass,
        last (cmd pass true) = Some outputPath
        /\ last (cmd pass false)
           = Some (if win32 then "NUL" else "/dev/null")).
Proof.
  intros run outputPath cmd result Hfresh. subst run result.
  assert (Hnoskip : skipIfExists && fs_access w outputPath = false).
  { apply andb_false_iff. exact Hfresh. }
  pose proof (transcodeRendition_spawned inputPath outputDir rendition codec
                hwAccel mediaInfo settings skipIfExists w) as Hsp.
  pose proof (transcodeRendition_fresh inputPath outputDir rendition codec
                hwAccel mediaInfo settings skipIfExists w Hfresh) as Hrun.
  cbv zeta in Hsp, Hrun. fold outputPath cmd in Hsp, Hrun.
  rewrite Hnoskip in Hsp.
  split; [| split].
  - intros Hone.
    assert (Htwo : twoPass codec settings = false).
    { unfold twoPass, is_codec. destruct Hone as [-> | Hp]; [done |].
      apply andb_false_iff. right. by apply Z.eqb_neq. }
    rewrite Htwo in Hsp, Hrun. simpl in Hsp, Hrun.
    split; [exact Hsp | by rewrite Hrun].
  - intros -> Hp first second.
    assert (Htwo : twoPass vp9 settings = true).
    { unfold twoPass, is_codec. rewrite Hp. done. }
    rewrite Htwo in Hsp, Hrun. simpl in Hsp, Hrun.
    fold first in Hsp, Hrun. fold second in Hrun.
    destruct first.2 as [proc | e]; simpl in Hsp, Hrun;
      [destruct (pr_exit proc =? 0) eqn:Hexit |];
      (split; [exact Hsp | by rewrite Hrun]).
  - intros pass. subst cmd. unfold jobCommand. fold outputPath.
    rewrite !app_assoc. split; [apply last_two |].
    match goal with
    | |- last (?l ++ [?a; ?b; ?c; ?d]) = _ =>
        change [a; b; c; d] with ([a; b] ++ [c; d]);
        rewrite app_assoc; apply last_two
    end.
Qed.

End JobTheorems.

Lemma transcodeRendition_pass_plan_witness :
  spawned failed_vp9_job.1.2
  = [jobCommand (E := vp9_fails) "in.mkv" "out/tmp" tier_2160p vp9
       SOFTWARE_CONFIG hdr10_source (getTranscodeSettings prod) 1 false]
  /\ failed_vp9_job.2
     = Throw (passError
                {| pr_stderr := ["Unknown encoder 'libvpx-vp9'"];
                   pr_exit := 1 |}).
Proof.
  exact (proj1 (proj2 (transcodeRendition_pass_plan (E := vp9_fails)
                         "in.mkv" "out/tmp" tier_2160p vp9 SOFTWARE_CONFIG
                         hdr10_source (getTranscodeSettings prod) false tt
                         (or_introl eq_refl)))
           eq_refl eq_refl).
Defined.

Section CommandTheorems.

Context {E : Env}.

Lemma transcodeRendition_commands (inputPath outputDir : string)
    (rendition : Rendition) (codec : Codec) (hwAccel : HWAccelInfo)
    (mediaInfo : MediaInfo) (settings : TranscodeSettings)
    (skipIfExists : bool) (w : World) :
  Forall (fun args =>
            exists pass isLastPass,
              args = jobCommand inputPath outputDir rendition codec hwAccel
                       mediaInfo settings pass isLastPass)
    (spawned (transcodeRendition inputPath outputDir rendition codec hwAccel
                mediaInfo settings skipIfExists w).1.2).
Proof.
  rewrite transcodeRendition_spawned.
  repeat match goal with
         | |- context [if ?c then _ else _] => destruct c
         end;
    repeat constructor; eauto.
Qed.

(** X13: on the hardware VP9 path the command of a pass depends neither on
    the pass nor on the mode: the encoder options are the rate block of the
    rendition alone, there is no first-pass log, and the input is decoded in
    software.  In a two-pass mode the job therefore encodes twice with the
    same options, first onto the null sink and then, when that process was
    started and exited with code zero, onto the output file. *)
Theorem hardware_vp9_repeats_the_encode (inputPath outputDir : string)
    (rendition : Rendition) (hwAccel : HWAccelInfo) (mediaInfo : MediaInfo)
    (settings : TranscodeSettings) (skipIfExists : bool) (w : World) :
  let run := transcodeRendition inputPath outputDir rendition vp9 hwAccel
               mediaInfo settings skipIfExists w in
  let outputPath := path_join outputDir (getOutputFileName rendition vp9) in
  let cmd :=
    jobCommand inputPath outputDir rendition vp9 hwAccel mediaInfo settings in
  let common :=
    ["-y"; "-i"; inputPath; "-vf";
     buildScaleFilter rendition hwAccel
       (needsTonemap rendition vp9 hwAccel mediaInfo) vp9;
     "-c:v"; if is_method hwAccel qsv then "vp9_qsv" else "vp9_vaapi";
     "-b:v"; kbits (vp9Bitrate rendition);
     "-maxrate"; kbits (maxrate rendition);
     "-bufsize"; kbits (bufsize rendition); "-g"; "120"]
    ++ (if is_method hwAccel qsv then ["-low_power"; "1"]
        else ["-keyint_min"; "120"]) in
  hw_vp9_path vp9 hwAccel ->
  (forall pass isLastPass,
     cmd pass isLastPass = common ++ passTarget outputPath isLastPass)
  /\ (passes settings = 2 ->
      skipIfExists = false \/ fs_access w outputPath = false ->
      passed (spawn_ffmpeg w (cmd 1 false)).2 = true ->
      spawned run.1.2
      = [common ++ passTarget outputPath false;
         common ++ passTarget outputPath true]).
Proof.
  intros run outputPath cmd common (_ & Hmethod & Hflag).
  assert (Hcmd : forall pass isLastPass,
                   cmd pass isLastPass
                   = common ++ passTarget outputPath isLastPass).
  { intros pass isLastPass. subst cmd common. unfold jobCommand.
    fold outputPath. fold (passTarget outputPath isLastPass).
    unfold useHwAccelInput, buildVP9Args, is_method, truthy_flag.
    rewrite Hflag.
    destruct Hmethod as [-> | ->]; reflexivity. }
  split; [exact Hcmd |].
  intros Hpasses Hfresh Hexit. subst run.
  rewrite transcodeRendition_spawned. fold outputPath cmd.
  assert (Hnoskip : skipIfExists && fs_access w outputPath = false)
    by (apply andb_false_iff; exact Hfresh).
  assert (Htwo : twoPass vp9 settings = true)
    by (unfold twoPass, is_codec; by rewrite Hpasses).
  rewrite Hnoskip, Htwo. simpl negb.
  rewrite Hexit. simpl.
  by rewrite !Hcmd.
Qed.

(** X14: how a job reads its input.  A VP9 job, and any job that tone-maps,
    decodes in software: every command it spawns starts with the input and
    the filter, with no decoder flag before them.  An HEVC job that does not
    tone-map, on a hardware backend with a decoder flag, passes that flag
    first.  A job that tone-maps starts its filter with the software tone-map
    chain and the software scaler; a job that does not uses the scaler of its
    backend, also when, as for VP9, the frames are decoded in software. *)
Theorem job_decoding_and_filter (inputPath outputDir : string)
    (rendition : Rendition) (codec : Codec) (hwAccel : HWAccelInfo)
    (mediaInfo : MediaInfo) (settings : TranscodeSettings)
    (skipIfExists : bool) (w : World) :
  let run := transcodeRendition inputPath outputDir rendition codec hwAccel
               mediaInfo settings skipIfExists w in
  let tone := needsTonemap rendition codec hwAccel mediaInfo in
  let filter := buildScaleFilter rendition hwAccel tone codec in
  (codec = vp9 \/ tone = true ->
   Forall (fun args => ["-y"; "-i"; inputPath; "-vf"; filter] `prefix_of` args)
     (spawned run.1.2))
  /\ (forall flag,
        codec = hevc -> tone = false -> method hwAccel <> software ->
        hwaccelFlag hwAccel = Some flag -> flag <> EmptyString ->
        Forall (fun args => ["-y"; "-hwaccel"; flag] `prefix_of` args)
          (spawned run.1.2))
  /\ (tone = true ->
      exists upload,
        filter = TONEMAP_FILTER_SOFTWARE +:+ ",scale=-2:"
                 +:+ pretty (height rendition) +:+ upload
        /\ upload ∈ [EmptyString; ",hwupload_cuda"; ",format=nv12"])
  /\ (tone = false ->
      filter
      = match method hwAccel with
        | nvidia => "scale_cuda=w=-2:h="
        | qsv => "scale_qsv=w=-2:h="
        | vaapi => "scale_vaapi=w=-2:h="
        | _ => "scale=-2:"
        end +:+ pretty (height rendition)).
Proof.
  intros run tone filter.
  pose proof (transcodeRendition_commands inputPath outputDir rendition codec
                hwAccel mediaInfo settings skipIfExists w) as Hcmds.
  fold run in Hcmds.
  split; [| split; [| split]].
  - intros Hsoft. eapply Forall_impl; [exact Hcmds |].
    intros args (pass & isLastPass & ->). unfold jobCommand.
    fold tone. fold filter.
    assert (Hno : useHwAccelInput codec hwAccel tone = false).
    { unfold useHwAccelInput.
      destruct Hsoft as [-> | Htone]; [done |]. rewrite Htone.
      destruct (is_codec codec hevc), (is_method hwAccel nvidia),
        (is_codec codec vp9); reflexivity. }
    rewrite Hno. simpl. eexists. reflexivity.
  - intros flag -> Htone Hhw Hflag Hne.
    eapply Forall_impl; [exact Hcmds |].
    intros args (pass & isLastPass & ->). unfold jobCommand.
    fold tone. rewrite Htone.
    assert (Hyes : useHwAccelInput hevc hwAccel false = true).
    { unfold useHwAccelInput, is_codec. simpl. by destruct (is_method _ _). }
    rewrite Hyes. unfold buildHWAccelInputArgs. rewrite Hflag.
    destruct flag as [| c r]; [done |].
    assert (Hsw : is_method hwAccel software = false)
      by (unfold is_method; by apply bool_decide_eq_false).
    rewrite Hsw. simpl. eexists. reflexivity.
  - intros Htone. subst filter. rewrite Htone. unfold buildScaleFilter.
    repeat match goal with
           | |- context [if ?c then _ else _] => destruct c
           end.
    all: first
      [ exists ",hwupload_cuda"; split; [reflexivity | set_solver]
      | exists ",format=nv12"; split; [reflexivity | set_solver]
      | exists EmptyString; split; [by rewrite app_empty_r | set_solver] ].
  - intros Htone. subst filter. rewrite Htone. unfold buildScaleFilter, is_method.
    by destruct (method hwAccel).
Qed.

End CommandTheorems.

Lemma hardware_vp9_repeats_the_encode_witness :
  hw_vp9_path vp9 HW_ACCEL_CONFIGS.qsv
  /\ exists common,
       spawned qsv_vp9_job.1.2
       = [common
          ++ passTarget (E := all_succeed) "out/tmp/video_2160p_vp9.webm" false;
          common
          ++ passTarget (E := all_succeed) "out/tmp/video_2160p_vp9.webm" true].
Proof.
  assert (Hpath : hw_vp9_path vp9 HW_ACCEL_CONFIGS.qsv)
    by (split; [reflexivity | split; [left; reflexivity | reflexivity]]).
  split; [exact Hpath |]. eexists.
  exact (proj2 (hardware_vp9_repeats_the_encode (E := all_succeed)
                  "in.mkv" "out/tmp" tier_2160p HW_ACCEL_CONFIGS.qsv
                  hdr10_source (getTranscodeSettings prod) false tt Hpath)
           eq_refl (or_introl eq_refl) eq_refl).
Defined.

Lemma job_decoding_and_filter_witness :
  Forall (fun args =>
            ["-y"; "-i"; "in.mkv"; "-vf";
             buildScaleFilter tier_2160p SOFTWARE_CONFIG
               (needsTonemap tier_2160p vp9 SOFTWARE_CONFIG hdr10_source) vp9]
            `prefix_of` args)
    (spawned failed_vp9_job.1.2).
Proof.
  exact (proj1 (job_decoding_and_filter (E := vp9_fails) "in.mkv" "out/tmp"
                  tier_2160p vp9 SOFTWARE_CONFIG hdr10_source
                  (getTranscodeSettings prod) false tt)
           (or_introl eq_refl)).
Defined.

(** ** The rendition loop and the progress display *)

Section LoopTheorems.

Context {E : Env}.

Lemma endings_job (sourcePath tmpDir : string) (rendition : Rendition)
    (codec : Codec) (hwAccel : HWAccelInfo) (mediaInfo : MediaInfo)
    (settings : TranscodeSettings) (skipIfExists : bool)
    (videoFiles : list VideoFile) (w : World) :
  let run := transcodeJob sourcePath tmpDir rendition codec hwAccel mediaInfo
               settings skipIfExists videoFiles w in
  endings run.1.2 = [(codec, quality rendition)]
  /\ (length (completions run.1.2) + length (errors run.1.2) = 1)%nat.
Proof.
  intros run. subst run. rewrite transcodeJob_trace.
  destruct (transcodeRendition_ends sourcePath tmpDir rendition codec hwAccel
              mediaInfo settings skipIfExists w) as (t & Hnt & _ & Hend).
  pose proof (nonterminal_silent t Hnt) as [Hc He].
  assert (Hen : endings t = []).
  { clear Hend Hc He. induction Hnt as [| e t He _ IH]; [done |].
    unfold endings in *. destruct e; try discriminate He; simpl; by rewrite ?IH. }
  destruct Hend as [(_ & -> & _) | (e & _ & -> & _)];
    unfold endings, completions, errors in *;
    rewrite !omap_app, Hen, Hc, He; by simpl.
Qed.

Lemma rendition_loop_counts (sourcePath tmpDir : string)
    (vp9HWAccel hevcHWAccel : HWAccelInfo) (mediaInfo : MediaInfo)
    (settings : TranscodeSettings) (skipIfExists : bool)
    (renditions : list Rendition) :
  forall (videoFiles : list VideoFile) (w : World),
    let run := transcodeRenditions sourcePath tmpDir vp9HWAccel hevcHWAccel
                 mediaInfo settings skipIfExists renditions videoFiles w in
    endings run.1.2
    = flat_map (fun r => [(vp9, quality r); (hevc, quality r)]) renditions
    /\ (length (completions run.1.2) + length (errors run.1.2)
        = length renditions * 2)%nat.
Proof.
  induction renditions as [| rendition rest IH]; intros videoFiles w run;
    subst run; [done |].
  cbn [transcodeRenditions flat_map length]. rewrite bind_run.
  pose proof (endings_job sourcePath tmpDir rendition vp9 vp9HWAccel
                mediaInfo settings skipIfExists videoFiles w) as [He1 Hn1].
  pose proof (transcodeJob_run sourcePath tmpDir rendition vp9 vp9HWAccel
                mediaInfo settings skipIfExists videoFiles w) as [_ Hr1].
  destruct (transcodeJob _ _ rendition vp9 _ _ _ _ _ w) as [[w1 t1] r1].
  simpl in He1, Hn1, Hr1. subst r1. rewrite bind_run.
  pose proof (endings_job sourcePath tmpDir rendition hevc hevcHWAccel
                mediaInfo settings skipIfExists
                (videoFiles ++ completions t1) w1) as [He2 Hn2].
  pose proof (transcodeJob_run sourcePath tmpDir rendition hevc hevcHWAccel
                mediaInfo settings skipIfExists
                (videoFiles ++ completions t1) w1) as [_ Hr2].
  destruct (transcodeJob _ _ rendition hevc _ _ _ _ _ w1) as [[w2 t2] r2].
  simpl in He2, Hn2, Hr2. subst r2.
  specialize (IH ((videoFiles ++ completions t1) ++ completions t2) w2).
  destruct (transcodeRenditions _ _ _ _ _ _ _ rest _ w2) as [[w3 t3] r3].
  simpl in *. destruct IH as [He3 Hn3].
  unfold endings, completions, errors in *.
  rewrite !omap_app, !length_app, He1, He2, He3. split; [done | lia].
Qed.

(** X15: the rendition loop ends every job exactly once, the VP9 job and then
    the HEVC job of each rendition in order, each with onComplete or with
    onError: the jobs completed and the jobs failed add up to the total of
    two per rendition that the progress display divides by, so that the
    overall progress never exceeds the total and reaches it exactly when no
    job fails. *)
Theorem rendition_loop_ends_every_job (sourcePath tmpDir : string)
    (vp9HWAccel hevcHWAccel : HWAccelInfo) (mediaInfo : MediaInfo)
    (settings : TranscodeSettings) (skipIfExists : bool)
    (renditions : list Rendition) (videoFiles : list VideoFile) (w : World) :
  let run := transcodeRenditions sourcePath tmpDir vp9HWAccel hevcHWAccel
               mediaInfo settings skipIfExists renditions videoFiles w in
  let totalJobs := (length renditions * 2)%nat in
  endings run.1.2
  = flat_map (fun r => [(vp9, quality r); (hevc, quality r)]) renditions
  /\ (length (completions run.1.2) + length (errors run.1.2) = totalJobs)%nat
  /\ (length (completions run.1.2) <= totalJobs)%nat
  /\ (length (completions run.1.2) = totalJobs <-> errors run.1.2 = []).
Proof.
  intros run totalJobs.
  destruct (rendition_loop_counts sourcePath tmpDir vp9HWAccel hevcHWAccel
              mediaInfo settings skipIfExists renditions videoFiles w)
    as [Hends Hsum].
  fold run in Hends, Hsum. fold totalJobs in Hsum.
  split; [exact Hends |]. split; [exact Hsum |]. split; [lia |].
  split.
  - intros Hall. apply length_zero_iff_nil. lia.
  - intros Hnone. rewrite Hnone in Hsum. simpl in Hsum. lia.
Qed.

End LoopTheorems.

(** ** The encoders of the detected backends *)

Lemma detectHWAcceleration_elem (hwaccelsOutput encodersOutput : Result string)
    (hw : HWAccelInfo) :
  hw ∈ detectHWAcceleration hwaccelsOutput encodersOutput ->
  hw = SOFTWARE_CONFIG
  \/ (hasEncoder (getAvailableEncoders encodersOutput) (hevcEncoder hw) = true
      /\ hw ∈ [HW_ACCEL_CONFIGS.nvidia; HW_ACCEL_CONFIGS.qsv;
               HW_ACCEL_CONFIGS.amf; HW_ACCEL_CONFIGS.vaapi;
               HW_ACCEL_CONFIGS.videotoolbox]).
Proof.
  unfold detectHWAcceleration. intros Hin.
  repeat (apply elem_of_app in Hin as [Hin | Hin]);
    try match type of Hin with
        | _ ∈ (if ?a && ?b then _ else _) =>
            destruct a; [| by apply elem_of_nil in Hin];
            destruct b eqn:Henc; [| by apply elem_of_nil in Hin];
            apply list_elem_of_singleton in Hin as ->;
            right; split; [exact Henc | set_solver]
        end.
  apply list_elem_of_singleton in Hin. by left.
Qed.

(** X16: a backend that the detector returns encodes with the encoders its
    entry names.  Its HEVC command selects the HEVC encoder of the entry,
    which for a hardware backend is the encoder the detector found in the
    encoder list, and carries the same rate block on every backend: the HEVC
    bitrate of the rendition, one and a half times it as the cap, and twice it
    as the buffer.  Its VP9 command selects the VP9 encoder of the entry at
    the VP9 bitrate of the rendition. *)
Theorem detected_backends_use_their_encoders
    (hwaccelsOutput encodersOutput : Result string) (hw : HWAccelInfo)
    (rendition : Rendition) (settings : TranscodeSettings) (pass : Z)
    (passLogFile : string) :
  hw ∈ detectHWAcceleration hwaccelsOutput encodersOutput ->
  (exists options,
     buildHEVCArgs rendition settings hw
     = ["-c:v"; hevcEncoder hw;
        "-b:v"; kbits (hevcBitrate rendition);
        "-maxrate"; kbits (hevcBitrate rendition * 3 / 2);
        "-bufsize"; kbits (hevcBitrate rendition * 2); "-g"; "120"]
       ++ options)
  /\ (exists options,
        buildVP9Args rendition settings pass passLogFile hw
        = ["-c:v"; vp9Encoder hw; "-b:v"; kbits (vp9Bitrate rendition)]
          ++ options)
  /\ (method hw <> software ->
      hasEncoder (getAvailableEncoders encodersOutput) (hevcEncoder hw) = true).
Proof.
  intros Hin. apply detectHWAcceleration_elem in Hin.
  destruct Hin as [-> | [Henc Hin]].
  - split; [| split]; [eexists; reflexivity | | done].
    unfold buildVP9Args. simpl.
    destruct (passes settings =? 2); [destruct (pass =? 2) |];
      eexists; reflexivity.
  - split; [| split; [| by intros _]];
      apply list_elem_of_In in Hin; simpl in Hin;
      repeat (destruct Hin as [<- | Hin]; [eexists; reflexivity |]);
      try (by destruct Hin).
    all: repeat (destruct Hin as [<- | Hin];
                 [unfold buildVP9Args; simpl;
                  try (destruct (passes settings =? 2);
                       [destruct (pass =? 2) |]);
                  eexists; reflexivity |]).
    all: by destruct Hin.
Qed.

Lemma detected_backends_use_their_encoders_witness :
  HW_ACCEL_CONFIGS.nvidia
  ∈ detectHWAcceleration (Ok hwaccels_text) (Ok encoders_text)
  /\ hasEncoder (getAvailableEncoders (Ok encoders_text)) "hevc_nvenc" = true.
Proof.
  assert (Hin : HW_ACCEL_CONFIGS.nvidia
                ∈ detectHWAcceleration (Ok hwaccels_text) (Ok encoders_text))
    by (replace (detectHWAcceleration (Ok hwaccels_text) (Ok encoders_text))
          with [HW_ACCEL_CONFIGS.nvidia; HW_ACCEL_CONFIGS.qsv; SOFTWARE_CONFIG]
          by (by vm_compute);
        apply list_elem_of_here).
  split; [exact Hin |].
  refine (proj2 (proj2 (detected_backends_use_their_encoders
                          (Ok hwaccels_text) (Ok encoders_text)
                          HW_ACCEL_CONFIGS.nvidia tier_2160p
                          (getTranscodeSettings prod) 1 "log" Hin)) _).
  discriminate.
Defined.

(** ** The packager *)

Section PackagerFacts.

Context {E : Env} {sys : Packager.Sys}.

Lemma pk_bind_run {A B : Type} (m : Packager.P A) (k : A -> Packager.P B)
    (w : World) :
  Packager.bind m k w
  = match m w with
    | (w1, t1, Ok a) =>
        match k a w1 with
        | (w2, t2, r) => (w2, t1 ++ t2, r)
        end
    | (w1, t1, Throw e) => (w1, t1, Throw e)
    end.
Proof. reflexivity. Qed.

Lemma pk_bind_mkdir {B : Type} (dir : string) (k : unit -> Packager.P B)
    (w : World) :
  Packager.bind (Packager.mkdir dir) k w
  = match fs_mkdir w dir with
    | (w1, Ok _) =>
        match k tt w1 with
        | (w2, t2, r) => (w2, Packager.PkMkdir dir :: t2, r)
        end
    | (w1, Throw e) => (w1, [Packager.PkMkdir dir], Throw e)
    end.
Proof.
  rewrite pk_bind_run. unfold Packager.mkdir.
  by destruct (fs_mkdir w dir) as [w1 [[] | e]].
Qed.

Lemma pk_bind_ret {A B : Type} (a : A) (k : A -> Packager.P B) (w : World) :
  Packager.bind (Packager.ret a) k w = k a w.
Proof. rewrite pk_bind_run. simpl. by destruct (k a w) as [[w2 t2] r]. Qed.

Lemma pk_bind_emit {B : Type} (e : Packager.Ev) (k : unit -> Packager.P B)
    (w : World) :
  Packager.bind (Packager.emit e) k w
  = ((k tt w).1.1, e :: (k tt w).1.2, (k tt w).2).
Proof. rewrite pk_bind_run. simpl. by destruct (k tt w) as [[w2 t2] r]. Qed.

(** The first loop makes the folders of the video and audio outputs, in
    order, and stops at the first that cannot be made. *)
Lemma mkdirStreams_run (outputDir : string) (inputs : list PackagerInput) :
  forall idx w,
    let run := Packager.mkdirStreams outputDir inputs w in
    run.1.2 = map Packager.PkMkdir (Packager.made run.1.2)
    /\ (run.2 = Ok tt ->
        Packager.made run.1.2
        = map (Packager.folderPath outputDir)
            (List.filter (fun o => negb (Packager.in_subtitles o))
               (Packager.outputBases inputs idx))).
Proof.
  induction inputs as [| input rest IH]; intros idx w run; subst run;
    [done |].
  cbn [Packager.mkdirStreams Packager.outputBases].
  destruct (pi_type input).
  - rewrite pk_bind_mkdir.
    destruct (fs_mkdir w _) as [w1 [[] | e]]; [| by split].
    specialize (IH idx w1).
    destruct (Packager.mkdirStreams outputDir rest w1) as [[w2 t2] r2].
    simpl in *. destruct IH as [Ht Hm]. split; [by rewrite Ht at 1 |].
    intros Hr. by rewrite (Hm Hr).
  - rewrite pk_bind_mkdir.
    destruct (fs_mkdir w _) as [w1 [[] | e]]; [| by split].
    specialize (IH idx w1).
    destruct (Packager.mkdirStreams outputDir rest w1) as [[w2 t2] r2].
    simpl in *. destruct IH as [Ht Hm]. split; [by rewrite Ht at 1 |].
    intros Hr. by rewrite (Hm Hr).
  - rewrite pk_bind_ret. apply (IH (S idx) w).
Qed.

(** The second loop makes the folders of the subtitle outputs, with the
    counter of the descriptors. *)
Lemma mkdirSubtitles_run (outputDir : string) (inputs : list PackagerInput) :
  forall idx w,
    let run := Packager.mkdirSubtitles outputDir inputs idx w in
    run.1.2 = map Packager.PkMkdir (Packager.made run.1.2)
    /\ (run.2 = Ok tt ->
        Packager.made run.1.2
        = map (Packager.folderPath outputDir)
            (List.filter Packager.in_subtitles
               (Packager.outputBases inputs idx))).
Proof.
  induction inputs as [| input rest IH]; intros idx w run; subst run;
    [done |].
  cbn [Packager.mkdirSubtitles Packager.outputBases].
  destruct (pi_type input); try apply IH.
  rewrite pk_bind_mkdir.
  destruct (fs_mkdir w _) as [w1 [[] | e]]; [| by split].
  specialize (IH (S idx) w1).
  destruct (Packager.mkdirSubtitles outputDir rest (S idx) w1)
    as [[w2 t2] r2].
  simpl in *. destruct IH as [Ht Hm]. split; [by rewrite Ht at 1 |].
  intros Hr. by rewrite (Hm Hr).
Qed.

(** The folders are made first: three for the kinds of output, then one for
    every output. *)
Lemma makeFolders_run (outputDir : string) (inputs : list PackagerInput)
    (w : World) :
  let run := Packager.makeFolders outputDir inputs w in
  let outputs := Packager.outputBases inputs 0 in
  run.1.2 = map Packager.PkMkdir (Packager.made run.1.2)
  /\ (run.2 = Ok tt ->
      Packager.made run.1.2
      = [path_join outputDir "videos"; path_join outputDir "audio";
         path_join outputDir "subtitles"]
        ++ map (Packager.folderPath outputDir)
             (List.filter (fun o => negb (Packager.in_subtitles o)) outputs)
        ++ map (Packager.folderPath outputDir)
             (List.filter Packager.in_subtitles outputs)).
Proof.
  intros run outputs. subst run outputs. unfold Packager.makeFolders.
  rewrite pk_bind_mkdir.
  destruct (fs_mkdir w _) as [w1 [[] | e]]; [| by split].
  rewrite pk_bind_mkdir.
  destruct (fs_mkdir w1 _) as [w2 [[] | e]]; [| by split].
  rewrite pk_bind_mkdir.
  destruct (fs_mkdir w2 _) as [w3 [[] | e]]; [| by split].
  rewrite pk_bind_run.
  pose proof (mkdirStreams_run outputDir inputs 0%nat w3) as [Ht1 Hm1].
  destruct (Packager.mkdirStreams outputDir inputs w3) as [[w4 t4] [[] | e]];
    simpl in *.
  - pose proof (mkdirSubtitles_run outputDir inputs 0%nat w4) as [Ht2 Hm2].
    destruct (Packager.mkdirSubtitles outputDir inputs 0 w4) as [[w5 t5] r5].
    simpl in *. unfold Packager.made in *. rewrite !omap_app. split.
    + rewrite map_app. by rewrite <- Ht1, <- Ht2.
    + intros Hr. by rewrite (Hm1 eq_refl), (Hm2 Hr).
  - split; [| done]. by rewrite Ht1 at 1.
Qed.

(** The packager process and what follows it. *)
Lemma package_run (args : list string) (outputDir : string) (devMode : bool)
    (w : World) :
  let run :=
    Packager.try_catch (Packager.package args outputDir devMode)
      (fun errorMessage =>
         Packager.bind (Packager.emit (Packager.PkError errorMessage))
           (fun _ => Packager.throw errorMessage)) w in
  let output :=
    {| hlsMasterPlaylist := path_join outputDir "master.m3u8";
       dashManifest := path_join outputDir "manifest.mpd";
       outputDir := outputDir |} in
  let tmpDir := path_join outputDir "tmp" in
  let started := Packager.spawn_packager w args outputDir in
  run
  = match started.2 with
    | Throw e =>
        (started.1,
         [Packager.PkSpawn args outputDir; Packager.PkError e], Throw e)
    | Ok proc =>
        let messages := Packager.progressMessages (Packager.stderr_chunks proc) in
        if Packager.exit_code proc =? 0 then
          if devMode then
            (started.1,
             Packager.PkSpawn args outputDir :: messages
             ++ [Packager.PkComplete output], Ok output)
          else
            ((Packager.fs_rm started.1 tmpDir).1,
             Packager.PkSpawn args outputDir :: messages
             ++ [Packager.PkRm tmpDir; Packager.PkComplete output], Ok output)
        else
          (started.1,
           Packager.PkSpawn args outputDir :: messages
           ++ [Packager.PkError (Packager.exitError proc)],
           Throw (Packager.exitError proc))
    end.
Proof.
  intros run output tmpDir started. subst run started.
  unfold Packager.try_catch, Packager.package, Packager.bind, Packager.spawn,
    Packager.emit_all, Packager.emit, Packager.throw, Packager.ret,
    Packager.rm.
  destruct (Packager.spawn_packager w args outputDir) as [w1 [proc | e]];
    [| reflexivity].
  simpl. destruct (Packager.exit_code proc =? 0); simpl.
  - destruct devMode; simpl.
    + by rewrite ?app_nil_r, <- ?app_assoc.
    + fold tmpDir. unfold Packager.try_catch.
      destruct (Packager.fs_rm w1 tmpDir) as [w2 [[] | e]]; simpl;
        by rewrite ?app_nil_r, <- ?app_assoc.
  - by rewrite ?app_nil_r, <- ?app_assoc.
Qed.

Lemma progressMessages_silent {B : Type} (f : Packager.Ev -> option B)
    (chunks : list string) :
  (forall m, f (Packager.PkProgress m) = None) ->
  omap f (Packager.progressMessages chunks) = [].
Proof.
  intros Hf. unfold Packager.progressMessages.
  induction chunks as [| c chunks IH]; [done |]. simpl.
  destruct (Str.is_empty (trim c)); simpl; by rewrite ?Hf.
Qed.

Lemma mkdirs_silent {B : Type} (f : Packager.Ev -> option B)
    (dirs : list string) :
  (forall d, f (Packager.PkMkdir d) = None) ->
  omap f (map Packager.PkMkdir dirs) = [].
Proof.
  intros Hf. induction dirs as [| d dirs IH]; [done |]. simpl. by rewrite Hf.
Qed.

End PackagerFacts.

Ltac pk_project :=
  unfold Packager.spawns, Packager.removed, Packager.completed,
    Packager.failed, Packager.made;
  repeat first
    [ rewrite omap_app
    | rewrite mkdirs_silent by done
    | rewrite progressMessages_silent by done
    | progress simpl ].

Section PackagerTheorems.

Context {E : Env} {sys : Packager.Sys}.

(** X17: how a run of the packager ends.  It starts with onStart.  When it
    returns, it returns the two manifests under the output folder, after one
    packager process in that folder on the stream descriptors followed by the
    output options, and after onComplete and no onError; the temporary folder
    is removed in production mode and kept in development mode, and a
    clean-up that fails does not fail the run.  When it throws, nothing was
    removed and onComplete was not called; either no process was spawned and
    onError was not called (a folder could not be made), or the error of the
    process is what onError got and what is thrown. *)
Theorem runPackager_outcome (inputs : list PackagerInput) (outputDir : string)
    (devMode : bool) (w : World) :
  let run := Packager.runPackager inputs outputDir devMode w in
  let output :=
    {| hlsMasterPlaylist := path_join outputDir "master.m3u8";
       dashManifest := path_join outputDir "manifest.mpd";
       outputDir := outputDir |} in
  let command :=
    (Packager.streamArgs inputs 0 ++ Packager.outputOptions, outputDir) in
  (exists rest, run.1.2 = Packager.PkStart :: rest)
  /\ match run.2 with
     | Ok out =>
         out = output
         /\ Packager.spawns run.1.2 = [command]
         /\ Packager.completed run.1.2 = [output]
         /\ Packager.failed run.1.2 = []
         /\ Packager.removed run.1.2
            = (if devMode then [] else [path_join outputDir "tmp"])
     | Throw e =>
         Packager.completed run.1.2 = []
         /\ Packager.removed run.1.2 = []
         /\ ((Packager.spawns run.1.2 = [] /\ Packager.failed run.1.2 = [])
             \/ (Packager.spawns run.1.2 = [command]
                 /\ Packager.failed run.1.2 = [e]))
     end.
Proof.
  intros run output command. subst run.
  unfold Packager.runPackager. rewrite pk_bind_emit. simpl.
  split; [eauto |]. rewrite pk_bind_run.
  pose proof (makeFolders_run outputDir inputs w) as [Ht _].
  destruct (Packager.makeFolders outputDir inputs w) as [[w1 t1] [[] | e]];
    simpl in Ht; rewrite Ht.
  - rewrite pk_bind_emit, package_run. simpl.
    destruct (Packager.spawn_packager w1 _ outputDir) as [w2 [proc | e]];
      simpl.
    + destruct (Packager.exit_code proc =? 0).
      * destruct devMode; simpl; pk_project; by repeat split.
      * simpl. pk_project. split; [done |]. split; [done |]. by right.
    + pk_project. split; [done |]. split; [done |]. by right.
  - simpl. pk_project. split; [done |]. split; [done |]. by left.
Qed.

Lemma streamArgs_outputs (inputs : list PackagerInput) :
  forall idx i o,
    Packager.outputBases inputs idx !! i = Some o ->
    exists input parts,
      inputs !! i = Some input
      /\ Packager.streamArgs inputs idx !! i = Some (String.concat "," parts)
      /\ Packager.initSegment o ∈ parts.
Proof.
  induction inputs as [| input rest IH]; intros idx i o Ho; [done |].
  cbn [Packager.outputBases Packager.streamArgs] in *.
  destruct i as [| i].
  - exists input. unfold Packager.buildStreamArg.
    destruct (pi_type input); simpl in Ho; injection Ho as <-; simpl.
    + exists (Packager.videoParts input). split; [done |]. split; [done |].
      unfold Packager.videoParts, Packager.initSegment. simpl. set_solver.
    + exists (Packager.audioParts input). split; [done |]. split; [done |].
      unfold Packager.audioParts, Packager.initSegment. simpl. set_solver.
    + exists (Packager.subtitleParts input idx). split; [done |].
      split; [done |].
      unfold Packager.subtitleParts, Packager.initSegment. simpl. set_solver.
  - destruct (pi_type input); simpl in Ho |- *; eauto.
Qed.

Lemma outputBases_length (inputs : list PackagerInput) :
  forall idx, length (Packager.outputBases inputs idx) = length inputs.
Proof.
  induction inputs as [| input rest IH]; intros idx; [done |].
  cbn [Packager.outputBases]. destruct (pi_type input); simpl; by rewrite IH.
Qed.

Lemma runPackager_made (inputs : list PackagerInput) (outputDir : string)
    (devMode : bool) (w : World) :
  let run := Packager.runPackager inputs outputDir devMode w in
  let outputs := Packager.outputBases inputs 0 in
  Packager.spawns run.1.2 <> [] ->
  Packager.made run.1.2
  = [path_join outputDir "videos"; path_join outputDir "audio";
     path_join outputDir "subtitles"]
    ++ map (Packager.folderPath outputDir)
         (List.filter (fun o => negb (Packager.in_subtitles o)) outputs)
    ++ map (Packager.folderPath outputDir)
         (List.filter Packager.in_subtitles outputs).
Proof.
  intros run outputs. subst run outputs.
  unfold Packager.runPackager. rewrite pk_bind_emit. simpl.
  rewrite pk_bind_run.
  pose proof (makeFolders_run outputDir inputs w) as [Ht Hm].
  destruct (Packager.makeFolders outputDir inputs w) as [[w1 t1] [[] | e]];
    simpl in Ht, Hm.
  - intros _. rewrite pk_bind_emit, package_run. simpl.
    rewrite <- (Hm eq_refl).
    destruct (Packager.spawn_packager w1 _ outputDir) as [w2 [proc | e]];
      simpl.
    + destruct (Packager.exit_code proc =? 0); [destruct devMode |];
        unfold Packager.made;
        repeat first
          [ rewrite omap_app
          | rewrite progressMessages_silent by done
          | progress simpl ];
        by rewrite ?app_nil_r.
    + unfold Packager.made.
      repeat first [ rewrite omap_app | progress simpl ].
      by rewrite ?app_nil_r.
  - intros Hsp. exfalso. apply Hsp. simpl. rewrite Ht. by pk_project.
Qed.

(** X18: the folders that the run makes are those that the descriptors write
    to.  Every input has one descriptor, in order, whose init segment lies in
    the folder of its kind under the base name of the input, the subtitle
    inputs being numbered from zero in the order of the inputs; and when the
    packager process is spawned, the folder of every one of these outputs has
    been made under the output folder, after the three folders of the
    kinds. *)
Theorem packager_folders_match_descriptors (inputs : list PackagerInput)
    (outputDir : string) (devMode : bool) (w : World) :
  let run := Packager.runPackager inputs outputDir devMode w in
  let outputs := Packager.outputBases inputs 0 in
  length outputs = length inputs
  /\ length (Packager.streamArgs inputs 0) = length inputs
  /\ (forall i o,
        outputs !! i = Some o ->
        exists input parts,
          inputs !! i = Some input
          /\ Packager.streamArgs inputs 0 !! i
             = Some (String.concat "," parts)
          /\ Packager.initSegment o ∈ parts)
  /\ (Packager.spawns run.1.2 <> [] ->
      (exists streamFolders,
         Packager.made run.1.2
         = [path_join outputDir "videos"; path_join outputDir "audio";
            path_join outputDir "subtitles"] ++ streamFolders)
      /\ forall o, o ∈ outputs ->
                   Packager.folderPath outputDir o ∈ Packager.made run.1.2).
Proof.
  intros run outputs. split; [apply outputBases_length |]. split.
  { generalize 0%nat. induction inputs as [| input rest IH]; intros idx;
      [done |].
    cbn [Packager.streamArgs]. destruct (pi_type input); simpl; by rewrite IH. }
  split; [apply streamArgs_outputs |].
  intros Hsp. subst run. rewrite (runPackager_made _ _ _ _ Hsp).
  split; [eauto |]. intros o Ho.
  apply elem_of_app. right. apply elem_of_app.
  destruct (Packager.in_subtitles o) eqn:Hkind.
  - right. apply list_elem_of_fmap. exists o. split; [done |].
    apply list_elem_of_In, filter_In. split; [by apply list_elem_of_In | done].
  - left. apply list_elem_of_fmap. exists o. split; [done |].
    apply list_elem_of_In, filter_In. split; [by apply list_elem_of_In |].
    by rewrite Hkind.
Qed.

End PackagerTheorems.

Lemma packager_folders_match_descriptors_witness :
  Packager.spawns sample_packaging.1.2 <> []
  /\ Packager.folderPath (sys := packager_ok) "out"
       ("subtitles", "subtitle_eng_1")
     ∈ Packager.made sample_packaging.1.2.
Proof.
  assert (Hsp : Packager.spawns sample_packaging.1.2 <> [])
    by (vm_compute; discriminate).
  split; [exact Hsp |].
  refine (proj2 (proj2 (proj2 (proj2
            (packager_folders_match_descriptors (sys := packager_ok)
               sample_inputs "out" false tt))) Hsp)
            ("subtitles", "subtitle_eng_1") _).
  vm_compute.
  repeat first [ apply list_elem_of_here | apply list_elem_of_further ].
Defined.

(** ** The descriptors as the packager reads them *)

Lemma split_cons (c a : ascii) (s : string) :
  Str.split c (String a s)
  = if Ascii.eqb a c then EmptyString :: Str.split c s
    else match Str.split c s with
         | h :: t => String a h :: t
         | [] => [String a EmptyString]
         end.
Proof. reflexivity. Qed.

Lemma split_nonempty (c : ascii) (s : string) : Str.split c s <> [].
Proof.
  induction s as [| a s IH]; [done |]. rewrite split_cons.
  destruct (Ascii.eqb a c); [done |]. by destruct (Str.split c s).
Qed.

(** The pieces of a split have no separator in them. *)
Lemma split_pieces (c : ascii) (s : string) :
  Forall (fun piece => ~ occurs c piece) (Str.split c s).
Proof.
  induction s as [| a s IH]; [constructor; [intros [] | constructor] |].
  rewrite split_cons.
  destruct (Ascii.eqb a c) eqn:Hac; [constructor; [intros [] | done] |].
  pose proof (split_nonempty c s) as Hne.
  destruct (Str.split c s) as [| h t]; [done |].
  inversion IH as [| ? ? Hh Ht]; subst. constructor; [| done].
  simpl. intros [-> | Hin]; [by rewrite Ascii.eqb_refl in Hac | done].
Qed.

Lemma split_app (c : ascii) (a b : string) :
  ~ occurs c a ->
  Str.split c (a +:+ String c b) = a :: Str.split c b.
Proof.
  induction a as [| x a IH]; intros Ha.
  - change (EmptyString +:+ String c b) with (String c b).
    by rewrite split_cons, Ascii.eqb_refl.
  - rewrite app_String, split_cons.
    destruct (Ascii.eqb x c) eqn:Hxc.
    + apply Ascii.eqb_eq in Hxc as ->. exfalso. apply Ha. by left.
    + rewrite IH; [done |]. intros Hin. apply Ha. by right.
Qed.

Lemma split_whole (c : ascii) (s : string) :
  ~ occurs c s -> Str.split c s = [s].
Proof.
  induction s as [| x s IH]; intros Hs; [done |]. rewrite split_cons.
  destruct (Ascii.eqb x c) eqn:Hxc.
  - apply Ascii.eqb_eq in Hxc as ->. exfalso. apply Hs. by left.
  - rewrite IH; [done |]. intros Hin. apply Hs. by right.
Qed.

(** Joining with a separator and splitting at it gives the fields back
    exactly when no field has the separator in it. *)
Lemma split_concat (c : ascii) (parts : list string) :
  parts <> [] ->
  Str.split c (String.concat (String c EmptyString) parts) = parts
  <-> Forall (fun part => ~ occurs c part) parts.
Proof.
  intros Hne. split.
  - intros <-. apply split_pieces.
  - intros Hparts.
    induction Hparts as [| part rest Hpart Hrest IH]; [done |].
    destruct rest as [| next rest]; [by apply split_whole |].
    change (String.concat (String c EmptyString) (part :: next :: rest))
      with (part +:+ String c
              (String.concat (String c EmptyString) (next :: rest))).
    by rewrite split_app, IH.
Qed.

Lemma pretty_N_char_digit (x : N) : Str.is_digit (pretty_N_char x) = true.
Proof. unfold pretty_N_char. by repeat case_match. Qed.

Lemma pretty_N_go_digits (c : ascii) (x : N) :
  forall s, occurs c (pretty_N_go x s) ->
            Str.is_digit c = true \/ occurs c s.
Proof.
  induction (N.lt_wf_0 x) as [x _ IH]; intros s Hs.
  destruct (decide (x = 0%N)) as [-> | Hx];
    [rewrite pretty_N_go_0 in Hs; by right |].
  rewrite pretty_N_go_step in Hs by lia.
  apply IH in Hs; [| apply N.div_lt; lia].
  destruct Hs as [Hd | [<- | Hs]]; [by left | | by right].
  left. apply pretty_N_char_digit.
Qed.

(** The decimal text of a number is made of digits. *)
Lemma pretty_nat_digits (c : ascii) (n : nat) :
  occurs c (pretty n) -> Str.is_digit c = true.
Proof.
  unfold pretty, pretty_nat, pretty, pretty_N.
  destruct (decide _); [simpl; by intros [<- | []] |].
  intros Hs. apply pretty_N_go_digits in Hs as [Hd | []]. exact Hd.
Qed.

Lemma quality_text_no_comma (q : option RenditionQuality) :
  ~ occurs "," (Packager.quality_text q).
Proof. destruct q as [[] |]; simpl; intuition discriminate. Qed.

Ltac kill_occurs H :=
  first
    [ rewrite occurs_app in H; destruct H as [H | H]; kill_occurs H
    | contradiction
    | apply pretty_nat_digits in H; discriminate H
    | by apply quality_text_no_comma in H
    | match type of H with
      | occurs _ (subtitleSuffix ?t) =>
          destruct t; simpl in H; intuition discriminate
      end
    | simpl in H; intuition discriminate ].

Ltac no_comma := let H := fresh "H" in intros H; kill_occurs H.

Section DescriptorTheorems.

Context {E : Env} {sys : Packager.Sys}.

Lemma partsOf_nonempty (input : PackagerInput) (subtitleIndex : option nat) :
  Packager.partsOf input subtitleIndex <> [].
Proof. unfold Packager.partsOf. by destruct (pi_type input). Qed.

(** X19: a stream descriptor is its fields joined with commas, and the
    packager, which reads it back by splitting at the commas, gets exactly
    those fields if and only if the values that the input puts into them
    have no comma: the name of the file, and the codec of a video or the
    language and the label of an audio or subtitle stream. *)
Theorem descriptor_fields_round_trip (input : PackagerInput)
    (subtitleIndex : option nat) :
  Packager.buildStreamArg input subtitleIndex
  = String.concat "," (Packager.partsOf input subtitleIndex)
  /\ (Str.split "," (Packager.buildStreamArg input subtitleIndex)
      = Packager.partsOf input subtitleIndex
      <-> Packager.commaFree input).
Proof.
  assert (Hjoin : Packager.buildStreamArg input subtitleIndex
                  = String.concat ","
                      (Packager.partsOf input subtitleIndex)).
  { unfold Packager.buildStreamArg, Packager.partsOf.
    by destruct (pi_type input). }
  split; [exact Hjoin |]. rewrite Hjoin.
  rewrite (split_concat "," _ (partsOf_nonempty input subtitleIndex)).
  unfold Packager.partsOf, Packager.commaFree.
  destruct (pi_type input).
  - unfold Packager.videoParts, Packager.videoBase. split.
    + intros Hparts.
      repeat match goal with
             | H : Forall _ (_ :: _) |- _ =>
                 let Hh := fresh "Hh" in
                 apply Forall_cons in H as [Hh H]
             end.
      split.
      * intros Hin. apply Hh. rewrite !occurs_app. tauto.
      * intros Hin. apply Hh1. rewrite !occurs_app. tauto.
    + intros [Hname Hcodec]. repeat constructor; no_comma.
  - unfold Packager.audioParts, Packager.audioBase. split.
    + intros Hparts.
      repeat match goal with
             | H : Forall _ (_ :: _) |- _ =>
                 let Hh := fresh "Hh" in
                 apply Forall_cons in H as [Hh H]
             end.
      split; [| split].
      * intros Hin. apply Hh. rewrite !occurs_app. tauto.
      * intros Hin. apply Hh6. rewrite !occurs_app. tauto.
      * intros Hin. apply Hh5. rewrite !occurs_app. tauto.
    + intros (Hname & Hlang & Hlabel).
      destruct (pi_index input); repeat constructor; no_comma.
  - unfold Packager.subtitleParts, Packager.subtitleBase. split.
    + intros Hparts. apply Forall_app in Hparts as [Hparts _].
      repeat match goal with
             | H : Forall _ (_ :: _) |- _ =>
                 let Hh := fresh "Hh" in
                 apply Forall_cons in H as [Hh H]
             end.
      split; [| split].
      * intros Hin. apply Hh. rewrite !occurs_app. tauto.
      * intros Hin. apply Hh7. rewrite !occurs_app. tauto.
      * intros Hin. apply Hh6. rewrite !occurs_app. tauto.
    + intros (Hname & Hlang & Hlabel). apply Forall_app. split.
      * repeat constructor; no_comma.
      * destruct (Packager.type_or_standard _); repeat constructor; no_comma.
Qed.

End DescriptorTheorems.

(** ** The outputs of the packager do not collide *)

Lemma NoDup_map_through {A B C : Type} (f : A -> B) (g : A -> C)
    (l : list A) :
  (forall x y, f x = f y -> g x = g y) ->
  NoDup (map g l) -> NoDup (map f l).
Proof.
  intros Hfg. induction l as [| a l IH]; [constructor |].
  simpl. rewrite !NoDup_cons. intros [Hnotin Hnodup]. split; [| by apply IH].
  intros Hin. apply Hnotin. apply list_elem_of_fmap in Hin as (y & Hy & Hyl).
  apply list_elem_of_fmap. exists y. split; [by apply Hfg | done].
Qed.

Lemma pretty_nat_not_word (n : nat) (c : ascii) (word : string) :
  Str.is_digit c = false -> pretty n <> String c word.
Proof.
  intros Hc Heq. assert (Hin : occurs c (pretty n)) by (rewrite Heq; by left).
  apply pretty_nat_digits in Hin. congruence.
Qed.

Lemma numbered_inj (a1 a2 : string) (n1 n2 : nat) :
  a1 +:+ "_" +:+ pretty n1 = a2 +:+ "_" +:+ pretty n2 -> a1 = a2 /\ n1 = n2.
Proof.
  intros Heq.
  change ("_" +:+ pretty n1) with (String "_" (pretty n1)) in Heq.
  change ("_" +:+ pretty n2) with (String "_" (pretty n2)) in Heq.
  apply app_sep_inj in Heq as [-> Heq];
    [split; [done | by apply (inj pretty)] | apply pretty_nat_no_underscore ..].
Qed.

(** The base name of a subtitle output embeds the counter: two names with
    different counters differ, whatever the languages and the types. *)
Lemma subtitleBase_inj (i1 i2 : PackagerInput) (n1 n2 : nat) :
  Packager.subtitleBase i1 n1 = Packager.subtitleBase i2 n2 -> n1 = n2.
Proof.
  unfold Packager.subtitleBase.
  set (a1 := "subtitle_" +:+ Str.or_default (pi_language i1) "und").
  set (a2 := "subtitle_" +:+ Str.or_default (pi_language i2) "und").
  intros Heq.
  assert (Heq' :
            a1 +:+ "_" +:+ pretty n1
            +:+ subtitleSuffix (Packager.type_or_standard (pi_subtitleType i1))
            = a2 +:+ "_" +:+ pretty n2
              +:+ subtitleSuffix
                    (Packager.type_or_standard (pi_subtitleType i2))).
  { subst a1 a2. by rewrite <- !app_app. }
  clear Heq. revert Heq'. generalize a1 a2. clear a1 a2. intros a1 a2 Heq.
  assert (Hword : forall (b1 b2 : string) (w : string),
            ~ occurs "_" w ->
            (forall n : nat, pretty n <> w) ->
            b1 +:+ "_" +:+ pretty n1 = b2 +:+ "_" +:+ pretty n2 +:+ "_" +:+ w ->
            False).
  { intros b1 b2 w Hw Hne H.
    change ("_" +:+ pretty n1) with (String "_" (pretty n1)) in H.
    rewrite (app_app b2), (app_app (b2 +:+ "_")) in H.
    change ("_" +:+ w) with (String "_" w) in H.
    apply app_sep_inj in H as [_ H];
      [by apply Hne in H | apply pretty_nat_no_underscore | done]. }
  assert (Hsame : forall (b1 b2 : string) (w1 w2 : string),
            ~ occurs "_" w1 -> ~ occurs "_" w2 ->
            b1 +:+ "_" +:+ pretty n1 +:+ "_" +:+ w1
            = b2 +:+ "_" +:+ pretty n2 +:+ "_" +:+ w2 ->
            w1 = w2 /\ n1 = n2).
  { intros b1 b2 w1 w2 Hw1 Hw2 H.
    rewrite (app_app b1), (app_app (b1 +:+ "_")) in H.
    rewrite (app_app b2), (app_app (b2 +:+ "_")) in H.
    change ("_" +:+ w1) with (String "_" w1) in H.
    change ("_" +:+ w2) with (String "_" w2) in H.
    apply app_sep_inj in H as [H ->]; [| done ..].
    rewrite <- !app_app in H. split; [done |].
    by apply numbered_inj in H as [_ ->]. }
  assert (Hforced : ~ occurs "_" "forced") by (simpl; intuition discriminate).
  assert (Hsdh : ~ occurs "_" "sdh") by (simpl; intuition discriminate).
  assert (Hnf : forall n : nat, pretty n <> "forced")
    by (intros n; by apply pretty_nat_not_word).
  assert (Hns : forall n : nat, pretty n <> "sdh")
    by (intros n; by apply pretty_nat_not_word).
  destruct (Packager.type_or_standard (pi_subtitleType i1)),
    (Packager.type_or_standard (pi_subtitleType i2));
    cbn [subtitleSuffix] in Heq; rewrite ?app_empty_r in Heq.
  - by apply numbered_inj in Heq as [_ ->].
  - exfalso. by apply (Hword a1 a2 "forced").
  - exfalso. by apply (Hword a1 a2 "sdh").
  - exfalso. symmetry in Heq. revert Heq.
    clear Hword. intros Heq.
    change ("_" +:+ pretty n2) with (String "_" (pretty n2)) in Heq.
    rewrite (app_app a1), (app_app (a1 +:+ "_")) in Heq.
    change ("_" +:+ "forced") with (String "_" "forced") in Heq.
    apply app_sep_inj in Heq as [_ Heq];
      [by apply Hnf in Heq | apply pretty_nat_no_underscore | done].
  - by apply Hsame in Heq as [_ ->].
  - by apply Hsame in Heq as [Hw _].
  - exfalso. symmetry in Heq. revert Heq.
    clear Hword. intros Heq.
    change ("_" +:+ pretty n2) with (String "_" (pretty n2)) in Heq.
    rewrite (app_app a1), (app_app (a1 +:+ "_")) in Heq.
    change ("_" +:+ "sdh") with (String "_" "sdh") in Heq.
    apply app_sep_inj in Heq as [_ Heq];
      [by apply Hns in Heq | apply pretty_nat_no_underscore | done].
  - by apply Hsame in Heq as [Hw _].
  - by apply Hsame in Heq as [_ ->].
Qed.

Lemma outputBases_app (l1 l2 : list PackagerInput) :
  forall idx,
    Forall (fun i => pi_type i <> pk_subtitle) l1 ->
    Packager.outputBases (l1 ++ l2) idx
    = Packager.outputBases l1 idx ++ Packager.outputBases l2 idx.
Proof.
  induction l1 as [| i l1 IH]; intros idx Hl1; [done |].
  apply Forall_cons in Hl1 as [Hi Hl1]. simpl.
  destruct (pi_type i); [| | done]; simpl; by rewrite IH.
Qed.

Lemma outputBases_folders (inputs : list PackagerInput) :
  forall idx o,
    o ∈ Packager.outputBases inputs idx ->
    exists input,
      input ∈ inputs
      /\ match pi_type input with
         | pk_video => o = ("videos", Packager.videoBase input)
         | pk_audio => o = ("audio", Packager.audioBase input)
         | pk_subtitle =>
             exists n, (idx <= n)%nat
                       /\ o = ("subtitles", Packager.subtitleBase input n)
         end.
Proof.
  induction inputs as [| input rest IH]; intros idx o Ho;
    [by apply elem_of_nil in Ho |].
  cbn [Packager.outputBases] in Ho.
  destruct (pi_type input) eqn:Htype; apply elem_of_cons in Ho as [-> | Ho].
  - exists input. rewrite Htype. split; [apply list_elem_of_here | done].
  - apply IH in Ho as (i & Hi & Ho). exists i. split; [by right | done].
  - exists input. rewrite Htype. split; [apply list_elem_of_here | done].
  - apply IH in Ho as (i & Hi & Ho). exists i. split; [by right | done].
  - exists input. rewrite Htype. split; [apply list_elem_of_here |].
    by exists idx.
  - apply IH in Ho as (i & Hi & Ho). exists i. split; [by right |].
    destruct (pi_type i); [done | done |].
    destruct Ho as (n & Hn & ->). exists n. split; [lia | done].
Qed.

(** The subtitle outputs are numbered, so that no two of them coincide. *)
Lemma outputBases_subtitles_NoDup (inputs : list PackagerInput) :
  forall idx,
    Forall (fun i => pi_type i = pk_subtitle) inputs ->
    NoDup (Packager.outputBases inputs idx).
Proof.
  induction inputs as [| input rest IH]; intros idx Hsubs; [constructor |].
  apply Forall_cons in Hsubs as [Hsub Hsubs].
  cbn [Packager.outputBases]. rewrite Hsub. apply NoDup_cons. split; [| eauto].
  intros Hin. apply outputBases_folders in Hin as (i & Hi & Ho).
  rewrite Forall_forall in Hsubs. rewrite (Hsubs i) in Ho by done.
  destruct Ho as (n & Hn & Heq). apply (f_equal snd) in Heq.
  cbn [snd] in Heq. apply subtitleBase_inj in Heq. lia.
Qed.

Lemma videoBase_inj (q1 q2 : RenditionQuality) (c1 c2 : Codec) :
  "video_" +:+ quality_name q1 +:+ "_" +:+ codec_name_of c1
  = "video_" +:+ quality_name q2 +:+ "_" +:+ codec_name_of c2 ->
  (q1, c1) = (q2, c2).
Proof. by destruct q1, q2, c1, c2. Qed.

(** The outputs of the inputs that [preparePackagerInputs] builds are
    pairwise distinct when the video files differ in quality or codec and
    the audio files in index. *)
Lemma prepared_outputs_distinct (videoFiles : list VideoFile)
    (audioFiles : list AudioFile) (subtitleFiles : list SubtitleFile) :
  NoDup (map (fun v => (vf_quality v, vf_codec v)) videoFiles) ->
  NoDup (map af_index audioFiles) ->
  NoDup (Packager.outputBases
           (preparePackagerInputs videoFiles audioFiles subtitleFiles) 0).
Proof.
  intros Hvideo Haudio. unfold preparePackagerInputs.
  rewrite outputBases_app by (apply Forall_map, Forall_true; done).
  rewrite outputBases_app by (apply Forall_map, Forall_true; done).
  apply NoDup_app. split; [| split; [| apply NoDup_app; split; [| split]]].
  - set (f := fun v : VideoFile =>
                ("videos",
                 "video_" +:+ quality_name (vf_quality v) +:+ "_"
                 +:+ codec_name_of (vf_codec v))).
    assert (Hmap : forall vs idx,
              Packager.outputBases
                (map (fun video =>
                        {| pi_type := pk_video; pi_filePath := vf_path video;
                           pi_codec := codec_name_of (vf_codec video);
                           pi_quality := Some (vf_quality video);
                           pi_language := None; pi_label := None;
                           pi_subtitleType := None; pi_isDefault := None;
                           pi_index := None |}) vs) idx
              = map f vs).
    { induction vs as [| v vs IH]; intros idx; [done |].
      simpl. by rewrite IH. }
    rewrite Hmap.
    apply (NoDup_map_through f (fun v => (vf_quality v, vf_codec v)));
      [| done].
    intros x y Heq. apply (f_equal snd) in Heq. by apply videoBase_inj.
  - intros o Ho Ho'.
    apply outputBases_folders in Ho as (i & Hi & Ho).
    apply list_elem_of_fmap in Hi as (v & -> & _). simpl in Ho. subst o.
    apply elem_of_app in Ho' as [Ho' | Ho'];
      apply outputBases_folders in Ho' as (i & Hi & Ho');
      apply list_elem_of_fmap in Hi as (x & -> & _); simpl in Ho';
      [discriminate | by destruct Ho' as (n & _ & ?)].
  - set (f := fun a : AudioFile =>
                ("audio",
                 "audio_" +:+ Str.or_default (Some (af_language a)) "und"
                 +:+ "_" +:+ pretty (af_index a))).
    assert (Hmap : forall auds idx,
              Packager.outputBases
                (map (fun audio =>
                        {| pi_type := pk_audio; pi_filePath := af_path audio;
                           pi_codec := "aac"; pi_quality := None;
                           pi_language := Some (af_language audio);
                           pi_label := af_label audio;
                           pi_subtitleType := None; pi_isDefault := None;
                           pi_index := Some (af_index audio) |}) auds) idx
              = map f auds).
    { induction auds as [| a auds IH]; intros idx; [done |].
      simpl. by rewrite IH. }
    rewrite Hmap. apply (NoDup_map_through f af_index); [| done].
    intros x y Heq. apply (f_equal snd) in Heq. subst f. cbn [snd] in Heq.
    rewrite !(app_app "audio_") in Heq.
    by apply numbered_inj in Heq as [_ ?].
  - intros o Ho Ho'.
    apply outputBases_folders in Ho as (i & Hi & Ho).
    apply list_elem_of_fmap in Hi as (a & -> & _). simpl in Ho. subst o.
    apply outputBases_folders in Ho' as (i & Hi & Ho').
    apply list_elem_of_fmap in Hi as (x & -> & _). simpl in Ho'.
    by destruct Ho' as (n & _ & ?).
  - apply outputBases_subtitles_NoDup. apply Forall_map, Forall_true. done.
Qed.

Lemma completions_sublist_endings (t : list Event) :
  map (fun v => (vf_codec v, vf_quality v)) (completions t)
  `sublist_of` endings t.
Proof.
  unfold completions, endings. induction t as [| e t IH]; [done |].
  destruct e; simpl; try done; by constructor.
Qed.

Section AppFacts.

Context {E : Env}.

Lemma audioFilesOf_indices (tmpDir : string) (mediaInfo : MediaInfo) :
  map af_index (audioFilesOf tmpDir mediaInfo)
  = seq 0 (length (audioStreams mediaInfo)).
Proof.
  unfold audioFilesOf. rewrite fmap_imap.
  rewrite <- (list_fmap_id (seq 0 _)), <- imap_seq_0.
  by apply imap_ext.
Qed.

(** X20: the outputs of a run never collide.  Whatever the jobs of the
    rendition loop did, and whatever the languages and types of the audio
    and subtitle tracks, the inputs that the orchestrator prepares for the
    packager are written to pairwise distinct folders and playlists, provided
    that the renditions transcoded differ in quality: the video outputs
    differ in quality or codec, the audio outputs in their index, and the
    subtitle outputs in the counter of the packager, also when two of them
    were extracted to the same file. *)
Theorem packaged_outputs_never_collide (sourcePath tmpDir : string)
    (vp9HWAccel hevcHWAccel : HWAccelInfo) (mediaInfo : MediaInfo)
    (settings : TranscodeSettings) (skipIfExists : bool)
    (renditions : list Rendition) (w : World) :
  let loop := transcodeRenditions sourcePath tmpDir vp9HWAccel hevcHWAccel
                mediaInfo settings skipIfExists renditions [] w in
  let inputs :=
    preparePackagerInputs (completions loop.1.2)
      (audioFilesOf tmpDir mediaInfo) (subtitleFilesOf tmpDir mediaInfo) in
  NoDup (map quality renditions) ->
  NoDup (Packager.outputBases inputs 0)
  /\ length (Packager.outputBases inputs 0)
     = (length (completions loop.1.2) + length (audioStreams mediaInfo)
        + length (subtitleStreams mediaInfo))%nat.
Proof.
  intros loop inputs Hq. split.
  - apply prepared_outputs_distinct.
    + assert (Hjobs :
                NoDup (flat_map
                         (fun r => [(vp9, quality r); (hevc, quality r)])
                         renditions)).
      { clear loop inputs. induction renditions as [| r rs IH]; [constructor |].
        simpl in Hq |- *. apply NoDup_cons in Hq as [Hr Hrs].
        assert (Hout : forall c, (c, quality r)
                                 ∉ flat_map
                                     (fun r => [(vp9, quality r);
                                                (hevc, quality r)]) rs).
        { intros c Hin. apply Hr. apply list_elem_of_In, in_flat_map in Hin
            as (r' & Hr' & Hin).
          apply list_elem_of_fmap. exists r'.
          split; [| by apply list_elem_of_In].
          simpl in Hin. destruct Hin as [[= ? ?] | [[= ? ?] | []]]; done. }
        apply NoDup_cons. split.
        - intros Hin. apply elem_of_cons in Hin as [[=] | Hin].
          by apply Hout in Hin.
        - apply NoDup_cons. split; [apply Hout | by apply IH]. }
      pose proof (completions_sublist_endings loop.1.2) as Hsub.
      subst loop. rewrite (proj1 (rendition_loop_counts _ _ _ _ _ _ _ _ _ _))
        in Hsub.
      pose proof (sublist_NoDup _ _ Hjobs Hsub) as Hnd.
      apply (NoDup_map_through _ (fun v => (vf_codec v, vf_quality v)));
        [| exact Hnd].
      by intros x y [= -> ->].
    + rewrite audioFilesOf_indices. apply NoDup_seq.
  - rewrite outputBases_length. subst inputs. unfold preparePackagerInputs.
    rewrite !length_app, !length_map. unfold audioFilesOf, subtitleFilesOf.
    rewrite length_imap, length_map. lia.
Qed.

End AppFacts.

Lemma packaged_outputs_never_collide_witness :
  NoDup (map quality [tier_2160p])
  /\ NoDup (Packager.outputBases
              (preparePackagerInputs (completions two_subtitle_loop.1.2)
                 (audioFilesOf (E := all_succeed) "out/tmp" two_subtitle_source)
                 (subtitleFilesOf (E := all_succeed) "out/tmp"
                    two_subtitle_source))
              0).
Proof.
  assert (Hq : NoDup (map quality [tier_2160p])) by apply NoDup_singleton.
  split; [exact Hq |].
  exact (proj1 (packaged_outputs_never_collide (E := all_succeed) "in.mkv"
                  "out/tmp" SOFTWARE_CONFIG SOFTWARE_CONFIG
                  two_subtitle_source (getTranscodeSettings prod) false
                  [tier_2160p] tt Hq)).
Defined.

(** ** The extractors and the files handed to the packager *)

Section ExtractorFacts.

Context {E : Env}.

Lemma audioCommands_cons (inputPath outputDir : string)
    (stream : AudioStream) (rest : list AudioStream) (idx : nat) :
  audioCommands inputPath outputDir (stream :: rest) idx
  = audioArgs inputPath (path_join outputDir (audioFileName stream idx))
      stream idx
    :: audioCommands inputPath outputDir rest (S idx).
Proof.
  unfold audioCommands. simpl. rewrite Nat.add_0_r. f_equal.
  apply imap_ext. intros k s _. simpl.
  by replace (idx + S k)%nat with (S (idx + k)) by lia.
Qed.

Lemma audioCommands_lookup (inputPath outputDir : string)
    (streams : list AudioStream) (idx k : nat) :
  audioCommands inputPath outputDir streams idx !! k
  = (fun s => audioArgs inputPath
                (path_join outputDir (audioFileName s (idx + k))) s (idx + k))
    <$> streams !! k.
Proof. unfold audioCommands. by rewrite list_lookup_imap. Qed.

(** The rest of the audio loop, after the step of the track at [idx], which
    was extracted by a process or skipped. *)
Lemma audio_loop_step (inputPath outputDir : string) (skipIfExists : bool)
    (stream : AudioStream) (rest : list AudioStream) (idx : nat)
    (before after : gmap nat string) (extracted : bool)
    (run : World * list Event * Result (gmap nat string)) :
  let outputPath := path_join outputDir (audioFileName stream idx) in
  let step :=
    if extracted
    then [Spawn "ffmpeg" (audioArgs inputPath outputPath stream idx)]
    else [] in
  audio_loop_spec inputPath outputDir skipIfExists rest (S idx) after run ->
  (extracted = false -> skipIfExists = true) ->
  (forall k, k <> idx -> after !! k = before !! k) ->
  (after !! idx = Some outputPath \/ after !! idx = before !! idx) ->
  audio_loop_spec inputPath outputDir skipIfExists (stream :: rest) idx
    before (run.1.1, step ++ run.1.2, run.2).
Proof.
  intros outputPath step (Hsub & Hpre & Hmap & Hthrow & Hstarts) Hskip Hother
    Hhere.
  unfold audio_loop_spec. rewrite audioCommands_cons. fold outputPath.
  assert (Hspawned :
            spawned (step ++ run.1.2)
            = (if extracted then [audioArgs inputPath outputPath stream idx]
               else []) ++ spawned run.1.2).
  { unfold spawned. rewrite omap_app. subst step. by destruct extracted. }
  cbn [fst snd]. rewrite Hspawned.
  split; [| split; [| split; [| split]]].
  - destruct extracted; simpl; [by apply sublist_skip | by apply sublist_cons].
  - intros Hoff. destruct extracted; [| rewrite Hskip in Hoff; done].
    simpl. apply prefix_cons. by apply Hpre.
  - intros m Hm. destruct (Hmap m Hm) as (Hall & Hlow & Hnew).
    split; [| split].
    + intros Hoff. destruct extracted; [| rewrite Hskip in Hoff; done].
      simpl. f_equal. by apply Hall.
    + intros k Hk. simpl in Hk. rewrite Hlow by lia. apply Hother. lia.
    + intros [| k] s Hk.
      * injection Hk as <-. rewrite Nat.add_0_r, Hlow by lia.
        destruct Hhere as [Hhere | Hhere]; [by left | by right].
      * replace (idx + S k)%nat with (S idx + k)%nat by lia.
        destruct (Hnew k s Hk) as [Hk' | Hk']; [by left | right].
        rewrite Hk'. apply Hother. lia.
  - intros e He. destruct (Hthrow e He) as (args & w0 & w1 & Hlast & Hfail).
    exists args, w0, w1. split; [| exact Hfail].
    destruct (spawned run.1.2) as [| a l] eqn:Hl; [discriminate Hlast |].
    rewrite last_app, Hlast. done.
  - exact Hstarts.
Qed.

Lemma extractAudio_from_spec (inputPath outputDir : string)
    (skipIfExists : bool) (streams : list AudioStream) :
  forall (idx : nat) (before : gmap nat string) (w : World),
    audio_loop_spec inputPath outputDir skipIfExists streams idx before
      (extractAudio_from inputPath outputDir skipIfExists streams idx before
         w).
Proof.
  induction streams as [| stream rest IH]; intros idx before w.
  - simpl. split; [done |]. split; [done |]. split; [| split].
    + intros m [= <-]. split; [done |]. split; [done |].
      intros k s Hk. by rewrite lookup_nil in Hk.
    + intros e He. discriminate He.
    + intros _. by exists before.
  - cbn [extractAudio_from]. rewrite bind_run.
    set (outputPath := path_join outputDir (audioFileName stream idx)).
    assert (Hfound :
              exists b,
                (if skipIfExists then access outputPath else ret false) w
                = (w, [], Ok b)
                /\ (b = true -> skipIfExists = true))
      by (destruct skipIfExists; eauto).
    destruct Hfound as (b & -> & Hb). destruct b.
    + pose proof (IH (S idx) (<[idx := outputPath]> before) w) as Hrest.
      destruct (extractAudio_from _ _ _ rest _ _ w) as [[w2 t2] r2].
      apply (audio_loop_step inputPath outputDir skipIfExists stream rest
               idx before (<[idx := outputPath]> before) false (w2, t2, r2)
               Hrest).
      * intros _. by apply Hb.
      * intros k Hk. apply lookup_insert_ne. lia.
      * left. apply lookup_insert_eq.
    + rewrite bind_run. unfold spawn.
      pose proof (fun H : ffmpeg_starts =>
                    H w (audioArgs inputPath outputPath stream idx)) as Hstart.
      destruct (spawn_ffmpeg w _) as [w1 [proc | e]] eqn:Hspawn;
        simpl in Hstart.
      * destruct (pr_exit proc =? 0) eqn:Hcode.
        -- pose proof (IH (S idx) (<[idx := outputPath]> before) w1) as Hrest.
           destruct (extractAudio_from _ _ _ rest _ _ w1) as [[w2 t2] r2].
           apply (audio_loop_step inputPath outputDir skipIfExists stream
                    rest idx before (<[idx := outputPath]> before) true
                    (w2, t2, r2) Hrest).
           ++ done.
           ++ intros k Hk. apply lookup_insert_ne. lia.
           ++ left. apply lookup_insert_eq.
        -- pose proof (IH (S idx) before w1) as Hrest.
           destruct (extractAudio_from _ _ _ rest _ _ w1) as [[w2 t2] r2].
           apply (audio_loop_step inputPath outputDir skipIfExists stream
                    rest idx before before true (w2, t2, r2) Hrest);
             [done | done | by right].
      * unfold audio_loop_spec. rewrite audioCommands_cons.
        fold outputPath. simpl.
        split; [apply sublist_skip, sublist_nil_l |].
        split; [intros _; by eexists |].
        split; [intros m Hm; discriminate Hm |]. split.
        -- intros e' [= <-].
           by exists (audioArgs inputPath outputPath stream idx), w, w1.
        -- intros Hs. by destruct (Hstart Hs).
Qed.

End ExtractorFacts.

Section ExtractorTheorems.

Context {E : Env}.

(** X21: the files that the extractors record are the files that the
    orchestrator hands to the packager.  A path that [extractAudio] records
    for an index is the path of the audio file of that index in the list
    built for the packager, and a path that [extractSubtitles] records is the
    path of the subtitle file of that index; the audio command of a track
    maps the audio stream of its index onto the path of that file, with the
    codec and bitrate of the stream.  The commands spawned are commands of
    the tracks, in track order and at most one for a track; unless existing
    files may be skipped they are those of all the tracks up to the first
    process that cannot be started, and of every track when the extractor
    returns, whether or not the commands before exit with code zero.  An
    extractor throws only the error of the start of the last command it
    spawned, and returns when every process can be started. *)
Theorem extracted_files_are_the_packaged_files (sourcePath tmpDir : string)
    (mediaInfo : MediaInfo) (skipIfExists : bool) (wa ws : World) :
  let audio := extractAudio sourcePath tmpDir (audioStreams mediaInfo)
                 skipIfExists wa in
  let subtitles := extractSubtitles sourcePath tmpDir
                     (subtitleStreams mediaInfo) skipIfExists ws in
  let audioCmds :=
    audioCommands sourcePath tmpDir (audioStreams mediaInfo) 0 in
  let subtitleCmds :=
    subtitleCommands sourcePath tmpDir (subtitleStreams mediaInfo) 0 in
  (forall m k p,
     audio.2 = Ok m -> m !! k = Some p ->
     exists f, audioFilesOf tmpDir mediaInfo !! k = Some f
               /\ af_path f = p /\ af_index f = k)
  /\ (forall m k p,
        subtitles.2 = Ok m -> m !! k = Some p ->
        exists f, subtitleFilesOf tmpDir mediaInfo !! k = Some f
                  /\ sf_path f = p)
  /\ (forall k s,
        audioStreams mediaInfo !! k = Some s ->
        exists f,
          audioFilesOf tmpDir mediaInfo !! k = Some f
          /\ audioCmds !! k
             = Some ["-y"; "-i"; sourcePath; "-map"; "0:a:" +:+ pretty k;
                     "-c:a"; getAudioCodec s; "-b:a"; getAudioBitrate s;
                     "-vn"; af_path f])
  /\ (forall k s,
        subtitleStreams mediaInfo !! k = Some s ->
        exists f,
          subtitleFilesOf tmpDir mediaInfo !! k = Some f
          /\ subtitleCmds !! k
             = Some ["-y"; "-i"; sourcePath; "-map"; "0:s:" +:+ pretty k;
                     "-c:s"; "webvtt"; sf_path f])
  /\ spawned audio.1.2 `sublist_of` audioCmds
  /\ spawned subtitles.1.2 `sublist_of` subtitleCmds
  /\ (skipIfExists = false ->
      spawned audio.1.2 `prefix_of` audioCmds
      /\ spawned subtitles.1.2 `prefix_of` subtitleCmds
      /\ (forall m, audio.2 = Ok m -> spawned audio.1.2 = audioCmds)
      /\ (forall m, subtitles.2 = Ok m ->
                    spawned subtitles.1.2 = subtitleCmds))
  /\ (forall e,
        audio.2 = Throw e ->
        exists args w0 w1,
          last (spawned audio.1.2) = Some args
          /\ spawn_ffmpeg w0 args = (w1, Throw e))
  /\ (forall e,
        subtitles.2 = Throw e ->
        exists args w0 w1,
          last (spawned subtitles.1.2) = Some args
          /\ spawn_ffmpeg w0 args = (w1, Throw e))
  /\ (ffmpeg_starts ->
      (exists m, audio.2 = Ok m) /\ (exists m, subtitles.2 = Ok m)).
Proof.
  intros audio subtitles audioCmds subtitleCmds.
  assert (Haudio :
            spawned audio.1.2
            = spawned (extractAudio_from sourcePath tmpDir skipIfExists
                         (audioStreams mediaInfo) 0%nat ∅ wa).1.2
            /\ audio.2
               = (extractAudio_from sourcePath tmpDir skipIfExists
                    (audioStreams mediaInfo) 0%nat ∅ wa).2).
  { subst audio. unfold extractAudio. rewrite bind_emit.
    destruct (extractAudio_from _ _ _ _ _ _ wa) as [[w2 t2] r2].
    split; reflexivity. }
  assert (Hsubtitles :
            spawned subtitles.1.2
            = spawned (extractSubtitles_from sourcePath tmpDir skipIfExists
                         (subtitleStreams mediaInfo) 0%nat ∅ ws).1.2
            /\ subtitles.2
               = (extractSubtitles_from sourcePath tmpDir skipIfExists
                    (subtitleStreams mediaInfo) 0%nat ∅ ws).2).
  { subst subtitles. unfold extractSubtitles. rewrite bind_emit.
    destruct (extractSubtitles_from _ _ _ _ _ _ ws) as [[w2 t2] r2].
    split; reflexivity. }
  destruct Haudio as [-> ->]. destruct Hsubtitles as [-> ->].
  pose proof (extractAudio_from_spec sourcePath tmpDir skipIfExists
                (audioStreams mediaInfo) 0%nat ∅ wa)
    as (Hsuba & Hprea & Hmapa & Hthrowa & Hstartsa).
  pose proof (extractSubtitles_from_spec sourcePath tmpDir skipIfExists
                (subtitleStreams mediaInfo) 0%nat ∅ ws)
    as (Hsubs & Hpres & Hmaps & Hthrows & Hstartss & _).
  fold audioCmds in Hsuba, Hprea, Hmapa.
  fold subtitleCmds in Hsubs, Hpres, Hmaps.
  split; [| split; [| split; [| split; [| split; [| split;
    [| split; [| split; [| split]]]]]]]].
  - intros m k p Hm Hk. destruct (Hmapa m Hm) as (_ & Hout & Hnew).
    destruct (audioStreams mediaInfo !! k) as [s |] eqn:Hs.
    + unfold audioFilesOf. rewrite list_lookup_imap, Hs. simpl.
      eexists. split; [done |]. split; [| done]. simpl.
      destruct (Hnew k s Hs) as [Hp | Hp]; simpl in Hp; rewrite Hk in Hp.
      * by injection Hp as ->.
      * by rewrite lookup_empty in Hp.
    + apply lookup_ge_None in Hs. rewrite Hout, lookup_empty in Hk by lia.
      discriminate Hk.
  - intros m k p Hm Hk. destruct (Hmaps m Hm) as (_ & Hout & Hnew).
    destruct (subtitleStreams mediaInfo !! k) as [s |] eqn:Hs.
    + unfold subtitleFilesOf. rewrite list_lookup_fmap, Hs. simpl.
      eexists. split; [done |]. simpl.
      destruct (Hnew k s Hs) as [Hp | Hp]; simpl in Hp; rewrite Hk in Hp.
      * injection Hp as ->. unfold subtitleFileName. by destruct (s_type s).
      * by rewrite lookup_empty in Hp.
    + apply lookup_ge_None in Hs. rewrite Hout, lookup_empty in Hk by lia.
      discriminate Hk.
  - intros k s Hs. unfold audioFilesOf. rewrite list_lookup_imap, Hs. simpl.
    eexists. split; [done |]. subst audioCmds.
    by rewrite audioCommands_lookup, Hs.
  - intros k s Hs. unfold subtitleFilesOf. rewrite list_lookup_fmap, Hs.
    simpl. eexists. split; [done |]. subst subtitleCmds.
    rewrite subtitleCommands_lookup, Hs. simpl.
    unfold subtitleArgs, subtitleFileName. by destruct (s_type s).
  - exact Hsuba.
  - exact Hsubs.
  - intros Hoff. split; [by apply Hprea |]. split; [by apply Hpres |].
    split; intros m Hm; [by apply (Hmapa m Hm) | by apply (Hmaps m Hm)].
  - exact Hthrowa.
  - exact Hthrows.
  - intros Hstarts. split; [by apply Hstartsa | by apply Hstartss].
Qed.

End ExtractorTheorems.

Lemma extracted_files_are_the_packaged_files_witness :
  spawned (extractAudio (E := audio_fails) "in.mkv" "out/tmp"
             (audioStreams two_subtitle_source) false tt).1.2
  = audioCommands (E := audio_fails) "in.mkv" "out/tmp"
      (audioStreams two_subtitle_source) 0
  /\ last (spawned
             (extractSubtitles (E := no_ffmpeg) "in.mkv" "out/tmp"
                (subtitleStreams two_subtitle_source) false tt).1.2)
     = Some (subtitleArgs "in.mkv" "out/tmp/sub_eng.vtt" 0).
Proof.
  split.
  - exact (proj1 (proj2 (proj2
             (proj1 (proj2 (proj2 (proj2 (proj2 (proj2 (proj2
                (extracted_files_are_the_packaged_files (E := audio_fails)
                   "in.mkv" "out/tmp" two_subtitle_source false tt tt)))))))
                eq_refl)))
             ∅ eq_refl).
  - by vm_compute.
Defined.

(** ** The encoding of a probed audio track *)

(** X10: how a probed audio stream is encoded.  A stream with more than six
    channels, or whose layout names atmos or 7.1, is encoded as E-AC3 at 768k;
    otherwise a stream with six channels, or whose layout names 5.1 or 6.0,
    as E-AC3 at 640k; every other stream, and so one without a channel count
    and without a layout, as AAC at 128k.  The stream keeps the index it is
    given, and its language is und when the tag is missing or empty. *)
Theorem audio_encoding_of_probed_stream (stream : FFprobeEntry) (index : nat) :
  let a := pa_stream (parseAudioStream stream index) in
  let wide :=
    layout_includes stream "atmos" || layout_includes stream "7.1"
    || (6 <? channels_or_2 stream) in
  let surround :=
    layout_includes stream "5.1" || layout_includes stream "6.0"
    || (channels_or_2 stream =? 6) in
  (getAudioCodec a, getAudioBitrate a)
  = (if wide then ("eac3", "768k")
     else if surround then ("eac3", "640k") else ("aac", "128k"))
  /\ (channels stream = None -> channel_layout stream = None ->
      (getAudioCodec a, getAudioBitrate a) = ("aac", "128k"))
  /\ (forall c, channels stream = Some c -> 6 < c ->
                (getAudioCodec a, getAudioBitrate a) = ("eac3", "768k"))
  /\ a_index a = index
  /\ (a_language a = "und" <-> ~ Str.truthy (tag stream "language")
                               \/ tag stream "language" = Some "und").
Proof.
  intros a wide surround. subst a wide surround.
  unfold parseAudioStream, getAudioCodec, getAudioBitrate. simpl.
  split; [| split; [| split; [| split]]].
  - by repeat case_match.
  - intros Hc Hl. unfold layout_includes, channels_or_2. by rewrite Hc, Hl.
  - intros c Hc Hwide. unfold channels_or_2. rewrite Hc.
    assert (Hnz : (c =? 0) = false) by (apply Z.eqb_neq; lia).
    assert (Hlt : (6 <? c) = true) by (apply Z.ltb_lt; lia).
    rewrite Hnz, Hlt, !orb_true_r. done.
  - done.
  - unfold Str.or_default, Str.truthy.
    destruct (tag stream "language") as [[| c r] |]; simpl.
    + split; [intros _; left; by intros [] | done].
    + split.
      * intros ->. by right.
      * intros [Hno | [= -> ->]]; [by destruct Hno | done].
    + split; [intros _; left; by intros [] | done].
Qed.

Lemma audio_encoding_of_probed_stream_witness :
  (getAudioCodec (pa_stream (parseAudioStream (entry "audio" (plain_stream "ac3")) 0)),
   getAudioBitrate (pa_stream (parseAudioStream (entry "audio" (plain_stream "ac3")) 0)))
  = ("aac", "128k").
Proof.
  exact (proj1 (proj2 (audio_encoding_of_probed_stream
                          (entry "audio" (plain_stream "ac3")) 0))
           eq_refl eq_refl).
Defined.

(** ** The tool check *)

Lemma status_checks_app (t1 t2 : list Tools.Ev) :
  Tools.status_checks (t1 ++ t2)
  = (Tools.status_checks t1 + Tools.status_checks t2)%nat.
Proof. unfold Tools.status_checks. by rewrite List.filter_app, length_app. Qed.

Lemma install_outcomes_installs (t : list Tools.Ev) :
  length (Tools.installs t) = length (Tools.install_outcomes t).
Proof.
  induction t as [| [program flag | command args outcome] t IH]; simpl;
    [done | exact IH | by rewrite IH].
Qed.

Section ToolFacts.

Context {sys : Tools.Sys}.

Lemma tbind_run {A B : Type} (m : Tools.T A) (k : A -> Tools.T B)
    (w : Tools.TWorld) :
  Tools.bind m k w
  = ((k (m w).2 (m w).1.1).1.1,
     (m w).1.2 ++ (k (m w).2 (m w).1.1).1.2,
     (k (m w).2 (m w).1.1).2).
Proof.
  unfold Tools.bind. destruct (m w) as [[w1 t1] a]. simpl.
  by destruct (k a w1) as [[w2 t2] b].
Qed.

(** The search for a package manager installs nothing and checks no tool. *)
Lemma getPackageManager_trace (w : Tools.TWorld) :
  Tools.installs (Tools.getPackageManager w).1.2 = []
  /\ Tools.install_outcomes (Tools.getPackageManager w).1.2 = []
  /\ Tools.status_checks (Tools.getPackageManager w).1.2 = 0%nat.
Proof.
  unfold Tools.getPackageManager, Tools.bind, Tools.resolves, Tools.ret.
  destruct Tools.detectPlatform.
  - destruct (Tools.quiet w _ _) as [w1 []]; [done |].
    by destruct (Tools.quiet w1 _ _) as [w2 []].
  - by destruct (Tools.quiet w _ _) as [w1 []].
  - by destruct (Tools.quiet w _ _) as [w1 []].
Qed.

Lemma getPackageManager_platform (w : Tools.TWorld) :
  match Tools.detectPlatform with
  | Tools.windows =>
      (Tools.getPackageManager w).2 ∈ [Tools.winget; Tools.choco; Tools.unknown]
  | Tools.macos => (Tools.getPackageManager w).2 ∈ [Tools.brew; Tools.unknown]
  | Tools.linux => (Tools.getPackageManager w).2 ∈ [Tools.apt; Tools.unknown]
  end.
Proof.
  unfold Tools.getPackageManager, Tools.bind, Tools.resolves, Tools.ret.
  destruct Tools.detectPlatform.
  - destruct (Tools.quiet w _ _) as [w1 []]; [set_solver |].
    destruct (Tools.quiet w1 _ _) as [w2 []]; set_solver.
  - destruct (Tools.quiet w _ _) as [w1 []]; set_solver.
  - destruct (Tools.quiet w _ _) as [w1 []]; set_solver.
Qed.

(** A status check installs nothing, and is one status check. *)
Lemma checkAllTools_trace (w : Tools.TWorld) :
  Tools.installs (Tools.checkAllTools w).1.2 = []
  /\ Tools.install_outcomes (Tools.checkAllTools w).1.2 = []
  /\ Tools.status_checks (Tools.checkAllTools w).1.2 = 1%nat.
Proof.
  unfold Tools.checkAllTools, Tools.checkTool, Tools.bind, Tools.resolves,
    Tools.ret.
  destruct (Tools.quiet w _ _) as [w1 b1].
  destruct (Tools.quiet w1 _ _) as [w2 b2].
  by destruct (Tools.quiet w2 _ _) as [w3 b3].
Qed.

Lemma getInstallCommand_unknown (tool : Tools.Tool)
    (pkgManager : Tools.PackageManager) :
  Tools.getInstallCommand tool pkgManager = None
  <-> pkgManager = Tools.unknown.
Proof.
  unfold Tools.getInstallCommand.
  destruct pkgManager, (Tools.effectiveTool tool); split; done.
Qed.

(** What [installTool] does after the search for a package manager. *)
Lemma installTool_run (tool : Tools.Tool) (w : Tools.TWorld) :
  let found := Tools.getPackageManager w in
  let run := Tools.installTool tool w in
  let manual := Tools.getManualInstallInstructions tool in
  match Tools.getInstallCommand tool found.2 with
  | None =>
      found.2 = Tools.unknown
      /\ run.1.2 = found.1.2
      /\ run.2
         = {| Tools.success := false;
              Tools.message := "No package manager found. " +:+ manual |}
  | Some cmd =>
      found.2 <> Tools.unknown
      /\ exists w1 outcome,
           Tools.run_install found.1.1 (Tools.command cmd) (Tools.args cmd)
           = (w1, outcome)
           /\ run.1.2
              = found.1.2
                ++ [Tools.Install (Tools.command cmd) (Tools.args cmd) outcome]
           /\ run.2
              = match outcome with
                | Ok (exitCode, stderr) =>
                    if exitCode =? 0 then
                      {| Tools.success := true;
                         Tools.message := "Successfully installed "
                                          +:+ Tools.tool_name tool |}
                    else
                      {| Tools.success := false;
                         Tools.message :=
                           "Installation failed: " +:+ stderr +:+ newline
                           +:+ manual |}
                | Throw error =>
                    {| Tools.success := false;
                       Tools.message :=
                         "Installation error: " +:+ error +:+ newline
                         +:+ manual |}
                end
  end.
Proof.
  intros found run manual. subst found run manual.
  unfold Tools.installTool, Tools.bind.
  pose proof (getInstallCommand_unknown tool (Tools.getPackageManager w).2)
    as Hunknown.
  destruct (Tools.getPackageManager w) as [[w1 t1] pm]. simpl in *.
  destruct (Tools.getInstallCommand tool pm) as [[command args] |]; simpl.
  - split; [intros Hpm; by apply Hunknown in Hpm |].
    destruct (Tools.run_install w1 command args) as [w2 r]. simpl.
    by exists w2, r.
  - split; [by apply Hunknown |]. by rewrite app_nil_r.
Qed.

(** The trace of [installTool]: at most one install command, no status
    check, and success exactly for a command that exited with code zero. *)
Lemma installTool_trace (tool : Tools.Tool) (w : Tools.TWorld) :
  let run := Tools.installTool tool w in
  Tools.status_checks run.1.2 = 0%nat
  /\ ((Tools.install_outcomes run.1.2 = []
       /\ Tools.success run.2 = false
       /\ (Tools.getPackageManager w).2 = Tools.unknown)
      \/ exists outcome,
           Tools.install_outcomes run.1.2 = [outcome]
           /\ Tools.success run.2 = Tools.exited_zero outcome
           /\ (Tools.getPackageManager w).2 <> Tools.unknown)
  /\ exists report,
       Tools.success run.2 = false ->
       Tools.message run.2
       = report +:+ Tools.getManualInstallInstructions tool.
Proof.
  intros run. pose proof (installTool_run tool w) as Hrun.
  cbv zeta in Hrun. fold run in Hrun.
  pose proof (getPackageManager_trace w) as (_ & Hout & Hchecks).
  destruct (Tools.getInstallCommand tool _) as [cmd |].
  - destruct Hrun as (Hfound & w1 & outcome & _ & -> & ->).
    rewrite status_checks_app, Hchecks.
    unfold Tools.install_outcomes in *. rewrite omap_app, Hout.
    split; [done |]. split.
    + right. exists outcome. split; [done |]. split; [| done].
      destruct outcome as [[exitCode stderr] | e]; [| done].
      simpl. by destruct (exitCode =? 0).
    + destruct outcome as [[exitCode stderr] | e].
      * exists ("Installation failed: " +:+ stderr +:+ newline).
        destruct (exitCode =? 0); [discriminate |]. intros _. simpl.
        by rewrite <- !app_app.
      * exists ("Installation error: " +:+ e +:+ newline). intros _. simpl.
        by rewrite <- !app_app.
  - destruct Hrun as (Hfound & -> & ->). split; [exact Hchecks |]. split.
    + by left.
    + by exists "No package manager found. ".
Qed.

(** X22: what [installTool] runs and reports.  When no package manager
    answers it runs nothing and reports the failure 'No package manager
    found'.  Otherwise it runs one install command, that of the manager found
    for the platform (winget or else choco on Windows, brew on macOS, apt
    through sudo elsewhere), and reports what became of it: success exactly
    when the command was started and exited with code zero, naming the tool
    asked for; the stderr of a command that exited with another code; the
    error of a command that could not be started.  Installing ffprobe runs
    the command that installs ffmpeg.  Every report of a failure ends with
    the manual instructions for the tool. *)
Theorem installTool_outcome (tool : Tools.Tool) (w : Tools.TWorld) :
  let found := Tools.getPackageManager w in
  let run := Tools.installTool tool w in
  let manual := Tools.getManualInstallInstructions tool in
  match Tools.getInstallCommand tool found.2 with
  | None =>
      found.2 = Tools.unknown
      /\ run.1.2 = found.1.2
      /\ Tools.installs run.1.2 = []
      /\ run.2
         = {| Tools.success := false;
              Tools.message := "No package manager found. " +:+ manual |}
  | Some cmd =>
      found.2 <> Tools.unknown
      /\ Tools.installs run.1.2 = [cmd]
      /\ exists w1 outcome,
           Tools.run_install found.1.1 (Tools.command cmd) (Tools.args cmd)
           = (w1, outcome)
           /\ run.1.2
              = found.1.2
                ++ [Tools.Install (Tools.command cmd) (Tools.args cmd) outcome]
           /\ run.2
              = match outcome with
                | Ok (exitCode, stderr) =>
                    if exitCode =? 0 then
                      {| Tools.success := true;
                         Tools.message := "Successfully installed "
                                          +:+ Tools.tool_name tool |}
                    else
                      {| Tools.success := false;
                         Tools.message :=
                           "Installation failed: " +:+ stderr +:+ newline
                           +:+ manual |}
                | Throw error =>
                    {| Tools.success := false;
                       Tools.message :=
                         "Installation error: " +:+ error +:+ newline
                         +:+ manual |}
                end
  end
  /\ (Tools.success run.2 = true <->
      exists outcome,
        Tools.install_outcomes run.1.2 = [outcome]
        /\ Tools.exited_zero outcome = true)
  /\ (length (Tools.installs run.1.2) <= 1)%nat
  /\ (forall cmd,
        cmd ∈ Tools.installs run.1.2 ->
        match Tools.detectPlatform with
        | Tools.windows =>
            Tools.command cmd = "winget" \/ Tools.command cmd = "choco"
        | Tools.macos => Tools.command cmd = "brew"
        | Tools.linux =>
            Tools.command cmd = "sudo" /\ head (Tools.args cmd) = Some "apt"
        end)
  /\ Tools.installs (Tools.installTool Tools.ffprobe w).1.2
     = Tools.installs (Tools.installTool Tools.ffmpeg w).1.2
  /\ (Tools.success run.2 = true ->
      Tools.message run.2
      = "Successfully installed " +:+ Tools.tool_name tool)
  /\ (Tools.success run.2 = false ->
      exists report, Tools.message run.2 = report +:+ manual).
Proof.
  intros found run manual.
  pose proof (installTool_run tool w) as Hrun. cbv zeta in Hrun.
  fold found run manual in Hrun.
  pose proof (getPackageManager_platform w) as Hplatform. fold found in Hplatform.
  pose proof (getPackageManager_trace w) as (Hinst & Hout & _).
  fold found in Hinst, Hout.
  assert (Hinstalls :
            Tools.installs run.1.2
            = match Tools.getInstallCommand tool found.2 with
              | Some cmd => [cmd]
              | None => []
              end).
  { destruct (Tools.getInstallCommand tool found.2) as [[command args] |].
    - destruct Hrun as (_ & w1 & outcome & _ & -> & _).
      unfold Tools.installs in *. by rewrite omap_app, Hinst.
    - by destruct Hrun as (_ & -> & _). }
  pose proof (installTool_trace tool w) as (_ & Htrace & report & Hreport).
  fold run in Htrace, Hreport.
  split; [| split; [| split; [| split; [| split; [| split]]]]].
  - destruct (Tools.getInstallCommand tool found.2) as [cmd |].
    + destruct Hrun as (Hfound & Hrest). by repeat split.
    + destruct Hrun as (Hfound & Ht & Hr). by repeat split.
  - destruct Htrace as [(Hnone & Hfail & _) | (outcome & Hone & Hsucc & _)].
    + rewrite Hfail, Hnone. split; [discriminate | by intros (o & Ho & _)].
    + rewrite Hsucc, Hone. split; [by exists outcome |].
      by intros (o & [= <-] & Ho).
  - rewrite Hinstalls. destruct (Tools.getInstallCommand tool found.2);
      simpl; lia.
  - intros cmd Hin. rewrite Hinstalls in Hin.
    destruct (Tools.getInstallCommand tool found.2) as [c |] eqn:Hcmd;
      [| by apply elem_of_nil in Hin].
    apply list_elem_of_singleton in Hin as ->.
    unfold Tools.getInstallCommand in Hcmd.
    destruct Tools.detectPlatform, found.2, (Tools.effectiveTool tool);
      simplify_eq; simpl; auto; exfalso;
      repeat (apply elem_of_cons in Hplatform as [Heq | Hplatform];
              [discriminate Heq |]);
      by apply elem_of_nil in Hplatform.
  - pose proof (installTool_run Tools.ffprobe w) as Hp.
    pose proof (installTool_run Tools.ffmpeg w) as Hm.
    cbv zeta in Hp, Hm. fold found in Hp, Hm.
    assert (Hsame : Tools.getInstallCommand Tools.ffprobe found.2
                    = Tools.getInstallCommand Tools.ffmpeg found.2)
      by reflexivity.
    rewrite Hsame in Hp.
    destruct (Tools.getInstallCommand Tools.ffmpeg found.2) as [cmd |].
    + destruct Hp as (_ & ? & ? & _ & -> & _), Hm as (_ & ? & ? & _ & -> & _).
      unfold Tools.installs. by rewrite !omap_app.
    + by destruct Hp as (_ & -> & _), Hm as (_ & -> & _).
  - intros Hok.
    destruct (Tools.getInstallCommand tool found.2) as [cmd |].
    + destruct Hrun as (_ & w1 & outcome & _ & _ & Hr). rewrite Hr in Hok |- *.
      destruct outcome as [[exitCode stderr] | e]; [| discriminate].
      by destruct (exitCode =? 0).
    + destruct Hrun as (_ & _ & Hr). rewrite Hr in Hok. discriminate.
  - intros Hfail. exists report. by apply Hreport.
Qed.

Lemma installTool_succeeds (tool : Tools.Tool) (w : Tools.TWorld) :
  Tools.installs_exit_zero -> Tools.manager_found ->
  Tools.success (Tools.installTool tool w).2 = true.
Proof.
  intros Hzero Hfound.
  pose proof (installTool_run tool w) as Hrun. cbv zeta in Hrun.
  specialize (Hfound w).
  destruct (Tools.getInstallCommand tool _) as [c |] eqn:Hcmd.
  - destruct Hrun as (_ & w1 & outcome & Hinstall & _ & ->).
    destruct (Hzero (Tools.getPackageManager w).1.1 (Tools.command c)
                (Tools.args c)) as [stderr Hstderr].
    rewrite Hinstall in Hstderr. simpl in Hstderr. by subst outcome.
  - by destruct Hrun as (Hunknown & _).
Qed.

(** The loop over the missing tools: every install before the one that ends
    it exited with code zero and was followed by a status check; it stops at
    the first install that does not succeed. *)
Lemma installMissing_run (tools : list Tools.Tool) :
  forall (status : Tools.ToolStatus) (w : Tools.TWorld),
    let run := Tools.installMissing tools status w in
    exists good bad,
      Tools.install_outcomes run.1.2 = good ++ bad
      /\ Forall (fun o => Tools.exited_zero o = true) good
      /\ Forall (fun o => Tools.exited_zero o = false) bad
      /\ (length bad <= 1)%nat
      /\ Tools.status_checks run.1.2 = length good
      /\ match Tools.step run.2 with
         | Tools.input_source =>
             bad = [] /\ length good = length tools
             /\ Tools.installing run.2 = None
             /\ Tools.installError run.2 = None
             /\ Tools.error run.2 = None
         | Tools.error_step =>
             exists tool report,
               tools !! length good = Some tool
               /\ Tools.installing run.2 = Some tool
               /\ Tools.error run.2
                  = Some ("Missing required tool: " +:+ Tools.tool_name tool)
               /\ Tools.installError run.2
                  = Some ("Failed to install " +:+ Tools.tool_name tool
                          +:+ ": " +:+ report
                          +:+ Tools.getManualInstallInstructions tool
                          +:+ newline
                          +:+ Tools.getManualInstallInstructions tool)
         end
      /\ (good = [] -> Tools.toolStatus run.2 = status)
      /\ (good <> [] ->
          exists w', Tools.toolStatus run.2 = (Tools.checkAllTools w').2)
      /\ (Tools.installs_exit_zero -> Tools.manager_found ->
          Tools.step run.2 = Tools.input_source).
Proof.
  induction tools as [| tool rest IH]; intros status w run; subst run.
  - exists [], []. simpl.
    split; [done |]. split; [constructor |]. split; [constructor |].
    split; [lia |]. by repeat split.
  - cbn [Tools.installMissing]. rewrite tbind_run.
    pose proof (installTool_trace tool w) as (Hchecks & Hout & report & Hreport).
    pose proof (installTool_succeeds tool w) as Hsucc.
    cbv zeta in Hchecks, Hout, Hreport.
    destruct (Tools.installTool tool w) as [[w1 t1] result]. simpl in *.
    destruct (Tools.success result) eqn:Hok; simpl.
    + destruct Hout as [(_ & Hfail & _) | (outcome & Hone & Hzero & _)];
        [discriminate Hfail |].
      rewrite tbind_run.
      pose proof (checkAllTools_trace w1) as (_ & Hcheck_out & Hcheck).
      destruct (Tools.checkAllTools w1) as [[w2 t2] newStatus] eqn:Hnew.
      simpl in *.
      destruct (IH newStatus w2)
        as (good & bad & Houts & Hgood & Hbad & Hlen & Hcount & Hstep
            & Hfirst & Hlater & Hall).
      destruct (Tools.installMissing rest newStatus w2) as [[w3 t3] checked].
      simpl in *.
      exists (outcome :: good), bad.
      unfold Tools.install_outcomes in *.
      rewrite !omap_app, Hone, Hcheck_out, Houts, !status_checks_app, Hchecks,
        Hcheck, Hcount.
      split; [done |]. split; [by constructor |]. split; [done |].
      split; [done |]. split; [done |]. split.
      { destruct (Tools.step checked).
        - destruct Hstep as (-> & Hlength & Hrest). simpl.
          by rewrite Hlength.
        - exact Hstep. }
      split; [done |]. split; [| exact Hall].
      intros _. destruct good as [| o good].
      * exists w1. rewrite Hnew. by apply Hfirst.
      * by apply Hlater.
    + exists [], (Tools.install_outcomes t1).
      rewrite app_nil_r, Hchecks.
      split; [done |]. split; [constructor |]. split; [| split; [| split]].
      * destruct Hout as [(-> & _) | (outcome & -> & Hzero & _)];
          [constructor |]. repeat constructor. by rewrite <- Hzero.
      * destruct Hout as [(-> & _) | (outcome & -> & _)]; simpl; lia.
      * done.
      * split; [| split; [done | split; [done |]]].
        -- exists tool, report.
           split; [done |]. split; [done |]. split; [done |].
           simpl. rewrite (Hreport eq_refl).
           do 2 f_equal. by rewrite <- !app_app.
        -- intros Hzero Hfound. by specialize (Hsucc Hzero Hfound).
Qed.

(** X23: the tool check at start-up.  The tools missing at the first check
    are installed one after the other, in the order ffmpeg, ffprobe,
    packager, whatever the later checks report.  Every install that exits
    with code zero is followed by one more status check, and the loop goes
    on; the first install that does not (it exits with another code, cannot
    be started, or has no package manager to run) ends the check in the error
    step, with the error 'Missing required tool' for its tool and a message
    that ends with the manual instructions twice, and nothing is installed
    after it.  The check ends in the source prompt, with no error, exactly
    when an install of every missing tool exited with code zero.  The status
    kept is that of the last check made.  Nothing but the installer decides:
    when a package manager answers and every install command exits with code
    zero, the check ends in the source prompt whatever the checks after the
    installs report. *)
Theorem tool_check_flow (w : Tools.TWorld) :
  let first := Tools.checkAllTools w in
  let run := Tools.checkTools w in
  let missing := Tools.missingTools first.2 in
  missing `sublist_of` [Tools.ffmpeg; Tools.ffprobe; Tools.packager]
  /\ (length (Tools.installs run.1.2) <= length missing <= 3)%nat
  /\ (exists good bad,
        Tools.install_outcomes run.1.2 = good ++ bad
        /\ Forall (fun o => Tools.exited_zero o = true) good
        /\ Forall (fun o => Tools.exited_zero o = false) bad
        /\ (length bad <= 1)%nat
        /\ Tools.status_checks run.1.2 = S (length good)
        /\ match Tools.step run.2 with
           | Tools.input_source =>
               bad = [] /\ length good = length missing
               /\ Tools.installing run.2 = None
               /\ Tools.installError run.2 = None
               /\ Tools.error run.2 = None
           | Tools.error_step =>
               exists tool report,
                 missing !! length good = Some tool
                 /\ Tools.installing run.2 = Some tool
                 /\ Tools.error run.2
                    = Some ("Missing required tool: "
                            +:+ Tools.tool_name tool)
                 /\ Tools.installError run.2
                    = Some ("Failed to install " +:+ Tools.tool_name tool
                            +:+ ": " +:+ report
                            +:+ Tools.getManualInstallInstructions tool
                            +:+ newline
                            +:+ Tools.getManualInstallInstructions tool)
           end
        /\ (good = [] -> Tools.toolStatus run.2 = first.2)
        /\ (good <> [] ->
            exists w', Tools.toolStatus run.2 = (Tools.checkAllTools w').2))
  /\ (Tools.installs_exit_zero -> Tools.manager_found ->
      Tools.step run.2 = Tools.input_source
      /\ length (Tools.installs run.1.2) = length missing).
Proof.
  intros first run missing. subst first run missing. unfold Tools.checkTools.
  rewrite tbind_run.
  pose proof (checkAllTools_trace w) as (_ & Hcheck_out & Hcheck).
  destruct (Tools.checkAllTools w) as [[w1 t1] status]. simpl in *.
  pose proof (installMissing_run (Tools.missingTools status) status w1)
    as (good & bad & Houts & Hgood & Hbad & Hlen & Hcount & Hstep & Hfirst
        & Hlater & Hzero).
  destruct (Tools.installMissing _ status w1) as [[w2 t2] checked].
  simpl in *.
  assert (Hsub : Tools.missingTools status
                 `sublist_of` [Tools.ffmpeg; Tools.ffprobe; Tools.packager]).
  { unfold Tools.missingTools.
    destruct (Tools.has_ffmpeg status), (Tools.has_ffprobe status),
      (Tools.has_packager status); simpl;
      repeat first [ apply sublist_nil | apply sublist_skip
                   | apply sublist_cons ]. }
  assert (Hinstalls : length (Tools.installs (t1 ++ t2))
                      = (length good + length bad)%nat).
  { rewrite install_outcomes_installs. unfold Tools.install_outcomes in *.
    rewrite omap_app, Hcheck_out, Houts. simpl. by rewrite length_app. }
  assert (Hbound : (length good + length bad
                    <= length (Tools.missingTools status))%nat
                   /\ (Tools.step checked = Tools.input_source ->
                       (length good + length bad)%nat
                       = length (Tools.missingTools status))).
  { destruct (Tools.step checked).
    - destruct Hstep as (-> & -> & _). simpl. lia.
    - destruct Hstep as (tool & report & Htool & _).
      apply lookup_lt_Some in Htool. split; [lia | discriminate]. }
  split; [exact Hsub |]. split; [| split].
  - rewrite Hinstalls. apply sublist_length in Hsub. simpl in Hsub. lia.
  - exists good, bad. unfold Tools.install_outcomes in *.
    rewrite omap_app, Hcheck_out, status_checks_app, Hcheck, Hcount.
    by repeat split.
  - intros Hz Hf. specialize (Hzero Hz Hf). split; [exact Hzero |].
    rewrite Hinstalls. by apply Hbound.
Qed.

End ToolFacts.

Lemma installTool_outcome_witness :
  Tools.success (Tools.installTool (sys := Tools.bare_linux) Tools.ffprobe tt).2
  = true
  /\ Tools.installs
       (Tools.installTool (sys := Tools.bare_linux) Tools.ffprobe tt).1.2
     = [{| Tools.command := "sudo";
           Tools.args := ["apt"; "install"; "-y"; "ffmpeg"] |}]
  /\ Tools.message
       (Tools.installTool (sys := Tools.bare_linux) Tools.ffprobe tt).2
     = "Successfully installed ffprobe".
Proof.
  assert (Hok : Tools.success
                  (Tools.installTool (sys := Tools.bare_linux)
                     Tools.ffprobe tt).2 = true) by reflexivity.
  split; [exact Hok |]. split; [reflexivity |].
  exact (proj1 (proj2 (proj2 (proj2 (proj2 (proj2
           (installTool_outcome (sys := Tools.bare_linux) Tools.ffprobe tt))))))
           Hok).
Defined.

Lemma tool_check_flow_witness :
  Tools.installs_exit_zero (sys := Tools.bare_linux)
  /\ Tools.manager_found (sys := Tools.bare_linux)
  /\ Tools.step (Tools.checkTools (sys := Tools.bare_linux) tt).2
     = Tools.input_source
  /\ length (Tools.installs (Tools.checkTools (sys := Tools.bare_linux) tt).1.2)
     = 3%nat.
Proof.
  assert (Hzero : Tools.installs_exit_zero (sys := Tools.bare_linux))
    by (intros w command args; by exists EmptyString).
  assert (Hfound : Tools.manager_found (sys := Tools.bare_linux))
    by (intros []; discriminate).
  split; [exact Hzero |]. split; [exact Hfound |].
  exact (proj2 (proj2 (proj2
           (tool_check_flow (sys := Tools.bare_linux) tt))) Hzero Hfound).
Defined.

(** The check on a machine where ffmpeg installs and the package of the
    packager is not found: ffmpeg is installed a second time for ffprobe,
    which the first install had brought, each of the two installs is followed
    by a status check, and the third install ends the check in the error
    step. *)
Example tool_check_stops_at_failed_install :
  let run := Tools.checkTools (sys := Tools.no_packager_package) [] in
  map Tools.exited_zero (Tools.install_outcomes run.1.2) = [true; true; false]
  /\ Tools.installs run.1.2
     = [{| Tools.command := "sudo";
           Tools.args := ["apt"; "install"; "-y"; "ffmpeg"] |};
        {| Tools.command := "sudo";
           Tools.args := ["apt"; "install"; "-y"; "ffmpeg"] |};
        {| Tools.command := "sudo";
           Tools.args := ["apt"; "install"; "-y"; "shaka-packager"] |}]
  /\ Tools.status_checks run.1.2 = 3%nat
  /\ Tools.step run.2 = Tools.error_step
  /\ Tools.installing run.2 = Some Tools.packager
  /\ Tools.toolStatus run.2
     = {| Tools.has_ffmpeg := true; Tools.has_ffprobe := true;
          Tools.has_packager := false |}.
Proof. vm_compute. repeat split; reflexivity. Qed.

(** ** The logger *)

Lemma dashed_clean (s : string) :
  ~ occurs ":" (Log.dashed s) /\ ~ occurs "." (Log.dashed s).
Proof.
  induction s as [| c s [IH1 IH2]]; [simpl; tauto |]. simpl.
  destruct (Ascii.eqb c ":") eqn:Hc; [simpl; intuition discriminate |].
  destruct (Ascii.eqb c ".") eqn:Hd; [simpl; intuition discriminate |].
  simpl. apply Ascii.eqb_neq in Hc, Hd. intuition congruence.
Qed.

Section LoggerFacts.

Context {sys : Log.Sys}.

Lemma lbind_run {A B : Type} (m : Log.L A) (k : A -> Log.L B)
    (w : Log.LWorld) :
  Log.bind m k w
  = ((k (m w).2 (m w).1.1).1.1,
     (m w).1.2 ++ (k (m w).2 (m w).1.1).1.2,
     (k (m w).2 (m w).1.1).2).
Proof.
  unfold Log.bind. destruct (m w) as [[w1 t1] a]. simpl.
  by destruct (k a w1) as [[w2 t2] b].
Qed.

(** A disabled logger does nothing at all: it reads no clock, appends to no
    file and stays as it is. *)
Lemma call_disabled (l : Log.Logger) (c : Log.Call) (w : Log.LWorld) :
  Log.enabled l = false -> Log.call l c w = (w, [], l).
Proof.
  intros Hoff. destruct c; simpl;
    unfold Log.init, Log.info, Log.warn, Log.error, Log.debug,
      Log.logCommand, Log.logOutput, Log.section, Log.close, Log.write;
    rewrite ?Hoff; simpl; try reflexivity.
  by destruct (negb _).
Qed.

(** One line written by an enabled logger. *)
Lemma write_run (l : Log.Logger) (message : string) (w : Log.LWorld) :
  Log.enabled l = true ->
  let run := Log.write l message w in
  exists text,
    run.2 = {| Log.logPath := Log.logPath l;
               Log.buffer := Log.buffer l ++ [text];
               Log.enabled := true |}
    /\ run.1.2
       = if Log.opened l
         then [{| Log.file := default EmptyString (Log.logPath l);
                  Log.line := text |}]
         else [].
Proof.
  intros Hon run. subst run. unfold Log.write, Log.opened, Str.truthy.
  rewrite Hon. simpl. unfold Log.bind, Log.now, Log.ret, Log.append.
  destruct (Log.toISOString w) as [w1 timestamp].
  eexists. destruct (Log.logPath l) as [[| c r] |]; simpl;
    [by split | | by split].
  destruct (Log.appendFile w1 _ _) as [w2 r']. by split.
Qed.

Lemma tracked_ret (l : Log.Logger) (w : Log.LWorld) :
  Log.tracked l (Log.ret l w).
Proof.
  exists []. simpl. split.
  - split; [done |]. split; [by rewrite app_nil_r |]. split; [done |].
    split; [by left |]. intros a Ha. by apply elem_of_nil in Ha.
  - by split.
Qed.

Lemma tracked_bind (l : Log.Logger) (m : Log.L Log.Logger)
    (k : Log.Logger -> Log.L Log.Logger) (w : Log.LWorld) :
  Log.tracked l (m w) ->
  (forall l1 w1, Log.enabled l1 = Log.enabled l ->
                 Log.tracked l1 (k l1 w1)) ->
  Log.tracked l (Log.bind m k w).
Proof.
  intros (a1 & (He1 & Hb1 & Ho1 & Hp1 & Hf1) & Hm1 & Hc1 & Hs1) Hk.
  rewrite lbind_run.
  destruct (m w) as [[w1 t1] l1]. simpl in *.
  destruct (Hk l1 w1 He1)
    as (a2 & (He2 & Hb2 & Ho2 & Hp2 & Hf2) & Hm2 & Hc2 & Hs2).
  destruct (k l1 w1) as [[w2 t2] l2]. simpl in *.
  exists (a1 ++ a2). simpl. split; [| split; [| split]].
  - split; [by rewrite He2, He1 |]. split; [by rewrite Hb2, Hb1, app_assoc |].
    split; [auto |]. split.
    + destruct Hp2 as [-> | Hnew]; [exact Hp1 | by right].
    + intros a Ha. apply elem_of_app in Ha as [Ha | Ha]; [by apply Hf1 |].
      destruct (Hf2 a Ha) as [Hfile | Hnamed]; [| by right].
      destruct Hp1 as [<- | (path & Hpath & Hnamed)]; [by left |].
      right. rewrite Hpath in Hfile. by injection Hfile as ->.
  - intros Hopen. rewrite map_app, (Hm1 Hopen), (Hm2 (Ho1 Hopen)). done.
  - intros Hclosed.
    assert (Hclosed1 : Log.opened l1 = false).
    { destruct (Log.opened l1) eqn:Ho; [| done]. by rewrite (Ho2 eq_refl) in Hclosed. }
    by rewrite (Hc1 Hclosed1), (Hc2 Hclosed).
  - rewrite map_app. destruct (Log.opened l1) eqn:Ho.
    + rewrite (Hm2 eq_refl). destruct Hs1 as [early ->].
      exists early. by rewrite app_assoc.
    + rewrite (Hc1 eq_refl). simpl. destruct Hs2 as [early ->].
      exists (a1 ++ early). by rewrite app_assoc.
Qed.

Lemma tracked_now (l : Log.Logger) (k : string -> Log.L Log.Logger)
    (w : Log.LWorld) :
  (forall t w1, Log.tracked l (k t w1)) ->
  Log.tracked l (Log.bind Log.now k w).
Proof.
  intros Hk. rewrite lbind_run. unfold Log.now.
  destruct (Log.toISOString w) as [w1 t]. simpl.
  specialize (Hk t w1). by destruct (k t w1) as [[w2 t2] l2].
Qed.

Lemma tracked_write (l : Log.Logger) (message : string) (w : Log.LWorld) :
  Log.tracked l (Log.write l message w).
Proof.
  destruct (Log.enabled l) eqn:Hon.
  - destruct (write_run l message w Hon) as (text & Hl & Ht).
    destruct (Log.write l message w) as [[w1 t1] l1]. simpl in *. subst l1 t1.
    exists [text]. unfold Log.grown, Log.opened in *. simpl.
    split; [| split; [| split]].
    + split; [done |]. split; [done |]. split; [done |]. split; [by left |].
      intros a Ha. left.
      destruct (Str.truthy (Log.logPath l)) eqn:Hopen;
        [| by apply elem_of_nil in Ha].
      apply list_elem_of_singleton in Ha as ->. simpl.
      by destruct (Log.logPath l).
    + by intros ->.
    + by intros ->.
    + destruct (Str.truthy (Log.logPath l)); [done | by exists [text]].
  - unfold Log.write. rewrite Hon. apply tracked_ret.
Qed.

Lemma tracked_call (l : Log.Logger) (c : Log.Call) (w : Log.LWorld) :
  Log.tracked l (Log.call l c w).
Proof.
  destruct (Log.enabled l) eqn:Hon;
    [| rewrite call_disabled by done; apply tracked_ret].
  destruct c as [dir | m | m | m | m | m | cmd args | output | title |];
    cbn [Log.call]; try apply tracked_write.
  - unfold Log.init. rewrite Hon. cbn [negb]. apply tracked_now.
    intros iso w1.
    set (path := Log.join dir
                   ("transcode_" +:+ Log.dashed iso +:+ ".log")).
    set (l0 := {| Log.logPath := Some path; Log.buffer := Log.buffer l;
                  Log.enabled := true |}).
    assert (Hnamed : Log.wellNamed path).
    { exists dir, (Log.dashed iso). split; [done |]. apply dashed_clean. }
    assert (Hopen : Log.opened l0 = true).
    { unfold Log.opened, l0. simpl. pose proof (Log.join_nonempty dir
        ("transcode_" +:+ Log.dashed iso +:+ ".log")) as Hne.
      fold path in Hne. by destruct path. }
    match goal with
    | |- Log.tracked l (?rest w1) =>
        assert (Hrest : Log.tracked l0 (rest w1));
        [| destruct (rest w1) as [[w2 t2] l2]]
    end.
    { repeat first
        [ apply tracked_write
        | apply tracked_bind; [| intros ? ? _]
        | apply tracked_now; intros ? ? ]. }
    destruct Hrest as (added & (He & Hb & Ho & Hp & Hf) & Hm & Hc & Hs).
    simpl in *. exists added. simpl. split; [| split; [| split]].
    + split; [by rewrite He, Hon |]. split; [done |]. split; [auto |]. split.
      * right. destruct Hp as [-> | Hnew]; [by exists path | exact Hnew].
      * intros a Ha. destruct (Hf a Ha) as [[= ->] | Hn]; by right.
    + intros _. by apply Hm.
    + intros Hclosed. by rewrite (Ho Hopen) in Hclosed.
    + by rewrite (Hm Hopen).
  - unfold Log.logOutput. destruct (negb _);
      [apply tracked_write | apply tracked_ret].
  - unfold Log.close. rewrite Hon. cbn [negb].
    repeat first
      [ apply tracked_write
      | apply tracked_bind; [| intros ? ? _]
      | apply tracked_now; intros ? ? ].
Qed.

Lemma tracked_calls (cs : list Log.Call) :
  forall (l : Log.Logger) (w : Log.LWorld), Log.tracked l (Log.calls l cs w).
Proof.
  induction cs as [| c cs IH]; intros l w; [apply tracked_ret |].
  cbn [Log.calls]. apply tracked_bind; [apply tracked_call |].
  intros l1 w1 _. apply IH.
Qed.

(** One line written by an enabled logger, and what follows it. *)
Lemma bind_write (l : Log.Logger) (message : string)
    (k : Log.Logger -> Log.L Log.Logger) (w : Log.LWorld) :
  Log.enabled l = true ->
  exists w1 timestamp,
    let text := LogLines.rendered timestamp message in
    let l1 := {| Log.logPath := Log.logPath l;
                 Log.buffer := Log.buffer l ++ [text];
                 Log.enabled := true |} in
    Log.bind (Log.write l message) k w
    = ((k l1 w1).1.1,
       (if Log.opened l
        then [{| Log.file := default EmptyString (Log.logPath l);
                 Log.line := text |}]
        else []) ++ (k l1 w1).1.2,
       (k l1 w1).2).
Proof.
  intros Hon. rewrite lbind_run. unfold Log.write, Log.opened, Str.truthy.
  rewrite Hon. simpl. unfold Log.bind, Log.now, Log.ret, Log.append.
  destruct (Log.toISOString w) as [w1 timestamp].
  destruct (Log.logPath l) as [[| c r] |] eqn:Hpath; simpl.
  - by exists w1, timestamp.
  - destruct (Log.appendFile w1 _ _) as [w2 r']. by exists w2, timestamp.
  - by exists w1, timestamp.
Qed.

Lemma bind_now (k : string -> Log.L Log.Logger) (w : Log.LWorld) :
  exists w1 time, Log.bind Log.now k w = k time w1.
Proof.
  rewrite lbind_run. unfold Log.now.
  destruct (Log.toISOString w) as [w1 time]. exists w1, time. simpl.
  by destruct (k time w1) as [[w2 t2] l2].
Qed.

Lemma bind_ret_r (m : Log.L Log.Logger) (w : Log.LWorld) :
  Log.bind m Log.ret w = m w.
Proof.
  rewrite lbind_run. destruct (m w) as [[w1 t1] l1]. simpl.
  by rewrite app_nil_r.
Qed.

Lemma write_spec (l : Log.Logger) (message : string) (w : Log.LWorld) :
  Log.enabled l = true ->
  exists w1 timestamp,
    let text := LogLines.rendered timestamp message in
    Log.write l message w
    = (w1,
       if Log.opened l
       then [{| Log.file := default EmptyString (Log.logPath l);
                Log.line := text |}]
       else [],
       {| Log.logPath := Log.logPath l; Log.buffer := Log.buffer l ++ [text];
          Log.enabled := true |}).
Proof.
  intros Hon. rewrite <- bind_ret_r.
  destruct (bind_write l message Log.ret w Hon) as (w1 & timestamp & Heq).
  exists w1, timestamp. cbv zeta in *. rewrite Heq. simpl.
  by rewrite app_nil_r.
Qed.

Ltac step_write Hon :=
  match goal with
  | |- context [Log.bind (Log.write ?l ?m) ?k ?w] =>
      let w1 := fresh "w" in
      let ts := fresh "timestamp" in
      let Heq := fresh "Heq" in
      destruct (bind_write l m k w Hon) as (w1 & ts & Heq);
      cbv zeta in Heq; rewrite Heq; clear Heq; cbv beta
  end.

Ltac step_now :=
  match goal with
  | |- context [Log.bind Log.now ?k ?w] =>
      let w1 := fresh "w" in
      let t := fresh "time" in
      let Heq := fresh "Heq" in
      destruct (bind_now k w) as (w1 & t & Heq);
      rewrite Heq; clear Heq; cbv beta
  end.

Ltac last_write Hon :=
  match goal with
  | |- context [Log.write ?l ?m ?w] =>
      let w1 := fresh "w" in
      let ts := fresh "timestamp" in
      let Heq := fresh "Heq" in
      destruct (write_spec l m w Hon) as (w1 & ts & Heq);
      cbv zeta in Heq; rewrite Heq; clear Heq; cbv beta
  end.

Lemma one_line (c : Log.Call) (timestamp message : string) :
  (forall time, LogLines.messagesOf c time = [message]) ->
  LogLines.linesOf c [LogLines.rendered timestamp message].
Proof.
  intros Hc. exists EmptyString. rewrite Hc.
  constructor; [by exists timestamp | constructor].
Qed.

Lemma write_call_spec (l : Log.Logger) (c : Log.Call) (message : string)
    (w : Log.LWorld) :
  Log.enabled l = true -> LogLines.is_init c = false ->
  (forall time, LogLines.messagesOf c time = [message]) ->
  LogLines.call_spec l c (Log.write l message w).
Proof.
  intros Hon Hinit Hc. last_write Hon.
  exists [LogLines.rendered timestamp message]. simpl.
  split; [by apply one_line |]. split; [done |]. split; [done |].
  rewrite Hinit, orb_false_r. unfold Log.opened. simpl.
  split; [done |]. split; [done |]. by destruct (Str.truthy (Log.logPath l)).
Qed.

Lemma call_run (l : Log.Logger) (c : Log.Call) (w : Log.LWorld) :
  Log.enabled l = true -> LogLines.call_spec l c (Log.call l c w).
Proof.
  intros Hon.
  destruct c as [dir | m | m | m | m | m | cmd args | output | title |];
    cbn [Log.call];
    try (apply write_call_spec; [exact Hon | reflexivity | reflexivity]).
  - unfold Log.init. rewrite Hon. cbn [negb]. step_now.
    set (path := Log.join dir
                   ("transcode_" +:+ Log.dashed time +:+ ".log")).
    assert (Hopen : forall b e,
                      Log.opened {| Log.logPath := Some path;
                                    Log.buffer := b; Log.enabled := e |}
                      = true).
    { intros b e. unfold Log.opened. simpl.
      pose proof (Log.join_nonempty dir
                    ("transcode_" +:+ Log.dashed time +:+ ".log")) as Hne.
      fold path in Hne. by destruct path. }
    step_write (eq_refl true). step_now. do 3 step_write (eq_refl true).
    last_write (eq_refl true).
    unfold LogLines.call_spec.
    cbn [Log.logPath Log.buffer Log.enabled fst snd].
    rewrite !Hopen. cbn [fst snd default].
    eexists. split; [| split; [| split; [done |]]].
    2: { rewrite <- !app_assoc. simpl. reflexivity. }
    + exists time0. repeat (constructor; [by eexists |]). constructor.
    + split; [by rewrite orb_true_r |]. split; [discriminate |]. reflexivity.
  - unfold Log.logOutput. destruct (negb _) eqn:Hout.
    + apply write_call_spec; [exact Hon | reflexivity |].
      intros time. simpl. by rewrite Hout.
    + exists []. simpl. rewrite ?app_nil_r, ?orb_false_r.
      split; [exists EmptyString; simpl; rewrite Hout; constructor |].
      split; [done |]. split; [done |]. split; [done |]. split; [done |].
      by destruct (Log.opened l).
  - unfold Log.close. rewrite Hon. cbn [negb].
    step_write Hon. step_now. step_write (eq_refl true).
    last_write (eq_refl true).
    assert (Hsame : forall b e,
                      Log.opened {| Log.logPath := Log.logPath l;
                                    Log.buffer := b; Log.enabled := e |}
                      = Log.opened l) by reflexivity.
    unfold LogLines.call_spec.
    cbn [Log.logPath Log.buffer Log.enabled fst snd LogLines.is_init].
    rewrite !Hsame, orb_false_r.
    eexists. split; [| split; [| split; [done |]]].
    2: { rewrite <- !app_assoc. simpl. reflexivity. }
    + exists time. repeat (constructor; [by eexists |]). constructor.
    + split; [done |]. split; [done |]. by destruct (Log.opened l).
Qed.

(** The calls on an enabled logger, one after the other. *)
Lemma calls_run (cs : list Log.Call) :
  forall (l : Log.Logger) (w : Log.LWorld),
    Log.enabled l = true ->
    let run := Log.calls l cs w in
    exists groups,
      Forall2 LogLines.linesOf cs groups
      /\ Log.buffer run.2 = Log.buffer l ++ concat groups
      /\ Log.enabled run.2 = true
      /\ Log.opened run.2 = Log.opened l || existsb LogLines.is_init cs
      /\ map Log.line run.1.2
         = (if Log.opened l then concat groups
            else concat (drop (LogLines.first_init cs) groups)).
Proof.
  induction cs as [| c cs IH]; intros l w Hon run; subst run.
  - exists []. simpl. rewrite app_nil_r, orb_false_r.
    split; [constructor |]. split; [done |]. split; [done |]. split; [done |].
    by destruct (Log.opened l).
  - cbn [Log.calls]. rewrite lbind_run.
    destruct (call_run l c w Hon)
      as (lines & Hlines & Hbuffer & Hon1 & Hopen1 & _ & Htrace).
    destruct (Log.call l c w) as [[w1 t1] l1]. simpl in *.
    destruct (IH l1 w1 Hon1)
      as (groups & Hgroups & Hbuffer2 & Hon2 & Hopen2 & Htrace2).
    destruct (Log.calls l1 cs w1) as [[w2 t2] l2]. simpl in *.
    exists (lines :: groups). simpl.
    split; [by constructor |].
    split; [by rewrite Hbuffer2, Hbuffer, app_assoc |].
    split; [done |].
    split; [by rewrite Hopen2, Hopen1, orb_assoc |].
    rewrite map_app, Htrace2, Htrace, Hopen1.
    destruct (Log.opened l), (LogLines.is_init c); simpl;
      rewrite ?map_map; simpl; by rewrite ?map_id.
Qed.

(** X24: the log file mirrors the buffer.  Whatever calls are made on a
    logger, in whatever state of the disk: a disabled logger reads no clock,
    appends to no file and stays as it is.  An enabled logger adds to its
    buffer, in order, the lines of every call: one line per message of the
    call, the message after the time read for it; [init] writes five lines,
    [close] three, [logOutput] none for a blank output, every other call
    one.  The lines it appends to files are, in order, the lines added since
    it was given a file by [init]: all of them if it had one before the
    calls, and otherwise those of the first [init] and of the calls after it,
    the lines logged before staying in the buffer alone.  Every append goes
    to the file that the logger had or to a file named transcode_<time>.log
    whose time has dashes for its colons and dots; and a failing append
    changes nothing of this. *)
Theorem logger_file_mirrors_buffer (l : Log.Logger) (cs : list Log.Call)
    (w : Log.LWorld) :
  let run := Log.calls l cs w in
  (Log.enabled l = false -> run = (w, [], l))
  /\ (Log.enabled l = true ->
      exists groups,
        Forall2 LogLines.linesOf cs groups
        /\ Log.buffer run.2 = Log.buffer l ++ concat groups
        /\ Log.opened run.2 = Log.opened l || existsb LogLines.is_init cs
        /\ map Log.line run.1.2
           = (if Log.opened l then concat groups
              else concat (drop (LogLines.first_init cs) groups)))
  /\ Log.enabled run.2 = Log.enabled l
  /\ (Log.opened run.2 = false -> run.1.2 = [])
  /\ (forall a, a ∈ run.1.2 ->
                Some (Log.file a) = Log.logPath l
                \/ Log.wellNamed (Log.file a)).
Proof.
  intros run. split; [| split].
  - intros Hoff. subst run. revert w.
    induction cs as [| c cs IH]; intros w; [done |].
    cbn [Log.calls]. rewrite lbind_run, call_disabled by done. simpl.
    rewrite IH. done.
  - intros Hon.
    destruct (calls_run cs l w Hon)
      as (groups & Hgroups & Hbuffer & _ & Hopen & Htrace).
    by exists groups.
  - destruct (tracked_calls cs l w)
      as (added & (He & Hb & Ho & Hp & Hf) & Hm & Hc & Hs).
    fold run in He, Hb, Ho, Hp, Hf, Hm, Hc, Hs. done.
Qed.

End LoggerFacts.

Lemma logger_file_mirrors_buffer_witness :
  Log.enabled (Log.new true) = true
  /\ exists groups,
       Forall2 LogLines.linesOf
         [Log.Info "early"; Log.Init "out"; Log.Info "Source: in.mkv"] groups
       /\ Log.buffer
            (Log.calls (sys := LogLines.ticking) (Log.new true)
               [Log.Info "early"; Log.Init "out"; Log.Info "Source: in.mkv"]
               0%nat).2
          = concat groups
       /\ map Log.line
            (Log.calls (sys := LogLines.ticking) (Log.new true)
               [Log.Info "early"; Log.Init "out"; Log.Info "Source: in.mkv"]
               0%nat).1.2
          = concat (drop 1 groups).
Proof.
  split; [reflexivity |].
  destruct (proj1 (proj2
              (logger_file_mirrors_buffer (sys := LogLines.ticking)
                 (Log.new true)
                 [Log.Info "early"; Log.Init "out"; Log.Info "Source: in.mkv"]
                 0%nat))
              eq_refl)
    as (groups & Hgroups & Hbuffer & _ & Htrace).
  exists groups. split; [exact Hgroups |]. split; [exact Hbuffer |].
  exact Htrace.
Defined.

(** The run of the witness, line by line: the line logged before [init] is
    in the buffer and not in the file. *)
Example early_line_is_not_in_the_file :
  let run :=
    Log.calls (sys := LogLines.ticking) (Log.new true)
      [Log.Info "early"; Log.Init "out"; Log.Info "Source: in.mkv"] 0%nat in
  length (Log.buffer run.2) = 7%nat
  /\ head (Log.buffer run.2) = Some (LogLines.rendered "T0" "[INFO] early")
  /\ map Log.line run.1.2 = drop 1 (Log.buffer run.2)
  /\ map Log.file run.1.2 = replicate 6 "out/transcode_T1.log".
Proof. vm_compute. repeat split; reflexivity. Qed.

(** ** From the media information to the transcoding *)

Lemma detectHWAcceleration_alone
    (hwaccelsOutput encodersOutput : Result string) :
  detectHWAcceleration hwaccelsOutput encodersOutput = [SOFTWARE_CONFIG]
  \/ (2 <= length (detectHWAcceleration hwaccelsOutput encodersOutput))%nat.
Proof.
  unfold detectHWAcceleration.
  repeat match goal with
         | |- context [if ?c then [?x] else []] => destruct c
         end;
    simpl; first [by left | right; lia].
Qed.

(** A trace of the extractors has no job and no call of the packager. *)
Lemma extraction_only_quiet (trace : list Event) :
  extraction_only trace ->
  endings trace = [] /\ completions trace = [] /\ packager_inputs trace = []
  /\ Forall extraction_title (sections trace).
Proof.
  induction 1 as [| e trace He _ (IH1 & IH2 & IH3 & IH4)]; [done |].
  destruct e; try done; simpl.
  by repeat split; [.. | constructor].
Qed.

Section StaleStart.

Context {E : Env}.

(** [startTranscoding] on an empty ladder: no job, and no video for the
    packager. *)
Lemma startTranscoding_no_rendition (devMode : bool) (mediaInfo : MediaInfo)
    (sourcePath outputPath : string)
    (renditionQualities : list RenditionQuality) (hwAccel : HWAccelInfo)
    (hybrid : option HybridHWAccel) (w : World) :
  let run := startTranscoding devMode mediaInfo sourcePath outputPath []
               renditionQualities hwAccel hybrid w in
  let tmpDir := path_join outputPath "tmp" in
  ((exists e, run.2 = Throw e) /\ extraction_only run.1.2)
  \/ exists before,
       extraction_only before
       /\ run.1.2
          = before
            ++ [RunPackager
                  (preparePackagerInputs [] (audioFilesOf tmpDir mediaInfo)
                     (subtitleFilesOf tmpDir mediaInfo))
                  outputPath devMode].
Proof.
  intros run tmpDir.
  destruct (startTranscoding_run devMode mediaInfo sourcePath outputPath []
              renditionQualities hwAccel hybrid w)
    as [(e & He & Honly & _) | (w1 & before & Honly & Hrun)].
  - left. split; [by exists e | done].
  - right. exists before. split; [done |]. exact Hrun.
Qed.


(** The renders of a history and the closures over them, by evaluation. *)
Ltac render :=
  cbn -[String.eqb Nat.ltb length createHybridDisplayInfo startsWith
        Hooks.closure];
  unfold Hooks.closure;
  cbn -[String.eqb Nat.ltb length createHybridDisplayInfo startsWith];
  rewrite ?String.eqb_refl;
  cbn -[String.eqb Nat.ltb length createHybridDisplayInfo startsWith].

(** X25: the transcoding started from the screen of the media information
    is a stale one.  [handleMediaInfoContinue] is made anew only when the
    media information changes: the one on that screen was made by the render
    that stored the probed source, and the [startTranscoding] it calls is the
    one of that render, which reads an empty ladder and the paths of that
    render (empty ones when every update is rendered on its own, the input
    path and the default output path when the updates of a handler are
    rendered together), never the submitted output path.  The handler stores
    the ladder, every quality of it as the selection, the hybrid pair and
    the options; development mode then shows the rendition selection;
    production mode shows the hardware selection when a hardware backend was
    detected and otherwise starts that stale transcoding on the software
    backend with every quality of the ladder.  Such a run ends no job and
    completes no file: it throws out of the making of the directories or of
    the extractions, or it ends with a call of the packager that has no
    video input.  The handlers of the two selections are made after the
    ladder was stored: the transcoding they start reads the probed source,
    the submitted paths and the ladder, with the qualities and the hybrid
    pair that the handler was given or has stored. *)
Theorem continue_starts_a_stale_transcoding (f : Hooks.Flush)
    (info : MediaInfo) (inputPath defaultOutput outPath : string)
    (hwaccelsOutput encodersOutput : Result string)
    (selected : list RenditionQuality) (hw : HWAccelInfo) (w : World) :
  let shown := to_media_info f info inputPath defaultOutput outPath in
  let screen := default Hooks.initial (last shown) in
  let continue := Hooks.closure Hooks.deps_handleMediaInfoContinue shown in
  let stale := Hooks.transcoding continue in
  let ladder := buildRenditionLadder (video info) in
  let hwOptions := detectHWAcceleration hwaccelsOutput encodersOutput in
  let hybrid := buildHybridConfig hwOptions in
  let handled devMode :=
    Hooks.handleMediaInfoContinue devMode continue hwaccelsOutput
      encodersOutput in
  let after := shown ++ Hooks.renders f screen (handled false).1 in
  let renditionSelect :=
    Hooks.closure Hooks.deps_handleRenditionSelect after in
  let hwSelect := Hooks.closure Hooks.deps_handleHWSelect after in
  let after_selection :=
    after
    ++ Hooks.renders f (default Hooks.initial (last after))
         (Hooks.handleRenditionSelect renditionSelect selected).1 in
  let hwSelect_dev := Hooks.closure Hooks.deps_handleHWSelect after_selection in
  let as_hybrid (h : option HybridHWAccel) :=
    if startsWith "Hybrid" (displayName hw) then h else None in
  (Hooks.held <$> Hooks.mediaInfo screen = Some info
   /\ Hooks.sourcePath screen = inputPath
   /\ Hooks.outputPath screen = outPath)
  /\ (Hooks.own continue = stale
      /\ Hooks.held <$> Hooks.mediaInfo stale = Some info
      /\ Hooks.held (Hooks.availableRenditions stale) = []
      /\ Hooks.sourcePath stale
         = match f with
           | Hooks.each_update => EmptyString
           | Hooks.each_segment => inputPath
           end
      /\ Hooks.outputPath stale
         = match f with
           | Hooks.each_update => EmptyString
           | Hooks.each_segment => defaultOutput
           end)
  /\ (forall devMode,
        (handled devMode).1
        = [[Hooks.setAvailableRenditions ladder;
            Hooks.setSelectedRenditions (map quality ladder)];
           [Hooks.setHybridConfig hybrid;
            Hooks.setAvailableHWAccel (displayOptionsOf hwOptions)]])
  /\ (handled true).2 = Hooks.SelectingRenditions
  /\ (hwOptions = [SOFTWARE_CONFIG] ->
      (handled false).2
      = Hooks.Started stale (map quality ladder) (Some SOFTWARE_CONFIG) None)
  /\ (hwOptions <> [SOFTWARE_CONFIG] -> (handled false).2 = Hooks.SelectingHW)
  /\ (let run :=
        startTranscoding_made false stale (map quality ladder)
          (Some SOFTWARE_CONFIG) None w in
      let tmpDir := path_join (Hooks.outputPath stale) "tmp" in
      endings run.1.2 = []
      /\ completions run.1.2 = []
      /\ Forall extraction_title (sections run.1.2)
      /\ (((exists e, run.2 = Throw e) /\ extraction_only run.1.2)
          \/ exists before,
               extraction_only before
               /\ run.1.2
                  = before
                    ++ [RunPackager
                          (preparePackagerInputs []
                             (audioFilesOf tmpDir info)
                             (subtitleFilesOf tmpDir info))
                          (Hooks.outputPath stale) false]))
  /\ (gathered (Hooks.transcoding renditionSelect) info inputPath outPath
      /\ Hooks.held (Hooks.availableHWAccel (Hooks.own renditionSelect))
         = displayOptionsOf hwOptions
      /\ Hooks.held <$> Hooks.hybridConfig (Hooks.own renditionSelect)
         = hybrid
      /\ (hwOptions = [SOFTWARE_CONFIG] ->
          (Hooks.handleRenditionSelect renditionSelect selected).2
          = Hooks.Started (Hooks.transcoding renditionSelect) selected
              (Some SOFTWARE_CONFIG) None)
      /\ (hwOptions <> [SOFTWARE_CONFIG] ->
          (Hooks.handleRenditionSelect renditionSelect selected).2
          = Hooks.SelectingHW))
  /\ (gathered (Hooks.transcoding hwSelect) info inputPath outPath
      /\ Hooks.handleHWSelect hwSelect hw
         = Hooks.Started (Hooks.transcoding hwSelect) (map quality ladder)
             (Some hw) (as_hybrid hybrid))
  /\ (gathered (Hooks.transcoding hwSelect_dev) info inputPath outPath
      /\ Hooks.handleHWSelect hwSelect_dev hw
         = Hooks.Started (Hooks.transcoding hwSelect_dev) selected (Some hw)
             (as_hybrid hybrid)).
Proof.
  intros shown screen continue stale ladder hwOptions hybrid handled after
    renditionSelect hwSelect after_selection hwSelect_dev as_hybrid.
  assert (Hdisplay :
            displayOptionsOf hwOptions
            = match hybrid with
              | Some h => createHybridDisplayInfo h :: hwOptions
              | None => hwOptions
              end) by reflexivity.
  assert (Hlen : hwOptions <> [SOFTWARE_CONFIG] ->
                 (1 <? length (displayOptionsOf hwOptions))%nat = true).
  { intros Hmore. apply Nat.ltb_lt. rewrite Hdisplay.
    destruct (detectHWAcceleration_alone hwaccelsOutput encodersOutput)
      as [Halone | Hlen]; [done |].
    fold hwOptions in Hlen. destruct hybrid; simpl; lia. }
  assert (Halone : hwOptions = [SOFTWARE_CONFIG] ->
                   hybrid = None /\ displayOptionsOf hwOptions = [SOFTWARE_CONFIG]).
  { intros Halone. subst hybrid. rewrite Hdisplay. by rewrite Halone. }
  assert (Hstale :
            continue
            = {| Hooks.own := stale; Hooks.transcoding := stale |}
            /\ Hooks.mediaInfo stale = Some (Hooks.Allocated 3 info)
            /\ Hooks.held (Hooks.availableRenditions stale) = []
            /\ Hooks.sourcePath stale
               = match f with
                 | Hooks.each_update => EmptyString
                 | Hooks.each_segment => inputPath
                 end
            /\ Hooks.outputPath stale
               = match f with
                 | Hooks.each_update => EmptyString
                 | Hooks.each_segment => defaultOutput
                 end).
  { subst stale continue shown. by destruct f. }
  destruct Hstale as (Hcontinue & Hinfo & Hnone & Hsource & Houtput).
  assert (Hhandled : forall devMode,
            handled devMode
            = ([[Hooks.setAvailableRenditions ladder;
                 Hooks.setSelectedRenditions (map quality ladder)];
                [Hooks.setHybridConfig hybrid;
                 Hooks.setAvailableHWAccel (displayOptionsOf hwOptions)]],
               if devMode then Hooks.SelectingRenditions
               else if (1 <? length (displayOptionsOf hwOptions))%nat
                    then Hooks.SelectingHW
                    else
                      match hybrid, displayOptionsOf hwOptions !! 0%nat with
                      | Some h, Some hw =>
                          Hooks.Started stale (map quality ladder) (Some hw)
                            (if startsWith "Hybrid" (displayName hw)
                             then Some h else None)
                      | Some _, None => Hooks.TypeError
                      | None, first =>
                          Hooks.Started stale (map quality ladder) first None
                      end)).
  { intros devMode. subst handled. unfold Hooks.handleMediaInfoContinue.
    rewrite Hcontinue. cbn [Hooks.own Hooks.transcoding]. rewrite Hinfo.
    reflexivity. }
  split; [by subst screen shown; destruct f |].
  split; [by rewrite Hcontinue, Hinfo |].
  split; [by intros devMode; rewrite Hhandled |].
  split; [by rewrite Hhandled |].
  split.
  { intros Hsoft. destruct (Halone Hsoft) as [Hh Hd].
    rewrite Hhandled. cbn [snd]. by rewrite Hd, Hh. }
  split.
  { intros Hmore. rewrite Hhandled. cbn [snd]. by rewrite (Hlen Hmore). }
  split.
  { intros run tmpDir. subst run. unfold startTranscoding_made.
    rewrite Hinfo. cbn [Hooks.held]. rewrite Hnone, bind_run.
    pose proof (startTranscoding_no_rendition false info
                  (Hooks.sourcePath stale) (Hooks.outputPath stale)
                  (map quality ladder) SOFTWARE_CONFIG None w) as Hrun.
    cbv zeta in Hrun. fold tmpDir in Hrun.
    destruct (startTranscoding false info _ _ [] _ _ _ w)
      as [[w1 t1] [output | e]]; simpl in *.
    - rewrite app_nil_r.
      destruct Hrun as [[[e He] _] | (before & Honly & ->)]; [done |].
      destruct (extraction_only_quiet before Honly) as (H1 & H2 & H3 & H4).
      unfold endings, completions, sections in *.
      rewrite !omap_app, H1, H2. simpl. rewrite app_nil_r.
      repeat split; [done .. |]. right. by exists before.
    - destruct Hrun as [[_ Honly] | (before & Honly & ->)].
      + destruct (extraction_only_quiet t1 Honly) as (H1 & H2 & H3 & H4).
        repeat split; [done .. |]. left. split; [by exists e | done].
      + destruct (extraction_only_quiet before Honly) as (H1 & H2 & H3 & H4).
        unfold endings, completions, sections in *.
        rewrite !omap_app, H1, H2. simpl. rewrite app_nil_r.
        repeat split; [done .. |]. right. by exists before. }
  assert (Hafter :
            after
            = shown
              ++ Hooks.renders f screen
                   [[Hooks.setAvailableRenditions ladder;
                     Hooks.setSelectedRenditions (map quality ladder)];
                    [Hooks.setHybridConfig hybrid;
                     Hooks.setAvailableHWAccel (displayOptionsOf hwOptions)]])
    by (subst after; by rewrite Hhandled).
  clearbody after handled. clear Hhandled Hcontinue Hinfo Hnone Hsource Houtput.
  subst after. subst renditionSelect hwSelect hwSelect_dev after_selection.
  subst screen shown continue stale. rewrite Hdisplay in *.
  unfold gathered, Hooks.handleRenditionSelect, Hooks.handleHWSelect.
  fold ladder.
  subst as_hybrid. clearbody ladder hwOptions hybrid.
  destruct f, hybrid as [h |]; render; repeat split; try done; intros Hx;
    first [ by destruct (Halone Hx)
          | by rewrite (Hlen Hx)
          | destruct (Halone Hx) as [_ ->]; reflexivity ].
Qed.

End StaleStart.

Lemma continue_starts_a_stale_transcoding_witness :
  detectHWAcceleration (Throw "ffmpeg: command not found") (Ok encoders_text)
  = [SOFTWARE_CONFIG]
  /\ (Hooks.handleMediaInfoContinue false
        (Hooks.closure Hooks.deps_handleMediaInfoContinue
           (to_media_info Hooks.each_update hdr10_source "in.mkv"
              "in_output" "out"))
        (Throw "ffmpeg: command not found") (Ok encoders_text)).2
     = Hooks.Started
         (Hooks.transcoding
            (Hooks.closure Hooks.deps_handleMediaInfoContinue
               (to_media_info Hooks.each_update hdr10_source "in.mkv"
                  "in_output" "out")))
         (map quality (buildRenditionLadder (video hdr10_source)))
         (Some SOFTWARE_CONFIG) None.
Proof.
  split; [reflexivity |].
  exact (proj1 (proj2 (proj2 (proj2 (proj2
           (continue_starts_a_stale_transcoding (E := all_succeed)
              Hooks.each_update hdr10_source "in.mkv" "in_output" "out"
              (Throw "ffmpeg: command not found") (Ok encoders_text) []
              SOFTWARE_CONFIG tt)))))
           eq_refl).
Defined.

(** The run of the witness: the source has a ladder, the transcoding started
    from the media information transcodes nothing and calls the packager
    with no input on an empty output path, and the transcoding that the last
    render holds would run the two jobs of every rendition. *)
Example stale_start_skips_every_rendition :
  let shown :=
    to_media_info Hooks.each_update hdr10_source "in.mkv" "in_output" "out" in
  let stale :=
    Hooks.transcoding
      (Hooks.closure Hooks.deps_handleMediaInfoContinue shown) in
  let ladder := buildRenditionLadder (video hdr10_source) in
  let run :=
    startTranscoding_made (E := all_succeed) false stale
      (map quality ladder) (Some SOFTWARE_CONFIG) None tt in
  let held :=
    startTranscoding (E := all_succeed) false hdr10_source "in.mkv" "out"
      ladder (map quality ladder) SOFTWARE_CONFIG None tt in
  map quality ladder = [Q2160p; Q1440p; Q1080p; Q720p; Q480p]
  /\ run.1.2 = [RunPackager [] EmptyString false]
  /\ length (sections held.1.2) = 10%nat
  /\ length (completions held.1.2) = 10%nat.
Proof. vm_compute. repeat split; reflexivity. Qed.
